(** * The solution builder of [src/compiler/tsbuild.ts]

    A shallow embedding of the multi-project build engine: the graph
    builder ([createBuildOrder]), the up-to-date evaluator
    ([getUpToDateStatus]), the pending-build queue, the dispatcher
    ([getNextInvalidatedProject]), the three action handles and the
    drivers [build] and [clean].

    The engine state of the source ([SolutionBuilderState]) is threaded
    explicitly.  The host (file system, clock, reporters) is an abstract
    state [H] with the operations the engine calls; every call that has an
    effect outside of the engine is also appended to a trace, so that
    "never calls [writeFile]" is a statement about that trace.  The compiler
    pipeline and the configuration parser are external collaborators and are
    fields of the environment [Env]; where the pipeline calls the engine
    back for the configuration of a referenced project, it is given by the
    questions it asks ([Asking]). *)

From Stdlib Require Import ZArith.
From stdpp Require Import gmap strings list fin_maps relations pretty.

(** ** Data model *)

(** Dates are compared by their time value, a number of milliseconds. *)
Definition Date : Type := Z.

Definition minimumDate : Date := (-8640000000000000)%Z.
Definition maximumDate : Date := 8640000000000000%Z.

(** [newer(date1, date2)]: [date2 > date1 ? date2 : date1]. *)
Definition newer (date1 date2 : Date) : Date :=
  if (date2 >? date1)%Z then date2 else date1.

Record Diagnostic := mkDiagnostic {
  isErrorCategory : bool;
  messageText : string
}.

Record ProjectReference := mkProjectReference {
  path : string;
  prepend : bool;
  circular : bool
}.

Record CompilerOptions := mkCompilerOptions {
  composite : bool;
  incremental : bool;
  configFilePath : string;
  (** [options.configFile.extendedSourceFiles || emptyArray] *)
  extendedSourceFiles : list string;
  listEmittedFiles : bool
}.

Record ParsedCommandLine := mkParsedCommandLine {
  options : CompilerOptions;
  fileNames : list string;
  projectReferences : option (list ProjectReference);
  errors : list Diagnostic;
  raw : string
}.

(** [ConfigFileCacheEntry = ParsedCommandLine | Diagnostic]; the parsed
    variant is the one that has [options]. *)
Abbreviation ConfigFileCacheEntry := (ParsedCommandLine + Diagnostic)%type.

Record OutputFile := mkOutputFile {
  outputName : string;
  outputText : string;
  writeByteOrderMark : bool
}.

(** The payload of [Status.UpToDate].  Fields that the source declares
    optional, or that it initialises with [undefined!], are options. *)
Record UpToDateInfo := mkUpToDateInfo {
  newestInputFileTime : option Date;
  newestInputFileName : option string;
  newestDeclarationFileContentChangedTime : option Date;
  newestOutputFileTime : option Date;
  newestOutputFileName : option string;
  oldestOutputFileName : string
}.

(** [UpToDateStatus]: one constructor per [UpToDateStatusType]. *)
Inductive UpToDateStatus :=
| Unbuildable (reason : string)
| UpToDate (info : UpToDateInfo)
| UpToDateWithUpstreamTypes (info : UpToDateInfo)
| OutOfDateWithPrepend (outOfDateOutputFileName newerProjectName : string)
| OutputMissing (missingOutputFileName : string)
| OutOfDateWithSelf (outOfDateOutputFileName : string)
                    (newerInputFileName : option string)
| OutOfDateWithUpstream (outOfDateOutputFileName newerProjectName : string)
| UpstreamOutOfDate (upstreamProjectName : string)
| UpstreamBlocked (upstreamProjectName : string)
| ComputingUpstream
| TsVersionOutputOfDate (version : string)
| ContainerOnly.

Definition isComputingUpstream (s : UpToDateStatus) : bool :=
  match s with ComputingUpstream => true | _ => false end.

Definition isUpToDate (s : UpToDateStatus) : bool :=
  match s with UpToDate _ => true | _ => false end.

Module BuildResultFlags.
Definition None : Z := 0.
Definition Success : Z := Z.shiftl 1 0.
Definition DeclarationOutputUnchanged : Z := Z.shiftl 1 1.
Definition ConfigFileErrors : Z := Z.shiftl 1 2.
Definition SyntaxErrors : Z := Z.shiftl 1 3.
Definition TypeErrors : Z := Z.shiftl 1 4.
Definition DeclarationEmitErrors : Z := Z.shiftl 1 5.
Definition EmitErrors : Z := Z.shiftl 1 6.
Definition AnyErrors : Z :=
  Z.lor ConfigFileErrors
    (Z.lor SyntaxErrors
       (Z.lor TypeErrors (Z.lor DeclarationEmitErrors EmitErrors))).

(** [flags & mask] used as a condition *)
Definition has (flags mask : Z) : bool :=
  negb (Z.land flags mask =? 0)%Z.

(** [flags &= ~mask] *)
Definition clear (flags mask : Z) : Z := Z.land flags (Z.lnot mask).
End BuildResultFlags.

(** Modelled from the spec: the enum [ConfigFileProgramReloadLevel] is
    declared outside of tsbuild.ts.  The spec gives its three members and
    their order, None < Partial < Full; [toZ] is the numeric value the
    comparison [value < reloadLevel] of the source sees. *)
Module ConfigFileProgramReloadLevel.
Inductive t := None | Partial | Full.
Definition toZ (l : t) : Z :=
  match l with None => 0 | Partial => 1 | Full => 2 end.
Definition lt (a b : t) : bool := (toZ a <? toZ b)%Z.
Definition max (a b : t) : t := if lt a b then b else a.
End ConfigFileProgramReloadLevel.

(** Modelled from the spec: the enum [ExitStatus] is declared outside of
    tsbuild.ts.  These are the four members that the drivers return; their
    numeric values play no role. *)
Module ExitStatus.
Inductive t :=
| Success
| DiagnosticsPresent_OutputsSkipped
| DiagnosticsPresent_OutputsGenerated
| InvalidProject_OutputsSkipped.
End ExitStatus.

Inductive InvalidatedProjectKind := Build | UpdateBundle | UpdateOutputFileStamps.

(** The messages of [Diagnostics] that the engine reports, by the names
    the source uses for them. *)
Inductive DiagnosticMessage :=
| Project_references_may_not_form_a_circular_graph_Cycle_detected_Colon_0
| Project_0_is_up_to_date
| Skipping_build_of_project_0_because_its_dependency_1_has_errors
| A_non_dry_build_would_build_project_0
| Building_project_0
| A_non_dry_build_would_update_output_of_project_0
| Updating_output_of_project_0
| Cannot_update_output_of_project_0_because_there_was_error_reading_file_1
| Updating_unchanged_output_timestamps_of_project_0
| Updating_output_timestamps_of_project_0
| A_non_dry_build_would_update_timestamps_for_output_of_project_0
| A_non_dry_build_would_delete_the_following_files_Colon_0
| Projects_in_this_build_Colon_0
| Project_0_is_out_of_date_because_oldest_output_1_is_older_than_newest_input_2
| Project_0_is_out_of_date_because_output_file_1_does_not_exist
| Project_0_is_up_to_date_because_newest_input_1_is_older_than_oldest_output_2
| Project_0_is_out_of_date_because_output_of_its_dependency_1_has_changed
| Project_0_is_up_to_date_with_d_ts_files_from_its_dependencies
| Project_0_is_out_of_date_because_its_dependency_1_is_out_of_date
| Project_0_can_t_be_built_because_its_dependency_1_has_errors
| Failed_to_parse_file_0_Colon_1
| Project_0_is_out_of_date_because_output_for_it_was_generated_with_version_1_that_differs_with_current_version_2
| Starting_compilation_in_watch_mode
| File_change_detected_Starting_incremental_compilation
| Watch_error_summary.

(** What leaves the engine: calls of host operations with an effect. *)
Inductive HostCall :=
| WriteFile (name text : string) (bom : bool)
| SetModifiedTime (name : string) (time : Date)
| DeleteFile (name : string)
| ReportSolutionBuilderStatus (message : DiagnosticMessage) (args : list string)
| ReportDiagnostic (d : Diagnostic)
| ReportErrorSummary (errorCount : nat)
| OnWatchStatusChange (message : DiagnosticMessage) (args : list string)
| TraceFileName (s : string).

Definition isOutputWrite (c : HostCall) : bool :=
  match c with
  | WriteFile _ _ _ | SetModifiedTime _ _ | DeleteFile _ => true
  | _ => false
  end.

(** The calls of [writeFile], [setModifiedTime] and [deleteFile] of a trace. *)
Definition outputWrites (trace : list HostCall) : list HostCall :=
  List.filter isOutputWrite trace.

Record BuildOptions := mkBuildOptions {
  dry : bool;
  force : bool;
  verbose : bool;
  watchOption : bool
}.

(** What the program builder answers for one project: the diagnostics of the
    three stages and the files its emitter hands to the write callback. *)
Record ProgramResult := mkProgramResult {
  syntaxDiagnostics : list Diagnostic;
  semanticDiagnostics : list Diagnostic;
  declDiagnostics : option (list Diagnostic);
  emittedFiles : list OutputFile
}.

(** A collaborator that calls the engine back for configurations while it
    works: it answers, or it asks for the configuration of [q] and goes on
    with what it gets.  The compiler pipeline asks through
    [compilerHost.getParsedCommandLine], [emitUsingBuildInfo] through the
    callback that [updateBundle] passes to it. *)
Inductive Asking (Q R : Type) :=
| Answer (r : R)
| Ask (q : Q) (k : option ParsedCommandLine -> Asking Q R).

Arguments Answer {Q R}.
Arguments Ask {Q R}.

Record BuildInfo := mkBuildInfo { buildInfoVersion : string }.

Definition crlf : string :=
  String (Ascii.ascii_of_nat 13) (String (Ascii.ascii_of_nat 10) EmptyString).

(** [Array.prototype.join] *)
Fixpoint join (sep : string) (l : list string) : string :=
  match l with
  | [] => EmptyString
  | [x] => x
  | x :: rest => x +:+ sep +:+ join sep rest
  end.

(** A string used as a condition: the empty string is falsy. *)
Definition truthy (s : string) : bool :=
  match s with EmptyString => false | _ => true end.

Definition Extension_Json : string := ".json".
Definition Extension_Dts : string := ".d.ts".

(** ** The environment: host, parser and compiler *)

Record Env (H : Type) := mkEnv {
  (** host file system and clock *)
  fileExists : H -> string -> bool;
  readFile : H -> string -> option string;
  getModifiedTime : H -> string -> option Date;
  (** [ts.writeFile]: the host's write, a failure comes back as a diagnostic *)
  hostWriteFile : H -> string -> string -> bool -> H * option Diagnostic;
  hostSetModifiedTime : H -> string -> Date -> H;
  hostDeleteFile : H -> string -> H;
  now : H -> Date;
  (** [host.reportErrorSummary], [host.trace] and [onWatchStatusChange] are optional *)
  hasReportErrorSummary : bool;
  hasTrace : bool;
  hasOnWatchStatusChange : bool;
  missingFileModifiedTime : Date;
  (** paths *)
  toPath : string -> string;
  resolvePath : string -> string;
  combinePaths : string -> string -> string;
  fileExtensionIs : string -> string -> bool;
  relName : string -> string;
  resolveProjectReferencePath : ProjectReference -> string;
  (** configuration parser *)
  getParsedCommandLineOfConfigFile : H -> string -> ParsedCommandLine + Diagnostic;
  canJsonReportNoInutFiles : string -> bool;
  getFileNamesFromConfigSpecs : H -> string -> ParsedCommandLine -> list string;
  updateErrorForNoInputFiles :
    list string -> string -> ParsedCommandLine -> list Diagnostic;
  wildcardDirectories : ParsedCommandLine -> list string;
  (** expected outputs *)
  getAllProjectOutputs : ParsedCommandLine -> list string;
  getFirstProjectOutput : ParsedCommandLine -> string;
  getOutputPathForBuildInfo : CompilerOptions -> option string;
  isIncrementalCompilation : CompilerOptions -> bool;
  getBuildInfo : string -> BuildInfo;
  version : string;
  (** compiler pipeline *)
  createProgram : H -> ParsedCommandLine -> Asking string ProgramResult;
  listFiles : H -> ParsedCommandLine -> list string;
  emitUsingBuildInfo :
    H -> ParsedCommandLine ->
    Asking ProjectReference (string + (OutputFile * list OutputFile));
  getErrorCountForSummary : list Diagnostic -> nat;
  (** read-only part of the engine state *)
  solutionOptions : BuildOptions;
  rootNames : list string;
  watch : bool
}.

Arguments fileExists {H}.
Arguments readFile {H}.
Arguments getModifiedTime {H}.
Arguments hostWriteFile {H}.
Arguments hostSetModifiedTime {H}.
Arguments hostDeleteFile {H}.
Arguments now {H}.
Arguments hasReportErrorSummary {H}.
Arguments hasTrace {H}.
Arguments hasOnWatchStatusChange {H}.
Arguments missingFileModifiedTime {H}.
Arguments toPath {H}.
Arguments resolvePath {H}.
Arguments combinePaths {H}.
Arguments fileExtensionIs {H}.
Arguments relName {H}.
Arguments resolveProjectReferencePath {H}.
Arguments getParsedCommandLineOfConfigFile {H}.
Arguments canJsonReportNoInutFiles {H}.
Arguments getFileNamesFromConfigSpecs {H}.
Arguments updateErrorForNoInputFiles {H}.
Arguments wildcardDirectories {H}.
Arguments getAllProjectOutputs {H}.
Arguments getFirstProjectOutput {H}.
Arguments getOutputPathForBuildInfo {H}.
Arguments isIncrementalCompilation {H}.
Arguments getBuildInfo {H}.
Arguments version {H}.
Arguments createProgram {H}.
Arguments listFiles {H}.
Arguments emitUsingBuildInfo {H}.
Arguments getErrorCountForSummary {H}.
Arguments solutionOptions {H}.
Arguments rootNames {H}.
Arguments watch {H}.

(** ** The engine state *)

(** [SolutionBuilderState], without what only the program builder reads
    (module resolution cache, retained builder programs, active compiler
    options).  [resolvedConfigFilePaths] is a memo of [toPath] and is not
    kept: [toResolvedConfigFilePath] below is [toPath] itself.  The scoped
    file cache is its on/off flag. *)
Record SolutionBuilderState (H : Type) := mkState {
  hostState : H;
  trace : list HostCall;
  configFileCache : gmap string ConfigFileCacheEntry;
  projectStatus : gmap string UpToDateStatus;
  buildInfoChecked : gset string;
  diagnostics : gmap string (list Diagnostic);
  projectPendingBuild : gmap string ConfigFileProgramReloadLevel.t;
  projectErrorsReported : gset string;
  buildOrder : option (list string);
  cache : bool;
  allProjectBuildPending : bool;
  needsSummary : bool;
  watchAllProjectsPending : bool;
  allWatchedWildcardDirectories : gmap string (list string);
  allWatchedInputFiles : gmap string (list string);
  allWatchedConfigFiles : gset string;
  reportFileChangeDetected : bool
}.

Arguments mkState {H}.
Arguments hostState {H}.
Arguments trace {H}.
Arguments configFileCache {H}.
Arguments projectStatus {H}.
Arguments buildInfoChecked {H}.
Arguments diagnostics {H}.
Arguments projectPendingBuild {H}.
Arguments projectErrorsReported {H}.
Arguments buildOrder {H}.
Arguments cache {H}.
Arguments allProjectBuildPending {H}.
Arguments needsSummary {H}.
Arguments watchAllProjectsPending {H}.
Arguments allWatchedWildcardDirectories {H}.
Arguments allWatchedInputFiles {H}.
Arguments allWatchedConfigFiles {H}.
Arguments reportFileChangeDetected {H}.

(** Field updates of the state record. *)
Section StateUpdates.
Context {H : Type}.
Abbreviation State := (SolutionBuilderState H).

Definition set_hostState (f : H -> H) (s : State) : State :=
  mkState (f (hostState s)) (trace s) (configFileCache s) (projectStatus s)
    (buildInfoChecked s) (diagnostics s) (projectPendingBuild s)
    (projectErrorsReported s) (buildOrder s) (cache s)
    (allProjectBuildPending s) (needsSummary s) (watchAllProjectsPending s)
    (allWatchedWildcardDirectories s) (allWatchedInputFiles s)
    (allWatchedConfigFiles s) (reportFileChangeDetected s).

Definition set_trace (f : list HostCall -> list HostCall) (s : State) : State :=
  mkState (hostState s) (f (trace s)) (configFileCache s) (projectStatus s)
    (buildInfoChecked s) (diagnostics s) (projectPendingBuild s)
    (projectErrorsReported s) (buildOrder s) (cache s)
    (allProjectBuildPending s) (needsSummary s) (watchAllProjectsPending s)
    (allWatchedWildcardDirectories s) (allWatchedInputFiles s)
    (allWatchedConfigFiles s) (reportFileChangeDetected s).

Definition set_configFileCache
    (f : gmap string ConfigFileCacheEntry -> gmap string ConfigFileCacheEntry)
    (s : State) : State :=
  mkState (hostState s) (trace s) (f (configFileCache s)) (projectStatus s)
    (buildInfoChecked s) (diagnostics s) (projectPendingBuild s)
    (projectErrorsReported s) (buildOrder s) (cache s)
    (allProjectBuildPending s) (needsSummary s) (watchAllProjectsPending s)
    (allWatchedWildcardDirectories s) (allWatchedInputFiles s)
    (allWatchedConfigFiles s) (reportFileChangeDetected s).

Definition set_projectStatus
    (f : gmap string UpToDateStatus -> gmap string UpToDateStatus)
    (s : State) : State :=
  mkState (hostState s) (trace s) (configFileCache s) (f (projectStatus s))
    (buildInfoChecked s) (diagnostics s) (projectPendingBuild s)
    (projectErrorsReported s) (buildOrder s) (cache s)
    (allProjectBuildPending s) (needsSummary s) (watchAllProjectsPending s)
    (allWatchedWildcardDirectories s) (allWatchedInputFiles s)
    (allWatchedConfigFiles s) (reportFileChangeDetected s).

Definition set_buildInfoChecked (f : gset string -> gset string) (s : State) : State :=
  mkState (hostState s) (trace s) (configFileCache s) (projectStatus s)
    (f (buildInfoChecked s)) (diagnostics s) (projectPendingBuild s)
    (projectErrorsReported s) (buildOrder s) (cache s)
    (allProjectBuildPending s) (needsSummary s) (watchAllProjectsPending s)
    (allWatchedWildcardDirectories s) (allWatchedInputFiles s)
    (allWatchedConfigFiles s) (reportFileChangeDetected s).

Definition set_diagnostics
    (f : gmap string (list Diagnostic) -> gmap string (list Diagnostic))
    (s : State) : State :=
  mkState (hostState s) (trace s) (configFileCache s) (projectStatus s)
    (buildInfoChecked s) (f (diagnostics s)) (projectPendingBuild s)
    (projectErrorsReported s) (buildOrder s) (cache s)
    (allProjectBuildPending s) (needsSummary s) (watchAllProjectsPending s)
    (allWatchedWildcardDirectories s) (allWatchedInputFiles s)
    (allWatchedConfigFiles s) (reportFileChangeDetected s).

Definition set_projectPendingBuild
    (f : gmap string ConfigFileProgramReloadLevel.t ->
         gmap string ConfigFileProgramReloadLevel.t)
    (s : State) : State :=
  mkState (hostState s) (trace s) (configFileCache s) (projectStatus s)
    (buildInfoChecked s) (diagnostics s) (f (projectPendingBuild s))
    (projectErrorsReported s) (buildOrder s) (cache s)
    (allProjectBuildPending s) (needsSummary s) (watchAllProjectsPending s)
    (allWatchedWildcardDirectories s) (allWatchedInputFiles s)
    (allWatchedConfigFiles s) (reportFileChangeDetected s).

Definition set_projectErrorsReported (f : gset string -> gset string) (s : State) : State :=
  mkState (hostState s) (trace s) (configFileCache s) (projectStatus s)
    (buildInfoChecked s) (diagnostics s) (projectPendingBuild s)
    (f (projectErrorsReported s)) (buildOrder s) (cache s)
    (allProjectBuildPending s) (needsSummary s) (watchAllProjectsPending s)
    (allWatchedWildcardDirectories s) (allWatchedInputFiles s)
    (allWatchedConfigFiles s) (reportFileChangeDetected s).

Definition set_buildOrder (o : option (list string)) (s : State) : State :=
  mkState (hostState s) (trace s) (configFileCache s) (projectStatus s)
    (buildInfoChecked s) (diagnostics s) (projectPendingBuild s)
    (projectErrorsReported s) o (cache s)
    (allProjectBuildPending s) (needsSummary s) (watchAllProjectsPending s)
    (allWatchedWildcardDirectories s) (allWatchedInputFiles s)
    (allWatchedConfigFiles s) (reportFileChangeDetected s).

Definition set_cache (b : bool) (s : State) : State :=
  mkState (hostState s) (trace s) (configFileCache s) (projectStatus s)
    (buildInfoChecked s) (diagnostics s) (projectPendingBuild s)
    (projectErrorsReported s) (buildOrder s) b
    (allProjectBuildPending s) (needsSummary s) (watchAllProjectsPending s)
    (allWatchedWildcardDirectories s) (allWatchedInputFiles s)
    (allWatchedConfigFiles s) (reportFileChangeDetected s).

Definition set_allProjectBuildPending (b : bool) (s : State) : State :=
  mkState (hostState s) (trace s) (configFileCache s) (projectStatus s)
    (buildInfoChecked s) (diagnostics s) (projectPendingBuild s)
    (projectErrorsReported s) (buildOrder s) (cache s)
    b (needsSummary s) (watchAllProjectsPending s)
    (allWatchedWildcardDirectories s) (allWatchedInputFiles s)
    (allWatchedConfigFiles s) (reportFileChangeDetected s).

Definition set_needsSummary (b : bool) (s : State) : State :=
  mkState (hostState s) (trace s) (configFileCache s) (projectStatus s)
    (buildInfoChecked s) (diagnostics s) (projectPendingBuild s)
    (projectErrorsReported s) (buildOrder s) (cache s)
    (allProjectBuildPending s) b (watchAllProjectsPending s)
    (allWatchedWildcardDirectories s) (allWatchedInputFiles s)
    (allWatchedConfigFiles s) (reportFileChangeDetected s).

Definition set_watchAllProjectsPending (b : bool) (s : State) : State :=
  mkState (hostState s) (trace s) (configFileCache s) (projectStatus s)
    (buildInfoChecked s) (diagnostics s) (projectPendingBuild s)
    (projectErrorsReported s) (buildOrder s) (cache s)
    (allProjectBuildPending s) (needsSummary s) b
    (allWatchedWildcardDirectories s) (allWatchedInputFiles s)
    (allWatchedConfigFiles s) (reportFileChangeDetected s).

Definition set_allWatchedWildcardDirectories
    (f : gmap string (list string) -> gmap string (list string))
    (s : State) : State :=
  mkState (hostState s) (trace s) (configFileCache s) (projectStatus s)
    (buildInfoChecked s) (diagnostics s) (projectPendingBuild s)
    (projectErrorsReported s) (buildOrder s) (cache s)
    (allProjectBuildPending s) (needsSummary s) (watchAllProjectsPending s)
    (f (allWatchedWildcardDirectories s)) (allWatchedInputFiles s)
    (allWatchedConfigFiles s) (reportFileChangeDetected s).

Definition set_allWatchedInputFiles
    (f : gmap string (list string) -> gmap string (list string))
    (s : State) : State :=
  mkState (hostState s) (trace s) (configFileCache s) (projectStatus s)
    (buildInfoChecked s) (diagnostics s) (projectPendingBuild s)
    (projectErrorsReported s) (buildOrder s) (cache s)
    (allProjectBuildPending s) (needsSummary s) (watchAllProjectsPending s)
    (allWatchedWildcardDirectories s) (f (allWatchedInputFiles s))
    (allWatchedConfigFiles s) (reportFileChangeDetected s).

Definition set_allWatchedConfigFiles (f : gset string -> gset string) (s : State) : State :=
  mkState (hostState s) (trace s) (configFileCache s) (projectStatus s)
    (buildInfoChecked s) (diagnostics s) (projectPendingBuild s)
    (projectErrorsReported s) (buildOrder s) (cache s)
    (allProjectBuildPending s) (needsSummary s) (watchAllProjectsPending s)
    (allWatchedWildcardDirectories s) (allWatchedInputFiles s)
    (f (allWatchedConfigFiles s)) (reportFileChangeDetected s).

Definition set_reportFileChangeDetected (b : bool) (s : State) : State :=
  mkState (hostState s) (trace s) (configFileCache s) (projectStatus s)
    (buildInfoChecked s) (diagnostics s) (projectPendingBuild s)
    (projectErrorsReported s) (buildOrder s) (cache s)
    (allProjectBuildPending s) (needsSummary s) (watchAllProjectsPending s)
    (allWatchedWildcardDirectories s) (allWatchedInputFiles s)
    (allWatchedConfigFiles s) b.
End StateUpdates.

(** A loop over a list whose body may fail (run out of fuel). *)
Fixpoint forEachM {A S : Type} (f : A -> S -> option S) (l : list A) (s : S)
  : option S :=
  match l with
  | [] => Some s
  | x :: rest =>
    match f x s with
    | Some s' => forEachM f rest s'
    | None => None
    end
  end.

(** ** Path and config cache, reporters, queue *)
Section Engine.
Context {H : Type} (env : Env H).
Abbreviation State := (SolutionBuilderState H).

Definition resolveConfigFileProjectName (project : string) : string :=
  if fileExtensionIs env project Extension_Json then project
  else combinePaths env project "tsconfig.json".

Definition isDeclarationFile (fileName : string) : bool :=
  fileExtensionIs env fileName Extension_Dts.

Definition toResolvedConfigFilePath (fileName : string) : string :=
  toPath env fileName.

Definition isParsedCommandLine (entry : ConfigFileCacheEntry)
  : option ParsedCommandLine :=
  match entry with inl parsed => Some parsed | inr _ => None end.

Definition parseConfigFile (st : State) (configFileName configFilePath : string)
  : State * option ParsedCommandLine :=
  match configFileCache st !! configFilePath with
  | Some value => (st, isParsedCommandLine value)
  | None =>
    let parsed :=
      getParsedCommandLineOfConfigFile env (hostState st) configFileName in
    (set_configFileCache <[configFilePath := parsed]> st,
     isParsedCommandLine parsed)
  end.

Definition resolveProjectName (name : string) : string :=
  resolveConfigFileProjectName (resolvePath env name).

(** [compilerHost.getParsedCommandLine], as [createSolutionBuilderState]
    installs it. *)
Definition getParsedCommandLine (st : State) (fileName : string)
  : State * option ParsedCommandLine :=
  parseConfigFile st fileName (toResolvedConfigFilePath fileName).

(** The callback that [updateBundle] passes to [emitUsingBuildInfo]. *)
Definition getCommandLine (st : State) (ref : ProjectReference)
  : State * option ParsedCommandLine :=
  let refName := resolveProjectName (path ref) in
  parseConfigFile st refName (toResolvedConfigFilePath refName).

(** A collaborator runs with its questions answered by [parse]. *)
Fixpoint answer {Q R : Type}
    (parse : State -> Q -> State * option ParsedCommandLine)
    (a : Asking Q R) (st : State) : State * R :=
  match a with
  | Answer r => (st, r)
  | Ask q k => let '(st1, parsed) := parse st q in answer parse (k parsed) st1
  end.

Definition reportStatus (st : State) (message : DiagnosticMessage)
    (args : list string) : State :=
  set_trace (fun t => t ++ [ReportSolutionBuilderStatus message args]) st.

Definition reportWatchStatus (st : State) (message : DiagnosticMessage)
    (args : list string) : State :=
  if hasOnWatchStatusChange env
  then set_trace (fun t => t ++ [OnWatchStatusChange message args]) st
  else st.

Definition reportErrors (st : State) (errs : list Diagnostic) : State :=
  set_trace (fun t => t ++ (ReportDiagnostic <$> errs)) st.

Definition reportAndStoreErrors (st : State) (proj : string)
    (errs : list Diagnostic) : State :=
  let st1 := reportErrors st errs in
  let st2 := set_projectErrorsReported (fun s => {[proj]} ∪ s) st1 in
  match errs with
  | [] => st2
  | _ => set_diagnostics <[proj := errs]> st2
  end.

(** [state.configFileCache.get(proj) as Diagnostic]: the cast is unchecked;
    the two call sites come after a failed parse, where the entry is the
    diagnostic. *)
Definition reportParseConfigFileDiagnostic (st : State) (proj : string) : State :=
  match configFileCache st !! proj with
  | Some (inr d) => reportAndStoreErrors st proj [d]
  | _ => st
  end.

Definition reportBuildQueue (st : State) (buildQueue : list string) : State :=
  if verbose (solutionOptions env)
  then reportStatus st Projects_in_this_build_Colon_0
         [join EmptyString ((fun s => crlf +:+ "    * " +:+ relName env s) <$> buildQueue)]
  else st.

Definition enableCache (st : State) : State := set_cache true st.
Definition disableCache (st : State) : State :=
  if cache st then set_cache false st else st.

Definition clearProjectStatus (st : State) (resolved : string) : State :=
  set_diagnostics (delete resolved) (set_projectStatus (delete resolved) st).

Definition addProjToQueue (st : State) (proj : string)
    (reloadLevel : ConfigFileProgramReloadLevel.t) : State :=
  match projectPendingBuild st !! proj with
  | None => set_projectPendingBuild <[proj := reloadLevel]> st
  | Some value =>
    if ConfigFileProgramReloadLevel.lt value reloadLevel
    then set_projectPendingBuild <[proj := reloadLevel]> st
    else st
  end.

(** ** Graph builder *)

(** The locals of [createBuildOrder] that [visit] closes over, next to the
    engine state. *)
Record VisitState := mkVisit {
  visitState : State;
  temporaryMarks : gset string;
  permanentMarks : gset string;
  circularityReportStack : list string;
  visitOrder : list string
}.

Fixpoint visit (fuel : nat) (configFileName : string)
    (inCircularContext : bool) (v : VisitState) : option VisitState :=
  match fuel with
  | O => None
  | S fuel' =>
    let projPath := toResolvedConfigFilePath configFileName in
    if decide (projPath ∈ permanentMarks v) then Some v
    else if decide (projPath ∈ temporaryMarks v) then
      Some (if inCircularContext then v
            else mkVisit
                   (reportStatus (visitState v)
                      Project_references_may_not_form_a_circular_graph_Cycle_detected_Colon_0
                      [join crlf (circularityReportStack v)])
                   (temporaryMarks v) (permanentMarks v)
                   (circularityReportStack v) (visitOrder v))
    else
      let '(st1, parsed) :=
        parseConfigFile (visitState v) configFileName projPath in
      let v1 := mkVisit st1 ({[projPath]} ∪ temporaryMarks v) (permanentMarks v)
                  (circularityReportStack v ++ [configFileName]) (visitOrder v) in
      match
        match parsed with
        | Some p =>
          match projectReferences p with
          | Some refs =>
            forEachM
              (fun ref =>
                 visit fuel' (resolveProjectName (path ref))
                   (inCircularContext || circular ref))
              refs v1
          | None => Some v1
          end
        | None => Some v1
        end
      with
      | Some v2 =>
        Some (mkVisit (visitState v2) (temporaryMarks v2)
                ({[projPath]} ∪ permanentMarks v2)
                (removelast (circularityReportStack v2))
                (visitOrder v2 ++ [configFileName]))
      | None => None
      end
  end.

Definition createBuildOrder (fuel : nat) (st : State) (roots : list string)
  : option (State * list string) :=
  match forEachM (fun root => visit fuel root false) roots
          (mkVisit st ∅ ∅ [] []) with
  | Some v => Some (visitState v, visitOrder v)
  | None => None
  end.

Definition getBuildOrder (fuel : nat) (st : State)
  : option (State * list string) :=
  match buildOrder st with
  | Some order => Some (st, order)
  | None =>
    match createBuildOrder fuel st (resolveProjectName <$> rootNames env) with
    | Some (st', order) => Some (set_buildOrder (Some order) st', order)
    | None => None
    end
  end.

(** [findIndex(order, f => toResolvedConfigFilePath(f) === projectPath) !== -1] *)
Definition inBuildOrder (order : list string) (projectPath : string) : bool :=
  existsb (fun configFileName =>
             bool_decide (toResolvedConfigFilePath configFileName = projectPath))
    order.

(** [project && resolveProjectName(state, project)], used as a condition *)
Definition resolvedProjectOf (project : option string) : option string :=
  match project with
  | Some p =>
    if truthy p
    then let r := resolveProjectName p in if truthy r then Some r else None
    else None
  | None => None
  end.

(** The result [None] of the inner option is the source's [undefined]
    ("invalid project"). *)
Definition getBuildOrderFor (fuel : nat) (st : State) (project : option string)
  : option (State * option (list string)) :=
  match resolvedProjectOf project with
  | Some resolvedProject =>
    let projectPath := toResolvedConfigFilePath resolvedProject in
    match getBuildOrder fuel st with
    | Some (st1, order) =>
      if inBuildOrder order projectPath
      then match createBuildOrder fuel st1 [resolvedProject] with
           | Some (st2, sub) => Some (st2, Some sub)
           | None => None
           end
      else Some (st1, None)
    | None => None
    end
  | None =>
    match getBuildOrder fuel st with
    | Some (st1, order) => Some (st1, Some order)
    | None => None
    end
  end.

(** ** Up-to-date evaluator *)

(** [host.getModifiedTime(file) || missingFileModifiedTime] *)
Definition modifiedTimeOf (h : H) (file : string) : Date :=
  default (missingFileModifiedTime env) (getModifiedTime env h file).

(** The loop over [project.fileNames]: [inl] is the input file that does
    not exist, [inr] the newest input seen. *)
Fixpoint newestInput (h : H) (inputs : list string)
    (newestName : option string) (newestTime : Date)
  : string + (option string * Date) :=
  match inputs with
  | [] => inr (newestName, newestTime)
  | inputFile :: rest =>
    if negb (fileExists env h inputFile) then inl inputFile
    else
      let inputTime := modifiedTimeOf h inputFile in
      if (inputTime >? newestTime)%Z
      then newestInput h rest (Some inputFile) inputTime
      else newestInput h rest newestName newestTime
  end.

(** The variables of the loop over the expected outputs. *)
Record OutputScan := mkOutputScan {
  scanOldestOutputFileName : string;
  scanOldestOutputFileTime : Date;
  scanNewestOutputFileName : string;
  scanNewestOutputFileTime : Date;
  scanMissingOutputFileName : option string;
  scanNewestDeclarationFileContentChangedTime : Date;
  scanIsOutOfDateWithInputs : bool
}.

Definition initialOutputScan : OutputScan :=
  mkOutputScan "(none)" maximumDate "(none)" minimumDate None minimumDate false.

Fixpoint scanOutputs (h : H) (newestInputTime : Date) (outputs : list string)
    (s : OutputScan) : OutputScan :=
  match outputs with
  | [] => s
  | output :: rest =>
    if negb (fileExists env h output) then
      mkOutputScan (scanOldestOutputFileName s) (scanOldestOutputFileTime s)
        (scanNewestOutputFileName s) (scanNewestOutputFileTime s)
        (Some output) (scanNewestDeclarationFileContentChangedTime s)
        (scanIsOutOfDateWithInputs s)
    else
      let outputTime := modifiedTimeOf h output in
      let '(oldestName, oldestTime) :=
        if (outputTime <? scanOldestOutputFileTime s)%Z
        then (output, outputTime)
        else (scanOldestOutputFileName s, scanOldestOutputFileTime s) in
      if (outputTime <? newestInputTime)%Z then
        mkOutputScan oldestName oldestTime
          (scanNewestOutputFileName s) (scanNewestOutputFileTime s)
          (scanMissingOutputFileName s)
          (scanNewestDeclarationFileContentChangedTime s) true
      else
        let '(newestName, newestTime) :=
          if (outputTime >? scanNewestOutputFileTime s)%Z
          then (output, outputTime)
          else (scanNewestOutputFileName s, scanNewestOutputFileTime s) in
        let declTime :=
          if isDeclarationFile output
          then newer (scanNewestDeclarationFileContentChangedTime s)
                 (modifiedTimeOf h output)
          else scanNewestDeclarationFileContentChangedTime s in
        scanOutputs h newestInputTime rest
          (mkOutputScan oldestName oldestTime newestName newestTime
             (scanMissingOutputFileName s) declTime
             (scanIsOutOfDateWithInputs s))
  end.

(** The variables of the loop over the references. *)
Record UpstreamScan := mkUpstreamScan {
  pseudoUpToDate : bool;
  usesPrepend : bool;
  upstreamChangedProject : option string
}.

(** [!missingOutputFileName] *)
Definition noMissingOutput (missing : option string) : bool :=
  match missing with
  | None => true
  | Some name => negb (truthy name)
  end.

(** [time && time <= oldestOutputFileTime] *)
Definition notAfter (time : option Date) (oldestOutputFileTime : Date) : bool :=
  match time with
  | Some t => (t <=? oldestOutputFileTime)%Z
  | None => false
  end.

(** The loop over [project.projectReferences]; [rec] is the evaluator used
    for the referenced projects.  [inl] is a status returned from inside of
    the loop. *)
Fixpoint checkUpstream
    (rec : State -> option ParsedCommandLine -> string ->
           option (State * UpToDateStatus))
    (scan : OutputScan) (refs : list ProjectReference) (st : State)
    (up : UpstreamScan) : option (State * (UpToDateStatus + UpstreamScan)) :=
  match refs with
  | [] => Some (st, inr up)
  | ref :: rest =>
    let up1 := mkUpstreamScan (pseudoUpToDate up) (usesPrepend up || prepend ref)
                 (upstreamChangedProject up) in
    let resolvedRef := resolveProjectReferencePath env ref in
    let resolvedRefPath := toResolvedConfigFilePath resolvedRef in
    let '(st1, parsed) := parseConfigFile st resolvedRef resolvedRefPath in
    match rec st1 parsed resolvedRefPath with
    | None => None
    | Some (st2, refStatus) =>
      match refStatus with
      | ComputingUpstream => checkUpstream rec scan rest st2 up1
      | Unbuildable _ => Some (st2, inl (UpstreamBlocked (path ref)))
      | UpToDate info =>
        if noMissingOutput (scanMissingOutputFileName scan) then
          if notAfter (newestInputFileTime info) (scanOldestOutputFileTime scan)
          then checkUpstream rec scan rest st2 up1
          else if notAfter (newestDeclarationFileContentChangedTime info)
                    (scanOldestOutputFileTime scan)
          then checkUpstream rec scan rest st2
                 (mkUpstreamScan true (usesPrepend up1) (Some (path ref)))
          else Some (st2, inl (OutOfDateWithUpstream
                                 (scanOldestOutputFileName scan) (path ref)))
        else checkUpstream rec scan rest st2 up1
      | _ => Some (st2, inl (UpstreamOutOfDate (path ref)))
      end
    end
  end.

Definition checkConfigFileUpToDateStatus (h : H) (configFile : string)
    (oldestOutputFileTime : Date) (oldestOutputFileName : string)
  : option UpToDateStatus :=
  let tsconfigTime := modifiedTimeOf h configFile in
  if (oldestOutputFileTime <? tsconfigTime)%Z
  then Some (OutOfDateWithSelf oldestOutputFileName (Some configFile))
  else None.

(** [forEach(array, f)]: the first result that is not undefined *)
Fixpoint forEachFirst {A B : Type} (f : A -> option B) (l : list A) : option B :=
  match l with
  | [] => None
  | x :: rest =>
    match f x with
    | Some r => Some r
    | None => forEachFirst f rest
    end
  end.

(** What [getUpToDateStatusWorker] does after the loop over the references. *)
Definition statusAfterUpstream (st : State) (project : ParsedCommandLine)
    (resolvedPath : string) (newestInputName : option string)
    (newestInputTime : Date) (scan : OutputScan) (up : UpstreamScan)
  : State * UpToDateStatus :=
  match scanMissingOutputFileName scan with
  | Some missing => (st, OutputMissing missing)
  | None =>
    if scanIsOutOfDateWithInputs scan then
      (st, OutOfDateWithSelf (scanOldestOutputFileName scan) newestInputName)
    else
      let h := hostState st in
      let check configFile :=
        checkConfigFileUpToDateStatus h configFile
          (scanOldestOutputFileTime scan) (scanOldestOutputFileName scan) in
      match check (configFilePath (options project)) with
      | Some configStatus => (st, configStatus)
      | None =>
        match forEachFirst check (extendedSourceFiles (options project)) with
        | Some extendedConfigStatus => (st, extendedConfigStatus)
        | None =>
          let versionStatus :=
            if decide (resolvedPath ∈ buildInfoChecked st) then None
            else
              match getOutputPathForBuildInfo env (options project) with
              | Some buildInfoPath =>
                match readFile env h buildInfoPath with
                | Some value =>
                  if truthy value then
                    let recorded := buildInfoVersion (getBuildInfo env value) in
                    if bool_decide (recorded = version env) then None
                    else Some (TsVersionOutputOfDate recorded)
                  else None
                | None => None
                end
              | None => None
              end in
          let st1 := set_buildInfoChecked (fun s => {[resolvedPath]} ∪ s) st in
          match versionStatus with
          | Some status => (st1, status)
          | None =>
            if usesPrepend up && pseudoUpToDate up then
              (st1, OutOfDateWithPrepend (scanOldestOutputFileName scan)
                      (default EmptyString (upstreamChangedProject up)))
            else
              let info :=
                mkUpToDateInfo (Some newestInputTime) newestInputName
                  (Some (scanNewestDeclarationFileContentChangedTime scan))
                  (Some (scanNewestOutputFileTime scan))
                  (Some (scanNewestOutputFileName scan))
                  (scanOldestOutputFileName scan) in
              (st1, if pseudoUpToDate up then UpToDateWithUpstreamTypes info
                    else UpToDate info)
          end
        end
      end
  end.

Definition getUpToDateStatusWorker
    (rec : State -> option ParsedCommandLine -> string ->
           option (State * UpToDateStatus))
    (st : State) (project : ParsedCommandLine) (resolvedPath : string)
  : option (State * UpToDateStatus) :=
  match newestInput (hostState st) (fileNames project) None minimumDate with
  | inl inputFile => Some (st, Unbuildable (inputFile +:+ " does not exist"))
  | inr (newestInputName, newestInputTime) =>
    if bool_decide (fileNames project = [])
       && negb (canJsonReportNoInutFiles env (raw project))
    then Some (st, ContainerOnly)
    else
      let outputs := getAllProjectOutputs env project in
      let scan :=
        scanOutputs (hostState st) newestInputTime outputs initialOutputScan in
      match
        match projectReferences project with
        | Some refs =>
          checkUpstream rec scan refs
            (set_projectStatus <[resolvedPath := ComputingUpstream]> st)
            (mkUpstreamScan false false None)
        | None => Some (st, inr (mkUpstreamScan false false None))
        end
      with
      | None => None
      | Some (st1, inl status) => Some (st1, status)
      | Some (st1, inr up) =>
        Some (statusAfterUpstream st1 project resolvedPath newestInputName
                newestInputTime scan up)
      end
  end.

Fixpoint getUpToDateStatus (fuel : nat) (st : State)
    (project : option ParsedCommandLine) (resolvedPath : string)
  : option (State * UpToDateStatus) :=
  match project with
  | None => Some (st, Unbuildable "File deleted mid-build")
  | Some p =>
    match projectStatus st !! resolvedPath with
    | Some prior => Some (st, prior)
    | None =>
      match fuel with
      | O => None
      | S fuel' =>
        match getUpToDateStatusWorker (getUpToDateStatus fuel') st p resolvedPath with
        | Some (st', actual) =>
          Some (set_projectStatus <[resolvedPath := actual]> st', actual)
        | None => None
        end
      end
    end
  end.

(** The method [getUpToDateStatusOfProject] of the builder. *)
Definition getUpToDateStatusOfProject (fuel : nat) (st : State) (project : string)
  : option (State * UpToDateStatus) :=
  let configFileName := resolveProjectName project in
  let configFilePath := toResolvedConfigFilePath configFileName in
  let '(st1, parsed) := parseConfigFile st configFileName configFilePath in
  getUpToDateStatus fuel st1 parsed configFilePath.

(** ** Actions on one project *)

(** A [Map] from path to name in insertion order ([emittedOutputs]). *)
Fixpoint fileMapSet (m : list (string * string)) (key value : string)
  : list (string * string) :=
  match m with
  | [] => [(key, value)]
  | (k, v) :: rest =>
    if bool_decide (k = key) then (k, value) :: rest
    else (k, v) :: fileMapSet rest key value
  end.

Definition fileMapHas (m : list (string * string)) (key : string) : bool :=
  existsb (fun kv => bool_decide (kv.1 = key)) m.

Definition listEmittedFile (st : State) (proj : ParsedCommandLine)
    (file : string) : State :=
  if hasTrace env && listEmittedFiles (options proj)
  then set_trace (fun t => t ++ [TraceFileName ("TSFILE: " +:+ file)]) st
  else st.

(** [listFiles(program, state.writeFileName)] *)
Definition listProgramFiles (st : State) (proj : ParsedCommandLine) : State :=
  set_trace (fun t => t ++ (TraceFileName <$> listFiles env (hostState st) proj)) st.

(** [host.setModifiedTime(file, now)] *)
Definition setModifiedTime (st : State) (file : string) (time : Date) : State :=
  set_trace (fun t => t ++ [SetModifiedTime file time])
    (set_hostState (fun h => hostSetModifiedTime env h file time) st).

(** [host.deleteFile(output)] *)
Definition deleteFile (st : State) (file : string) : State :=
  set_trace (fun t => t ++ [DeleteFile file])
    (set_hostState (fun h => hostDeleteFile env h file) st).

(** [writeFile(compilerHost, emitterDiagnostics, name, text, bom)]: the
    diagnostic of a failed write is added to the collection. *)
Definition writeFile (st : State) (emitterDiagnostics : list Diagnostic)
    (file : OutputFile) : State * list Diagnostic :=
  let '(h', failure) :=
    hostWriteFile env (hostState st) (outputName file) (outputText file)
      (writeByteOrderMark file) in
  (set_trace (fun t => t ++ [WriteFile (outputName file) (outputText file)
                               (writeByteOrderMark file)])
     (set_hostState (fun _ => h') st),
   match failure with
   | Some d => emitterDiagnostics ++ [d]
   | None => emitterDiagnostics
   end).

(** The body of the loop of [updateOutputTimestampsWorker]. *)
Fixpoint touchOutputs (proj : ParsedCommandLine)
    (verboseMessage : DiagnosticMessage)
    (skipOutputs : option (list (string * string))) (nowTime : Date)
    (outputs : list string) (st : State) (reportVerbose : bool)
    (priorNewestUpdateTime : Date) : State * Date :=
  match outputs with
  | [] => (st, priorNewestUpdateTime)
  | file :: rest =>
    if match skipOutputs with
       | Some skip => fileMapHas skip (toPath env file)
       | None => false
       end
    then touchOutputs proj verboseMessage skipOutputs nowTime rest st
           reportVerbose priorNewestUpdateTime
    else
      let st1 := if reportVerbose
                 then reportStatus st verboseMessage [configFilePath (options proj)]
                 else st in
      let prior := if isDeclarationFile file
                   then newer priorNewestUpdateTime
                          (modifiedTimeOf (hostState st1) file)
                   else priorNewestUpdateTime in
      let st2 := setModifiedTime st1 file nowTime in
      let st3 := listEmittedFile st2 proj file in
      touchOutputs proj verboseMessage skipOutputs nowTime rest st3 false prior
  end.

Definition updateOutputTimestampsWorker (st : State) (proj : ParsedCommandLine)
    (priorNewestUpdateTime : Date) (verboseMessage : DiagnosticMessage)
    (skipOutputs : option (list (string * string))) : State * Date :=
  let outputs := getAllProjectOutputs env proj in
  if match skipOutputs with
     | Some skip => negb (length outputs =? length skip)
     | None => true
     end
  then touchOutputs proj verboseMessage skipOutputs (now env (hostState st))
         outputs st (verbose (solutionOptions env)) priorNewestUpdateTime
  else (st, priorNewestUpdateTime).

Definition updateOutputTimestamps (st : State) (proj : ParsedCommandLine)
    (resolvedPath : string) : State :=
  if dry (solutionOptions env) then
    reportStatus st A_non_dry_build_would_update_timestamps_for_output_of_project_0
      [configFilePath (options proj)]
  else
    let '(st1, priorNewestUpdateTime) :=
      updateOutputTimestampsWorker st proj minimumDate
        Updating_output_timestamps_of_project_0 None in
    set_projectStatus
      <[resolvedPath :=
          UpToDate (mkUpToDateInfo None None (Some priorNewestUpdateTime)
                      None None (getFirstProjectOutput env proj))]> st1.

(** [buildErrors]; [withProgram] tells whether a program was passed. *)
Definition buildErrors (st : State) (resolvedPath : string)
    (withProgram : option ParsedCommandLine) (diags : list Diagnostic)
    (errorFlags : Z) (errorType : string) : State * Z :=
  let st1 := reportAndStoreErrors st resolvedPath diags in
  let st2 := match withProgram with
             | Some proj => if hasTrace env then listProgramFiles st1 proj else st1
             | None => st1
             end in
  (set_projectStatus
     <[resolvedPath := Unbuildable (errorType +:+ " errors")]> st2,
   errorFlags).

(** The variables of the emit loop of [buildSingleProject]. *)
Record EmitScan := mkEmitScan {
  emitState : State;
  resultFlags : Z;
  emitNewestDeclarationFileContentChangedTime : Date;
  anyDtsChanged : bool;
  emitterDiagnostics : list Diagnostic;
  emittedOutputs : list (string * string)
}.

Definition emitOne (e : EmitScan) (file : OutputFile) : EmitScan :=
  let st := emitState e in
  let name := outputName file in
  let checkDts := negb (anyDtsChanged e) && isDeclarationFile name in
  let unchanged :=
    fileExists env (hostState st) name
    && bool_decide (readFile env (hostState st) name = Some (outputText file)) in
  let priorChangeTime :=
    if checkDts && unchanged then getModifiedTime env (hostState st) name
    else None in
  let changed := checkDts && negb unchanged in
  let flags := if changed
               then BuildResultFlags.clear (resultFlags e)
                      BuildResultFlags.DeclarationOutputUnchanged
               else resultFlags e in
  let '(st1, diags) := writeFile st (emitterDiagnostics e) file in
  mkEmitScan st1 flags
    (match priorChangeTime with
     | Some t => newer t (emitNewestDeclarationFileContentChangedTime e)
     | None => emitNewestDeclarationFileContentChangedTime e
     end)
    (anyDtsChanged e || changed) diags
    (fileMapSet (emittedOutputs e) (toPath env name) name).

Definition buildSingleProject (st : State) (proj resolvedPath : string)
    (config : ParsedCommandLine) : State * Z :=
  if dry (solutionOptions env) then
    (reportStatus st A_non_dry_build_would_build_project_0 [proj],
     BuildResultFlags.Success)
  else
    let st0 := if verbose (solutionOptions env)
               then reportStatus st Building_project_0 [proj] else st in
    match fileNames config with
    | [] => (reportAndStoreErrors st0 resolvedPath (errors config),
             BuildResultFlags.None)
    | _ =>
      let '(st1, program) :=
        answer getParsedCommandLine (createProgram env (hostState st0) config)
          st0 in
      match syntaxDiagnostics program with
      | _ :: _ =>
        buildErrors st1 resolvedPath (Some config) (syntaxDiagnostics program)
          BuildResultFlags.SyntaxErrors "Syntactic"
      | [] =>
        match semanticDiagnostics program with
        | _ :: _ =>
          buildErrors st1 resolvedPath (Some config) (semanticDiagnostics program)
            BuildResultFlags.TypeErrors "Semantic"
        | [] =>
          match declDiagnostics program with
          | Some declDiags =>
            buildErrors st1 resolvedPath (Some config) declDiags
              BuildResultFlags.DeclarationEmitErrors "Declaration file"
          | None =>
            let outputFiles := emittedFiles program in
            let e := fold_left emitOne outputFiles
                       (mkEmitScan st1 BuildResultFlags.DeclarationOutputUnchanged
                          minimumDate false [] []) in
            match emitterDiagnostics e with
            | _ :: _ =>
              buildErrors (emitState e) resolvedPath (Some config)
                (emitterDiagnostics e) BuildResultFlags.EmitErrors "Emit"
            | [] =>
              let st2 :=
                if hasTrace env
                then listProgramFiles
                       (fold_left (fun s kv => listEmittedFile s config kv.2)
                          (emittedOutputs e) (emitState e))
                       config
                else emitState e in
              let '(st3, newestDecl) :=
                updateOutputTimestampsWorker st2 config
                  (emitNewestDeclarationFileContentChangedTime e)
                  Updating_unchanged_output_timestamps_of_project_0
                  (Some (emittedOutputs e)) in
              let st4 := set_diagnostics (delete resolvedPath) st3 in
              (set_projectStatus
                 <[resolvedPath :=
                     UpToDate
                       (mkUpToDateInfo None None
                          (Some (if anyDtsChanged e then maximumDate else newestDecl))
                          None None
                          (match outputFiles with
                           | first :: _ => outputName first
                           | [] => getFirstProjectOutput env config
                           end))]> st4,
               resultFlags e)
            end
          end
        end
      end
    end.

(** [updateBundle]: [inl] is the name of the file that could not be read.
    The list of output files is asserted to be non-empty, which is the type
    of the answer here. *)
Definition updateBundle (st : State) (proj resolvedPath : string)
    (config : ParsedCommandLine) : State * (string + Z) :=
  if dry (solutionOptions env) then
    (reportStatus st A_non_dry_build_would_update_output_of_project_0 [proj],
     inr BuildResultFlags.Success)
  else
    let st0 := if verbose (solutionOptions env)
               then reportStatus st Updating_output_of_project_0 [proj] else st in
    let '(st0', bundle) :=
      answer getCommandLine (emitUsingBuildInfo env (hostState st0) config)
        st0 in
    match bundle with
    | inl unreadable =>
      (reportStatus st0'
         Cannot_update_output_of_project_0_because_there_was_error_reading_file_1
         [proj; relName env unreadable],
       inl unreadable)
    | inr (first, others) =>
      let outputFiles := first :: others in
      let '(st1, diags, emitted) :=
        fold_left
          (fun '(s, ds, em) file =>
             let '(s', ds') := writeFile s ds file in
             (s', ds', fileMapSet em (toPath env (outputName file)) (outputName file)))
          outputFiles (st0', [], []) in
      match diags with
      | _ :: _ =>
        let '(st2, flags) :=
          buildErrors st1 resolvedPath None diags
            BuildResultFlags.EmitErrors "Emit" in
        (st2, inr flags)
      | [] =>
        let st2 :=
          if hasTrace env
          then fold_left (fun s kv => listEmittedFile s config kv.2) emitted st1
          else st1 in
        let '(st3, newestDecl) :=
          updateOutputTimestampsWorker st2 config minimumDate
            Updating_unchanged_output_timestamps_of_project_0 (Some emitted) in
        let st4 := set_diagnostics (delete resolvedPath) st3 in
        (set_projectStatus
           <[resolvedPath :=
               UpToDate
                 (mkUpToDateInfo None None (Some newestDecl) None None
                    (outputName first))]> st4,
         inr BuildResultFlags.DeclarationOutputUnchanged)
      end
    end.

(** ** Downstream propagation *)

(** The [switch] on the cached status of a downstream project. *)
Definition restatus (st : State) (project projectPath nextProjectPath : string)
    (ref : ProjectReference) (buildResult : Z) : State :=
  let unchanged :=
    BuildResultFlags.has buildResult BuildResultFlags.DeclarationOutputUnchanged in
  match projectStatus st !! nextProjectPath with
  | Some (UpToDate info) =>
    if unchanged then
      if prepend ref then
        set_projectStatus
          <[nextProjectPath :=
              OutOfDateWithPrepend (oldestOutputFileName info) project]> st
      else
        set_projectStatus
          <[nextProjectPath := UpToDateWithUpstreamTypes info]> st
    else
      set_projectStatus
        <[nextProjectPath :=
            OutOfDateWithUpstream (oldestOutputFileName info) project]> st
  | Some (UpToDateWithUpstreamTypes info) =>
    if unchanged then st
    else
      set_projectStatus
        <[nextProjectPath :=
            OutOfDateWithUpstream (oldestOutputFileName info) project]> st
  | Some (OutOfDateWithPrepend outOfDate _) =>
    if unchanged then st
    else
      set_projectStatus
        <[nextProjectPath := OutOfDateWithUpstream outOfDate project]> st
  | Some (UpstreamBlocked upstreamProjectName) =>
    if bool_decide
         (toResolvedConfigFilePath (resolveProjectName upstreamProjectName)
          = projectPath)
    then clearProjectStatus st nextProjectPath
    else st
  | _ => st
  end.

(** The loop over the references of one downstream project: only the
    first reference that resolves to the built project counts. *)
Fixpoint queueIfReferencing (st : State) (project projectPath nextProjectPath : string)
    (refs : list ProjectReference) (buildResult : Z) : State :=
  match refs with
  | [] => st
  | ref :: rest =>
    if bool_decide
         (toResolvedConfigFilePath (resolveProjectName (path ref)) = projectPath)
    then
      addProjToQueue
        (restatus st project projectPath nextProjectPath ref buildResult)
        nextProjectPath ConfigFileProgramReloadLevel.None
    else queueIfReferencing st project projectPath nextProjectPath rest buildResult
  end.

Fixpoint queueLater (st : State) (project projectPath : string)
    (later : list string) (buildResult : Z) : State :=
  match later with
  | [] => st
  | nextProject :: rest =>
    let nextProjectPath := toResolvedConfigFilePath nextProject in
    match projectPendingBuild st !! nextProjectPath with
    | Some _ => queueLater st project projectPath rest buildResult
    | None =>
      let '(st1, nextProjectConfig) :=
        parseConfigFile st nextProject nextProjectPath in
      match nextProjectConfig with
      | Some cfg =>
        match projectReferences cfg with
        | Some refs =>
          queueLater
            (queueIfReferencing st1 project projectPath nextProjectPath refs
               buildResult)
            project projectPath rest buildResult
        | None => queueLater st1 project projectPath rest buildResult
        end
      | None => queueLater st1 project projectPath rest buildResult
      end
    end
  end.

Definition queueReferencingProjects (st : State) (project projectPath : string)
    (projectIndex : nat) (config : ParsedCommandLine) (order : list string)
    (buildResult : Z) : State :=
  if BuildResultFlags.has buildResult BuildResultFlags.AnyErrors then st
  else if negb (composite (options config)) then st
  else queueLater st project projectPath (drop (S projectIndex) order) buildResult.

(** ** Invalidated-project factory *)

(** The three action handles.  The flag is the closure variable that tells
    whether the action still has to run. *)
Inductive InvalidatedProject :=
| UpdateOutputFileStampsProject (project projectPath : string)
    (config : ParsedCommandLine) (updateOutputFileStampsPending : bool)
| BuildInvalidedProject (project projectPath : string) (projectIndex : nat)
    (config : ParsedCommandLine) (order : list string) (buildPending : bool)
| UpdateBundleProject (project projectPath : string) (projectIndex : nat)
    (config : ParsedCommandLine) (order : list string) (updatePending : bool).

Definition kind (p : InvalidatedProject) : InvalidatedProjectKind :=
  match p with
  | UpdateOutputFileStampsProject _ _ _ _ => UpdateOutputFileStamps
  | BuildInvalidedProject _ _ _ _ _ _ => Build
  | UpdateBundleProject _ _ _ _ _ _ => UpdateBundle
  end.

Definition projectOf (p : InvalidatedProject) : string :=
  match p with
  | UpdateOutputFileStampsProject project _ _ _ => project
  | BuildInvalidedProject project _ _ _ _ _ => project
  | UpdateBundleProject project _ _ _ _ _ => project
  end.

Definition projectPathOf (p : InvalidatedProject) : string :=
  match p with
  | UpdateOutputFileStampsProject _ projectPath _ _ => projectPath
  | BuildInvalidedProject _ projectPath _ _ _ _ => projectPath
  | UpdateBundleProject _ projectPath _ _ _ _ => projectPath
  end.

(** The method [build] of a build handle. *)
Definition buildInvalidated (st : State) (project projectPath : string)
    (projectIndex : nat) (config : ParsedCommandLine) (order : list string)
  : State * Z :=
  let '(st1, buildResult) := buildSingleProject st project projectPath config in
  (queueReferencingProjects st1 project projectPath projectIndex config order
     buildResult,
   buildResult).

(** The method [updateBundle] of a bundle handle: [inl] is the build handle
    it turns into when the build info cannot be read. *)
Definition updateInvalidated (st : State) (project projectPath : string)
    (projectIndex : nat) (config : ParsedCommandLine) (order : list string)
  : State * (InvalidatedProject + Z) :=
  match updateBundle st project projectPath config with
  | (st1, inl _) =>
    (st1, inl (BuildInvalidedProject project projectPath projectIndex config
                 order true))
  | (st1, inr buildResult) =>
    (queueReferencingProjects st1 project projectPath projectIndex config order
       buildResult,
     inr buildResult)
  end.

(** [done] of a build handle *)
Definition doneBuild (st : State) (project projectPath : string)
    (projectIndex : nat) (config : ParsedCommandLine) (order : list string)
    (buildPending : bool) : State :=
  let st1 := if buildPending
             then (buildInvalidated st project projectPath projectIndex config order).1
             else st in
  set_projectPendingBuild (delete projectPath) st1.

(** [done] of any handle *)
Definition done (st : State) (p : InvalidatedProject) : State :=
  match p with
  | UpdateOutputFileStampsProject _ projectPath config pending =>
    let st1 := if pending then updateOutputTimestamps st config projectPath
               else st in
    set_projectPendingBuild (delete projectPath) st1
  | BuildInvalidedProject project projectPath projectIndex config order pending =>
    doneBuild st project projectPath projectIndex config order pending
  | UpdateBundleProject project projectPath projectIndex config order pending =>
    if pending then
      match updateInvalidated st project projectPath projectIndex config order with
      | (st1, inl (BuildInvalidedProject project' projectPath' projectIndex'
                     config' order' pending')) =>
        doneBuild st1 project' projectPath' projectIndex' config' order' pending'
      | (st1, _) => set_projectPendingBuild (delete projectPath) st1
      end
    else set_projectPendingBuild (delete projectPath) st
  end.

Definition needsBuild (status : UpToDateStatus) (config : ParsedCommandLine)
  : bool :=
  if match status with OutOfDateWithPrepend _ _ => false | _ => true end
     || force (solutionOptions env)
  then true
  else bool_decide (fileNames config = [])
       || negb (bool_decide (errors config = []))
       || negb (isIncrementalCompilation env (options config)).

(** Watchers: the engine only records what is watched. *)
Definition watchConfigFile (st : State) (resolvedPath : string) : State :=
  if negb (watch env) || bool_decide (resolvedPath ∈ allWatchedConfigFiles st)
  then st
  else set_allWatchedConfigFiles (fun s => {[resolvedPath]} ∪ s) st.

Definition watchWildCardDirectories (st : State) (resolvedPath : string)
    (parsed : ParsedCommandLine) : State :=
  if negb (watch env) then st
  else set_allWatchedWildcardDirectories
         <[resolvedPath := wildcardDirectories env parsed]> st.

Definition watchInputFiles (st : State) (resolvedPath : string)
    (parsed : ParsedCommandLine) : State :=
  if negb (watch env) then st
  else set_allWatchedInputFiles
         <[resolvedPath := toPath env <$> fileNames parsed]> st.

Definition reportUpToDateStatus (st : State) (configFileName : string)
    (status : UpToDateStatus) : State :=
  match status with
  | OutOfDateWithSelf outOfDate newerInput =>
    reportStatus st
      Project_0_is_out_of_date_because_oldest_output_1_is_older_than_newest_input_2
      [relName env configFileName; relName env outOfDate;
       relName env (default EmptyString newerInput)]
  | OutOfDateWithUpstream outOfDate newerProject =>
    reportStatus st
      Project_0_is_out_of_date_because_oldest_output_1_is_older_than_newest_input_2
      [relName env configFileName; relName env outOfDate; relName env newerProject]
  | OutputMissing missing =>
    reportStatus st Project_0_is_out_of_date_because_output_file_1_does_not_exist
      [relName env configFileName; relName env missing]
  | UpToDate info =>
    match newestInputFileTime info with
    | Some _ =>
      reportStatus st
        Project_0_is_up_to_date_because_newest_input_1_is_older_than_oldest_output_2
        [relName env configFileName;
         relName env (default EmptyString (newestInputFileName info));
         relName env (oldestOutputFileName info)]
    | None => st
    end
  | OutOfDateWithPrepend _ newerProject =>
    reportStatus st
      Project_0_is_out_of_date_because_output_of_its_dependency_1_has_changed
      [relName env configFileName; relName env newerProject]
  | UpToDateWithUpstreamTypes _ =>
    reportStatus st Project_0_is_up_to_date_with_d_ts_files_from_its_dependencies
      [relName env configFileName]
  | UpstreamOutOfDate upstream =>
    reportStatus st Project_0_is_out_of_date_because_its_dependency_1_is_out_of_date
      [relName env configFileName; relName env upstream]
  | UpstreamBlocked upstream =>
    reportStatus st Project_0_can_t_be_built_because_its_dependency_1_has_errors
      [relName env configFileName; relName env upstream]
  | Unbuildable reason =>
    reportStatus st Failed_to_parse_file_0_Colon_1
      [relName env configFileName; reason]
  | TsVersionOutputOfDate recorded =>
    reportStatus st
      Project_0_is_out_of_date_because_output_for_it_was_generated_with_version_1_that_differs_with_current_version_2
      [relName env configFileName; recorded; version env]
  | ContainerOnly => st
  | ComputingUpstream => st
  end.

Definition verboseReportProjectStatus (st : State) (configFileName : string)
    (status : UpToDateStatus) : State :=
  if verbose (solutionOptions env)
  then reportUpToDateStatus st configFileName status
  else st.

(** What the pending reload level asks for before the status is evaluated;
    a partial reload replaces the file names and errors of the cached
    configuration object. *)
Definition applyReloadLevel (st : State) (project projectPath : string)
    (config : ParsedCommandLine) (reloadLevel : ConfigFileProgramReloadLevel.t)
  : State * ParsedCommandLine :=
  match reloadLevel with
  | ConfigFileProgramReloadLevel.Full =>
    (watchInputFiles
       (watchWildCardDirectories (watchConfigFile st projectPath) projectPath config)
       projectPath config,
     config)
  | ConfigFileProgramReloadLevel.Partial =>
    let names := getFileNamesFromConfigSpecs env (hostState st) project config in
    let config' :=
      mkParsedCommandLine (options config) names (projectReferences config)
        (updateErrorForNoInputFiles env names project config) (raw config) in
    (watchInputFiles
       (set_configFileCache <[projectPath := inl config']> st)
       projectPath config',
     config')
  | ConfigFileProgramReloadLevel.None => (st, config)
  end.

(** The loop of [getNextInvalidatedProject] from index [projectIndex] on;
    [rest] is what is left of [order]. *)
Fixpoint nextInvalidatedFrom (fuel : nat) (order : list string)
    (rest : list string) (projectIndex : nat) (st : State)
  : option (State * option InvalidatedProject) :=
  match rest with
  | [] => Some (st, None)
  | project :: rest' =>
    let projectPath := toResolvedConfigFilePath project in
    let continue := nextInvalidatedFrom fuel order rest' (S projectIndex) in
    match projectPendingBuild st !! projectPath with
    | None => continue st
    | Some reloadLevel =>
      match parseConfigFile st project projectPath with
      | (st1, None) =>
        continue (set_projectPendingBuild (delete projectPath)
                    (reportParseConfigFileDiagnostic st1 projectPath))
      | (st1, Some config0) =>
        let '(st2, config) :=
          applyReloadLevel st1 project projectPath config0 reloadLevel in
        match getUpToDateStatus fuel st2 (Some config) projectPath with
        | None => None
        | Some (st3, status) =>
          let st4 := verboseReportProjectStatus st3 project status in
          let skip st' :=
            continue (set_projectPendingBuild (delete projectPath)
                        (reportAndStoreErrors st' projectPath (errors config))) in
          let dispatch :=
            match status with
            | UpstreamBlocked upstream =>
              let st5 := set_projectPendingBuild (delete projectPath)
                           (reportAndStoreErrors st4 projectPath (errors config)) in
              continue
                (if verbose (solutionOptions env)
                 then reportStatus st5
                        Skipping_build_of_project_0_because_its_dependency_1_has_errors
                        [project; upstream]
                 else st5)
            | ContainerOnly => skip st4
            | _ =>
              Some (st4,
                    Some (if needsBuild status config
                          then BuildInvalidedProject project projectPath
                                 projectIndex config order true
                          else UpdateBundleProject project projectPath
                                 projectIndex config order true))
            end in
          if force (solutionOptions env) then dispatch
          else
            match status with
            | UpToDate _ =>
              let st5 := set_projectPendingBuild (delete projectPath)
                           (reportAndStoreErrors st4 projectPath (errors config)) in
              continue
                (if dry (solutionOptions env)
                 then reportStatus st5 Project_0_is_up_to_date [project]
                 else st5)
            | UpToDateWithUpstreamTypes _ =>
              Some (reportAndStoreErrors st4 projectPath (errors config),
                    Some (UpdateOutputFileStampsProject project projectPath
                            config true))
            | _ => dispatch
            end
        end
      end
    end
  end.

Definition getNextInvalidatedProject (fuel : nat) (st : State)
    (order : list string) : option (State * option InvalidatedProject) :=
  if bool_decide (size (projectPendingBuild st) = 0) then Some (st, None)
  else nextInvalidatedFrom fuel order order 0 st.

(** ** Build driver *)

(** Cancellation is not modelled: no token is passed. *)
Definition setupInitialBuild (fuel : nat) (st : State) : option State :=
  if negb (allProjectBuildPending st) then Some st
  else
    let st1 := set_allProjectBuildPending false st in
    let st2 := if watchOption (solutionOptions env)
               then reportWatchStatus st1 Starting_compilation_in_watch_mode []
               else st1 in
    match getBuildOrder fuel (enableCache st2) with
    | None => None
    | Some (st3, order) =>
      Some (fold_left
              (fun s configFileName =>
                 set_projectPendingBuild
                   <[toResolvedConfigFilePath configFileName :=
                       ConfigFileProgramReloadLevel.None]> s)
              order (reportBuildQueue st3 order))
    end.

Definition totalErrorCount (diags : gmap string (list Diagnostic)) : nat :=
  map_fold (fun _ singleProjectErrors total =>
              total + getErrorCountForSummary env singleProjectErrors) 0 diags.

Definition reportErrorSummary (fuel : nat) (st : State) : option State :=
  if negb (needsSummary st) || (negb (watch env) && negb (hasReportErrorSummary env))
  then Some st
  else
    match getBuildOrder fuel (set_needsSummary false st) with
    | None => None
    | Some (st1, order) =>
      let st2 :=
        fold_left
          (fun s project =>
             let projectPath := toResolvedConfigFilePath project in
             if bool_decide (projectPath ∈ projectErrorsReported s) then s
             else reportErrors s (default [] (diagnostics s !! projectPath)))
          order st1 in
      let totalErrors := totalErrorCount (diagnostics st2) in
      Some (if watch env
            then reportWatchStatus st2 Watch_error_summary
                   [pretty totalErrors]
            else set_trace (fun t => t ++ [ReportErrorSummary totalErrors]) st2)
    end.

Definition startWatching (fuel : nat) (st : State) : option State :=
  if negb (watchAllProjectsPending st) then Some st
  else
    match getBuildOrder fuel (set_watchAllProjectsPending false st) with
    | None => None
    | Some (st1, order) =>
      Some (fold_left
              (fun s resolved =>
                 let resolvedPath := toResolvedConfigFilePath resolved in
                 let s1 := watchConfigFile s resolvedPath in
                 match parseConfigFile s1 resolved resolvedPath with
                 | (s2, Some cfg) =>
                   watchInputFiles (watchWildCardDirectories s2 resolvedPath cfg)
                     resolvedPath cfg
                 | (s2, None) => s2
                 end)
              order st1)
    end.

(** The [while (true)] loop of [build], with its two counters. *)
Fixpoint buildLoop (fuel : nat) (order : list string) (st : State)
    (successfulProjects errorProjects : nat) : option (State * nat * nat) :=
  match fuel with
  | O => None
  | S fuel' =>
    match getNextInvalidatedProject fuel' st order with
    | None => None
    | Some (st1, None) => Some (st1, successfulProjects, errorProjects)
    | Some (st1, Some invalidatedProject) =>
      let st2 := done st1 invalidatedProject in
      if bool_decide (is_Some (diagnostics st2 !! projectPathOf invalidatedProject))
      then buildLoop fuel' order st2 successfulProjects (S errorProjects)
      else buildLoop fuel' order st2 (S successfulProjects) errorProjects
    end
  end.

Definition build (fuel : nat) (st : State) (project : option string)
  : option (State * ExitStatus.t) :=
  match getBuildOrderFor fuel st project with
  | None => None
  | Some (st0, None) => Some (st0, ExitStatus.InvalidProject_OutputsSkipped)
  | Some (st0, Some order) =>
    match setupInitialBuild fuel st0 with
    | None => None
    | Some st1 =>
      match buildLoop fuel order st1 0 0 with
      | None => None
      | Some (st2, successfulProjects, errorProjects) =>
        match reportErrorSummary fuel (disableCache st2) with
        | None => None
        | Some st3 =>
          match startWatching fuel st3 with
          | None => None
          | Some st4 =>
            Some (st4,
                  match errorProjects, successfulProjects with
                  | O, _ => ExitStatus.Success
                  | S _, O => ExitStatus.DiagnosticsPresent_OutputsSkipped
                  | S _, S _ => ExitStatus.DiagnosticsPresent_OutputsGenerated
                  end)
          end
        end
      end
    end
  end.

Definition buildNextProject (fuel : nat) (st : State)
  : option (State * option (string * ExitStatus.t)) :=
  match setupInitialBuild fuel st with
  | None => None
  | Some st1 =>
    match getBuildOrder fuel st1 with
    | None => None
    | Some (st2, order) =>
      match getNextInvalidatedProject fuel st2 order with
      | None => None
      | Some (st3, None) => Some (st3, None)
      | Some (st3, Some invalidatedProject) =>
        let st4 := done st3 invalidatedProject in
        Some (st4,
              Some (projectOf invalidatedProject,
                    if bool_decide
                         (is_Some (diagnostics st4 !! projectPathOf invalidatedProject))
                    then ExitStatus.DiagnosticsPresent_OutputsSkipped
                    else ExitStatus.Success))
      end
    end
  end.

Definition invalidateProject (st : State) (resolved : string)
    (reloadLevel : ConfigFileProgramReloadLevel.t) : State :=
  let st1 :=
    match reloadLevel with
    | ConfigFileProgramReloadLevel.Full =>
      set_buildOrder None (set_configFileCache (delete resolved) st)
    | _ => st
    end in
  enableCache
    (addProjToQueue (clearProjectStatus (set_needsSummary true st1) resolved)
       resolved reloadLevel).

(** The inner loop of [clean] over the outputs of one project. *)
Fixpoint cleanOutputs (resolvedPath : string) (outputs : list string)
    (st : State) (filesToDelete : option (list string))
  : State * option (list string) :=
  match outputs with
  | [] => (st, filesToDelete)
  | output :: rest =>
    if fileExists env (hostState st) output then
      match filesToDelete with
      | Some files => cleanOutputs resolvedPath rest st (Some (files ++ [output]))
      | None =>
        cleanOutputs resolvedPath rest
          (invalidateProject (deleteFile st output) resolvedPath
             ConfigFileProgramReloadLevel.None)
          None
      end
    else cleanOutputs resolvedPath rest st filesToDelete
  end.

Fixpoint cleanProjects (order : list string) (st : State)
    (filesToDelete : option (list string)) : State * option (list string) :=
  match order with
  | [] => (st, filesToDelete)
  | proj :: rest =>
    let resolvedPath := toResolvedConfigFilePath proj in
    match parseConfigFile st proj resolvedPath with
    | (st1, None) =>
      cleanProjects rest (reportParseConfigFileDiagnostic st1 resolvedPath)
        filesToDelete
    | (st1, Some parsed) =>
      let '(st2, files) :=
        cleanOutputs resolvedPath (getAllProjectOutputs env parsed) st1
          filesToDelete in
      cleanProjects rest st2 files
    end
  end.

Definition clean (fuel : nat) (st : State) (project : option string)
  : option (State * ExitStatus.t) :=
  match getBuildOrderFor fuel st project with
  | None => None
  | Some (st0, None) => Some (st0, ExitStatus.InvalidProject_OutputsSkipped)
  | Some (st0, Some order) =>
    let '(st1, filesToDelete) :=
      cleanProjects order st0
        (if dry (solutionOptions env) then Some [] else None) in
    Some (match filesToDelete with
          | Some files =>
            reportStatus st1 A_non_dry_build_would_delete_the_following_files_Colon_0
              [join EmptyString ((fun f => crlf +:+ " * " +:+ f) <$> files)]
          | None => st1
          end,
          ExitStatus.Success)
  end.
End Engine.

(** ** A concrete host, for running the engine

    Files are a finite map from name to modification time and text; paths are
    used as they are written; a project's expected outputs come from a table
    indexed by [configFilePath]; the program builder emits every expected
    output with a fixed text. *)
Module Sample.
Record Files := mkFiles {
  contents : gmap string (Date * string);
  clock : Date
}.

Definition endsWith (s suffix : string) : bool :=
  let n := String.length s in
  let k := String.length suffix in
  (k <? n) && bool_decide (String.substring (n - k) k s = suffix).

Definition sampleConfig (file : string) (inputs : list string)
    (refs : option (list ProjectReference)) (isComposite : bool)
  : ParsedCommandLine :=
  mkParsedCommandLine (mkCompilerOptions isComposite isComposite file [] false)
    inputs refs [] EmptyString.

Definition ref (p : string) : ProjectReference := mkProjectReference p false false.

(** A reference names a configuration file or the directory of a
    [tsconfig.json]. *)
Definition referencePath (r : ProjectReference) : string :=
  if endsWith (path r) Extension_Json then path r
  else path r +:+ "/" +:+ "tsconfig.json".

Definition sampleEnv (configs : gmap string ParsedCommandLine)
    (outputsOf : gmap string (list string)) (opts : BuildOptions)
    (roots : list string) : Env Files :=
  let outs (p : ParsedCommandLine) :=
    default [] (outputsOf !! configFilePath (options p)) in
  {| fileExists h f := bool_decide (is_Some (contents h !! f));
     readFile h f := snd <$> contents h !! f;
     getModifiedTime h f := fst <$> contents h !! f;
     hostWriteFile h f text _ :=
       (mkFiles (<[f := (clock h, text)]> (contents h)) (clock h + 1)%Z, None);
     hostSetModifiedTime h f time :=
       mkFiles (alter (fun e => (time, e.2)) f (contents h)) (clock h);
     hostDeleteFile h f := mkFiles (delete f (contents h)) (clock h);
     now h := clock h;
     hasReportErrorSummary := true;
     hasTrace := false;
     hasOnWatchStatusChange := false;
     missingFileModifiedTime := 0%Z;
     toPath f := f;
     resolvePath f := f;
     combinePaths a b := a +:+ "/" +:+ b;
     fileExtensionIs := endsWith;
     relName f := f;
     resolveProjectReferencePath := referencePath;
     getParsedCommandLineOfConfigFile _ f :=
       match configs !! f with
       | Some p => inl p
       | None => inr (mkDiagnostic true ("cannot read " +:+ f))
       end;
     canJsonReportNoInutFiles _ := false;
     getFileNamesFromConfigSpecs _ _ p := fileNames p;
     updateErrorForNoInputFiles _ _ p := errors p;
     wildcardDirectories _ := [];
     getAllProjectOutputs := outs;
     getFirstProjectOutput p := default EmptyString (head (outs p));
     getOutputPathForBuildInfo _ := None;
     isIncrementalCompilation o := incremental o || composite o;
     getBuildInfo _ := mkBuildInfo "3.6";
     version := "3.6";
     createProgram _ p :=
       fold_right
         (fun r program => Ask (referencePath r) (fun _ => program))
         (Answer (mkProgramResult [] [] None
                    ((fun f => mkOutputFile f "emitted" false) <$> outs p)))
         (default [] (projectReferences p));
     listFiles _ p := fileNames p;
     emitUsingBuildInfo _ p := Answer (inl "tsbuildinfo");
     getErrorCountForSummary ds := length (List.filter isErrorCategory ds);
     solutionOptions := opts;
     rootNames := roots;
     watch := false |}.

Definition initialState (fs : Files) : SolutionBuilderState Files :=
  mkState fs [] ∅ ∅ ∅ ∅ ∅ ∅ None false true true false ∅ ∅ ∅ false.

Definition noOptions : BuildOptions := mkBuildOptions false false false false.
Definition dryOptions : BuildOptions := mkBuildOptions true false false false.

(** *** A solution over two projects: sln references B, B references A *)
Definition chainConfigs : gmap string ParsedCommandLine :=
  list_to_map
    [("A/tsconfig.json", sampleConfig "A/tsconfig.json" ["A/a.ts"] None true);
     ("B/tsconfig.json",
      sampleConfig "B/tsconfig.json" ["B/b.ts"] (Some [ref "A"]) true);
     ("sln/tsconfig.json",
      sampleConfig "sln/tsconfig.json" [] (Some [ref "B"]) false)].

Definition chainOutputs : gmap string (list string) :=
  list_to_map
    [("A/tsconfig.json", ["A/a.js"; "A/a.d.ts"]);
     ("B/tsconfig.json", ["B/b.js"; "B/b.d.ts"])].

Definition chainFiles : Files :=
  mkFiles (list_to_map [("A/a.ts", (10%Z, "a")); ("B/b.ts", (10%Z, "b"))]) 100%Z.

Definition chainEnv (opts : BuildOptions) : Env Files :=
  sampleEnv chainConfigs chainOutputs opts ["sln"].

(** *** The same, with a root whose configuration does not exist *)
Definition brokenEnv : Env Files :=
  sampleEnv chainConfigs chainOutputs noOptions ["X"; "sln"].

(** *** A project with two references: P references A, then B *)
Definition forkConfigs : gmap string ParsedCommandLine :=
  list_to_map
    [("A/tsconfig.json", sampleConfig "A/tsconfig.json" ["A/a.ts"] None true);
     ("B/tsconfig.json", sampleConfig "B/tsconfig.json" ["B/b.ts"] None true);
     ("P/tsconfig.json",
      sampleConfig "P/tsconfig.json" ["P/p.ts"] (Some [ref "A"; ref "B"]) true)].

Definition forkOutputs : gmap string (list string) :=
  list_to_map
    [("A/tsconfig.json", ["A/a.js"]);
     ("B/tsconfig.json", ["B/b.js"]);
     ("P/tsconfig.json", ["P/p.js"])].

Definition forkEnv : Env Files :=
  sampleEnv forkConfigs forkOutputs noOptions ["P"].

(** The input of B does not exist; no output exists. *)
Definition forkFilesStale : Files :=
  mkFiles (list_to_map [("A/a.ts", (10%Z, "a")); ("P/p.ts", (10%Z, "p"))]) 100%Z.

(** The input of B does not exist; A is built; the output of P is missing. *)
Definition forkFilesBuilt : Files :=
  mkFiles
    (list_to_map
       [("A/a.ts", (10%Z, "a")); ("A/a.js", (20%Z, "emitted"));
        ("P/p.ts", (10%Z, "p"))]) 100%Z.

(** *** Two cycles through one project: A references B and C, both
    reference A *)
Definition cyclicConfigs : gmap string ParsedCommandLine :=
  list_to_map
    [("A/tsconfig.json",
      sampleConfig "A/tsconfig.json" ["A/a.ts"] (Some [ref "B"; ref "C"]) true);
     ("B/tsconfig.json",
      sampleConfig "B/tsconfig.json" ["B/b.ts"] (Some [ref "A"]) true);
     ("C/tsconfig.json",
      sampleConfig "C/tsconfig.json" ["C/c.ts"] (Some [ref "A"]) true)].

Definition cyclicEnv : Env Files :=
  sampleEnv cyclicConfigs ∅ noOptions ["A"].

Definition noFiles : Files := mkFiles ∅ 100%Z.

(** *** One cycle: A references B, B references A *)
Definition loopConfigs : gmap string ParsedCommandLine :=
  list_to_map
    [("A/tsconfig.json",
      sampleConfig "A/tsconfig.json" ["A/a.ts"] (Some [ref "B"]) true);
     ("B/tsconfig.json",
      sampleConfig "B/tsconfig.json" ["B/b.ts"] (Some [ref "A"]) true)].

Definition loopEnv : Env Files := sampleEnv loopConfigs ∅ noOptions ["A"].

(** *** A cycle behind a reference flagged circular: R references A with
    the flag, A references B, B references A *)
Definition flaggedConfigs : gmap string ParsedCommandLine :=
  list_to_map
    [("R/tsconfig.json",
      sampleConfig "R/tsconfig.json" ["R/r.ts"]
        (Some [mkProjectReference "A" false true]) true);
     ("A/tsconfig.json",
      sampleConfig "A/tsconfig.json" ["A/a.ts"] (Some [ref "B"]) true);
     ("B/tsconfig.json",
      sampleConfig "B/tsconfig.json" ["B/b.ts"] (Some [ref "A"]) true)].

Definition flaggedEnv : Env Files := sampleEnv flaggedConfigs ∅ noOptions ["R"].

(** *** Two cycles that share a reference: A references B and C, B
    references C, C references A *)
Definition sharedConfigs : gmap string ParsedCommandLine :=
  list_to_map
    [("A/tsconfig.json",
      sampleConfig "A/tsconfig.json" ["A/a.ts"] (Some [ref "B"; ref "C"]) true);
     ("B/tsconfig.json",
      sampleConfig "B/tsconfig.json" ["B/b.ts"] (Some [ref "C"]) true);
     ("C/tsconfig.json",
      sampleConfig "C/tsconfig.json" ["C/c.ts"] (Some [ref "A"]) true)].

Definition sharedEnv : Env Files := sampleEnv sharedConfigs ∅ noOptions ["A"].

(** *** The chain with an input file stamped later than the clock *)
Definition futureFiles : Files :=
  mkFiles (list_to_map [("A/a.ts", (1000%Z, "a")); ("B/b.ts", (10%Z, "b"))]) 100%Z.

(** *** States and values the examples start from *)
Definition chainOrder : list string :=
  ["A/tsconfig.json"; "B/tsconfig.json"; "sln/tsconfig.json"].

Definition configOf (configs : gmap string ParsedCommandLine) (file : string)
  : ParsedCommandLine :=
  default (sampleConfig file [] None false) (configs !! file).

(** A queue that holds one project at level Full. *)
Definition queuedState : SolutionBuilderState Files :=
  addProjToQueue (initialState noFiles) "p" ConfigFileProgramReloadLevel.Full.
End Sample.

(** * Vocabulary of the properties *)

(** ** The pending-build queue *)
Section QueueVocabulary.
Context {H : Type}.
Import ConfigFileProgramReloadLevel.

(** A sequence of enqueue operations. *)
Definition enqueueAll (st : SolutionBuilderState H) (ops : list (string * t))
  : SolutionBuilderState H :=
  fold_left (fun s op => addProjToQueue s op.1 op.2) ops st.

(** The levels that a sequence of operations requests for one key. *)
Definition requestsFor (key : string) (ops : list (string * t)) : list t :=
  snd <$> List.filter (fun op => bool_decide (op.1 = key)) ops.

(** "Not lower than", on queue entries; no entry is below every entry. *)
Definition levelLe (a b : option t) : Prop :=
  match a, b with
  | Datatypes.None, _ => True
  | Some x, Some y => (toZ x <= toZ y)%Z
  | Some _, Datatypes.None => False
  end.
End QueueVocabulary.

(** ** The evaluator *)
Section EvaluatorVocabulary.
Context {H : Type} (env : Env H).

(** No entry of the status map is the sentinel. *)
Definition noComputingUpstream (st : SolutionBuilderState H) : Prop :=
  ∀ key, projectStatus st !! key ≠ Some ComputingUpstream.

(** Two states have the sentinel at the same keys. *)
Definition sameComputing (st st' : SolutionBuilderState H) : Prop :=
  ∀ key, projectStatus st' !! key = Some ComputingUpstream
         ↔ projectStatus st !! key = Some ComputingUpstream.

(** Every configuration file that parses, in the cache or on the host, has
    its key in the finite set [U]: the host has finitely many projects. *)
Definition configsWithin (U : gset string) (st : SolutionBuilderState H) : Prop :=
  (∀ key parsed, configFileCache st !! key = Some (inl parsed) -> key ∈ U)
  ∧ (∀ name parsed,
       getParsedCommandLineOfConfigFile env (hostState st) name = inl parsed ->
       toPath env name ∈ U).

(** What the termination argument asks of the evaluator of the referenced
    projects: with fuel above the number of keys of [U] that have no status
    yet, it answers, and the status map only grows. *)
Definition evaluates (U : gset string) (fuel : nat)
    (rec : SolutionBuilderState H -> option ParsedCommandLine -> string ->
           option (SolutionBuilderState H * UpToDateStatus)) : Prop :=
  ∀ st project resolvedPath,
    configsWithin U st ->
    (is_Some project -> resolvedPath ∈ U) ->
    size (U ∖ dom (projectStatus st)) < fuel ->
    ∃ st' status,
      rec st project resolvedPath = Some (st', status)
      ∧ configsWithin U st'
      ∧ dom (projectStatus st) ⊆ dom (projectStatus st').

(** The statuses that the references of a project evaluate to, one after
    the other in the order of the loop of the worker, when the loop is not
    left early. *)
Fixpoint referenceStatuses
    (rec : SolutionBuilderState H -> option ParsedCommandLine -> string ->
           option (SolutionBuilderState H * UpToDateStatus))
    (refs : list ProjectReference) (st : SolutionBuilderState H)
  : option (SolutionBuilderState H * list UpToDateStatus) :=
  match refs with
  | [] => Some (st, [])
  | ref :: rest =>
    let resolvedRef := resolveProjectReferencePath env ref in
    let resolvedRefPath := toResolvedConfigFilePath env resolvedRef in
    let '(st1, parsed) := parseConfigFile env st resolvedRef resolvedRefPath in
    match rec st1 parsed resolvedRefPath with
    | None => None
    | Some (st2, status) =>
      match referenceStatuses rec rest st2 with
      | Some (st3, statuses) => Some (st3, status :: statuses)
      | None => None
      end
    end
  end.

(** A reference that does not decide the status of the referencing project
    when an output of it is missing: it is up to date, or it is the sentinel
    of a project under evaluation. *)
Definition passedOver (status : UpToDateStatus) : Prop :=
  isUpToDate status = true ∨ status = ComputingUpstream.
End EvaluatorVocabulary.

(** ** Frames: what an operation leaves as it is *)
Section FrameVocabulary.
Context {H : Type} (env : Env H).

(** A relation between the state before and the state after that the
    bookkeeping of the engine respects: updates of the status map, of the
    stored diagnostics and of the watchers, and reports (calls that are not
    writes of outputs). *)
Class Frame (R : relation (SolutionBuilderState H)) : Prop := {
  frame_preorder :: PreOrder R;
  frame_projectStatus st f : R st (set_projectStatus f st);
  frame_buildInfoChecked st f : R st (set_buildInfoChecked f st);
  frame_diagnostics st f : R st (set_diagnostics f st);
  frame_projectErrorsReported st f : R st (set_projectErrorsReported f st);
  frame_allWatchedWildcardDirectories st f :
    R st (set_allWatchedWildcardDirectories f st);
  frame_allWatchedInputFiles st f : R st (set_allWatchedInputFiles f st);
  frame_allWatchedConfigFiles st f : R st (set_allWatchedConfigFiles f st);
  frame_events st events :
    outputWrites events = [] -> R st (set_trace (fun t => t ++ events) st)
}.

(** ... that respects every update of the config cache, *)
Class FrameCache (R : relation (SolutionBuilderState H)) : Prop :=
  frame_configFileCache st f : R st (set_configFileCache f st).

(** ... the updates of the config cache that the engine makes: the parse of
    a configuration file under its key, and the replacement of a
    configuration that parsed by a reloaded one, *)
Class FrameConfigs (R : relation (SolutionBuilderState H)) : Prop := {
  frame_parsed st name :
    R st (parseConfigFile env st name (toResolvedConfigFilePath env name)).1;
  frame_reparsed st key old new :
    configFileCache st !! key = Some (inl old) ->
    R st (set_configFileCache <[key := inl new]> st)
}.

(** ... the removal of a queue entry, *)
Class FramePendingDelete (R : relation (SolutionBuilderState H)) : Prop :=
  frame_pending_delete st key : R st (set_projectPendingBuild (delete key) st).

(** ... every update of the queue, *)
Class FramePending (R : relation (SolutionBuilderState H)) : Prop :=
  frame_pending st f : R st (set_projectPendingBuild f st).

(** ... the flags and the memoised build order, *)
Class FrameControl (R : relation (SolutionBuilderState H)) : Prop := {
  frame_buildOrder st o : R st (set_buildOrder o st);
  frame_cache st b : R st (set_cache b st);
  frame_allProjectBuildPending st b : R st (set_allProjectBuildPending b st);
  frame_needsSummary st b : R st (set_needsSummary b st);
  frame_watchAllProjectsPending st b : R st (set_watchAllProjectsPending b st)
}.

(** ... the host and every call of it. *)
Class FrameHost (R : relation (SolutionBuilderState H)) : Prop := {
  frame_hostState st f : R st (set_hostState f st);
  frame_trace st f : R st (set_trace f st)
}.

(** [st'] has the host state of [st] and the same calls of [writeFile],
    [setModifiedTime] and [deleteFile] in its trace: between the two, none
    of the three was called. *)
Definition sameOutputs (st st' : SolutionBuilderState H) : Prop :=
  hostState st' = hostState st
  ∧ outputWrites (trace st') = outputWrites (trace st).

(** The flags of the drivers and the memoised build order are the same. *)
Definition sameControl (st st' : SolutionBuilderState H) : Prop :=
  buildOrder st' = buildOrder st
  ∧ allProjectBuildPending st' = allProjectBuildPending st
  ∧ cache st' = cache st
  ∧ needsSummary st' = needsSummary st
  ∧ watchAllProjectsPending st' = watchAllProjectsPending st.

(** ... and the queue as well. *)
Definition sameSchedule (st st' : SolutionBuilderState H) : Prop :=
  sameControl st st' ∧ projectPendingBuild st' = projectPendingBuild st.

(** The configurations stay within [U]. *)
Definition staysWithin (U : gset string) : relation (SolutionBuilderState H) :=
  fun st st' => configsWithin env U st -> configsWithin env U st'.

(** No key enters the queue. *)
Definition pendingShrinks (st st' : SolutionBuilderState H) : Prop :=
  ∀ key, projectPendingBuild st !! key = None ->
         projectPendingBuild st' !! key = None.

(** A relation on engine states, on the states of a graph traversal and of
    an emit loop. *)
Definition onVisit (R : relation (SolutionBuilderState H))
  : relation (@VisitState H) :=
  fun v v' => R (visitState v) (visitState v').

Definition onEmit (R : relation (SolutionBuilderState H))
  : relation (@EmitScan H) :=
  fun e e' => R (emitState e) (emitState e').
End FrameVocabulary.

(** ** The state a finished build leaves *)
Section DriverVocabulary.
Context {H : Type} (env : Env H).

(** The build order is memoised, the initial seeding of the queue is over,
    no project of the order is in the queue, the file cache is off, the
    summary is reported (or there is nobody to report it to), and the
    watchers are installed (or not asked for). *)
Definition settled (order : list string) (st : SolutionBuilderState H) : Prop :=
  buildOrder st = Some order
  ∧ allProjectBuildPending st = false
  ∧ (∀ project, project ∈ order ->
       projectPendingBuild st !! toResolvedConfigFilePath env project = None)
  ∧ cache st = false
  ∧ negb (needsSummary st)
    || (negb (watch env) && negb (hasReportErrorSummary env)) = true
  ∧ watchAllProjectsPending st = false.

(** The projects that the [done] of an action handle may put into the
    queue: the ones behind the project of the handle in its build order. *)
Definition downstreamOf (p : InvalidatedProject) : list string :=
  match p with
  | UpdateOutputFileStampsProject _ _ _ _ => []
  | BuildInvalidedProject _ _ projectIndex _ order _
  | UpdateBundleProject _ _ projectIndex _ order _ => drop (S projectIndex) order
  end.
End DriverVocabulary.

(** ** The project graph *)
Section GraphVocabulary.
Context {H : Type} (env : Env H).

(** The references of the project of a key, as the config cache has them;
    none when the configuration did not parse. *)
Definition cachedReferences (st : SolutionBuilderState H) (key : string)
  : list ProjectReference :=
  match configFileCache st !! key with
  | Some (inl parsed) => default [] (projectReferences parsed)
  | _ => []
  end.

(** The key of the project a reference points to, as [visit] computes it. *)
Definition referenceKey (ref : ProjectReference) : string :=
  toResolvedConfigFilePath env (resolveProjectName env (path ref)).

(** The reference edges between keys. *)
Definition references (st : SolutionBuilderState H) : relation string :=
  fun a b => ∃ ref, ref ∈ cachedReferences st a ∧ referenceKey ref = b.

(** The project of [key] stands in [order] in front of position [i]. *)
Definition builtBefore (order : list string) (i : nat) (key : string) : Prop :=
  ∃ j name, j < i ∧ order !! j = Some name
            ∧ toResolvedConfigFilePath env name = key.

Definition isCycleReport (c : HostCall) : bool :=
  match c with
  | ReportSolutionBuilderStatus
      Project_references_may_not_form_a_circular_graph_Cycle_detected_Colon_0 _ =>
    true
  | _ => false
  end.

(** The number of cycle diagnostics reported so far. *)
Definition cycleReports (st : SolutionBuilderState H) : nat :=
  length (List.filter isCycleReport (trace st)).

(** No reference of a configuration, cached or on the host, is flagged
    [circular]. *)
Definition noCircular (st : SolutionBuilderState H) : Prop :=
  (∀ key parsed ref,
     configFileCache st !! key = Some (inl parsed) ->
     ref ∈ default [] (projectReferences parsed) -> circular ref = false)
  ∧ (∀ name parsed ref,
       getParsedCommandLineOfConfigFile env (hostState st) name = inl parsed ->
       ref ∈ default [] (projectReferences parsed) -> circular ref = false).

(** The cache of [st'] has the entries of the cache of [st]. *)
Definition cacheGrows (st st' : SolutionBuilderState H) : Prop :=
  ∀ key entry, configFileCache st !! key = Some entry ->
               configFileCache st' !! key = Some entry.

Definition stackKeys (v : @VisitState H) : list string :=
  toResolvedConfigFilePath env <$> circularityReportStack v.

(** What holds of the traversal between two calls of [visit]; [st0] is the
    state [createBuildOrder] started from. *)
Record VisitInvariant (st0 : SolutionBuilderState H) (v : @VisitState H)
  : Prop := mkVisitInvariant {
  (** a permanent mark is a project of the order *)
  inv_permanent : ∀ key, key ∈ permanentMarks v ->
    key ∈ toResolvedConfigFilePath env <$> visitOrder v;
  (** a temporary mark is permanent as well, or on the stack *)
  inv_temporary : ∀ key, key ∈ temporaryMarks v ->
    key ∈ permanentMarks v ∨ key ∈ stackKeys v;
  (** the configuration of a project of the order is cached *)
  inv_cached : ∀ name, name ∈ visitOrder v ->
    is_Some (configFileCache (visitState v) !! toResolvedConfigFilePath env name);
  (** a reference of a project of the order points to an earlier project,
      or back to a project that was on the stack, which was reported
      unless some reference is flagged circular *)
  inv_order : ∀ i name ref,
    visitOrder v !! i = Some name ->
    ref ∈ cachedReferences (visitState v) (toResolvedConfigFilePath env name) ->
    builtBefore (visitOrder v) i (referenceKey ref)
    ∨ (rtc (references (visitState v)) (referenceKey ref)
         (toResolvedConfigFilePath env name)
       ∧ (noCircular st0 -> cycleReports st0 < cycleReports (visitState v)));
  (** every project of the stack reaches the top of the stack *)
  inv_stack : ∀ name top, name ∈ circularityReportStack v ->
    last (circularityReportStack v) = Some top ->
    rtc (references (visitState v)) (toResolvedConfigFilePath env name)
      (toResolvedConfigFilePath env top);
  inv_reports : cycleReports st0 ≤ cycleReports (visitState v);
  inv_noCircular : noCircular st0 -> noCircular (visitState v)
}.

(** The project on top of the stack references the project to visit. *)
Definition referencedFromTop (v : @VisitState H) (name : string) : Prop :=
  ∀ top, last (circularityReportStack v) = Some top ->
    references (visitState v) (toResolvedConfigFilePath env top)
      (toResolvedConfigFilePath env name).

(** What a call of [visit] on [name] establishes. *)
Record VisitResult (st0 : SolutionBuilderState H) (name : string)
    (v v' : @VisitState H) : Prop := mkVisitResult {
  res_invariant : VisitInvariant st0 v';
  res_stack : circularityReportStack v' = circularityReportStack v;
  res_permanent : permanentMarks v ⊆ permanentMarks v';
  res_order : ∃ suffix, visitOrder v' = visitOrder v ++ suffix;
  res_cache : cacheGrows (visitState v) (visitState v');
  res_reports : cycleReports (visitState v) ≤ cycleReports (visitState v');
  res_visited :
    toResolvedConfigFilePath env name ∈ permanentMarks v'
    ∨ (toResolvedConfigFilePath env name ∈ stackKeys v
       ∧ (noCircular st0 -> cycleReports st0 < cycleReports (visitState v')))
}.

(** The keys of the order are distinct and have a permanent mark. *)
Definition orderDistinct (v : @VisitState H) : Prop :=
  NoDup (toResolvedConfigFilePath env <$> visitOrder v)
  ∧ ∀ key, key ∈ toResolvedConfigFilePath env <$> visitOrder v ->
           key ∈ permanentMarks v.

(** Between two states of a traversal: the temporary marks stay, a project
    under visit gets no permanent mark, and the keys of the order stay
    distinct. *)
Definition keepsDistinct : relation (@VisitState H) :=
  fun v v' =>
    temporaryMarks v ⊆ temporaryMarks v'
    ∧ (∀ key, key ∈ temporaryMarks v -> key ∉ permanentMarks v ->
              key ∉ permanentMarks v')
    ∧ (orderDistinct v -> orderDistinct v').
End GraphVocabulary.

(** ** Sample evaluation states *)
Module SampleStates.
Import Sample.

(** The fork once P is marked as under evaluation, and once its first
    reference, A, is evaluated. *)
Definition forkStart : SolutionBuilderState Files :=
  set_projectStatus <["P/tsconfig.json" := ComputingUpstream]>
    (initialState forkFilesBuilt).

Definition forkAfterA : SolutionBuilderState Files * list UpToDateStatus :=
  default (forkStart, [])
    (referenceStatuses forkEnv (getUpToDateStatus forkEnv 5) [ref "A"] forkStart).

Definition forkAfterB : SolutionBuilderState Files * list UpToDateStatus :=
  default (forkAfterA.1, [])
    (referenceStatuses forkEnv (getUpToDateStatus forkEnv 5) [ref "B"]
       forkAfterA.1).
End SampleStates.

(** * Vocabulary of the further properties *)

(** The statuses that the evaluator returns after its loops over the
    inputs, the outputs and the references are through. *)
Definition isScanStatus (status : UpToDateStatus) : bool :=
  match status with
  | UpToDate _ | UpToDateWithUpstreamTypes _ | OutputMissing _
  | OutOfDateWithSelf _ _ | OutOfDateWithPrepend _ _
  | TsVersionOutputOfDate _ => true
  | _ => false
  end.

(** ** The cover of a build order *)
Section CoverVocabulary.
Context {H : Type} (env : Env H).

(** The projects with a permanent mark are the projects of the order, their
    configuration is in the cache, and what they reference has a mark: a
    permanent one, or one of the temporary marks [T]. *)
Definition closedUnder (T : gset string) (v : @VisitState H) : Prop :=
  (∀ key, key ∈ permanentMarks v
          ↔ key ∈ toResolvedConfigFilePath env <$> visitOrder v)
  ∧ ∀ key, key ∈ permanentMarks v ->
      is_Some (configFileCache (visitState v) !! key)
      ∧ ∀ ref, ref ∈ cachedReferences (visitState v) key ->
          referenceKey env ref ∈ permanentMarks v ∪ T.

(** Between two states of a traversal: the marks and the cache grow, a new
    temporary mark has become permanent, and the marked projects stay
    closed under the temporary marks of the first state. *)
Definition covers : relation (@VisitState H) :=
  fun v v' =>
    permanentMarks v ⊆ permanentMarks v'
    ∧ temporaryMarks v ⊆ temporaryMarks v'
    ∧ temporaryMarks v' ⊆ temporaryMarks v ∪ permanentMarks v'
    ∧ cacheGrows (visitState v) (visitState v')
    ∧ (closedUnder (temporaryMarks v) v -> closedUnder (temporaryMarks v) v').

(** The configuration file of every project of [order] was looked at, and
    every project that one of them references is a project of [order]. *)
Definition coversReferences (st : SolutionBuilderState H)
    (order : list string) : Prop :=
  ∀ name, name ∈ order ->
    is_Some (configFileCache st !! toResolvedConfigFilePath env name)
    ∧ ∀ ref, ref ∈ cachedReferences st (toResolvedConfigFilePath env name) ->
        referenceKey env ref ∈ toResolvedConfigFilePath env <$> order.

(** The projects of the order of a traversal are projects of [full]. *)
Definition orderWithin (full : list string) (v : @VisitState H) : Prop :=
  coversReferences (visitState v) full
  ∧ ∀ name, name ∈ visitOrder v ->
      toResolvedConfigFilePath env name
      ∈ toResolvedConfigFilePath env <$> full.
End CoverVocabulary.

(** ** The actions *)
Section ActionVocabulary.
Context {H : Type} (env : Env H).

(** The call of [writeFile] for an emitted file. *)
Definition writeOf (file : OutputFile) : HostCall :=
  WriteFile (outputName file) (outputText file) (writeByteOrderMark file).

(** The expected outputs whose path is not a key of the map of the emitted
    files. *)
Definition notEmitted (skip : list (string * string)) (outputs : list string)
  : list string :=
  List.filter (fun file => negb (fileMapHas skip (toPath env file))) outputs.

(** The expected outputs of a project that are left to touch once [skip]
    was emitted: none when there are as many entries in [skip] as expected
    outputs, whatever the entries are. *)
Definition touchedOutputs (proj : ParsedCommandLine)
    (skipOutputs : option (list (string * string))) : list string :=
  let outputs := getAllProjectOutputs env proj in
  match skipOutputs with
  | Some skip =>
    if length outputs =? length skip then [] else notEmitted skip outputs
  | None => outputs
  end.

(** The map of the emitted files, from path to name. *)
Definition emittedMap (files : list OutputFile) : list (string * string) :=
  fold_left
    (fun m file => fileMapSet m (toPath env (outputName file)) (outputName file))
    files [].

(** The host after the writes of the emitted files. *)
Definition written (h : H) (files : list OutputFile) : H :=
  fold_left
    (fun h file =>
       (hostWriteFile env h (outputName file) (outputText file)
          (writeByteOrderMark file)).1)
    files h.

(** The program that [buildSingleProject] creates, with the engine state
    after the parses the compiler host asked for. *)
Definition createdProgram (st : SolutionBuilderState H) (proj : string)
    (config : ParsedCommandLine) : SolutionBuilderState H * ProgramResult :=
  let st0 := if verbose (solutionOptions env)
             then reportStatus st Building_project_0 [proj] else st in
  answer (getParsedCommandLine env) (createProgram env (hostState st0) config)
    st0.

(** What [updateBundle] gets from the build info, with the engine state
    after the parses that were asked for. *)
Definition readBundle (st : SolutionBuilderState H) (proj : string)
    (config : ParsedCommandLine)
  : SolutionBuilderState H * (string + (OutputFile * list OutputFile)) :=
  let st0 := if verbose (solutionOptions env)
             then reportStatus st Updating_output_of_project_0 [proj] else st in
  answer (getCommandLine env) (emitUsingBuildInfo env (hostState st0) config)
    st0.
End ActionVocabulary.

(** ** What an action does to the queue *)
Section DownstreamVocabulary.
Context {H : Type}.

(** Between two states: an entry of the queue is as it was, or it is new,
    at level None and for one of [keys]. *)
Definition queuedAmong (keys : list string)
  : relation (SolutionBuilderState H) :=
  fun st st' =>
    ∀ key,
      projectPendingBuild st' !! key = projectPendingBuild st !! key
      ∨ (projectPendingBuild st !! key = None
         ∧ projectPendingBuild st' !! key
           = Some ConfigFileProgramReloadLevel.None
         ∧ key ∈ keys).

(** The project of [key] is marked for the dispatcher: it is in the queue,
    and its status, if it has one, is not [UpToDate]. *)
Definition markedForBuild (st : SolutionBuilderState H) (key : string)
  : Prop :=
  is_Some (projectPendingBuild st !! key)
  ∧ ∀ info, projectStatus st !! key ≠ Some (UpToDate info).
End DownstreamVocabulary.

(** ** The dispatcher *)
Section DispatcherVocabulary.
Context {H : Type} (env : Env H).

(** The handles that answer a status: none for a project that is blocked
    or a container, none for an up-to-date one unless the build is forced,
    a handle that only sets time stamps for a project that is up to date
    but for the declarations of its references, and a handle that updates
    the bundle only for a project whose prepended reference changed. *)
Definition handedOutFor (status : UpToDateStatus) (p : InvalidatedProject)
  : Prop :=
  match status with
  | UpstreamBlocked _ | ContainerOnly => False
  | UpToDate _ => force (solutionOptions env) = true ∧ kind p = Build
  | UpToDateWithUpstreamTypes _ =>
    kind p = if force (solutionOptions env) then Build
             else UpdateOutputFileStamps
  | OutOfDateWithPrepend _ _ =>
    kind p = Build
    ∨ (kind p = UpdateBundle ∧ force (solutionOptions env) = false)
  | _ => kind p = Build
  end.
End DispatcherVocabulary.

(** ** The drivers *)
Section ReportVocabulary.
Context {H : Type} (env : Env H).

(** The queue is the same. *)
Definition sameQueue : relation (SolutionBuilderState H) :=
  fun st st' => projectPendingBuild st' = projectPendingBuild st.

(** The diagnostics that [reportErrorSummary] reports before the summary:
    the stored ones of the projects of the order that were not reported. *)
Definition unreportedDiagnostics (st : SolutionBuilderState H)
    (order : list string) : list Diagnostic :=
  flat_map
    (fun project =>
       let projectPath := toResolvedConfigFilePath env project in
       if bool_decide (projectPath ∈ projectErrorsReported st) then []
       else default [] (diagnostics st !! projectPath))
    order.

(** The call that reports the summary. *)
Definition summaryCall (totalErrors : nat) : list HostCall :=
  if watch env then
    if hasOnWatchStatusChange env
    then [OnWatchStatusChange Watch_error_summary [pretty totalErrors]]
    else []
  else [ReportErrorSummary totalErrors].

(** The input files and the wildcard directories of a configuration are
    what is watched for the project of [key]. *)
Definition watchedAs (st : SolutionBuilderState H) (key : string)
    (cfg : ParsedCommandLine) : Prop :=
  allWatchedInputFiles st !! key = Some (toPath env <$> fileNames cfg)
  ∧ allWatchedWildcardDirectories st !! key
    = Some (wildcardDirectories env cfg).
End ReportVocabulary.

(** ** Cleaning *)
Section CleanVocabulary.
Context {H : Type} (env : Env H).

(** The project of [key] was invalidated: it has no status and is in the
    queue. *)
Definition invalidated (st : SolutionBuilderState H) (key : string) : Prop :=
  projectStatus st !! key = None
  ∧ is_Some (projectPendingBuild st !! key).

(** [file] is an expected output of a project whose configuration is in
    the cache, and that project was invalidated. *)
Definition cleanedOutput (st : SolutionBuilderState H) (file : string)
  : Prop :=
  ∃ key cfg,
    configFileCache st !! key = Some (inl cfg)
    ∧ file ∈ getAllProjectOutputs env cfg
    ∧ invalidated st key.

(** Between two states of a clean: an invalidated project stays so. *)
Definition keepsInvalidated : relation (SolutionBuilderState H) :=
  fun st st' => ∀ key, invalidated st key -> invalidated st' key.
End CleanVocabulary.

(** * Watch mode: the timer that builds the invalidated projects *)

(** The calls of [hostWithWatch.setTimeout] and [hostWithWatch.clearTimeout]:
    the delay and the handle that the host gave, and the handle that was
    cleared. *)
Inductive TimerCall :=
| SetTimeout (ms : Z) (handle : Z)
| ClearTimeout (handle : Z).

(** The two functions are optional.  The handle of a new timer is the
    choice of the host, from the calls it has seen. *)
Record TimerHost := mkTimerHost {
  hasSetTimeout : bool;
  hasClearTimeout : bool;
  newHandle : list TimerCall -> Z
}.

(** The engine state with [timerToBuildInvalidatedProject] and the calls of
    the timer functions so far. *)
Record WatchState (H : Type) := mkWatchState {
  engine : SolutionBuilderState H;
  timerToBuildInvalidatedProject : option Z;
  timerCalls : list TimerCall
}.

Arguments mkWatchState {H}.
Arguments engine {H}.
Arguments timerToBuildInvalidatedProject {H}.
Arguments timerCalls {H}.

(** [if (state.timerToBuildInvalidatedProject)]: no handle, or the handle
    0, does not count. *)
Definition isTimerSet (timer : option Z) : bool :=
  match timer with
  | Some handle => negb (handle =? 0)%Z
  | None => false
  end.

Section WatchMode.
Context {H : Type} (env : Env H) (timers : TimerHost).

(** Without both timer functions nothing is scheduled.  A recorded timer
    is cleared before the new one is set, with a delay of 250. *)
Definition scheduleBuildInvalidatedProject (w : WatchState H) : WatchState H :=
  if negb (hasSetTimeout timers) || negb (hasClearTimeout timers) then w
  else
    let calls :=
      match timerToBuildInvalidatedProject w with
      | Some handle =>
        if isTimerSet (Some handle) then timerCalls w ++ [ClearTimeout handle]
        else timerCalls w
      | None => timerCalls w
      end in
    let handle := newHandle timers calls in
    mkWatchState (engine w) (Some handle) (calls ++ [SetTimeout 250 handle]).

(** What the watchers of configuration files, input files and wildcard
    directories call on a change. *)
Definition invalidateProjectAndScheduleBuilds (w : WatchState H)
    (resolvedPath : string) (reloadLevel : ConfigFileProgramReloadLevel.t)
  : WatchState H :=
  scheduleBuildInvalidatedProject
    (mkWatchState
       (invalidateProject (set_reportFileChangeDetected true (engine w))
          resolvedPath reloadLevel)
       (timerToBuildInvalidatedProject w) (timerCalls w)).

(** What the timer calls, and a method of the builder: it handles one
    project of the queue, and schedules itself again while the queue is not
    empty. *)
Definition buildNextInvalidatedProject (fuel : nat) (w : WatchState H)
  : option (WatchState H) :=
  let w1 := mkWatchState (engine w) None (timerCalls w) in
  let st1 :=
    if reportFileChangeDetected (engine w1) then
      reportWatchStatus env
        (set_projectErrorsReported (fun _ => ∅)
           (set_reportFileChangeDetected false (engine w1)))
        File_change_detected_Starting_incremental_compilation []
    else engine w1 in
  let finish st :=
    match reportErrorSummary env fuel (disableCache st) with
    | Some st' =>
      Some (mkWatchState st' (timerToBuildInvalidatedProject w1) (timerCalls w1))
    | None => None
    end in
  match getBuildOrder env fuel st1 with
  | None => None
  | Some (st2, order) =>
    match getNextInvalidatedProject env fuel st2 order with
    | None => None
    | Some (st3, Some invalidatedProject) =>
      let st4 := done env st3 invalidatedProject in
      let w4 :=
        mkWatchState st4 (timerToBuildInvalidatedProject w1) (timerCalls w1) in
      if negb (bool_decide (size (projectPendingBuild st4) = 0)) then
        Some (if watch env && negb (isTimerSet (timerToBuildInvalidatedProject w4))
              then scheduleBuildInvalidatedProject w4
              else w4)
      else finish st4
    | Some (st3, None) => finish st3
    end
  end.
End WatchMode.

(** The handles of the timers that were set and not cleared since. *)
Definition outstandingTimers (calls : list TimerCall) : list Z :=
  fold_left
    (fun handles call =>
       match call with
       | SetTimeout _ handle => handles ++ [handle]
       | ClearTimeout handle =>
         List.filter (fun other => negb (other =? handle)%Z) handles
       end)
    calls [].

(** The timer that the state records is the one outstanding timer, and its
    handle counts as set. *)
Definition oneTimer {H : Type} (w : WatchState H) : Prop :=
  match timerToBuildInvalidatedProject w with
  | Some handle =>
    outstandingTimers (timerCalls w) = [handle] ∧ handle ≠ 0%Z
  | None => outstandingTimers (timerCalls w) = []
  end.

(** The flag that a file change was detected is the same. *)
Definition sameFileChangeFlag {H : Type}
  : relation (SolutionBuilderState H) :=
  fun st st' => reportFileChangeDetected st' = reportFileChangeDetected st.

(** A sequence of file changes, each on the configuration or an input of a
    project. *)
Definition fileChanges {H : Type} (timers : TimerHost) (w : WatchState H)
    (changes : list (string * ConfigFileProgramReloadLevel.t))
  : WatchState H :=
  fold_left
    (fun w change =>
       invalidateProjectAndScheduleBuilds timers w change.1 change.2)
    changes w.

(** ** More sample solutions *)
Module MoreSamples.
Import Sample.

(** An environment with another compiler, *)
Definition withCreateProgram {H : Type} (env : Env H)
    (create : H -> ParsedCommandLine -> Asking string ProgramResult) : Env H :=
  mkEnv H (fileExists env) (readFile env) (getModifiedTime env)
    (hostWriteFile env) (hostSetModifiedTime env) (hostDeleteFile env)
    (now env) (hasReportErrorSummary env) (hasTrace env)
    (hasOnWatchStatusChange env) (missingFileModifiedTime env) (toPath env)
    (resolvePath env) (combinePaths env) (fileExtensionIs env) (relName env)
    (resolveProjectReferencePath env) (getParsedCommandLineOfConfigFile env)
    (canJsonReportNoInutFiles env) (getFileNamesFromConfigSpecs env)
    (updateErrorForNoInputFiles env) (wildcardDirectories env)
    (getAllProjectOutputs env) (getFirstProjectOutput env)
    (getOutputPathForBuildInfo env) (isIncrementalCompilation env)
    (getBuildInfo env) (version env) create (listFiles env)
    (emitUsingBuildInfo env) (getErrorCountForSummary env)
    (solutionOptions env) (rootNames env) (watch env).

(** ... and in watch mode or not. *)
Definition withWatch {H : Type} (env : Env H)
    (watching : bool) : Env H :=
  mkEnv H (fileExists env) (readFile env) (getModifiedTime env)
    (hostWriteFile env) (hostSetModifiedTime env) (hostDeleteFile env)
    (now env) (hasReportErrorSummary env) (hasTrace env)
    (hasOnWatchStatusChange env) (missingFileModifiedTime env) (toPath env)
    (resolvePath env) (combinePaths env) (fileExtensionIs env) (relName env)
    (resolveProjectReferencePath env) (getParsedCommandLineOfConfigFile env)
    (canJsonReportNoInutFiles env) (getFileNamesFromConfigSpecs env)
    (updateErrorForNoInputFiles env) (wildcardDirectories env)
    (getAllProjectOutputs env) (getFirstProjectOutput env)
    (getOutputPathForBuildInfo env) (isIncrementalCompilation env)
    (getBuildInfo env) (version env) (createProgram env) (listFiles env)
    (emitUsingBuildInfo env) (getErrorCountForSummary env)
    (solutionOptions env) (rootNames env) watching.

(** The chain with a compiler that finds a syntax error in every project. *)
Definition syntaxErrorEnv : Env Files :=
  withCreateProgram (chainEnv noOptions)
    (fun _ _ =>
       Answer (mkProgramResult [mkDiagnostic true "';' expected"] [] None [])).

(** The chain once the initial build is set up: the three projects are in
    the queue. *)
Definition chainSeeded : SolutionBuilderState Files :=
  default (initialState chainFiles)
    (setupInitialBuild (chainEnv noOptions) 5 (initialState chainFiles)).

(** The chain with the outputs of A and B on disk. *)
Definition chainFilesBuilt : Files :=
  mkFiles
    (list_to_map
       [("A/a.ts", (10%Z, "a")); ("A/a.js", (20%Z, "emitted"));
        ("A/a.d.ts", (20%Z, "emitted")); ("B/b.ts", (10%Z, "b"));
        ("B/b.js", (30%Z, "emitted")); ("B/b.d.ts", (30%Z, "emitted"))])
    100%Z.

(** The chain in watch mode, set up, with the watchers to install. *)
Definition watchEnv : Env Files := withWatch (chainEnv noOptions) true.

Definition watchSeeded : SolutionBuilderState Files :=
  set_watchAllProjectsPending true chainSeeded.

(** The chain once its build order is computed: the configurations are in
    the cache, and the queue is empty. *)
Definition chainOrdered : SolutionBuilderState Files :=
  default (initialState chainFiles)
    (fst <$> getBuildOrder (chainEnv noOptions) 5 (initialState chainFiles)).

(** A host whose timer handles count the calls of the timer functions. *)
Definition countingTimers : TimerHost :=
  mkTimerHost true true (fun calls => Z.of_nat (S (length calls))).

(** The chain in watch mode, set up, with no timer. *)
Definition watching : WatchState Files := mkWatchState chainSeeded None [].
End MoreSamples.
(** * Vocabulary of the statements on writes, references, cycles and files up to date *)

(** ** The writes that fail *)
Section WriteVocabulary.
Context {H : Type} (env : Env H).

(** The diagnostics that the host gives for the writes of the files, one
    write after the other: one for every write that failed. *)
Fixpoint writeFailures (h : H) (files : list OutputFile) : list Diagnostic :=
  match files with
  | [] => []
  | file :: rest =>
    let '(h', failure) :=
      hostWriteFile env h (outputName file) (outputText file)
        (writeByteOrderMark file) in
    match failure with
    | Some d => d :: writeFailures h' rest
    | None => writeFailures h' rest
    end
  end.
End WriteVocabulary.

(** *** Sample hosts for the writes *)
Module WriteSamples.
Import Sample MoreSamples.

(** An environment with another [writeFile], *)
Definition withWriteFile {H : Type} (env : Env H)
    (write : H -> string -> string -> bool -> H * option Diagnostic) : Env H :=
  mkEnv H (fileExists env) (readFile env) (getModifiedTime env)
    write (hostSetModifiedTime env) (hostDeleteFile env)
    (now env) (hasReportErrorSummary env) (hasTrace env)
    (hasOnWatchStatusChange env) (missingFileModifiedTime env) (toPath env)
    (resolvePath env) (combinePaths env) (fileExtensionIs env) (relName env)
    (resolveProjectReferencePath env) (getParsedCommandLineOfConfigFile env)
    (canJsonReportNoInutFiles env) (getFileNamesFromConfigSpecs env)
    (updateErrorForNoInputFiles env) (wildcardDirectories env)
    (getAllProjectOutputs env) (getFirstProjectOutput env)
    (getOutputPathForBuildInfo env) (isIncrementalCompilation env)
    (getBuildInfo env) (version env) (createProgram env) (listFiles env)
    (emitUsingBuildInfo env) (getErrorCountForSummary env)
    (solutionOptions env) (rootNames env) (watch env).

(** ... and with another reader of the build info. *)
Definition withEmitUsingBuildInfo {H : Type} (env : Env H)
    (emit : H -> ParsedCommandLine ->
            Asking ProjectReference (string + (OutputFile * list OutputFile)))
  : Env H :=
  mkEnv H (fileExists env) (readFile env) (getModifiedTime env)
    (hostWriteFile env) (hostSetModifiedTime env) (hostDeleteFile env)
    (now env) (hasReportErrorSummary env) (hasTrace env)
    (hasOnWatchStatusChange env) (missingFileModifiedTime env) (toPath env)
    (resolvePath env) (combinePaths env) (fileExtensionIs env) (relName env)
    (resolveProjectReferencePath env) (getParsedCommandLineOfConfigFile env)
    (canJsonReportNoInutFiles env) (getFileNamesFromConfigSpecs env)
    (updateErrorForNoInputFiles env) (wildcardDirectories env)
    (getAllProjectOutputs env) (getFirstProjectOutput env)
    (getOutputPathForBuildInfo env) (isIncrementalCompilation env)
    (getBuildInfo env) (version env) (createProgram env) (listFiles env)
    emit (getErrorCountForSummary env)
    (solutionOptions env) (rootNames env) (watch env).

(** The chain on a disk where the declaration files cannot be written. *)
Definition readOnlyEnv : Env Files :=
  withWriteFile (chainEnv noOptions)
    (fun h f text bom =>
       if endsWith f Extension_Dts
       then (h, Some (mkDiagnostic true ("Could not write file " +:+ f)))
       else hostWriteFile (chainEnv noOptions) h f text bom).

(** *** Two projects with one output file each: B prepends the output of A *)
Definition bundleConfigs : gmap string ParsedCommandLine :=
  list_to_map
    [("A/tsconfig.json", sampleConfig "A/tsconfig.json" ["A/a.ts"] None true);
     ("B/tsconfig.json",
      sampleConfig "B/tsconfig.json" ["B/b.ts"]
        (Some [mkProjectReference "A" true false]) true)].

Definition bundleOutputs : gmap string (list string) :=
  list_to_map
    [("A/tsconfig.json", ["A/out.js"; "A/out.d.ts"]);
     ("B/tsconfig.json", ["B/out.js"; "B/out.d.ts"])].

(** The build info of a project can be read, and gives the bundle of the
    project once the configurations of its references were asked for. *)
Definition bundleEnv : Env Files :=
  withEmitUsingBuildInfo
    (sampleEnv bundleConfigs bundleOutputs noOptions ["B"])
    (fun _ p =>
       fold_right
         (fun r bundle => Ask r (fun _ => bundle))
         (Answer
            (match default [] (bundleOutputs !! configFilePath (options p)) with
             | js :: _ => inr (mkOutputFile js "bundled" false, [])
             | [] => inl "tsbuildinfo"
             end))
         (default [] (projectReferences p))).

(** The same on a disk where no file can be written. *)
Definition readOnlyBundleEnv : Env Files :=
  withWriteFile bundleEnv
    (fun h f _ _ =>
       (h, Some (mkDiagnostic true ("Could not write file " +:+ f)))).

Definition bundleOrder : list string := ["A/tsconfig.json"; "B/tsconfig.json"].

(** Both projects are built. *)
Definition bundleFiles : Files :=
  mkFiles
    (list_to_map
       [("A/a.ts", (10%Z, "a")); ("A/out.js", (20%Z, "emitted"));
        ("A/out.d.ts", (20%Z, "emitted")); ("B/b.ts", (10%Z, "b"));
        ("B/out.js", (30%Z, "emitted")); ("B/out.d.ts", (30%Z, "emitted"))])
    100%Z.
End WriteSamples.

(** ** The status that a reference gives *)
Section UpstreamVocabulary.
(** The status that a reference which is not passed over gives to the
    referencing project. *)
Definition upstreamStatus (ref : ProjectReference) (status : UpToDateStatus)
  : UpToDateStatus :=
  match status with
  | Unbuildable _ => UpstreamBlocked (path ref)
  | _ => UpstreamOutOfDate (path ref)
  end.
End UpstreamVocabulary.

(** *** Sample states of the fork *)
Module StaleSamples.
Import Sample SampleStates.
(** The fork whose project A is not built, once P is marked as under
    evaluation, and once its first reference, A, is evaluated. *)
Definition staleStart : SolutionBuilderState Files :=
  set_projectStatus <["P/tsconfig.json" := ComputingUpstream]>
    (initialState forkFilesStale).

Definition staleAfterA : SolutionBuilderState Files * list UpToDateStatus :=
  default (staleStart, [])
    (referenceStatuses forkEnv (getUpToDateStatus forkEnv 5) [ref "A"] staleStart).

(** The input of P does not exist either. *)
Definition forkFilesNoInput : Files :=
  mkFiles (list_to_map [("A/a.ts", (10%Z, "a"))]) 100%Z.
End StaleSamples.

(** ** The configurations that the graph builder reads *)
Section EntryVocabulary.
Context {H : Type} (env : Env H).

(** The configuration of a project in [st], as [parseConfigFile] reads it:
    the entry of the cache for the key of the project or, without one, what
    the parser of the host gives for the file. *)
Definition configEntry (st : SolutionBuilderState H) (name : string)
  : ConfigFileCacheEntry :=
  default (getParsedCommandLineOfConfigFile env (hostState st) name)
    (configFileCache st !! toResolvedConfigFilePath env name).

(** What a traversal that started from [st0] has read: the host is the
    one of [st0]; the cache is the one of [st0] for a key without a
    temporary mark; an entry of the cache is an entry of the cache of [st0]
    or the configuration of a project of the order or of the stack; and the
    configuration of every such project is in the cache, under a key with
    a temporary mark. *)
Definition entriesRead (st0 : SolutionBuilderState H) (v : @VisitState H)
  : Prop :=
  hostState (visitState v) = hostState st0
  ∧ (∀ key, key ∉ temporaryMarks v ->
       configFileCache (visitState v) !! key = configFileCache st0 !! key)
  ∧ (∀ key entry,
       configFileCache (visitState v) !! key = Some entry ->
       configFileCache st0 !! key = Some entry
       ∨ ∃ name, name ∈ visitOrder v ++ circularityReportStack v
                 ∧ toResolvedConfigFilePath env name = key
                 ∧ entry = configEntry st0 name)
  ∧ (∀ name, name ∈ visitOrder v ++ circularityReportStack v ->
       configFileCache (visitState v) !! toResolvedConfigFilePath env name
       = Some (configEntry st0 name)
       ∧ toResolvedConfigFilePath env name ∈ temporaryMarks v).
End EntryVocabulary.

(** ** The references that lead back *)
Section CycleVocabulary.
Context {H : Type} (env : Env H).

(** The project of [key] stands in [order] in front of position [i], as a
    test. *)
Definition standsInFront (order : list string) (i : nat) (key : string)
  : bool :=
  bool_decide (key ∈ toResolvedConfigFilePath env <$> take i order).

(** The references of the project at position [i] of [order] that lead
    back: the project they point to does not stand in front, it is the
    project itself or one behind it. *)
Definition backReferences (st : SolutionBuilderState H) (order : list string)
    (i : nat) (name : string) : list ProjectReference :=
  List.filter
    (fun ref => negb (standsInFront order i (referenceKey env ref)))
    (cachedReferences st (toResolvedConfigFilePath env name)).

(** Their number, over the projects of [order]. *)
Definition backReferenceCount (st : SolutionBuilderState H)
    (order : list string) : nat :=
  sum_list (imap (fun i name => length (backReferences st order i name)) order).

(** What the count of the diagnostics asks of a traversal: the marked
    projects are closed under the temporary marks, and no reference is
    flagged [circular]. *)
Definition countable (v : @VisitState H) : Prop :=
  closedUnder env (temporaryMarks v) v ∧ noCircular env (visitState v).

(** The diagnostic for a project that is met again while it is under
    visit. *)
Definition metAgain (v : @VisitState H) (key : string) : nat :=
  if bool_decide (key ∈ temporaryMarks v ∧ key ∉ permanentMarks v) then 1
  else 0.
End CycleVocabulary.

(** ** Up to date on disk *)
Section UpToDateVocabulary.
Context {H : Type} (env : Env H).

(** [createSolutionBuilderState], for what the engine state keeps: a new
    builder on the host, its maps empty, all projects to queue, a summary
    to report, and the watchers to install in watch mode. *)
Definition createSolutionBuilderState (h : H) : SolutionBuilderState H :=
  mkState h [] ∅ ∅ ∅ ∅ ∅ ∅ None false true true (watch env) ∅ ∅ ∅ false.

(** [!project.fileNames.length && !canJsonReportNoInutFiles(project.raw)] *)
Definition isContainer (p : ParsedCommandLine) : bool :=
  bool_decide (fileNames p = [])
  && negb (canJsonReportNoInutFiles env (raw p)).

(** A time between the two bounds of the dates. *)
Definition validDate (t : Date) : Prop :=
  (minimumDate <= t <= maximumDate)%Z.

(** The time of the newest input of a project, as the loop of the
    evaluator over the inputs computes it. *)
Definition newestInputTimeOf (h : H) (p : ParsedCommandLine) : Date :=
  match newestInput env h (fileNames p) None minimumDate with
  | inr (_, t) => t
  | inl _ => minimumDate
  end.

(** The files of a project are up to date on the host [h]: its inputs and
    its expected outputs exist, no output is older than an input or than a
    configuration file of the project, and the build info, if there is one
    to read, has the version of the compiler. *)
Record filesUpToDate (h : H) (p : ParsedCommandLine) : Prop := mkFilesUpToDate {
  upToDate_inputs : ∀ input, input ∈ fileNames p ->
    fileExists env h input = true ∧ validDate (modifiedTimeOf env h input);
  upToDate_outputs : ∀ output, output ∈ getAllProjectOutputs env p ->
    fileExists env h output = true ∧ validDate (modifiedTimeOf env h output);
  upToDate_newer : ∀ input output,
    input ∈ fileNames p -> output ∈ getAllProjectOutputs env p ->
    (modifiedTimeOf env h input <= modifiedTimeOf env h output)%Z;
  upToDate_config : ∀ configFile,
    configFile ∈ configFilePath (options p) :: extendedSourceFiles (options p) ->
    (modifiedTimeOf env h configFile <= maximumDate)%Z
    ∧ ∀ output, output ∈ getAllProjectOutputs env p ->
        (modifiedTimeOf env h configFile <= modifiedTimeOf env h output)%Z;
  upToDate_buildInfo : ∀ path value,
    getOutputPathForBuildInfo env (options p) = Some path ->
    readFile env h path = Some value ->
    truthy value = true ->
    buildInfoVersion (getBuildInfo env value) = version env
}.

(** The references of a project are up to date: each one is to a project
    whose configuration parses, which is not a container, and none of whose
    inputs is newer than an output of the referencing project. *)
Definition referencesUpToDate (h : H) (p : ParsedCommandLine) : Prop :=
  ∀ ref, ref ∈ default [] (projectReferences p) ->
    ∃ q,
      getParsedCommandLineOfConfigFile env h (resolveProjectReferencePath env ref)
      = inl q
      ∧ isContainer q = false
      ∧ ∀ input output,
          input ∈ fileNames q -> output ∈ getAllProjectOutputs env p ->
          (modifiedTimeOf env h input <= modifiedTimeOf env h output)%Z.

(** The solution is up to date on the host [h]: a configuration file has
    one configuration, whatever the name for its key, and every
    configuration that parses is of a container or of a project that is up
    to date, with its references. *)
Definition solutionUpToDate (h : H) : Prop :=
  (∀ name name', toPath env name = toPath env name' ->
     getParsedCommandLineOfConfigFile env h name
     = getParsedCommandLineOfConfigFile env h name')
  ∧ ∀ name p,
      getParsedCommandLineOfConfigFile env h name = inl p ->
      isContainer p = true ∨ (filesUpToDate h p ∧ referencesUpToDate h p).

(** The status that the evaluator gives to a project of such a
    solution. *)
Definition evaluatedAs (h : H) (p : ParsedCommandLine)
    (status : UpToDateStatus) : Prop :=
  if isContainer p then status = ContainerOnly
  else ∃ info, status = UpToDate info
               ∧ newestInputFileTime info = Some (newestInputTimeOf h p).

(** What an evaluation on the host [h] keeps: the host is [h], the entries
    of the config cache are what the parser gives on [h], and a status is
    the sentinel or the status of the cached configuration. *)
Record evaluatedOnDisk (h : H) (st : SolutionBuilderState H) : Prop :=
  mkEvaluatedOnDisk {
  onDisk_host : hostState st = h;
  onDisk_cache : ∀ key entry,
    configFileCache st !! key = Some entry ->
    ∃ name, toPath env name = key
            ∧ getParsedCommandLineOfConfigFile env h name = entry;
  onDisk_status : ∀ key status,
    projectStatus st !! key = Some status ->
    status = ComputingUpstream
    ∨ ∃ p, configFileCache st !! key = Some (inl p) ∧ evaluatedAs h p status
}.

(** The status of a project that the dispatcher passes over. *)
Definition passedByDispatcher (status : UpToDateStatus) : Prop :=
  isUpToDate status = true ∨ status = ContainerOnly.

(** Every entry of the queue is at level None. *)
Definition queuedAtNone (st : SolutionBuilderState H) : Prop :=
  ∀ key level, projectPendingBuild st !! key = Some level ->
               level = ConfigFileProgramReloadLevel.None.

(** Between two states: the host, the config cache and the statuses are
    the same. *)
Definition sameEvaluation : relation (SolutionBuilderState H) :=
  fun st st' =>
    hostState st' = hostState st
    ∧ configFileCache st' = configFileCache st
    ∧ projectStatus st' = projectStatus st.
(** A project of the order is settled: its configuration did not parse,
    or it has a status. *)
Definition settledProject (st : SolutionBuilderState H) (key : string) : Prop :=
  (∃ d, configFileCache st !! key = Some (inr d))
  ∨ is_Some (projectStatus st !! key).
End UpToDateVocabulary.

(** * Properties *)

(** ** The pending-build queue *)
Section QueueFacts.
Context {H : Type} (env : Env H).
Abbreviation State := (SolutionBuilderState H).
Import ConfigFileProgramReloadLevel.

Lemma levelLe_refl a : levelLe a a.
Proof. destruct a; simpl; [lia | done]. Qed.

Lemma levelLe_trans a b c : levelLe a b -> levelLe b c -> levelLe a c.
Proof. destruct a, b, c; simpl; try done; lia. Qed.

Lemma levelLe_max_r (entry : option t) level :
  levelLe (Some level)
    (Some (match entry with
           | Some value => max value level
           | Datatypes.None => level
           end)).
Proof.
  destruct entry as [value|]; simpl; [|lia].
  unfold max, lt. destruct (toZ value <? toZ level)%Z eqn:E; lia.
Qed.

Lemma levelLe_max_l (entry : option t) level :
  levelLe entry
    (Some (match entry with
           | Some value => max value level
           | Datatypes.None => level
           end)).
Proof.
  destruct entry as [value|]; simpl; [|done].
  unfold max, lt. destruct (toZ value <? toZ level)%Z eqn:E; lia.
Qed.

Local Arguments levelLe : simpl never.

Lemma addProjToQueue_pending (st : State) proj level key :
  projectPendingBuild (addProjToQueue st proj level) !! key =
  if decide (proj = key)
  then Some (match projectPendingBuild st !! proj with
             | Some value => max value level
             | Datatypes.None => level
             end)
  else projectPendingBuild st !! key.
Proof.
  unfold addProjToQueue, max.
  destruct (projectPendingBuild st !! proj) as [value|] eqn:E.
  - destruct (lt value level); simpl; case_decide; subst;
      rewrite ?lookup_insert_eq, ?lookup_insert_ne; auto.
  - simpl. case_decide; subst; rewrite ?lookup_insert_eq, ?lookup_insert_ne; auto.
Qed.

Lemma addProjToQueue_le (st : State) proj level key :
  levelLe (projectPendingBuild st !! key)
          (projectPendingBuild (addProjToQueue st proj level) !! key).
Proof.
  rewrite addProjToQueue_pending. case_decide; [subst | apply levelLe_refl].
  apply levelLe_max_l.
Qed.

Lemma addProjToQueue_lower (st : State) proj level value :
  projectPendingBuild st !! proj = Some value ->
  (toZ level <= toZ value)%Z ->
  addProjToQueue st proj level = st.
Proof.
  intros E Hle. unfold addProjToQueue. rewrite E. unfold lt.
  destruct (toZ value <? toZ level)%Z eqn:E'; [lia | done].
Qed.

Lemma enqueueAll_le (st : State) ops key :
  levelLe (projectPendingBuild st !! key)
          (projectPendingBuild (enqueueAll st ops) !! key).
Proof.
  revert st. induction ops as [|[proj level] ops IH]; intros st; simpl.
  - apply levelLe_refl.
  - eapply levelLe_trans; [apply addProjToQueue_le | apply IH].
Qed.

Lemma enqueueAll_bound (st : State) ops key level :
  level ∈ requestsFor key ops ->
  levelLe (Some level) (projectPendingBuild (enqueueAll st ops) !! key).
Proof.
  revert st. induction ops as [|[proj l] ops IH]; intros st Hin.
  - by apply elem_of_nil in Hin.
  - unfold requestsFor in Hin. simpl in Hin. simpl.
    case_bool_decide as Hk; simpl in *.
    + subst proj. apply elem_of_cons in Hin as [->|Hin].
      * eapply levelLe_trans; [|apply enqueueAll_le].
        rewrite addProjToQueue_pending. rewrite decide_True by done.
        apply levelLe_max_r.
      * by apply IH.
    + by apply IH.
Qed.

Lemma enqueueAll_attained (st : State) ops key level :
  projectPendingBuild (enqueueAll st ops) !! key = Some level ->
  projectPendingBuild st !! key = Some level ∨ level ∈ requestsFor key ops.
Proof.
  revert st. induction ops as [|[proj l] ops IH]; intros st Hl; simpl in *.
  - by left.
  - apply IH in Hl as [Hl|Hl].
    + rewrite addProjToQueue_pending in Hl. unfold requestsFor. simpl.
      case_decide as Hk.
      * subst proj. rewrite bool_decide_true by done. simpl.
        destruct (projectPendingBuild st !! key) as [value|] eqn:E.
        -- unfold max in Hl. destruct (lt value l); simplify_eq.
           ++ right. apply elem_of_cons. by left.
           ++ by left.
        -- simplify_eq. right. apply elem_of_cons. by left.
      * by left.
    + right. unfold requestsFor in *. simpl.
      case_bool_decide; simpl; [apply elem_of_cons; by right | done].
Qed.

End QueueFacts.

(** ** Downstream propagation is gated *)
Section PropagationFacts.
Context {H : Type} (env : Env H).

(** C4. [queueReferencingProjects] leaves the whole engine state as it is
    (nothing is enqueued, no status is changed) when an error bit is set in
    the build result, and also when the project that was just built, the
    producing one, is not composite: the option that is tested is the one of
    the [config] passed in, which is the configuration of the built
    project. *)
Theorem queueReferencingProjects_gated
    (st : SolutionBuilderState H) (project projectPath : string)
    (projectIndex : nat) (config : ParsedCommandLine) (order : list string)
    (buildResult : Z) :
  (Z.land buildResult BuildResultFlags.AnyErrors ≠ 0%Z ->
   queueReferencingProjects env st project projectPath projectIndex config
     order buildResult = st)
  ∧ (composite (options config) = false ->
     queueReferencingProjects env st project projectPath projectIndex config
       order buildResult = st).
Proof.
  unfold queueReferencingProjects, BuildResultFlags.has. split.
  - intros Herr. apply Z.eqb_neq in Herr. by rewrite Herr.
  - intros Hcomp. rewrite Hcomp. simpl.
    by destruct (negb _).
Qed.
End PropagationFacts.

(** ** Status of a project whose configuration did not parse *)
Section UnparsedFacts.
Context {H : Type} (env : Env H).

Lemma getUpToDateStatus_undefined (fuel : nat) (st : SolutionBuilderState H)
    (resolvedPath : string) :
  getUpToDateStatus env fuel st None resolvedPath
  = Some (st, Unbuildable "File deleted mid-build").
Proof. by destruct fuel. Qed.

(** C9. Status lookup is total on projects whose configuration failed to
    parse: whatever the fuel, [getUpToDateStatusOfProject] and the evaluator
    return a status, and it is [Unbuildable] with the reason
    "File deleted mid-build"; the engine state is the one [parseConfigFile]
    leaves. *)
Theorem status_of_unparsed_project
    (fuel : nat) (st : SolutionBuilderState H) (project : string) :
  let configFileName := resolveProjectName env project in
  let configFilePath := toResolvedConfigFilePath env configFileName in
  (parseConfigFile env st configFileName configFilePath).2 = None ->
  getUpToDateStatusOfProject env fuel st project
  = Some ((parseConfigFile env st configFileName configFilePath).1,
          Unbuildable "File deleted mid-build")
  ∧ ∀ resolvedPath,
      getUpToDateStatus env fuel st None resolvedPath
      = Some (st, Unbuildable "File deleted mid-build").
Proof.
  intros configFileName configFilePath Hparse. split.
  - unfold getUpToDateStatusOfProject. fold configFileName configFilePath.
    destruct (parseConfigFile env st configFileName configFilePath)
      as [st1 parsed] eqn:E.
    simpl in *. subst parsed. apply getUpToDateStatus_undefined.
  - intros resolvedPath. apply getUpToDateStatus_undefined.
Qed.
End UnparsedFacts.

(** ** Frame lemmas of the config cache *)
Section ParseFacts.
Context {H : Type} (env : Env H).
Abbreviation State := (SolutionBuilderState H).

(** [parseConfigFile] changes nothing but the config cache. *)
Lemma parseConfigFile_frame (st : State) name key :
  ∃ c, (parseConfigFile env st name key).1 = set_configFileCache (fun _ => c) st.
Proof.
  unfold parseConfigFile. destruct (configFileCache st !! key); simpl.
  - exists (configFileCache st). by destruct st.
  - eexists. reflexivity.
Qed.

Lemma parseConfigFile_projectStatus (st : State) name key :
  projectStatus (parseConfigFile env st name key).1 = projectStatus st.
Proof. destruct (parseConfigFile_frame st name key) as [c ->]. done. Qed.

Lemma parseConfigFile_hostState (st : State) name key :
  hostState (parseConfigFile env st name key).1 = hostState st.
Proof. destruct (parseConfigFile_frame st name key) as [c ->]. done. Qed.

Lemma parseConfigFile_trace (st : State) name key :
  trace (parseConfigFile env st name key).1 = trace st.
Proof. destruct (parseConfigFile_frame st name key) as [c ->]. done. Qed.

Lemma parseConfigFile_pending (st : State) name key :
  projectPendingBuild (parseConfigFile env st name key).1 = projectPendingBuild st.
Proof. destruct (parseConfigFile_frame st name key) as [c ->]. done. Qed.

(** Entries of the cache are never replaced by a parse. *)
Lemma parseConfigFile_cache_mono (st : State) name key k entry :
  configFileCache st !! k = Some entry ->
  configFileCache (parseConfigFile env st name key).1 !! k = Some entry.
Proof.
  unfold parseConfigFile. intros Hk.
  destruct (configFileCache st !! key) eqn:E; simpl; [done|].
  rewrite lookup_insert_ne; [done | congruence].
Qed.

(** After a parse the key is cached, and the answer is the cached entry. *)
Lemma parseConfigFile_cached (st : State) name key :
  ∃ entry,
    configFileCache (parseConfigFile env st name key).1 !! key = Some entry
    ∧ (parseConfigFile env st name key).2 = isParsedCommandLine entry.
Proof.
  unfold parseConfigFile.
  destruct (configFileCache st !! key) as [entry|] eqn:E; simpl.
  - by exists entry.
  - eexists. by rewrite lookup_insert_eq.
Qed.

(** A configuration that a parse answers is the cached one. *)
Lemma parseConfigFile_parsed (st : State) name key st' config :
  parseConfigFile env st name key = (st', Some config) ->
  configFileCache st' !! key = Some (inl config).
Proof.
  intros Hparse. destruct (parseConfigFile_cached st name key) as (entry & Hc & Ha).
  rewrite Hparse in Hc, Ha. simpl in *. rewrite Hc.
  destruct entry; simplify_eq/=. done.
Qed.

Lemma parseConfigFile_within U (st : State) name :
  configsWithin env U st ->
  configsWithin env U (parseConfigFile env st name (toPath env name)).1
  ∧ (is_Some (parseConfigFile env st name (toPath env name)).2 ->
     toPath env name ∈ U).
Proof.
  intros [Hc Hp]. unfold parseConfigFile.
  destruct (configFileCache st !! toPath env name) as [entry|] eqn:E; simpl.
  - split; [by split|]. intros [p Hs]. destruct entry; simplify_eq/=. eauto.
  - split.
    + split; [|done]. intros key parsed Hk. simpl in Hk.
      destruct (decide (toPath env name = key)) as [<-|Hne].
      * rewrite lookup_insert_eq in Hk. simplify_eq. eauto.
      * rewrite lookup_insert_ne in Hk by done. eauto.
    + intros [p Hs].
      destruct (getParsedCommandLineOfConfigFile env (hostState st) name) eqn:E';
        simplify_eq/=. eauto.
Qed.
End ParseFacts.

(** ** The sentinel of the evaluator *)
Section EvaluatorFacts.
Context {H : Type} (env : Env H).
Abbreviation State := (SolutionBuilderState H).

Lemma sameComputing_refl (st : State) : sameComputing st st.
Proof. by intros key. Qed.

Lemma sameComputing_trans (st1 st2 st3 : State) :
  sameComputing st1 st2 -> sameComputing st2 st3 -> sameComputing st1 st3.
Proof. intros H12 H23 key. etrans; [apply H23 | apply H12]. Qed.

Lemma sameComputing_parse (st : State) name key :
  sameComputing st (parseConfigFile env st name key).1.
Proof. intros k. by rewrite parseConfigFile_projectStatus. Qed.

(** The loop over the references keeps the sentinels where they are and
    never answers with the sentinel. *)
Lemma checkUpstream_computing rec scan refs (st : State) up st' r :
  (∀ st p k st' s, rec st p k = Some (st', s) -> sameComputing st st') ->
  checkUpstream env rec scan refs st up = Some (st', r) ->
  sameComputing st st' ∧ (∀ s, r = inl s -> s ≠ ComputingUpstream).
Proof.
  intros Hrec. revert st up. induction refs as [|ref refs IH]; intros st up Hc.
  - simpl in Hc. simplify_eq. split; [apply sameComputing_refl | done].
  - simpl in Hc.
    pose proof (sameComputing_parse st (resolveProjectReferencePath env ref)
                  (toResolvedConfigFilePath env (resolveProjectReferencePath env ref)))
      as Hparse.
    destruct (parseConfigFile env st _ _) as [st1 parsed]. simpl in Hparse.
    destruct (rec st1 parsed _) as [[st2 refStatus]|] eqn:Er; [|done].
    apply Hrec in Er.
    assert (sameComputing st st2) as Hst2
      by (eapply sameComputing_trans; eauto).
    assert (∀ up', checkUpstream env rec scan refs st2 up' = Some (st', r) ->
              sameComputing st st' ∧ (∀ s, r = inl s -> s ≠ ComputingUpstream))
      as Hcont.
    { intros up' Hc'. apply IH in Hc' as [? ?].
      split; [eapply sameComputing_trans; eauto | done]. }
    destruct refStatus; try (simplify_eq; split; [done | by intros ? [= <-]]);
      try (by eapply Hcont).
    repeat case_match; try (by eapply Hcont);
      simplify_eq; split; try done; by intros ? [= <-].
Qed.

Lemma checkConfigFileUpToDateStatus_self h configFile time name status :
  checkConfigFileUpToDateStatus env h configFile time name = Some status ->
  ∃ output input, status = OutOfDateWithSelf output input.
Proof.
  unfold checkConfigFileUpToDateStatus. case_match; [|done].
  intros [= <-]. eauto.
Qed.

Lemma forEachFirst_found {A B} (P : B -> Prop) (f : A -> option B) l r :
  (∀ x y, f x = Some y -> P y) ->
  forEachFirst f l = Some r -> P r.
Proof.
  intros Hf. induction l as [|x l IH]; simpl; [done|].
  destruct (f x) eqn:E; [|done]. intros [= <-]. eauto.
Qed.

(** The status that [statusAfterUpstream] answers with when a configuration
    file is newer than the oldest output. *)
Lemma configStatus_self h (files : list string) time name status :
  forEachFirst
    (fun configFile => checkConfigFileUpToDateStatus env h configFile time name)
    files = Some status ->
  ∃ output input, status = OutOfDateWithSelf output input.
Proof.
  apply (forEachFirst_found (fun s => ∃ output input, s = OutOfDateWithSelf output input)).
  intros x y. apply checkConfigFileUpToDateStatus_self.
Qed.

Lemma statusAfterUpstream_computing (st : State) project resolvedPath
    newestInputName newestInputTime scan up st' status :
  statusAfterUpstream env st project resolvedPath newestInputName
    newestInputTime scan up = (st', status) ->
  projectStatus st' = projectStatus st
  ∧ hostState st' = hostState st
  ∧ configFileCache st' = configFileCache st
  ∧ status ≠ ComputingUpstream.
Proof.
  unfold statusAfterUpstream.
  repeat case_match; intros [= <- <-]; simpl; repeat split; try done;
    try match goal with
        | Hc : checkConfigFileUpToDateStatus _ _ _ _ _ = Some _ |- _ =>
          apply checkConfigFileUpToDateStatus_self in Hc as (? & ? & ->)
        | Hf : forEachFirst _ _ = Some _ |- _ =>
          apply configStatus_self in Hf as (? & ? & ->)
        end;
    by simplify_eq.
Qed.

Lemma getUpToDateStatusWorker_computing rec (st : State) project resolvedPath
    st' status :
  (∀ st p k st' s, rec st p k = Some (st', s) -> sameComputing st st') ->
  getUpToDateStatusWorker env rec st project resolvedPath = Some (st', status) ->
  status ≠ ComputingUpstream
  ∧ ∀ key, key ≠ resolvedPath ->
      (projectStatus st' !! key = Some ComputingUpstream
       ↔ projectStatus st !! key = Some ComputingUpstream).
Proof.
  intros Hrec. unfold getUpToDateStatusWorker.
  destruct (newestInput _ _ _ _) as [inputFile|[newestName newestTime]];
    [intros [= <- <-]; by split|].
  case_match; [intros [= <- <-]; by split|].
  destruct (projectReferences project) as [refs|].
  - destruct (checkUpstream _ _ _ _ _ _) as [[st1 [s|up]]|] eqn:Ec; [| |done].
    + intros [= <- <-]. apply (checkUpstream_computing _ _ _ _ _ _ _ Hrec) in Ec
        as [Hsame Hs].
      split; [by apply Hs|]. intros key Hne. etrans; [apply Hsame|]. simpl.
      by rewrite lookup_insert_ne.
    + intros [= Hr]. apply (checkUpstream_computing _ _ _ _ _ _ _ Hrec) in Ec
        as [Hsame _].
      apply statusAfterUpstream_computing in Hr as (Hp & _ & _ & Hne).
      split; [done|].
      intros key Hk. rewrite Hp. etrans; [apply Hsame|]. simpl.
      by rewrite lookup_insert_ne.
  - intros [= Hr].
    apply statusAfterUpstream_computing in Hr as (Hp & _ & _ & Hne).
    split; [done|]. intros key Hk. by rewrite Hp.
Qed.

(** The evaluator keeps the sentinels where they are, and answers with the
    sentinel only for a key that holds it (a key that is being evaluated). *)
Lemma getUpToDateStatus_computing fuel (st : State) project resolvedPath
    st' status :
  getUpToDateStatus env fuel st project resolvedPath = Some (st', status) ->
  sameComputing st st'
  ∧ (status = ComputingUpstream ->
     projectStatus st !! resolvedPath = Some ComputingUpstream).
Proof.
  revert st project resolvedPath st' status.
  induction fuel as [|fuel IH]; intros st project resolvedPath st' status.
  - simpl. destruct project as [p|]; [|intros [= <- <-]; by split].
    destruct (projectStatus st !! resolvedPath) as [prior|] eqn:E; [|done].
    intros [= <- <-]. split; [apply sameComputing_refl | by intros ->].
  - simpl. destruct project as [p|]; [|intros [= <- <-]; by split].
    destruct (projectStatus st !! resolvedPath) as [prior|] eqn:E.
    { intros [= <- <-]. split; [apply sameComputing_refl | by intros ->]. }
    destruct (getUpToDateStatusWorker _ _ _ _ _) as [[st1 actual]|] eqn:Ew;
      [|done].
    intros [= <- <-].
    apply getUpToDateStatusWorker_computing in Ew as [Hne Hothers];
      [|intros; by eapply IH].
    split; [|done]. intros key. simpl.
    destruct (decide (resolvedPath = key)) as [<-|Hk].
    + rewrite lookup_insert_eq, E. split; [by intros [= ->] | done].
    + rewrite lookup_insert_ne by done. by apply Hothers.
Qed.

(** *** Termination of the evaluator *)

Lemma configsWithin_frame U (st st' : State) :
  configFileCache st' = configFileCache st ->
  hostState st' = hostState st ->
  configsWithin env U st -> configsWithin env U st'.
Proof. intros Hc Hh [? ?]. split; rewrite ?Hc, ?Hh; done. Qed.

Lemma measure_mono (U A B : gset string) :
  A ⊆ B -> size (U ∖ B) ≤ size (U ∖ A).
Proof. intros HAB. apply subseteq_size. set_solver. Qed.

Lemma measure_insert (U A : gset string) key :
  key ∈ U -> key ∉ A -> size (U ∖ ({[key]} ∪ A)) < size (U ∖ A).
Proof.
  intros HU HA. apply subset_size. split; [set_solver|].
  intros Hsub. assert (key ∈ U ∖ ({[key]} ∪ A)) by set_solver. set_solver.
Qed.

Lemma checkUpstream_total U fuel rec scan refs (st : State) up :
  evaluates env U fuel rec ->
  configsWithin env U st ->
  size (U ∖ dom (projectStatus st)) < fuel ->
  ∃ st' r,
    checkUpstream env rec scan refs st up = Some (st', r)
    ∧ configsWithin env U st'
    ∧ dom (projectStatus st) ⊆ dom (projectStatus st').
Proof.
  intros Hrec. revert st up.
  induction refs as [|ref refs IH]; intros st up Hw Hm; simpl.
  - by exists st, (inr up).
  - pose proof (parseConfigFile_within env U st
                  (resolveProjectReferencePath env ref) Hw) as [Hw1 Hin].
    pose proof (parseConfigFile_projectStatus env st
                  (resolveProjectReferencePath env ref)
                  (toPath env (resolveProjectReferencePath env ref))) as Hps.
    unfold toResolvedConfigFilePath.
    destruct (parseConfigFile env st _ _) as [st1 parsed]. simpl in *.
    destruct (Hrec st1 parsed (toPath env (resolveProjectReferencePath env ref)))
      as (st2 & refStatus & -> & Hw2 & Hdom); [done | done | by rewrite Hps |].
    rewrite Hps in Hdom.
    assert (∀ up', ∃ st' r,
              checkUpstream env rec scan refs st2 up' = Some (st', r)
              ∧ configsWithin env U st'
              ∧ dom (projectStatus st) ⊆ dom (projectStatus st')) as Hcont.
    { intros up'. destruct (IH st2 up' Hw2) as (st' & r & Hc & Hw' & Hd').
      - eapply Nat.le_lt_trans; [by apply measure_mono | done].
      - exists st', r. split; [done|]. split; [done | set_solver]. }
    destruct refStatus; try (by eexists _, _); try apply Hcont.
    repeat case_match; try apply Hcont; by eexists _, _.
Qed.

Lemma getUpToDateStatusWorker_total U fuel rec (st : State) project resolvedPath :
  evaluates env U fuel rec ->
  configsWithin env U st ->
  resolvedPath ∈ U ->
  resolvedPath ∉ dom (projectStatus st) ->
  size (U ∖ dom (projectStatus st)) < S fuel ->
  ∃ st' status,
    getUpToDateStatusWorker env rec st project resolvedPath = Some (st', status)
    ∧ configsWithin env U st'
    ∧ dom (projectStatus st) ⊆ dom (projectStatus st').
Proof.
  intros Hrec Hw HU Hfresh Hm. unfold getUpToDateStatusWorker.
  destruct (newestInput _ _ _ _) as [inputFile|[newestName newestTime]];
    [by eexists _, _|].
  case_match; [by eexists _, _|].
  destruct (projectReferences project) as [refs|].
  - destruct (checkUpstream_total U fuel rec
                (scanOutputs env (hostState st) newestTime
                   (getAllProjectOutputs env project) initialOutputScan)
                refs (set_projectStatus <[resolvedPath := ComputingUpstream]> st)
                (mkUpstreamScan false false None) Hrec)
      as (st1 & r & -> & Hw1 & Hdom).
    + by eapply configsWithin_frame.
    + simpl. rewrite dom_insert_L.
      pose proof (measure_insert U (dom (projectStatus st)) resolvedPath HU Hfresh).
      lia.
    + simpl in Hdom. rewrite dom_insert_L in Hdom.
      destruct r as [status|up]; [exists st1, status; set_solver|].
      destruct (statusAfterUpstream env st1 project resolvedPath newestName
                  newestTime _ up) as [st' status] eqn:Es.
      apply statusAfterUpstream_computing in Es as (Hp & Hh & Hc & _).
      exists st', status. split; [done|]. split.
      * by eapply configsWithin_frame.
      * rewrite Hp. set_solver.
  - destruct (statusAfterUpstream env st project resolvedPath newestName
                newestTime _ (mkUpstreamScan false false None))
      as [st' status] eqn:Es.
    apply statusAfterUpstream_computing in Es as (Hp & Hh & Hc & _).
    exists st', status. split; [done|]. split.
    + by eapply configsWithin_frame.
    + by rewrite Hp.
Qed.

(** With fuel above the number of keys of [U] without a status the
    evaluator answers. *)
Lemma getUpToDateStatus_total U fuel :
  evaluates env U fuel (getUpToDateStatus env fuel).
Proof.
  induction fuel as [|fuel IH]; intros st project resolvedPath Hw HU Hm;
    [lia|].
  simpl. destruct project as [p|]; [|by eexists _, _].
  destruct (projectStatus st !! resolvedPath) as [prior|] eqn:E;
    [by eexists _, _|].
  destruct (getUpToDateStatusWorker_total U fuel (getUpToDateStatus env fuel)
              st p resolvedPath IH Hw) as (st' & status & -> & Hw' & Hdom);
    [by apply HU | by apply not_elem_of_dom | done |].
  eexists _, _. split; [done|]. split.
  - by eapply configsWithin_frame.
  - simpl. rewrite dom_insert_L. set_solver.
Qed.

(** C7. The sentinel is not observable outside of the evaluator.  In a
    state whose status map does not hold [ComputingUpstream], and with fuel
    above the number of projects of the host, the evaluation of a project
    returns; the status it returns is not [ComputingUpstream]; and no entry
    of the status map it leaves is [ComputingUpstream]: every sentinel
    written before the recursion on the references has been overwritten. *)
Theorem computingUpstream_not_observable
    (U : gset string) (fuel : nat) (st : State)
    (project : option ParsedCommandLine) (resolvedPath : string) :
  noComputingUpstream st ->
  configsWithin env U st ->
  (is_Some project -> resolvedPath ∈ U) ->
  size U < fuel ->
  ∃ st' status,
    getUpToDateStatus env fuel st project resolvedPath = Some (st', status)
    ∧ status ≠ ComputingUpstream
    ∧ noComputingUpstream st'.
Proof.
  intros Hno Hw HU Hfuel.
  destruct (getUpToDateStatus_total U fuel st project resolvedPath Hw HU)
    as (st' & status & Hr & _ & _).
  { eapply Nat.le_lt_trans; [|done]. apply subseteq_size. set_solver. }
  exists st', status. split; [done|].
  apply getUpToDateStatus_computing in Hr as [Hsame Hstatus].
  split.
  - intros ->. by apply (Hno resolvedPath), Hstatus.
  - intros key Hk. by apply (Hno key), Hsame.
Qed.
End EvaluatorFacts.

(** ** Priority of the upstream statuses over a missing output *)
Section PriorityFacts.
Context {H : Type} (env : Env H).
Abbreviation State := (SolutionBuilderState H).
Abbreviation Evaluator :=
  (State -> option ParsedCommandLine -> string -> option (State * UpToDateStatus)).

(** When the loop runs to its end, every reference was evaluated and was
    passed over. *)
Lemma checkUpstream_completed (rec : Evaluator) scan refs (st : State) up st' up' :
  checkUpstream env rec scan refs st up = Some (st', inr up') ->
  ∃ statuses,
    referenceStatuses env rec refs st = Some (st', statuses)
    ∧ Forall passedOver statuses.
Proof.
  revert st up. induction refs as [|ref refs IH]; intros st up Hc; simpl in *.
  - simplify_eq. by exists [].
  - destruct (parseConfigFile env st _ _) as [st1 parsed].
    destruct (rec st1 parsed _) as [[st2 status]|]; [|done].
    assert (∀ up1, passedOver status ->
              checkUpstream env rec scan refs st2 up1 = Some (st', inr up') ->
              ∃ statuses,
                match referenceStatuses env rec refs st2 with
                | Some (st3, statuses0) => Some (st3, status :: statuses0)
                | None => None
                end = Some (st', statuses) ∧ Forall passedOver statuses) as Hcont.
    { intros up1 Hp Hc1. apply IH in Hc1 as (statuses & -> & Hall).
      exists (status :: statuses). split; [done | by constructor]. }
    destruct status; try done;
      try (eapply Hcont; [by right | done]).
    repeat case_match; try done; (eapply Hcont; [by left | done]).
Qed.

(** A status returned from inside of the loop is one of the three upstream
    statuses. *)
Lemma checkUpstream_returned (rec : Evaluator) scan refs (st : State) up st' status :
  checkUpstream env rec scan refs st up = Some (st', inl status) ->
  (∃ name, status = UpstreamBlocked name)
  ∨ (∃ name, status = UpstreamOutOfDate name)
  ∨ (∃ output name, status = OutOfDateWithUpstream output name).
Proof.
  revert st up. induction refs as [|ref refs IH]; intros st up Hc; simpl in *;
    [done|].
  destruct (parseConfigFile env st _ _) as [st1 parsed].
  destruct (rec st1 parsed _) as [[st2 refStatus]|]; [|done].
  destruct refStatus; repeat case_match; simplify_eq; eauto 6.
Qed.

Lemma statusAfterUpstream_missing (st : State) project resolvedPath
    newestName newestTime scan up st' missing :
  statusAfterUpstream env st project resolvedPath newestName newestTime scan up
  = (st', OutputMissing missing) ->
  scanMissingOutputFileName scan = Some missing.
Proof.
  unfold statusAfterUpstream.
  destruct (scanMissingOutputFileName scan); [by intros [= <- <-]|].
  repeat case_match; intros [= <- Hs];
    try match goal with
        | Hc : checkConfigFileUpToDateStatus _ _ _ _ _ = Some _ |- _ =>
          apply checkConfigFileUpToDateStatus_self in Hc as (? & ? & ->)
        | Hf : forEachFirst _ _ = Some _ |- _ =>
          apply configStatus_self in Hf as (? & ? & ->)
        end;
    by simplify_eq.
Qed.

End PriorityFacts.

(** ** Frame lemmas *)
Section FrameInstances.
Context {H : Type} (env : Env H).
Abbreviation State := (SolutionBuilderState H).

Lemma outputWrites_app t1 t2 :
  outputWrites (t1 ++ t2) = outputWrites t1 ++ outputWrites t2.
Proof. unfold outputWrites. apply List.filter_app. Qed.

Lemma outputWrites_diagnostics (ds : list Diagnostic) :
  outputWrites (ReportDiagnostic <$> ds) = [].
Proof. induction ds; simpl; auto. Qed.

Lemma outputWrites_fileNames (l : list string) :
  outputWrites (TraceFileName <$> l) = [].
Proof. induction l; simpl; auto. Qed.

Global Instance sameOutputs_frame : Frame (@sameOutputs H).
Proof.
  split; try (by intros; split).
  - split; [by intros st|].
    intros st1 st2 st3 [Hh1 Ht1] [Hh2 Ht2]. split; congruence.
  - intros st events Hev. split; [done|]. simpl.
    by rewrite outputWrites_app, Hev, app_nil_r.
Qed.

Global Instance sameOutputs_cache : FrameCache (@sameOutputs H).
Proof. by intros st f. Qed.

Global Instance sameOutputs_pending : FramePending (@sameOutputs H).
Proof. by intros st f. Qed.

Global Instance sameOutputs_control : FrameControl (@sameOutputs H).
Proof. by split. Qed.

Global Instance sameControl_frame : Frame (@sameControl H).
Proof.
  split; try (by intros; repeat split).
  split; [by intros st|].
  intros st1 st2 st3 (? & ? & ? & ? & ?) (? & ? & ? & ? & ?).
  repeat split; congruence.
Qed.

Global Instance sameControl_cache : FrameCache (@sameControl H).
Proof. by intros st f. Qed.

Global Instance sameControl_pending : FramePending (@sameControl H).
Proof. by intros st f. Qed.

Global Instance sameControl_host : FrameHost (@sameControl H).
Proof. by split. Qed.

Global Instance sameSchedule_frame : Frame (@sameSchedule H).
Proof.
  split; try (by intros; repeat split).
  split; [by intros st|].
  intros st1 st2 st3 [Hc1 Hp1] [Hc2 Hp2].
  split; [by etrans | congruence].
Qed.

Global Instance sameSchedule_cache : FrameCache (@sameSchedule H).
Proof. by intros st f. Qed.

Global Instance pendingShrinks_frame : Frame (@pendingShrinks H).
Proof.
  split; try (by intros; intros key).
  split; [by intros st key|].
  intros st1 st2 st3 H12 H23 key Hk. by apply H23, H12.
Qed.

Global Instance pendingShrinks_cache : FrameCache (@pendingShrinks H).
Proof. by intros st f key. Qed.

Global Instance pendingShrinks_delete : FramePendingDelete (@pendingShrinks H).
Proof.
  intros st key k Hk. simpl.
  destruct (decide (key = k)) as [->|Hne].
  - apply lookup_delete_eq.
  - by rewrite lookup_delete_ne.
Qed.

Global Instance framePending_delete (R : relation State) `{!FramePending R} :
  FramePendingDelete R.
Proof. intros st key. apply frame_pending. Qed.

(** A relation that respects every update of the cache respects the ones
    the engine makes. *)
Global Instance frameCache_configs (R : relation State)
    `{!Frame R, !FrameCache R} : FrameConfigs env R.
Proof.
  split.
  - intros st name. unfold parseConfigFile. case_match; simpl;
      [reflexivity | apply frame_configFileCache].
  - intros st key old new _. apply frame_configFileCache.
Qed.

Global Instance staysWithin_frame U : Frame (staysWithin env U).
Proof.
  split; try (intros st f Hw; by apply (configsWithin_frame env U st)).
  - split; [by intros st Hw|]. intros st1 st2 st3 H12 H23 Hw. by apply H23, H12.
  - intros st events _ Hw. by apply (configsWithin_frame env U st).
Qed.

Global Instance staysWithin_pending U : FramePending (staysWithin env U).
Proof. intros st f Hw. by apply (configsWithin_frame env U st). Qed.

Global Instance staysWithin_control U : FrameControl (staysWithin env U).
Proof. split; intros st f Hw; by apply (configsWithin_frame env U st). Qed.

Global Instance staysWithin_configs U : FrameConfigs env (staysWithin env U).
Proof.
  split.
  - intros st name Hw. by apply (parseConfigFile_within env U st name).
  - intros st key old new Hold [Hc Hp]. split; [|done].
    intros k parsed Hk. simpl in Hk.
    destruct (decide (key = k)) as [<-|Hne].
    + eauto.
    + rewrite lookup_insert_ne in Hk by done. eauto.
Qed.

Global Instance onVisit_preorder (R : relation State) `{!PreOrder R} :
  PreOrder (@onVisit H R).
Proof.
  split.
  - intros v. unfold onVisit. reflexivity.
  - intros v1 v2 v3. unfold onVisit. apply transitivity.
Qed.

Global Instance onEmit_preorder (R : relation State) `{!PreOrder R} :
  PreOrder (@onEmit H R).
Proof.
  split.
  - intros v. unfold onEmit. reflexivity.
  - intros v1 v2 v3. unfold onEmit. apply transitivity.
Qed.
End FrameInstances.

(** One step towards a goal [R st (f st)], from the outermost update in. *)
Ltac frame_step :=
  first
    [ reflexivity
    | eassumption
    | match goal with
      | |- _ _ (set_configFileCache _ _) => etrans; [|apply frame_configFileCache]
      | |- _ _ (set_projectStatus _ _) => etrans; [|apply frame_projectStatus]
      | |- _ _ (set_buildInfoChecked _ _) => etrans; [|apply frame_buildInfoChecked]
      | |- _ _ (set_diagnostics _ _) => etrans; [|apply frame_diagnostics]
      | |- _ _ (set_projectErrorsReported _ _) =>
        etrans; [|apply frame_projectErrorsReported]
      | |- _ _ (set_allWatchedWildcardDirectories _ _) =>
        etrans; [|apply frame_allWatchedWildcardDirectories]
      | |- _ _ (set_allWatchedInputFiles _ _) =>
        etrans; [|apply frame_allWatchedInputFiles]
      | |- _ _ (set_allWatchedConfigFiles _ _) =>
        etrans; [|apply frame_allWatchedConfigFiles]
      | |- _ _ (set_projectPendingBuild (delete _) _) =>
        etrans; [|apply frame_pending_delete]
      | |- _ _ (set_projectPendingBuild _ _) => etrans; [|apply frame_pending]
      | |- _ _ (set_buildOrder _ _) => etrans; [|apply frame_buildOrder]
      | |- _ _ (set_cache _ _) => etrans; [|apply frame_cache]
      | |- _ _ (set_allProjectBuildPending _ _) =>
        etrans; [|apply frame_allProjectBuildPending]
      | |- _ _ (set_needsSummary _ _) => etrans; [|apply frame_needsSummary]
      | |- _ _ (set_watchAllProjectsPending _ _) =>
        etrans; [|apply frame_watchAllProjectsPending]
      | |- _ _ (set_hostState _ _) => etrans; [|apply frame_hostState]
      | |- _ _ (set_trace (fun t => t ++ _) _) =>
        etrans;
        [|first [ apply frame_events;
                  first [ reflexivity | apply outputWrites_diagnostics
                        | apply outputWrites_fileNames ]
                | apply frame_trace ]]
      | |- _ _ (set_trace _ _) => etrans; [|apply frame_trace]
      | |- _ _ (if _ then _ else _) => case_match
      | |- _ _ (match _ with _ => _ end) => case_match
      | |- _ _ (let '(_, _) := ?x in _) => destruct x eqn:?
      end ].

Ltac frame := repeat frame_step.

Section FrameFacts.
Context {H : Type} (env : Env H).
Abbreviation State := (SolutionBuilderState H).

Section Core.
Context (R : relation State) `{!Frame R, !FrameConfigs env R}.

Lemma frame_parse (st : State) name :
  R st (parseConfigFile env st name (toResolvedConfigFilePath env name)).1.
Proof. by apply @frame_parsed. Qed.

Lemma frame_getParsedCommandLine (st : State) fileName :
  R st (getParsedCommandLine env st fileName).1.
Proof. apply frame_parse. Qed.

Lemma frame_getCommandLine (st : State) ref :
  R st (getCommandLine env st ref).1.
Proof. apply frame_parse. Qed.

Lemma frame_answer {Q A}
    (parse : State -> Q -> State * option ParsedCommandLine)
    (a : Asking Q A) (st : State) :
  (∀ s q, R s (parse s q).1) -> R st (answer parse a st).1.
Proof.
  intros Hparse. revert st. induction a as [r|q k IH]; intros st; simpl;
    [reflexivity|].
  specialize (Hparse st q). destruct (parse st q) as [st1 parsed].
  etrans; [exact Hparse | apply IH].
Qed.

Lemma frame_reportStatus (st : State) message args :
  R st (reportStatus st message args).
Proof. unfold reportStatus. frame. Qed.

Lemma frame_reportWatchStatus (st : State) message args :
  R st (reportWatchStatus env st message args).
Proof. unfold reportWatchStatus. frame. Qed.

Lemma frame_reportErrors (st : State) errs :
  R st (reportErrors st errs).
Proof. unfold reportErrors. frame. Qed.

Lemma frame_reportAndStoreErrors (st : State) proj errs :
  R st (reportAndStoreErrors st proj errs).
Proof. unfold reportAndStoreErrors, reportErrors. frame. Qed.

Lemma frame_reportParseConfigFileDiagnostic (st : State) proj :
  R st (reportParseConfigFileDiagnostic st proj).
Proof.
  unfold reportParseConfigFileDiagnostic.
  repeat case_match; try reflexivity. apply frame_reportAndStoreErrors.
Qed.

Lemma frame_reportBuildQueue (st : State) order :
  R st (reportBuildQueue env st order).
Proof. unfold reportBuildQueue, reportStatus. frame. Qed.

Lemma frame_clearProjectStatus (st : State) resolved :
  R st (clearProjectStatus st resolved).
Proof. unfold clearProjectStatus. frame. Qed.

Lemma frame_verboseReportProjectStatus (st : State) name status :
  R st (verboseReportProjectStatus env st name status).
Proof.
  unfold verboseReportProjectStatus, reportUpToDateStatus, reportStatus. frame.
Qed.

Lemma frame_watchConfigFile (st : State) resolvedPath :
  R st (watchConfigFile env st resolvedPath).
Proof. unfold watchConfigFile. frame. Qed.

Lemma frame_watchWildCardDirectories (st : State) resolvedPath parsed :
  R st (watchWildCardDirectories env st resolvedPath parsed).
Proof. unfold watchWildCardDirectories. frame. Qed.

Lemma frame_watchInputFiles (st : State) resolvedPath parsed :
  R st (watchInputFiles env st resolvedPath parsed).
Proof. unfold watchInputFiles. frame. Qed.

Lemma frame_applyReloadLevel (st : State) project projectPath config level :
  configFileCache st !! projectPath = Some (inl config) ->
  R st (applyReloadLevel env st project projectPath config level).1.
Proof.
  intros Hcached. unfold applyReloadLevel. destruct level; simpl.
  - reflexivity.
  - etrans; [|apply frame_watchInputFiles].
    exact (frame_reparsed env st projectPath config _ Hcached).
  - etrans; [|apply frame_watchInputFiles].
    etrans; [|apply frame_watchWildCardDirectories].
    apply frame_watchConfigFile.
Qed.

Lemma frame_listEmittedFile (st : State) proj file :
  R st (listEmittedFile env st proj file).
Proof. unfold listEmittedFile. frame. Qed.

Lemma frame_listProgramFiles (st : State) proj :
  R st (listProgramFiles env st proj).
Proof. unfold listProgramFiles. frame. Qed.

(** A loop keeps what each of its steps keeps. *)
Lemma forEachM_preserves {A S} (Q : relation S) `{!PreOrder Q}
    (f : A -> S -> option S) l s s' :
  (∀ x s1 s2, f x s1 = Some s2 -> Q s1 s2) ->
  forEachM f l s = Some s' -> Q s s'.
Proof.
  intros Hf. revert s. induction l as [|x l IH]; intros s; simpl.
  - by intros [= <-].
  - destruct (f x s) as [s1|] eqn:E; [|done].
    intros Hl. etrans; [by eapply Hf | by apply IH].
Qed.

Lemma fold_left_preserves {A S} (Q : relation S) `{!PreOrder Q}
    (f : S -> A -> S) l s :
  (∀ x s1, Q s1 (f s1 x)) -> Q s (fold_left f l s).
Proof.
  intros Hf. revert s. induction l as [|x l IH]; intros s; simpl; [done|].
  etrans; [apply Hf | apply IH].
Qed.

(** *** The graph builder *)

Lemma frame_visit fuel name ctx v v' :
  visit env fuel name ctx v = Some v' -> onVisit R v v'.
Proof.
  revert name ctx v v'. induction fuel as [|fuel IH]; intros name ctx v v';
    [done|].
  simpl. case_decide; [intros [= <-]; unfold onVisit; reflexivity|].
  case_decide.
  { intros [= <-]. unfold onVisit. destruct ctx; simpl; [reflexivity|].
    apply frame_reportStatus. }
  pose proof (frame_parse (visitState v) name) as Hparse.
  destruct (parseConfigFile env (visitState v) name _) as [st1 parsed].
  simpl in Hparse.
  match goal with
  | |- match ?body with _ => _ end = _ -> _ =>
    destruct body as [v2|] eqn:Eb; [|done]
  end.
  intros [= <-]. unfold onVisit. simpl.
  etrans; [exact Hparse|].
  destruct parsed as [p|]; [|simplify_eq; reflexivity].
  destruct (projectReferences p) as [refs|]; [|simplify_eq; reflexivity].
  apply (forEachM_preserves (onVisit R)) in Eb; [exact Eb|].
  intros ref s1 s2. apply IH.
Qed.

Lemma frame_createBuildOrder fuel (st : State) roots st' order :
  createBuildOrder env fuel st roots = Some (st', order) -> R st st'.
Proof.
  unfold createBuildOrder.
  destruct (forEachM _ _ _) as [v|] eqn:E; [|done]. intros [= <- <-].
  apply (forEachM_preserves (onVisit R)) in E; [exact E|].
  intros root s1 s2. apply frame_visit.
Qed.

(** *** The evaluator *)

Lemma frame_checkUpstream rec scan refs (st : State) up st' r :
  (∀ st p k st' s, rec st p k = Some (st', s) -> R st st') ->
  checkUpstream env rec scan refs st up = Some (st', r) -> R st st'.
Proof.
  intros Hrec. revert st up. induction refs as [|ref refs IH]; intros st up;
    simpl; [by intros [= <- <-]|].
  pose proof (frame_parse st (resolveProjectReferencePath env ref)) as Hparse.
  destruct (parseConfigFile env st _ _) as [st1 parsed]. simpl in Hparse.
  destruct (rec st1 parsed _) as [[st2 refStatus]|] eqn:Er; [|done].
  apply Hrec in Er. assert (R st st2) as Hst2 by (by etrans).
  intros Hc.
  destruct refStatus; repeat case_match; simplify_eq; try done;
    (etrans; [exact Hst2 | by eapply IH]).
Qed.

Lemma frame_statusAfterUpstream (st : State) project resolvedPath
    newestName newestTime scan up st' status :
  statusAfterUpstream env st project resolvedPath newestName newestTime
    scan up = (st', status) ->
  R st st'.
Proof.
  unfold statusAfterUpstream. repeat case_match; intros [= <- <-]; frame.
Qed.

Lemma frame_getUpToDateStatus fuel (st : State) project resolvedPath
    st' status :
  getUpToDateStatus env fuel st project resolvedPath = Some (st', status) ->
  R st st'.
Proof.
  revert st project resolvedPath st' status.
  induction fuel as [|fuel IH]; intros st project resolvedPath st' status;
    simpl.
  - repeat case_match; by intros [= <- <-].
  - destruct project as [p|]; [|by intros [= <- <-]].
    destruct (projectStatus st !! resolvedPath); [by intros [= <- <-]|].
    destruct (getUpToDateStatusWorker _ _ _ _ _) as [[st1 actual]|] eqn:Ew;
      [|done].
    intros [= <- <-]. etrans; [|apply frame_projectStatus].
    revert Ew. unfold getUpToDateStatusWorker.
    destruct (newestInput _ _ _ _) as [?|[? ?]]; [by intros [= <- <-]|].
    case_match; [by intros [= <- <-]|].
    destruct (projectReferences p).
    + destruct (checkUpstream _ _ _ _ _ _) as [[st2 [s|up]]|] eqn:Ec;
        [| |done].
      * intros [= <- <-]. apply frame_checkUpstream in Ec; [|exact IH].
        etrans; [|exact Ec]. apply frame_projectStatus.
      * intros [= Hs]. apply frame_checkUpstream in Ec; [|exact IH].
        apply frame_statusAfterUpstream in Hs.
        etrans; [|etrans; [exact Ec|]]; [apply frame_projectStatus | done].
    + intros [= Hs]. by apply frame_statusAfterUpstream in Hs.
Qed.

(** *** The dispatcher *)

Lemma frame_nextInvalidatedFrom `{!FramePendingDelete R}
    fuel order rest projectIndex (st : State) st' next :
  nextInvalidatedFrom env fuel order rest projectIndex st = Some (st', next) ->
  R st st'.
Proof.
  revert projectIndex st.
  induction rest as [|project rest IH]; intros projectIndex st; simpl;
    [by intros [= <- <-]|].
  destruct (projectPendingBuild st !! _) as [reloadLevel|]; [|apply IH].
  pose proof (frame_parse st project) as Hparse.
  destruct (parseConfigFile env st project _) as [st1 [config0|]] eqn:Eparse;
    simpl in Hparse.
  2:{ intros Hn. apply IH in Hn. etrans; [exact Hparse|].
      etrans; [|exact Hn].
      etrans; [|apply frame_pending_delete].
      apply frame_reportParseConfigFileDiagnostic. }
  pose proof (frame_applyReloadLevel st1 project
                (toResolvedConfigFilePath env project) config0 reloadLevel
                (parseConfigFile_parsed env _ _ _ _ _ Eparse))
    as Hreload.
  destruct (applyReloadLevel env st1 project _ config0 reloadLevel)
    as [st2 config]. simpl in Hreload.
  destruct (getUpToDateStatus env fuel st2 (Some config) _)
    as [[st3 status]|] eqn:Es; [|done].
  apply frame_getUpToDateStatus in Es.
  pose proof (frame_verboseReportProjectStatus st3 project status) as Hverbose.
  assert (R st (verboseReportProjectStatus env st3 project status))
    as Hst4 by (etrans; [exact Hparse|]; etrans; [exact Hreload|]; by etrans).
  set (st4 := verboseReportProjectStatus env st3 project status) in *.
  clearbody st4.
  assert (∀ s, R st4 s ->
            nextInvalidatedFrom env fuel order rest (S projectIndex) s
            = Some (st', next) -> R st st') as Hcont.
  { intros s Hs Hn. apply IH in Hn. etrans; [exact Hst4|]. by etrans. }
  assert (R st4
            (set_projectPendingBuild (delete (toResolvedConfigFilePath env project))
               (reportAndStoreErrors st4 (toResolvedConfigFilePath env project)
                  (errors config)))) as Hskip.
  { etrans; [|apply frame_pending_delete]. apply frame_reportAndStoreErrors. }
  intros Hn.
  repeat case_match; simplify_eq; try done;
    try (eapply Hcont; [|eassumption]; first
           [ exact Hskip
           | etrans; [exact Hskip | apply frame_reportStatus] ]);
    try (etrans; [exact Hst4|]; apply frame_reportAndStoreErrors).
Qed.

Lemma frame_getNextInvalidatedProject `{!FramePendingDelete R}
    fuel (st : State) order st' next :
  getNextInvalidatedProject env fuel st order = Some (st', next) ->
  R st st'.
Proof.
  unfold getNextInvalidatedProject. case_match; [by intros [= <- <-]|].
  apply frame_nextInvalidatedFrom.
Qed.

(** *** Downstream propagation *)

Lemma frame_addProjToQueue `{!FramePending R} (st : State) proj level :
  R st (addProjToQueue st proj level).
Proof. unfold addProjToQueue. frame. Qed.

Lemma frame_queueLater `{!FramePending R} (st : State) project projectPath
    later buildResult :
  R st (queueLater env st project projectPath later buildResult).
Proof.
  revert st. induction later as [|next later IH]; intros st; simpl;
    [reflexivity|].
  destruct (projectPendingBuild st !! _); [apply IH|].
  pose proof (frame_parse st next) as Hparse.
  destruct (parseConfigFile env st next _) as [st1 cfg]. simpl in Hparse.
  destruct cfg as [cfg|]; [|by etrans].
  destruct (projectReferences cfg) as [refs|]; [|by etrans].
  etrans; [exact Hparse|]. etrans; [|apply IH].
  generalize (toResolvedConfigFilePath env next). intros nextPath.
  induction refs as [|ref refs IHr]; simpl; [reflexivity|].
  case_match; [|done].
  etrans; [|apply frame_addProjToQueue].
  unfold restatus, clearProjectStatus. frame.
Qed.

Lemma frame_queueReferencingProjects `{!FramePending R} (st : State)
    project projectPath projectIndex config order buildResult :
  R st (queueReferencingProjects env st project projectPath projectIndex
          config order buildResult).
Proof.
  unfold queueReferencingProjects. repeat case_match; try reflexivity.
  apply frame_queueLater.
Qed.
End Core.

(** *** The actions *)
Section Actions.
Context (R : relation State)
  `{!Frame R, !FrameConfigs env R, !FramePending R, !FrameHost R}.

Lemma frame_setModifiedTime (st : State) file time :
  R st (setModifiedTime env st file time).
Proof. unfold setModifiedTime. frame. Qed.

Lemma frame_deleteFile (st : State) file :
  R st (deleteFile env st file).
Proof. unfold deleteFile. frame. Qed.

Lemma frame_writeFile (st : State) diags file :
  R st (writeFile env st diags file).1.
Proof.
  unfold writeFile. destruct (hostWriteFile env _ _ _ _) as [h' failure].
  simpl. frame.
Qed.

Lemma frame_touchOutputs proj message skip nowTime outputs (st : State)
    reportVerbose prior :
  R st (touchOutputs env proj message skip nowTime outputs st reportVerbose
          prior).1.
Proof.
  revert st reportVerbose prior.
  induction outputs as [|file outputs IH]; intros st reportVerbose prior;
    simpl; [reflexivity|].
  case_match; [apply IH|].
  etrans; [|apply IH].
  etrans; [|apply (frame_listEmittedFile R)].
  etrans; [|apply frame_setModifiedTime].
  destruct reportVerbose; [apply (frame_reportStatus R) | reflexivity].
Qed.

Lemma frame_updateOutputTimestampsWorker (st : State) proj prior message skip :
  R st (updateOutputTimestampsWorker env st proj prior message skip).1.
Proof.
  unfold updateOutputTimestampsWorker. case_match; [|reflexivity].
  apply frame_touchOutputs.
Qed.

Lemma frame_updateOutputTimestamps (st : State) proj resolvedPath :
  R st (updateOutputTimestamps env st proj resolvedPath).
Proof.
  unfold updateOutputTimestamps. case_match.
  - apply (frame_reportStatus R).
  - pose proof (frame_updateOutputTimestampsWorker st proj minimumDate
                  Updating_output_timestamps_of_project_0 None) as Hw.
    destruct (updateOutputTimestampsWorker env st proj _ _ _) as [st1 t].
    simpl in Hw. etrans; [exact Hw|]. apply frame_projectStatus.
Qed.

Lemma frame_buildErrors (st : State) resolvedPath withProgram diags flags
    errorType :
  R st (buildErrors env st resolvedPath withProgram diags flags errorType).1.
Proof.
  unfold buildErrors. simpl. etrans; [|apply frame_projectStatus].
  etrans; [apply (frame_reportAndStoreErrors R)|].
  repeat case_match; try reflexivity. apply (frame_listProgramFiles R).
Qed.

Lemma frame_emitOne e file : onEmit R e (emitOne env e file).
Proof.
  unfold onEmit, emitOne.
  pose proof (frame_writeFile (emitState e) (emitterDiagnostics e) file) as Hw.
  destruct (writeFile env (emitState e) (emitterDiagnostics e) file)
    as [st1 diags].
  exact Hw.
Qed.

Lemma frame_buildSingleProject (st : State) proj resolvedPath config :
  R st (buildSingleProject env st proj resolvedPath config).1.
Proof.
  unfold buildSingleProject. case_match; [apply (frame_reportStatus R)|].
  set (st0 := if verbose (solutionOptions env)
              then reportStatus st Building_project_0 [proj] else st).
  assert (R st st0) as Hst0
    by (subst st0; case_match;
        [apply (frame_reportStatus R) | reflexivity]).
  clearbody st0.
  destruct (fileNames config);
    [simpl; etrans; [exact Hst0|]; apply (frame_reportAndStoreErrors R)|].
  pose proof (frame_answer R (getParsedCommandLine env)
                (createProgram env (hostState st0) config) st0
                (frame_getParsedCommandLine R)) as Hasked.
  destruct (answer _ _ st0) as [st1 program]. simpl in Hasked.
  assert (R st st1) as Hst1 by (by etrans).
  clear Hst0 Hasked. clear st0. rename st1 into st0, Hst1 into Hst0.
  destruct (syntaxDiagnostics _);
    [|etrans; [exact Hst0|]; apply frame_buildErrors].
  destruct (semanticDiagnostics _);
    [|etrans; [exact Hst0|]; apply frame_buildErrors].
  destruct (declDiagnostics _);
    [etrans; [exact Hst0|]; apply frame_buildErrors|].
  match goal with
  | |- context [fold_left (emitOne env) ?files ?e0] =>
    pose proof (fold_left_preserves (onEmit R) (emitOne env) files e0
                  (fun x s1 => frame_emitOne s1 x)) as Hemit;
    set (e := fold_left (emitOne env) files e0) in *; clearbody e
  end.
  unfold onEmit in Hemit. simpl in Hemit.
  assert (R st (emitState e)) as He by (by etrans).
  destruct (emitterDiagnostics e);
    [|etrans; [exact He|]; apply frame_buildErrors].
  match goal with
  | |- context [updateOutputTimestampsWorker env ?s1 ?c ?t ?m ?k] =>
    pose proof (frame_updateOutputTimestampsWorker s1 c t m k) as Hw;
    assert (R (emitState e) s1) as Hs1;
    [|destruct (updateOutputTimestampsWorker env s1 c t m k) as [st2 newest]]
  end.
  { case_match; [|reflexivity].
    etrans; [|apply (frame_listProgramFiles R)].
    apply (fold_left_preserves R). intros x s1.
    apply (frame_listEmittedFile R). }
  simpl in *. etrans; [exact He|]. etrans; [exact Hs1|].
  etrans; [exact Hw|]. frame.
Qed.

Lemma frame_updateBundle (st : State) proj resolvedPath config :
  R st (updateBundle env st proj resolvedPath config).1.
Proof.
  unfold updateBundle. case_match; [apply (frame_reportStatus R)|].
  set (st0 := if verbose (solutionOptions env)
              then reportStatus st Updating_output_of_project_0 [proj]
              else st).
  assert (R st st0) as Hst0
    by (subst st0; case_match;
        [apply (frame_reportStatus R) | reflexivity]).
  clearbody st0.
  pose proof (frame_answer R (getCommandLine env)
                (emitUsingBuildInfo env (hostState st0) config) st0
                (frame_getCommandLine R)) as Hasked.
  destruct (answer _ _ st0) as [st0' [unreadable|[first others]]];
    simpl in Hasked;
    [etrans; [exact Hst0|]; etrans; [exact Hasked|];
     apply (frame_reportStatus R)|].
  assert (R st st0') as Hst0' by (by etrans).
  clear Hst0 Hasked. clear st0. rename st0' into st0, Hst0' into Hst0.
  match goal with
  | |- context [fold_left ?f ?files ?a0] =>
    assert (∀ l a, R a.1.1 (fold_left f l a).1.1) as Hfold
  end.
  { induction l as [|x l IH]; intros [[s ds] em]; simpl; [reflexivity|].
    pose proof (frame_writeFile s ds x) as Hw.
    destruct (writeFile env s ds x) as [s' ds']. simpl in Hw.
    etrans; [exact Hw|]. apply (IH (s', ds', _)). }
  match goal with
  | |- context [fold_left ?f ?files ?a0] =>
    specialize (Hfold files a0); destruct (fold_left f files a0)
      as [[st1 diags] emitted]
  end.
  simpl in Hfold. assert (R st st1) as Hst1 by (by etrans).
  destruct diags.
  - match goal with
    | |- context [updateOutputTimestampsWorker env ?s1 ?c ?t ?m ?k] =>
      pose proof (frame_updateOutputTimestampsWorker s1 c t m k) as Hw;
      assert (R st1 s1) as Hs1;
      [|destruct (updateOutputTimestampsWorker env s1 c t m k) as [st3 newest]]
    end.
    { case_match; [|reflexivity].
      apply (fold_left_preserves R). intros x s1.
      apply (frame_listEmittedFile R). }
    simpl in *. etrans; [exact Hst1|]. etrans; [exact Hs1|].
    etrans; [exact Hw|]. frame.
  - pose proof (frame_buildErrors st1 resolvedPath None (d :: diags)
                  BuildResultFlags.EmitErrors "Emit") as Hb.
    destruct (buildErrors env st1 resolvedPath None (d :: diags) _ _)
      as [st2 flags].
    simpl in *. by etrans.
Qed.

Lemma frame_doneBuild (st : State) project projectPath projectIndex config
    order pending :
  R st (doneBuild env st project projectPath projectIndex config order pending).
Proof.
  unfold doneBuild, buildInvalidated.
  etrans; [|apply frame_pending].
  destruct pending; [|reflexivity].
  pose proof (frame_buildSingleProject st project projectPath config) as Hb.
  destruct (buildSingleProject env st project projectPath config) as [st1 r].
  simpl in *. etrans; [exact Hb|].
  apply (frame_queueReferencingProjects R).
Qed.

Lemma frame_done (st : State) invalidatedProject :
  R st (done env st invalidatedProject).
Proof.
  destruct invalidatedProject as [project projectPath config pending
                                 |project projectPath projectIndex config order pending
                                 |project projectPath projectIndex config order pending];
    simpl.
  - etrans; [|apply frame_pending].
    destruct pending; [|reflexivity]. apply frame_updateOutputTimestamps.
  - apply frame_doneBuild.
  - destruct pending; [|apply frame_pending]. unfold updateInvalidated.
    pose proof (frame_updateBundle st project projectPath config) as Hu.
    destruct (updateBundle env st project projectPath config) as [st1 [?|r]];
      simpl in *.
    + etrans; [exact Hu|]. apply frame_doneBuild.
    + etrans; [exact Hu|]. etrans; [|apply frame_pending].
      apply (frame_queueReferencingProjects R).
Qed.
End Actions.

(** *** The actions of a dry run *)
Section DryActions.
Context (R : relation State) `{!Frame R, !FrameConfigs env R, !FramePending R}.
Hypothesis dry_run : dry (solutionOptions env) = true.

Lemma frame_doneBuild_dry (st : State) project projectPath projectIndex
    config order pending :
  R st (doneBuild env st project projectPath projectIndex config order pending).
Proof.
  unfold doneBuild, buildInvalidated, buildSingleProject. rewrite dry_run.
  etrans; [|apply frame_pending].
  destruct pending; [|reflexivity]. simpl.
  etrans; [|apply (frame_queueReferencingProjects R)].
  apply (frame_reportStatus R).
Qed.

Lemma frame_done_dry (st : State) invalidatedProject :
  R st (done env st invalidatedProject).
Proof.
  destruct invalidatedProject as [project projectPath config pending
                                 |project projectPath projectIndex config order pending
                                 |project projectPath projectIndex config order pending];
    simpl.
  - etrans; [|apply frame_pending].
    destruct pending; [|reflexivity].
    unfold updateOutputTimestamps. rewrite dry_run.
    apply (frame_reportStatus R).
  - apply frame_doneBuild_dry.
  - destruct pending; [|apply frame_pending].
    unfold updateInvalidated, updateBundle. rewrite dry_run.
    etrans; [|apply frame_pending].
    etrans; [|apply (frame_queueReferencingProjects R)].
    apply (frame_reportStatus R).
Qed.

Lemma frame_cleanOutputs_dry resolvedPath outputs (st : State) files :
  let r := cleanOutputs env resolvedPath outputs st (Some files) in
  r.1 = st ∧ is_Some r.2.
Proof.
  revert files. induction outputs as [|output outputs IH]; intros files;
    simpl; [by split|].
  case_match; apply IH.
Qed.

Lemma frame_cleanProjects_dry order (st : State) files :
  R st (cleanProjects env order st (Some files)).1.
Proof.
  revert st files. induction order as [|proj order IH]; intros st files;
    simpl; [reflexivity|].
  pose proof (frame_parse R st proj) as Hparse.
  destruct (parseConfigFile env st proj _) as [st1 [parsed|]]; simpl in Hparse.
  - pose proof (frame_cleanOutputs_dry (toResolvedConfigFilePath env proj)
                  (getAllProjectOutputs env parsed) st1 files) as [Hc [files' Hf]].
    destruct (cleanOutputs env _ _ st1 (Some files)) as [st2 r]. simpl in *.
    subst r st2. etrans; [exact Hparse|]. apply IH.
  - etrans; [exact Hparse|].
    etrans; [apply (frame_reportParseConfigFileDiagnostic R)|]. apply IH.
Qed.
End DryActions.

(** *** The drivers *)
Section Drivers.
Context (R : relation State)
  `{!Frame R, !FrameConfigs env R, !FramePending R, !FrameControl R}.

Lemma frame_getBuildOrder fuel (st : State) st' order :
  getBuildOrder env fuel st = Some (st', order) -> R st st'.
Proof.
  unfold getBuildOrder. destruct (buildOrder st); [by intros [= <- <-]|].
  destruct (createBuildOrder _ _ _ _) as [[st1 o]|] eqn:E; [|done].
  intros [= <- <-]. apply (frame_createBuildOrder R) in E.
  etrans; [exact E | apply frame_buildOrder].
Qed.

Lemma frame_getBuildOrderFor fuel (st : State) project st' order :
  getBuildOrderFor env fuel st project = Some (st', order) -> R st st'.
Proof.
  unfold getBuildOrderFor. destruct (resolvedProjectOf env project).
  - destruct (getBuildOrder _ _ _) as [[st1 o]|] eqn:E; [|done].
    apply frame_getBuildOrder in E. case_match.
    + destruct (createBuildOrder _ _ _ _) as [[st2 sub]|] eqn:E2; [|done].
      intros [= <- <-]. apply (frame_createBuildOrder R) in E2.
      by etrans.
    + by intros [= <- <-].
  - destruct (getBuildOrder _ _ _) as [[st1 o]|] eqn:E; [|done].
    intros [= <- <-]. by apply frame_getBuildOrder in E.
Qed.

Lemma frame_setupInitialBuild fuel (st : State) st' :
  setupInitialBuild env fuel st = Some st' -> R st st'.
Proof.
  unfold setupInitialBuild. case_match; [by intros [= <-]|].
  destruct (getBuildOrder _ _ _) as [[st3 order]|] eqn:E; [|done].
  intros [= <-]. apply frame_getBuildOrder in E.
  etrans; [|etrans; [exact E|]].
  - unfold enableCache. etrans; [|apply frame_cache].
    etrans; [apply frame_allProjectBuildPending|].
    case_match; [apply (frame_reportWatchStatus R) | reflexivity].
  - etrans; [apply (frame_reportBuildQueue R)|].
    apply (fold_left_preserves R). intros x s1. apply frame_pending.
Qed.

Lemma frame_reportErrorSummary fuel (st : State) st' :
  reportErrorSummary env fuel st = Some st' -> R st st'.
Proof.
  unfold reportErrorSummary. case_match; [by intros [= <-]|].
  destruct (getBuildOrder _ _ _) as [[st1 order]|] eqn:E; [|done].
  intros [= <-]. apply frame_getBuildOrder in E.
  etrans; [|etrans; [exact E|]]; [apply frame_needsSummary|].
  etrans; [|case_match;
              [apply (frame_reportWatchStatus R)
              |apply frame_events; reflexivity]].
  apply (fold_left_preserves R). intros x s1.
  case_match; [reflexivity | apply (frame_reportErrors R)].
Qed.

Lemma frame_startWatching fuel (st : State) st' :
  startWatching env fuel st = Some st' -> R st st'.
Proof.
  unfold startWatching. case_match; [by intros [= <-]|].
  destruct (getBuildOrder _ _ _) as [[st1 order]|] eqn:E; [|done].
  intros [= <-]. apply frame_getBuildOrder in E.
  etrans; [|etrans; [exact E|]]; [apply frame_watchAllProjectsPending|].
  apply (fold_left_preserves R). intros x s1.
  pose proof (frame_parse R (watchConfigFile env s1 (toResolvedConfigFilePath env x))
                x) as Hparse.
  destruct (parseConfigFile env _ x _) as [s2 cfg]. simpl in Hparse.
  etrans; [|etrans; [exact Hparse|]].
  - apply (frame_watchConfigFile R).
  - destruct cfg; [|reflexivity].
    etrans; [|apply (frame_watchInputFiles R)].
    apply (frame_watchWildCardDirectories R).
Qed.

Lemma frame_buildLoop fuel order (st : State) successful failed st' s' f' :
  (∀ st invalidatedProject, R st (done env st invalidatedProject)) ->
  buildLoop env fuel order st successful failed = Some (st', s', f') ->
  R st st'.
Proof.
  intros Hdone. revert st successful failed.
  induction fuel as [|fuel IH]; intros st successful failed; simpl; [done|].
  destruct (getNextInvalidatedProject _ _ _ _) as [[st1 [next|]]|] eqn:En;
    [| |done].
  - apply (frame_getNextInvalidatedProject R) in En.
    case_match; intros Hl; apply IH in Hl;
      (etrans; [exact En|]; etrans; [apply Hdone | exact Hl]).
  - intros [= <- <- <-]. by apply (frame_getNextInvalidatedProject R) in En.
Qed.

Lemma frame_build fuel (st : State) project st' exit :
  (∀ st invalidatedProject, R st (done env st invalidatedProject)) ->
  build env fuel st project = Some (st', exit) -> R st st'.
Proof.
  intros Hdone. unfold build.
  destruct (getBuildOrderFor _ _ _ _) as [[st0 [order|]]|] eqn:Eo; [| |done].
  2:{ intros [= <- <-]. by apply frame_getBuildOrderFor in Eo. }
  apply frame_getBuildOrderFor in Eo.
  destruct (setupInitialBuild _ _ _) as [st1|] eqn:E1; [|done].
  apply frame_setupInitialBuild in E1.
  destruct (buildLoop _ _ _ _ _ _) as [[[st2 s2] f2]|] eqn:E2; [|done].
  apply frame_buildLoop in E2; [|done].
  destruct (reportErrorSummary _ _ _) as [st3|] eqn:E3; [|done].
  apply frame_reportErrorSummary in E3.
  destruct (startWatching _ _ _) as [st4|] eqn:E4; [|done].
  apply frame_startWatching in E4.
  intros [= <- <-].
  etrans; [exact Eo|]. etrans; [exact E1|]. etrans; [exact E2|].
  etrans; [|exact E4]. etrans; [|exact E3].
  unfold disableCache. case_match; [apply frame_cache | reflexivity].
Qed.

Lemma frame_clean_dry fuel (st : State) project st' exit :
  dry (solutionOptions env) = true ->
  clean env fuel st project = Some (st', exit) -> R st st'.
Proof.
  intros dry_run. unfold clean.
  destruct (getBuildOrderFor _ _ _ _) as [[st0 [order|]]|] eqn:Eo; [| |done].
  2:{ intros [= <- <-]. by apply frame_getBuildOrderFor in Eo. }
  apply frame_getBuildOrderFor in Eo. rewrite dry_run.
  pose proof (frame_cleanProjects_dry R order st0 []) as Hc.
  destruct (cleanProjects env order st0 (Some [])) as [st1 files].
  simpl in Hc. intros [= <- <-]. etrans; [exact Eo|]. etrans; [exact Hc|].
  destruct files; [apply (frame_reportStatus R) | reflexivity].
Qed.
End Drivers.

End FrameFacts.

(** ** Building twice *)
Section IdempotenceFacts.
Context {H : Type} (env : Env H).
Abbreviation State := (SolutionBuilderState H).

(** With no project of the order in the queue the dispatcher finds nothing
    and changes nothing. *)
Lemma nextInvalidatedFrom_idle fuel order rest projectIndex (st : State) :
  (∀ project, project ∈ rest ->
     projectPendingBuild st !! toResolvedConfigFilePath env project = None) ->
  nextInvalidatedFrom env fuel order rest projectIndex st = Some (st, None).
Proof.
  revert projectIndex. induction rest as [|project rest IH];
    intros projectIndex Hidle; simpl; [done|].
  rewrite Hidle by (apply elem_of_cons; by left).
  apply IH. intros p Hp. apply Hidle. apply elem_of_cons. by right.
Qed.

Lemma getNextInvalidatedProject_idle fuel order (st : State) :
  (∀ project, project ∈ order ->
     projectPendingBuild st !! toResolvedConfigFilePath env project = None) ->
  getNextInvalidatedProject env fuel st order = Some (st, None).
Proof.
  intros Hidle. unfold getNextInvalidatedProject. case_match; [done|].
  by apply nextInvalidatedFrom_idle.
Qed.

(** A settled state is a fixed point of [build]. *)
Lemma build_settled fuel order (st : State) :
  settled env order st ->
  build env (S fuel) st None = Some (st, ExitStatus.Success).
Proof.
  intros (Horder & Hpending & Hidle & Hcache & Hsummary & Hwatch).
  unfold build, getBuildOrderFor, getBuildOrder. simpl. rewrite Horder.
  unfold setupInitialBuild. rewrite Hpending. simpl.
  rewrite (getNextInvalidatedProject_idle fuel order st Hidle).
  unfold disableCache. rewrite Hcache.
  unfold reportErrorSummary. rewrite Hsummary.
  unfold startWatching. by rewrite Hwatch.
Qed.

(** When the dispatcher finds nothing, no project of the order is left in
    the queue. *)
Lemma nextInvalidatedFrom_none fuel order rest projectIndex (st : State) st' :
  nextInvalidatedFrom env fuel order rest projectIndex st = Some (st', None) ->
  ∀ project, project ∈ rest ->
    projectPendingBuild st' !! toResolvedConfigFilePath env project = None.
Proof.
  revert projectIndex st.
  induction rest as [|project rest IH]; intros projectIndex st Hn p Hp;
    [by apply elem_of_nil in Hp|].
  simpl in Hn.
  assert (∀ s,
            projectPendingBuild s !! toResolvedConfigFilePath env project = None ->
            nextInvalidatedFrom env fuel order rest (S projectIndex) s
            = Some (st', None) ->
            projectPendingBuild st' !! toResolvedConfigFilePath env p = None)
    as Hcont.
  { intros s Hs Hrest. apply elem_of_cons in Hp as [->|Hp].
    - apply (frame_nextInvalidatedFrom env pendingShrinks) in Hrest.
      by apply Hrest.
    - by eapply IH. }
  destruct (projectPendingBuild st !! _) as [reloadLevel|] eqn:Epending;
    [|by eapply Hcont].
  assert (∀ s : State, projectPendingBuild
                 (set_projectPendingBuild
                    (delete (toResolvedConfigFilePath env project)) s)
               !! toResolvedConfigFilePath env project = None) as Hdel
    by (intros s; simpl; apply lookup_delete_eq).
  destruct (parseConfigFile env st project _) as [st1 [config0|]];
    [|eapply Hcont; [apply Hdel | exact Hn]].
  destruct (applyReloadLevel env st1 project _ config0 reloadLevel)
    as [st2 config].
  destruct (getUpToDateStatus env fuel st2 (Some config) _)
    as [[st3 status]|]; [|done].
  repeat case_match; simplify_eq; try done;
    (eapply Hcont; [|eassumption]); try apply Hdel;
    unfold reportStatus; simpl; apply lookup_delete_eq.
Qed.

Lemma getNextInvalidatedProject_none fuel order (st : State) st' :
  getNextInvalidatedProject env fuel st order = Some (st', None) ->
  ∀ project, project ∈ order ->
    projectPendingBuild st' !! toResolvedConfigFilePath env project = None.
Proof.
  unfold getNextInvalidatedProject. case_bool_decide as Hsize.
  - intros [= <-] project _. apply map_size_empty_iff in Hsize.
    rewrite Hsize. apply lookup_empty.
  - apply nextInvalidatedFrom_none.
Qed.

Lemma buildLoop_drains fuel order (st : State) successful failed st' s' f' :
  buildLoop env fuel order st successful failed = Some (st', s', f') ->
  sameControl st st'
  ∧ ∀ project, project ∈ order ->
      projectPendingBuild st' !! toResolvedConfigFilePath env project = None.
Proof.
  intros Hloop. split.
  - eapply (frame_buildLoop env sameControl); [|exact Hloop].
    apply (frame_done env sameControl).
  - revert st successful failed Hloop.
    induction fuel as [|fuel IH]; intros st successful failed; simpl; [done|].
    destruct (getNextInvalidatedProject _ _ _ _) as [[st1 [next|]]|] eqn:En;
      [| |done].
    + case_match; apply IH.
    + intros [= <- <- <-]. by eapply getNextInvalidatedProject_none.
Qed.

Lemma getBuildOrder_memo fuel (st : State) st' order :
  getBuildOrder env fuel st = Some (st', order) -> buildOrder st' = Some order.
Proof.
  unfold getBuildOrder. destruct (buildOrder st) eqn:E; [by intros [= <- <-]|].
  destruct (createBuildOrder _ _ _ _) as [[st1 o]|]; [|done].
  by intros [= <- <-].
Qed.

Lemma getBuildOrder_memoised fuel (st : State) order :
  buildOrder st = Some order -> getBuildOrder env fuel st = Some (st, order).
Proof. intros Ho. unfold getBuildOrder. by rewrite Ho. Qed.

Lemma setupInitialBuild_seeded fuel (st : State) st' order :
  buildOrder st = Some order ->
  setupInitialBuild env fuel st = Some st' ->
  buildOrder st' = Some order ∧ allProjectBuildPending st' = false.
Proof.
  intros Ho. unfold setupInitialBuild.
  destruct (allProjectBuildPending st) eqn:Ep; simpl; [|by intros [= <-]].
  rewrite getBuildOrder_memoised with (order := order)
    by (unfold reportWatchStatus; repeat case_match; done).
  intros [= <-].
  match goal with
  | |- context [fold_left ?f order ?s0] =>
    assert (sameControl s0 (fold_left f order s0)) as (Hb & Ha & _)
  end.
  { apply (fold_left_preserves sameControl). intros x s1. by repeat split. }
  rewrite Hb, Ha. unfold reportBuildQueue, reportWatchStatus, reportStatus.
  repeat case_match; done.
Qed.

Lemma reportErrorSummary_reported fuel (st : State) st' order :
  buildOrder st = Some order ->
  reportErrorSummary env fuel st = Some st' ->
  negb (needsSummary st')
    || (negb (watch env) && negb (hasReportErrorSummary env)) = true
  ∧ buildOrder st' = buildOrder st
  ∧ allProjectBuildPending st' = allProjectBuildPending st
  ∧ cache st' = cache st
  ∧ watchAllProjectsPending st' = watchAllProjectsPending st
  ∧ projectPendingBuild st' = projectPendingBuild st.
Proof.
  intros Ho. unfold reportErrorSummary.
  destruct (negb (needsSummary st) || _) eqn:Es; [by intros [= <-]|].
  rewrite getBuildOrder_memoised with (order := order) by done.
  intros [= <-].
  match goal with
  | |- context [fold_left ?f order ?s0] =>
    assert (sameSchedule s0 (fold_left f order s0)) as Hfold
  end.
  { apply (fold_left_preserves sameSchedule). intros x s1.
    case_match; [reflexivity | apply (frame_reportErrors sameSchedule)]. }
  match goal with
  | |- context [fold_left ?f order ?s0] =>
    set (st2 := fold_left f order s0) in *; clearbody st2
  end.
  destruct Hfold as [(Hb & Ha & Hc & Hn & Hw) Hp]. simpl in *.
  unfold reportWatchStatus. repeat case_match; simpl;
    rewrite ?Hb, ?Ha, ?Hc, ?Hn, ?Hw, ?Hp; done.
Qed.

Lemma startWatching_installed fuel (st : State) st' order :
  buildOrder st = Some order ->
  startWatching env fuel st = Some st' ->
  watchAllProjectsPending st' = false
  ∧ buildOrder st' = buildOrder st
  ∧ allProjectBuildPending st' = allProjectBuildPending st
  ∧ cache st' = cache st
  ∧ needsSummary st' = needsSummary st
  ∧ projectPendingBuild st' = projectPendingBuild st.
Proof.
  intros Ho. unfold startWatching.
  destruct (watchAllProjectsPending st) eqn:Ew; simpl; [|by intros [= <-]].
  rewrite getBuildOrder_memoised with (order := order) by done.
  intros [= <-].
  match goal with
  | |- context [fold_left ?f order ?s0] =>
    assert (sameSchedule s0 (fold_left f order s0)) as Hfold
  end.
  { apply (fold_left_preserves sameSchedule). intros x s1.
    pose proof (frame_parse env sameSchedule
                  (watchConfigFile env s1 (toResolvedConfigFilePath env x))
                  x) as Hparse.
    destruct (parseConfigFile env _ x _) as [s2 cfg]. simpl in Hparse.
    etrans; [|etrans; [exact Hparse|]].
    - apply (frame_watchConfigFile env sameSchedule).
    - destruct cfg; [|reflexivity].
      etrans; [|apply (frame_watchInputFiles env sameSchedule)].
      apply (frame_watchWildCardDirectories env sameSchedule). }
  destruct Hfold as [(Hb & Ha & Hc & Hn & Hw) Hp]. simpl in *.
  by rewrite Hb, Ha, Hc, Hn, Hw, Hp.
Qed.

(** [build] without a project argument ends in a settled state. *)
Lemma build_settles fuel (st : State) st' exit :
  build env fuel st None = Some (st', exit) ->
  ∃ order, settled env order st'.
Proof.
  unfold build, getBuildOrderFor. simpl.
  destruct (getBuildOrder env fuel st) as [[st0 order]|] eqn:Eo; [|done].
  apply getBuildOrder_memo in Eo.
  destruct (setupInitialBuild _ _ _) as [st1|] eqn:E1; [|done].
  apply (setupInitialBuild_seeded _ _ _ order Eo) in E1 as [Ho1 Hp1].
  destruct (buildLoop _ _ _ _ _ _) as [[[st2 s2] f2]|] eqn:E2; [|done].
  apply buildLoop_drains in E2 as [(Hb2 & Ha2 & _) Hidle].
  assert (buildOrder (disableCache st2) = Some order
          ∧ allProjectBuildPending (disableCache st2) = false
          ∧ cache (disableCache st2) = false
          ∧ projectPendingBuild (disableCache st2) = projectPendingBuild st2)
    as (Ho3 & Hp3 & Hc3 & Hq3).
  { unfold disableCache. destruct (cache st2) eqn:Ec; simpl;
      rewrite ?Hb2, ?Ha2; done. }
  destruct (reportErrorSummary _ _ _) as [st3|] eqn:E3; [|done].
  apply (reportErrorSummary_reported _ _ _ order Ho3) in E3
    as (Hs4 & Hb4 & Ha4 & Hc4 & Hw4 & Hq4).
  destruct (startWatching _ _ _) as [st4|] eqn:E4; [|done].
  apply (startWatching_installed _ _ _ order) in E4
    as (Hw5 & Hb5 & Ha5 & Hc5 & Hn5 & Hq5); [|congruence].
  intros [= <- <-]. exists order. repeat split.
  - congruence.
  - congruence.
  - intros project Hin. rewrite Hq5, Hq4, Hq3. by apply Hidle.
  - congruence.
  - by rewrite Hn5.
  - done.
Qed.

End IdempotenceFacts.

(** ** The graph builder *)
Section GraphFacts.
Context {H : Type} (env : Env H).
Abbreviation State := (SolutionBuilderState H).
Abbreviation keyOf := (toResolvedConfigFilePath env).

Global Instance cacheGrows_preorder : PreOrder (@cacheGrows H).
Proof.
  split.
  - by intros st key entry.
  - intros st1 st2 st3 H12 H23 key entry Hk. by apply H23, H12.
Qed.

Lemma cacheGrows_parse (st : State) name key :
  cacheGrows st (parseConfigFile env st name key).1.
Proof. intros k entry. apply parseConfigFile_cache_mono. Qed.

Lemma cachedReferences_cached (st : State) key ref :
  ref ∈ cachedReferences st key -> is_Some (configFileCache st !! key).
Proof.
  unfold cachedReferences. destruct (configFileCache st !! key); [by eexists|].
  by intros ?%elem_of_nil.
Qed.

Lemma cachedReferences_grows (st st' : State) key :
  cacheGrows st st' -> is_Some (configFileCache st !! key) ->
  cachedReferences st' key = cachedReferences st key.
Proof.
  intros Hgrow [entry Hentry]. unfold cachedReferences.
  by rewrite (Hgrow _ _ Hentry), Hentry.
Qed.

Lemma references_grows (st st' : State) a b :
  cacheGrows st st' -> references env st a b -> references env st' a b.
Proof.
  intros Hgrow (ref & Hin & Hkey). exists ref. split; [|done].
  rewrite (cachedReferences_grows st st'); eauto using cachedReferences_cached.
Qed.

Lemma reaches_grows (st st' : State) a b :
  cacheGrows st st' ->
  rtc (references env st) a b -> rtc (references env st') a b.
Proof. intros Hgrow. apply rtc_subrel. intros x y. by apply references_grows. Qed.

Lemma cachedReferences_parse (st : State) name key :
  cachedReferences (parseConfigFile env st name key).1 key
  = match (parseConfigFile env st name key).2 with
    | Some parsed => default [] (projectReferences parsed)
    | None => []
    end.
Proof.
  destruct (parseConfigFile_cached env st name key) as (entry & Hentry & ->).
  unfold cachedReferences. rewrite Hentry. by destruct entry.
Qed.

Lemma cycleReports_parse (st : State) name key :
  cycleReports (parseConfigFile env st name key).1 = cycleReports st.
Proof. unfold cycleReports. by rewrite parseConfigFile_trace. Qed.

Lemma cycleReports_report (st : State) args :
  cycleReports
    (reportStatus st
       Project_references_may_not_form_a_circular_graph_Cycle_detected_Colon_0
       args)
  = S (cycleReports st).
Proof.
  unfold cycleReports, reportStatus. simpl.
  rewrite List.filter_app, length_app. simpl. lia.
Qed.

Lemma noCircular_parse (st : State) name key :
  noCircular env st -> noCircular env (parseConfigFile env st name key).1.
Proof.
  intros [Hc Hp]. unfold parseConfigFile.
  destruct (configFileCache st !! key) as [entry|] eqn:E; simpl; [done|].
  split; [|done]. intros k parsed ref Hk Hin. simpl in Hk.
  destruct (decide (key = k)) as [<-|Hne].
  - rewrite lookup_insert_eq in Hk. simplify_eq. eauto.
  - rewrite lookup_insert_ne in Hk by done. eauto.
Qed.

Lemma noCircular_cached (st : State) key ref :
  noCircular env st -> ref ∈ cachedReferences st key -> circular ref = false.
Proof.
  intros [Hc _]. unfold cachedReferences.
  destruct (configFileCache st !! key) as [[parsed|]|] eqn:E;
    [|by intros ?%elem_of_nil..].
  by apply (Hc key).
Qed.

Lemma builtBefore_app order suffix i key :
  builtBefore env order i key -> builtBefore env (order ++ suffix) i key.
Proof.
  intros (j & name & Hj & Hname & Hkey). exists j, name.
  split; [done|]. split; [|done].
  rewrite lookup_app_l; [done | by eapply lookup_lt_Some].
Qed.

Lemma builtBefore_member order key :
  key ∈ keyOf <$> order -> builtBefore env (order ++ []) (length order) key
                          ∧ ∀ suffix, builtBefore env (order ++ suffix) (length order) key.
Proof.
  intros (name & -> & Hin)%list_elem_of_fmap.
  apply list_elem_of_lookup in Hin as [j Hj].
  assert (∀ suffix, builtBefore env (order ++ suffix) (length order) (keyOf name))
    as Hall.
  { intros suffix. exists j, name. split; [by eapply lookup_lt_Some|].
    split; [|done]. rewrite lookup_app_l; [done | by eapply lookup_lt_Some]. }
  split; [apply Hall | exact Hall].
Qed.

(** A visit that returns at once, maybe after a report. *)
Lemma visitInvariant_trace st0 (v : VisitState) st' :
  VisitInvariant env st0 v ->
  configFileCache st' = configFileCache (visitState v) ->
  hostState st' = hostState (visitState v) ->
  cycleReports (visitState v) ≤ cycleReports st' ->
  VisitInvariant env st0
    (mkVisit st' (temporaryMarks v) (permanentMarks v)
       (circularityReportStack v) (visitOrder v)).
Proof.
  intros [Hperm Htemp Hcached Horder Hstack Hreports Hnc] Hc Hh Hr.
  assert (∀ key, cachedReferences st' key = cachedReferences (visitState v) key)
    as Hrefs by (intros key; unfold cachedReferences; by rewrite Hc).
  assert (∀ a b, references env (visitState v) a b -> references env st' a b)
    as Hsub.
  { intros a b (ref & Hin & Hkey). exists ref. by rewrite Hrefs. }
  split; simpl; try done.
  - intros name Hin. rewrite Hc. by apply Hcached.
  - intros i name ref Hi Hin. rewrite Hrefs in Hin.
    destruct (Horder i name ref Hi Hin) as [Hb|[Hreach Hrep]]; [by left|].
    right. split; [by eapply rtc_subrel|]. intros Hno. specialize (Hrep Hno). lia.
  - intros name top Hin Htop. eapply rtc_subrel; [exact Hsub|]. by apply Hstack.
  - lia.
  - intros Hno. destruct (Hnc Hno) as [H1 H2]. split.
    + intros key parsed ref. rewrite Hc. apply H1.
    + intros name parsed ref. rewrite Hh. apply H2.
Qed.

(** The loop over the roots, or over the references of a project. *)
Lemma visit_loop {A} st0 (nameOf : A -> string) (contextOf : A -> bool)
    (visitor : string -> bool -> VisitState -> option VisitState)
    (l : list A) (v v' : VisitState) :
  (∀ name ctx v v',
     visitor name ctx v = Some v' ->
     VisitInvariant env st0 v -> referencedFromTop env v name ->
     (noCircular env st0 -> ctx = false) ->
     VisitResult env st0 name v v') ->
  forEachM (fun x => visitor (nameOf x) (contextOf x)) l v = Some v' ->
  VisitInvariant env st0 v ->
  (∀ x, x ∈ l -> referencedFromTop env v (nameOf x)) ->
  (noCircular env st0 -> ∀ x, x ∈ l -> contextOf x = false) ->
  VisitInvariant env st0 v'
  ∧ circularityReportStack v' = circularityReportStack v
  ∧ permanentMarks v ⊆ permanentMarks v'
  ∧ (∃ suffix, visitOrder v' = visitOrder v ++ suffix)
  ∧ cacheGrows (visitState v) (visitState v')
  ∧ cycleReports (visitState v) ≤ cycleReports (visitState v')
  ∧ ∀ x, x ∈ l ->
      keyOf (nameOf x) ∈ permanentMarks v'
      ∨ (keyOf (nameOf x) ∈ stackKeys env v
         ∧ (noCircular env st0 -> cycleReports st0 < cycleReports (visitState v'))).
Proof.
  intros Hvisit. revert v.
  induction l as [|x l IH]; intros v Hloop Hinv Htop Hctx; simpl in Hloop.
  - simplify_eq. split; [done|]. split; [done|]. split; [done|].
    split; [exists []; by rewrite app_nil_r|].
    split; [done|]. split; [done|]. by intros ? ?%elem_of_nil.
  - destruct (visitor (nameOf x) (contextOf x) v) as [v1|] eqn:Ex; [|done].
    apply Hvisit in Ex; [|done| |].
    2:{ apply Htop, elem_of_cons. by left. }
    2:{ intros Hno. apply Hctx; [done|]. apply elem_of_cons. by left. }
    destruct Ex as [Hinv1 Hstack1 Hperm1 [suffix1 Horder1] Hcache1 Hrep1 Hvis1].
    destruct (IH v1 Hloop Hinv1)
      as (Hinv' & Hstack' & Hperm' & [suffix' Horder'] & Hcache' & Hrep' & Hvis').
    { intros y Hy top Hlast. rewrite Hstack1 in Hlast.
      eapply references_grows; [exact Hcache1|].
      apply Htop; [|done]. apply elem_of_cons. by right. }
    { intros Hno y Hy. apply Hctx; [done|]. apply elem_of_cons. by right. }
    split; [done|]. split; [congruence|]. split; [set_solver|].
    split; [exists (suffix1 ++ suffix'); by rewrite Horder', Horder1, app_assoc|].
    split; [by etrans|]. split; [lia|].
    intros y [->|Hy]%elem_of_cons.
    + destruct Hvis1 as [Hp|[Hs Hr]]; [left; set_solver|].
      right. split; [done|]. intros Hno. specialize (Hr Hno). lia.
    + destruct (Hvis' y Hy) as [Hp|[Hs Hr]]; [by left|].
      right. split; [|done]. unfold stackKeys in *. by rewrite <- Hstack1.
Qed.

Lemma stackKeys_push (v : VisitState) st marks name key :
  key ∈ stackKeys env v ->
  key ∈ stackKeys env
          (mkVisit st marks (permanentMarks v)
             (circularityReportStack v ++ [name]) (visitOrder v)).
Proof.
  unfold stackKeys. simpl. rewrite fmap_app. intros Hk.
  apply elem_of_app. by left.
Qed.

(** The state of the traversal once [name] is marked, parsed and pushed. *)
Lemma visitInvariant_push st0 (v : VisitState) name :
  VisitInvariant env st0 v ->
  referencedFromTop env v name ->
  VisitInvariant env st0
    (mkVisit (parseConfigFile env (visitState v) name (keyOf name)).1
       ({[keyOf name]} ∪ temporaryMarks v) (permanentMarks v)
       (circularityReportStack v ++ [name]) (visitOrder v)).
Proof.
  intros [Hperm Htemp Hcached Horder Hstack Hreports Hnc] Htop.
  pose proof (cacheGrows_parse (visitState v) name (keyOf name)) as Hgrow.
  split; simpl.
  - done.
  - intros key [Hk|Hk]%elem_of_union.
    + apply elem_of_singleton in Hk as ->. right.
      unfold stackKeys. simpl. rewrite fmap_app. apply elem_of_app. right.
      apply elem_of_cons. by left.
    + destruct (Htemp key Hk) as [?|?]; [by left|]. right.
      by apply stackKeys_push.
  - intros n Hn. destruct (Hcached n Hn) as [entry Hentry].
    exists entry. by apply Hgrow.
  - intros i n ref Hi Hin.
    rewrite (cachedReferences_grows (visitState v)) in Hin;
      [|done|by eapply Hcached, list_elem_of_lookup_2].
    destruct (Horder i n ref Hi Hin) as [Hb|[Hreach Hrep]]; [by left|].
    right. split; [by eapply reaches_grows|].
    by rewrite cycleReports_parse.
  - intros n top Hn Hlast. rewrite last_snoc in Hlast. simplify_eq.
    apply elem_of_app in Hn as [Hn|Hn].
    + destruct (last (circularityReportStack v)) as [old|] eqn:Eold.
      * eapply rtc_r.
        -- eapply reaches_grows; [exact Hgrow|]. by apply Hstack.
        -- eapply references_grows; [exact Hgrow|]. by apply Htop.
      * apply last_None in Eold. rewrite Eold in Hn.
        by apply elem_of_nil in Hn.
    + apply elem_of_cons in Hn as [->|Hn]; [done|]. by apply elem_of_nil in Hn.
  - by rewrite cycleReports_parse.
  - intros Hno. by apply noCircular_parse, Hnc.
Qed.

(** [visit] keeps the invariant of the traversal. *)
Lemma visit_result st0 fuel name ctx (v v' : VisitState) :
  visit env fuel name ctx v = Some v' ->
  VisitInvariant env st0 v -> referencedFromTop env v name ->
  (noCircular env st0 -> ctx = false) ->
  VisitResult env st0 name v v'.
Proof.
  revert name ctx v v'.
  induction fuel as [|fuel IH]; intros name ctx v v'; [done|].
  simpl. fold keyOf. intros Hvisit Hinv Htop Hctx.
  destruct (decide (keyOf name ∈ permanentMarks v)) as [Hperm|Hperm].
  { simplify_eq. split; try done.
    - exists []. by rewrite app_nil_r.
    - by left. }
  destruct (decide (keyOf name ∈ temporaryMarks v)) as [Htemp|Htemp].
  { assert (keyOf name ∈ stackKeys env v) as Hstack.
    { destruct (inv_temporary _ _ _ Hinv _ Htemp); done. }
    destruct ctx; simplify_eq.
    - split; try done.
      + exists []. by rewrite app_nil_r.
      + right. split; [done|]. intros Hno. by specialize (Hctx Hno).
    - split;
        cbn [visitState temporaryMarks permanentMarks circularityReportStack
               visitOrder]; try done.
      + apply visitInvariant_trace; try done.
        rewrite cycleReports_report. lia.
      + exists []. by rewrite app_nil_r.
      + by intros key entry.
      + rewrite cycleReports_report. lia.
      + right. split; [done|]. intros _. rewrite cycleReports_report.
        pose proof (inv_reports _ _ _ Hinv). lia. }
  pose proof (visitInvariant_push st0 v name Hinv Htop) as Hinv1.
  pose proof (cachedReferences_parse (visitState v) name (keyOf name)) as Hrefs.
  pose proof (cacheGrows_parse (visitState v) name (keyOf name)) as Hgrow1.
  pose proof (cycleReports_parse (visitState v) name (keyOf name)) as Hrep1.
  destruct (parseConfigFile_cached env (visitState v) name (keyOf name))
    as (entry & Hentry & _).
  destruct (parseConfigFile env (visitState v) name (keyOf name))
    as [st1 parsed].
  simpl in *.
  set (v1 := mkVisit st1 ({[keyOf name]} ∪ temporaryMarks v) (permanentMarks v)
               (circularityReportStack v ++ [name]) (visitOrder v)) in *.
  match type of Hvisit with
  | match ?body with _ => _ end = _ =>
    destruct body as [v2|] eqn:Eloop; [|done]
  end.
  simplify_eq.
  (* the loop over the references *)
  assert (VisitInvariant env st0 v2
          ∧ circularityReportStack v2 = circularityReportStack v1
          ∧ permanentMarks v1 ⊆ permanentMarks v2
          ∧ (∃ suffix, visitOrder v2 = visitOrder v1 ++ suffix)
          ∧ cacheGrows (visitState v1) (visitState v2)
          ∧ cycleReports (visitState v1) ≤ cycleReports (visitState v2)
          ∧ ∀ ref, ref ∈ cachedReferences st1 (keyOf name) ->
              referenceKey env ref ∈ permanentMarks v2
              ∨ (referenceKey env ref ∈ stackKeys env v1
                 ∧ (noCircular env st0 ->
                    cycleReports st0 < cycleReports (visitState v2))))
    as (Hinv2 & Hstack2 & Hperm2 & [suffix Horder2] & Hgrow2 & Hrep2 & Hvis2).
  { assert (VisitInvariant env st0 v1
            ∧ circularityReportStack v1 = circularityReportStack v1
            ∧ permanentMarks v1 ⊆ permanentMarks v1
            ∧ (∃ suffix, visitOrder v1 = visitOrder v1 ++ suffix)
            ∧ cacheGrows (visitState v1) (visitState v1)
            ∧ cycleReports (visitState v1) ≤ cycleReports (visitState v1))
      as Hsame.
    { split; [done|]. split; [done|]. split; [done|].
      split; [exists []; by rewrite app_nil_r|]. split; [done | lia]. }
    destruct parsed as [p|]; simpl in Hrefs.
    2:{ injection Eloop as <-. destruct Hsame as (? & ? & ? & ? & ? & ?).
        repeat (split; [done|]). rewrite Hrefs. by intros ? ?%elem_of_nil. }
    destruct (projectReferences p) as [refs|] eqn:Erefs; simpl in Hrefs.
    2:{ injection Eloop as <-. destruct Hsame as (? & ? & ? & ? & ? & ?).
        repeat (split; [done|]). rewrite Hrefs. by intros ? ?%elem_of_nil. }
    rewrite Hrefs.
    apply (visit_loop st0 (fun ref => resolveProjectName env (path ref))
             (fun ref => ctx || circular ref) (visit env fuel)) in Eloop;
      [exact Eloop | exact IH | exact Hinv1 | |].
    - intros ref Hin top Hlast. subst v1. simpl in *.
      rewrite last_snoc in Hlast. injection Hlast as <-.
      exists ref. by rewrite Hrefs.
    - intros Hno ref Hin. rewrite (Hctx Hno). simpl.
      apply (noCircular_cached st1 (keyOf name)); [|by rewrite Hrefs].
      apply (inv_noCircular _ _ _ Hinv1 Hno). }
  subst v1. simpl in *.
  destruct Hinv2 as [Hperm' Htemp' Hcached' Horder' Hstack' Hreports' Hnc'].
  rewrite Hstack2 in *. rewrite Horder2 in *.
  assert (Hlen : ∀ i n, (visitOrder v ++ suffix) !! i = Some n ->
                        ((visitOrder v ++ suffix) ++ [name]) !! i = Some n).
  { intros i n Hi. rewrite lookup_app_l; [done | by eapply lookup_lt_Some]. }
  split; simpl.
  - (* the invariant *)
    split; simpl.
    + intros key [Hk|Hk]%elem_of_union.
      * apply elem_of_singleton in Hk as ->. rewrite fmap_app.
        apply elem_of_app. right. apply elem_of_cons. by left.
      * rewrite fmap_app. apply elem_of_app. left. by apply Hperm'.
    + intros key Hk. destruct (Htemp' key Hk) as [?|Hs]; [left; set_solver|].
      unfold stackKeys in Hs. rewrite Hstack2, fmap_app in Hs.
      apply elem_of_app in Hs as [Hs|Hs].
      * right. unfold stackKeys. simpl. by rewrite removelast_last.
      * apply elem_of_cons in Hs as [->|Hs]; [left; set_solver|].
        by apply elem_of_nil in Hs.
    + intros n [Hn|Hn]%elem_of_app; [by apply Hcached'|].
      apply elem_of_cons in Hn as [->|Hn]; [|by apply elem_of_nil in Hn].
      exists entry. by apply Hgrow2.
    + intros i n ref Hi Hin.
      destruct (decide (i < length (visitOrder v ++ suffix))) as [Hlt|Hge].
      * rewrite lookup_app_l in Hi by done.
        destruct (Horder' i n ref Hi Hin) as [Hb|Hr]; [|by right].
        left. by apply builtBefore_app.
      * assert (i = length (visitOrder v ++ suffix)) as ->.
        { apply lookup_lt_Some in Hi. rewrite length_app in Hi. simpl in Hi. lia. }
        rewrite list_lookup_middle in Hi by done. simplify_eq.
        rewrite (cachedReferences_grows st1) in Hin; [|done|by eexists].
        destruct (Hvis2 ref Hin) as [Hp|[Hs Hr]].
        -- left. by apply builtBefore_member, Hperm'.
        -- right. split; [|done].
           apply list_elem_of_fmap in Hs as (x & Hkey & Hx). simpl in Hx.
           rewrite Hkey. apply Hstack'; [done|]. apply last_snoc.
    + rewrite removelast_last. intros n top Hn Hlast.
      eapply reaches_grows; [exact Hgrow2|].
      eapply reaches_grows; [exact Hgrow1|].
      by apply (inv_stack _ _ _ Hinv).
    + done.
    + done.
  - by rewrite removelast_last.
  - set_solver.
  - exists (suffix ++ [name]). by rewrite app_assoc.
  - by etrans.
  - lia.
  - left. set_solver.
Qed.

Lemma visitInvariant_initial (st : State) :
  VisitInvariant env st (mkVisit st ∅ ∅ [] []).
Proof.
  split; simpl; try done.
  by intros name ?%elem_of_nil.
Qed.

(** What [createBuildOrder] returns satisfies the invariant of the
    traversal. *)
Lemma createBuildOrder_invariant fuel (st : State) roots st' order :
  createBuildOrder env fuel st roots = Some (st', order) ->
  ∃ v, visitState v = st' ∧ visitOrder v = order ∧ VisitInvariant env st v.
Proof.
  unfold createBuildOrder.
  destruct (forEachM _ _ _) as [v|] eqn:Eloop; [|done]. intros [= <- <-].
  exists v. split; [done|]. split; [done|].
  apply (visit_loop st (fun root => root) (fun _ => false) (visit env fuel))
    in Eloop; [by destruct Eloop| | | |].
  - intros name ctx v1 v2. apply visit_result.
  - apply visitInvariant_initial.
  - by intros root _ top.
  - done.
Qed.

(** *** Termination *)

Lemma forEachM_total {A S} (I : S -> Prop) (f : A -> S -> option S) l s :
  (∀ x s1, I s1 -> ∃ s2, f x s1 = Some s2 ∧ I s2) ->
  I s -> ∃ s', forEachM f l s = Some s' ∧ I s'.
Proof.
  intros Hf. revert s. induction l as [|x l IH]; intros s Hs; simpl.
  - by exists s.
  - destruct (Hf x s Hs) as (s1 & -> & Hs1). by apply IH.
Qed.

(** With fuel above the number of keys of [U] that are not marked yet,
    [visit] returns. *)
Lemma visit_total U fuel name ctx (v : VisitState) :
  configsWithin env U (visitState v) ->
  size (U ∖ temporaryMarks v) < fuel ->
  ∃ v', visit env fuel name ctx v = Some v'
        ∧ configsWithin env U (visitState v')
        ∧ temporaryMarks v ⊆ temporaryMarks v'.
Proof.
  revert name ctx v.
  induction fuel as [|fuel IH]; intros name ctx v Hwithin Hfuel; [lia|].
  simpl. fold keyOf.
  destruct (decide (keyOf name ∈ permanentMarks v)); [by exists v|].
  destruct (decide (keyOf name ∈ temporaryMarks v)) as [|Hfresh].
  { destruct ctx; eexists; (split; [done|]); split; try done;
      simpl; by eapply configsWithin_frame. }
  destruct (parseConfigFile_within env U (visitState v) name Hwithin)
    as [Hwithin1 Hin].
  change (toPath env name) with (keyOf name) in Hin, Hwithin1.
  destruct (parseConfigFile env (visitState v) name (keyOf name))
    as [st1 parsed].
  simpl in *.
  set (v1 := mkVisit st1 ({[keyOf name]} ∪ temporaryMarks v) (permanentMarks v)
               (circularityReportStack v ++ [name]) (visitOrder v)).
  assert (∃ v2,
            match parsed with
            | Some p =>
              match projectReferences p with
              | Some refs =>
                forEachM
                  (fun ref =>
                     visit env fuel (resolveProjectName env (path ref))
                       (ctx || circular ref)) refs v1
              | None => Some v1
              end
            | None => Some v1
            end = Some v2
            ∧ configsWithin env U (visitState v2)
            ∧ temporaryMarks v1 ⊆ temporaryMarks v2) as (v2 & -> & Hw2 & Ht2).
  { destruct parsed as [p|]; [|by exists v1].
    destruct (projectReferences p) as [refs|]; [|by exists v1].
    assert (keyOf name ∈ U) as HU by (apply Hin; by eexists).
    destruct (forEachM_total
                (fun s => configsWithin env U (visitState s)
                          ∧ temporaryMarks v1 ⊆ temporaryMarks s)
                (fun ref =>
                   visit env fuel (resolveProjectName env (path ref))
                     (ctx || circular ref)) refs v1)
      as (v2 & Hloop & Hw2 & Ht2); [| by split | by exists v2].
    intros ref s1 [Hw1 Ht1].
    destruct (IH (resolveProjectName env (path ref)) (ctx || circular ref) s1 Hw1)
      as (s2 & Hs2 & Hw2 & Ht2).
    - pose proof (measure_insert U (temporaryMarks v) (keyOf name) HU Hfresh).
      pose proof (measure_mono U _ _ Ht1). subst v1. simpl in *. lia.
    - exists s2. split; [done|]. split; [done|]. set_solver. }
  eexists. split; [done|]. split; [done|]. subst v1. simpl in *. set_solver.
Qed.

Lemma createBuildOrder_total U fuel (st : State) roots :
  configsWithin env U st -> size U < fuel ->
  ∃ st' order, createBuildOrder env fuel st roots = Some (st', order)
               ∧ configsWithin env U st'.
Proof.
  intros Hwithin Hfuel. unfold createBuildOrder.
  destruct (forEachM_total (fun s => configsWithin env U (visitState s))
              (fun root => visit env fuel root false) roots
              (mkVisit st ∅ ∅ [] []))
    as (v & -> & Hv); [|done|by exists (visitState v), (visitOrder v)].
  intros root s1 Hs1.
  destruct (visit_total U fuel root false s1 Hs1) as (s2 & ? & ? & _).
  - eapply Nat.le_lt_trans; [|exact Hfuel]. apply subseteq_size. set_solver.
  - by exists s2.
Qed.

(** *** Cycles are reported *)

(** Without a cycle report, the references of a project of the order lead
    to projects in front of it, over any number of steps. *)
Lemma unreported_descent (st0 : State) (v : VisitState) :
  VisitInvariant env st0 v ->
  noCircular env st0 ->
  cycleReports (visitState v) ≤ cycleReports st0 ->
  ∀ a b, tc (references env (visitState v)) a b ->
    ∀ i name, visitOrder v !! i = Some name -> keyOf name = a ->
      builtBefore env (visitOrder v) i b.
Proof.
  intros Hinv Hno Hcount a b Htc.
  induction Htc as [a b [ref [Hin Hkey]]|a b c [ref [Hin Hkey]] Htc IH];
    intros i name Hi Ha; subst a.
  - destruct (inv_order _ _ _ Hinv i name ref Hi Hin) as [Hb|[_ Hr]];
      [by rewrite <- Hkey|].
    specialize (Hr Hno). lia.
  - destruct (inv_order _ _ _ Hinv i name ref Hi Hin) as [Hb|[_ Hr]];
      [|specialize (Hr Hno); lia].
    destruct Hb as (j & nameB & Hj & HnameB & HkeyB).
    destruct (IH j nameB HnameB) as (k & nameC & Hk & HnameC & HkeyC);
      [congruence|].
    exists k, nameC. split; [lia | done].
Qed.

Lemma unreported_acyclic (st0 : State) (v : VisitState) :
  VisitInvariant env st0 v ->
  noCircular env st0 ->
  cycleReports (visitState v) ≤ cycleReports st0 ->
  ∀ i name, visitOrder v !! i = Some name ->
    ¬ tc (references env (visitState v)) (keyOf name) (keyOf name).
Proof.
  intros Hinv Hno Hcount i.
  induction i as [i IH] using lt_wf_ind. intros name Hi Hcycle.
  destruct (unreported_descent st0 v Hinv Hno Hcount _ _ Hcycle i name Hi eq_refl)
    as (j & nameJ & Hj & HnameJ & HkeyJ).
  apply (IH j Hj nameJ HnameJ). by rewrite HkeyJ.
Qed.

End GraphFacts.

(** ** Cleaning *)
Section CleanFacts.
Context {H : Type} (env : Env H).
Abbreviation State := (SolutionBuilderState H).
Abbreviation keyOf := (toResolvedConfigFilePath env).

Lemma cleanOutputs_keeps resolvedPath outputs (st : State) files st' files' :
  cleanOutputs env resolvedPath outputs st files = (st', files') ->
  configFileCache st' = configFileCache st
  ∧ (∀ key, key ≠ resolvedPath -> diagnostics st' !! key = diagnostics st !! key)
  ∧ (∀ c, c ∈ trace st -> c ∈ trace st').
Proof.
  revert st files. induction outputs as [|output outputs IH]; intros st files;
    simpl; [by intros [= <- <-]|].
  case_match; [|apply IH].
  destruct files as [done|]; [apply IH|].
  intros Hrest. apply IH in Hrest as (Hcache & Hdiag & Htrace).
  split; [|split].
  - rewrite Hcache. unfold invalidateProject, enableCache, addProjToQueue.
    repeat case_match; done.
  - intros key Hkey. rewrite Hdiag by done.
    unfold invalidateProject, enableCache, addProjToQueue.
    repeat case_match; simpl; by rewrite lookup_delete_ne.
  - intros c Hc. apply Htrace.
    unfold invalidateProject, enableCache, addProjToQueue.
    repeat case_match; simpl; apply elem_of_app; by left.
Qed.

Lemma reportParseConfigFileDiagnostic_stored (st : State) key d :
  configFileCache st !! key = Some (inr d) ->
  let st' := reportParseConfigFileDiagnostic st key in
  configFileCache st' = configFileCache st
  ∧ diagnostics st' !! key = Some [d]
  ∧ (∀ k, k ≠ key -> diagnostics st' !! k = diagnostics st !! k)
  ∧ ReportDiagnostic d ∈ trace st'
  ∧ (∀ c, c ∈ trace st -> c ∈ trace st').
Proof.
  intros Hentry. unfold reportParseConfigFileDiagnostic. rewrite Hentry.
  simpl. split; [done|]. split; [apply lookup_insert_eq|].
  split; [intros k Hk; by rewrite lookup_insert_ne|].
  split.
  - apply elem_of_app. right. apply elem_of_cons. by left.
  - intros c0 Hc0. apply elem_of_app. by left.
Qed.

(** The diagnostics of the projects that do not parse are stored under
    their keys and reported, and stay stored to the end of the loop. *)
Lemma cleanProjects_records order (st : State) files st' files' :
  cleanProjects env order st files = (st', files') ->
  cacheGrows st st'
  ∧ (∀ c, c ∈ trace st -> c ∈ trace st')
  ∧ (∀ key d, configFileCache st !! key = Some (inr d) ->
       diagnostics st !! key = Some [d] -> diagnostics st' !! key = Some [d])
  ∧ (∀ proj d, proj ∈ order ->
       configFileCache st' !! keyOf proj = Some (inr d) ->
       diagnostics st' !! keyOf proj = Some [d]
       ∧ ReportDiagnostic d ∈ trace st').
Proof.
  revert st files. induction order as [|proj order IH]; intros st files; simpl.
  { intros [= <- <-]. split; [done|]. split; [done|]. split; [done|].
    by intros ? ? ?%elem_of_nil. }
  pose proof (cacheGrows_parse env st proj (keyOf proj)) as Hgrow.
  pose proof (parseConfigFile_frame env st proj (keyOf proj)) as [c Hframe].
  destruct (parseConfigFile_cached env st proj (keyOf proj))
    as (entry & Hentry & Hparsed).
  destruct (parseConfigFile env st proj (keyOf proj)) as [st1 parsed].
  simpl in *. subst parsed st1.
  set (st1 := set_configFileCache (fun _ => c) st) in *.
  destruct entry as [parsed|d0]; simpl.
  - destruct (cleanOutputs env (keyOf proj) _ st1 files) as [st2 files2] eqn:Ec.
    apply cleanOutputs_keeps in Ec as (Hcache2 & Hdiag2 & Htrace2).
    intros Hrest. apply IH in Hrest as (Hgrow' & Htrace' & Hkept' & Hrec').
    assert (cacheGrows st st2) as Hgrow2
      by (intros k e Hk; rewrite Hcache2; by apply Hgrow).
    split; [by etrans|]. split; [intros x Hx; by apply Htrace', Htrace2|].
    split.
    + intros key d Hk Hd. apply Hkept'; [by apply Hgrow2|].
      rewrite Hdiag2; [done|]. intros ->.
      apply Hgrow in Hk. congruence.
    + intros p d [->|Hp]%elem_of_cons Hd; [|by apply Hrec'].
      rewrite <- Hcache2 in Hentry. apply Hgrow' in Hentry. congruence.
  - destruct (reportParseConfigFileDiagnostic_stored st1 (keyOf proj) d0 Hentry)
      as (Hcache2 & Hstored & Hdiag2 & Hreported & Htrace2).
    set (st2 := reportParseConfigFileDiagnostic st1 (keyOf proj)) in *.
    intros Hrest. apply IH in Hrest as (Hgrow' & Htrace' & Hkept' & Hrec').
    assert (cacheGrows st st2) as Hgrow2
      by (intros k e Hk; rewrite Hcache2; by apply Hgrow).
    split; [by etrans|]. split; [intros x Hx; by apply Htrace', Htrace2|].
    split.
    + intros key d Hk Hd. apply Hkept'; [by apply Hgrow2|].
      destruct (decide (key = keyOf proj)) as [->|Hne].
      * apply Hgrow in Hk. rewrite Hstored. congruence.
      * by rewrite Hdiag2.
    + intros p d [->|Hp]%elem_of_cons Hd; [|by apply Hrec'].
      assert (d = d0) as ->.
      { rewrite <- Hcache2 in Hentry. apply Hgrow' in Hentry. congruence. }
      split; [|by apply Htrace'].
      apply Hkept'; [by rewrite Hcache2 | done].
Qed.

Lemma getBuildOrder_total U fuel (st : State) :
  configsWithin env U st -> size U < fuel ->
  ∃ st' order, getBuildOrder env fuel st = Some (st', order)
               ∧ configsWithin env U st'.
Proof.
  intros Hwithin Hfuel. unfold getBuildOrder.
  destruct (buildOrder st) as [order|]; [by exists st, order|].
  destruct (createBuildOrder_total env U fuel st
              (resolveProjectName env <$> rootNames env) Hwithin Hfuel)
    as (st' & order & -> & Hw).
  eexists _, _. split; [done|]. by eapply configsWithin_frame.
Qed.

Lemma getBuildOrderFor_total U fuel (st : State) project :
  configsWithin env U st -> size U < fuel ->
  ∃ st' order, getBuildOrderFor env fuel st project = Some (st', order).
Proof.
  intros Hwithin Hfuel. unfold getBuildOrderFor.
  destruct (getBuildOrder_total U fuel st Hwithin Hfuel)
    as (st1 & order & -> & Hw1).
  destruct (resolvedProjectOf env project) as [resolved|]; [|by eexists _, _].
  case_match; [|by eexists _, _].
  destruct (createBuildOrder_total env U fuel st1 [resolved] Hw1 Hfuel)
    as (st2 & sub & -> & _).
  by eexists _, _.
Qed.

(** C10. [clean] returns, and its exit status depends on the build order
    only: it is [InvalidProject_OutputsSkipped] exactly when a project was
    requested whose key is not in the build order, and [Success]
    otherwise, whatever the configurations of the projects of the order
    parse to.  The diagnostic of every project of the order that did not
    parse is stored under its key and reported. *)
Theorem clean_exit_status
    (U : gset string) (fuel : nat) (st : State) (project : option string) :
  configsWithin env U st ->
  size U < fuel ->
  ∃ st' exit,
    clean env fuel st project = Some (st', exit)
    ∧ (exit = ExitStatus.InvalidProject_OutputsSkipped
       ↔ ∃ resolved st0 order,
           resolvedProjectOf env project = Some resolved
           ∧ getBuildOrder env fuel st = Some (st0, order)
           ∧ inBuildOrder env order (keyOf resolved) = false)
    ∧ (exit ≠ ExitStatus.InvalidProject_OutputsSkipped ->
       exit = ExitStatus.Success
       ∧ ∃ st0 order,
           getBuildOrderFor env fuel st project = Some (st0, Some order)
           ∧ ∀ proj d, proj ∈ order ->
               configFileCache st' !! keyOf proj = Some (inr d) ->
               diagnostics st' !! keyOf proj = Some [d]
               ∧ ReportDiagnostic d ∈ trace st').
Proof.
  intros Hwithin Hfuel.
  destruct (getBuildOrderFor_total U fuel st project Hwithin Hfuel)
    as (st0 & found & Hfor).
  unfold clean. rewrite Hfor.
  assert (found = None
          ↔ ∃ resolved st1 order,
              resolvedProjectOf env project = Some resolved
              ∧ getBuildOrder env fuel st = Some (st1, order)
              ∧ inBuildOrder env order (keyOf resolved) = false) as Hinvalid.
  { revert Hfor. unfold getBuildOrderFor.
    destruct (resolvedProjectOf env project) as [resolved|].
    - destruct (getBuildOrder env fuel st) as [[st1 order]|]; [|done].
      destruct (inBuildOrder env order (keyOf resolved)) eqn:Ein.
      + destruct (createBuildOrder _ _ _ _) as [[st2 sub]|]; [|done].
        intros [= <- <-]. split; [done|].
        intros (? & ? & ? & ? & ? & ?). simplify_eq. congruence.
      + intros [= <- <-]. split; [|done]. intros _. by eexists _, _, _.
    - destruct (getBuildOrder env fuel st) as [[st1 order]|]; [|done].
      intros [= <- <-]. split; [done|]. by intros (? & ? & ? & ? & _). }
  destruct found as [order|].
  - destruct (cleanProjects env order st0 _) as [st1 files] eqn:Eclean.
    apply cleanProjects_records in Eclean as (_ & Htrace & _ & Hrec).
    eexists _, _. split; [done|]. split.
    + split; [done|]. intros Hex. apply Hinvalid in Hex. done.
    + intros _. split; [done|]. exists st0, order. split; [done|].
      intros proj d Hin Hentry.
      assert (∀ s : State,
                configFileCache s = configFileCache st1 ->
                diagnostics s = diagnostics st1 ->
                (∀ c, c ∈ trace st1 -> c ∈ trace s) ->
                diagnostics s !! keyOf proj = Some [d]
                ∧ ReportDiagnostic d ∈ trace s) as Hfinal.
      { intros s Hc Hd Ht. rewrite Hd.
        destruct (Hrec proj d Hin) as [? ?]; [|split; auto].
        revert Hentry. by destruct files. }
      destruct files; apply Hfinal; try done.
      intros c Hc. simpl. apply elem_of_app. by left.
  - eexists _, _. split; [done|]. split.
    + split; [|done]. intros _. by apply Hinvalid.
    + done.
Qed.
End CleanFacts.

(** ** Dry runs *)
Section DryRunFacts.
Context {H : Type} (env : Env H).
Abbreviation State := (SolutionBuilderState H).
Abbreviation keyOf := (toResolvedConfigFilePath env).

(** *** What the propagation puts into the queue *)

Lemma addProjToQueue_other (st : State) proj level key :
  key ≠ proj ->
  projectPendingBuild (addProjToQueue st proj level) !! key
  = projectPendingBuild st !! key.
Proof.
  intros Hne. unfold addProjToQueue. repeat case_match; simpl; try done;
    by rewrite lookup_insert_ne.
Qed.

Lemma restatus_pending (st : State) project projectPath nextProjectPath ref
    buildResult :
  projectPendingBuild
    (restatus env st project projectPath nextProjectPath ref buildResult)
  = projectPendingBuild st.
Proof. unfold restatus, clearProjectStatus. repeat case_match; done. Qed.

Lemma queueIfReferencing_other (st : State) project projectPath nextProjectPath
    refs buildResult key :
  key ≠ nextProjectPath ->
  projectPendingBuild
    (queueIfReferencing env st project projectPath nextProjectPath refs
       buildResult) !! key
  = projectPendingBuild st !! key.
Proof.
  intros Hne. induction refs as [|ref refs IH]; simpl; [done|].
  case_match; [|done].
  by rewrite addProjToQueue_other, restatus_pending.
Qed.

Lemma queueLater_other (st : State) project projectPath later buildResult key :
  key ∉ keyOf <$> later ->
  projectPendingBuild (queueLater env st project projectPath later buildResult)
    !! key
  = projectPendingBuild st !! key.
Proof.
  revert st. induction later as [|next later IH]; intros st Hkey; simpl;
    [done|].
  rewrite fmap_cons, not_elem_of_cons in Hkey. destruct Hkey as [Hne Hkey].
  destruct (projectPendingBuild st !! keyOf next); [by apply IH|].
  pose proof (parseConfigFile_pending env st next (keyOf next)) as Hparse.
  destruct (parseConfigFile env st next _) as [st1 cfg]. simpl in Hparse.
  destruct cfg as [cfg|]; [|by rewrite IH, Hparse].
  destruct (projectReferences cfg) as [refs|]; [|by rewrite IH, Hparse].
  by rewrite IH, queueIfReferencing_other, Hparse.
Qed.

Lemma queueReferencingProjects_other (st : State) project projectPath
    projectIndex config order buildResult key :
  key ∉ keyOf <$> drop (S projectIndex) order ->
  projectPendingBuild
    (queueReferencingProjects env st project projectPath projectIndex config
       order buildResult) !! key
  = projectPendingBuild st !! key.
Proof.
  intros Hkey. unfold queueReferencingProjects. repeat case_match; try done.
  by apply queueLater_other.
Qed.

(** *** The dispatcher returns *)

Lemma pendingShrinks_some (st st' : State) key :
  pendingShrinks st st' ->
  is_Some (projectPendingBuild st' !! key) ->
  is_Some (projectPendingBuild st !! key).
Proof.
  intros Hshrinks [level Hlevel].
  destruct (projectPendingBuild st !! key) eqn:E; [eauto|].
  apply Hshrinks in E. congruence.
Qed.

Lemma nextInvalidatedFrom_returns U fuel order rest projectIndex (st : State) :
  configsWithin env U st -> size U < fuel ->
  ∃ st' next,
    nextInvalidatedFrom env fuel order rest projectIndex st = Some (st', next)
    ∧ ∀ invalidatedProject, next = Some invalidatedProject ->
        ∃ pre name post,
          rest = pre ++ name :: post
          ∧ projectPathOf invalidatedProject = keyOf name
          ∧ is_Some (projectPendingBuild st !! keyOf name)
          ∧ (∀ key, key ∈ keyOf <$> downstreamOf invalidatedProject ->
               key ∈ keyOf <$> drop (S (projectIndex + length pre)) order)
          ∧ ∀ n, n ∈ pre -> projectPendingBuild st' !! keyOf n = None.
Proof.
  intros Hw Hfuel. revert projectIndex st Hw.
  induction rest as [|project rest IH]; intros projectIndex st Hw; simpl.
  { eexists _, _. split; [done|]. by intros p [=]. }
  assert (∀ s,
            staysWithin env U st s -> pendingShrinks st s ->
            projectPendingBuild s !! keyOf project = None ->
            ∃ st' next,
              nextInvalidatedFrom env fuel order rest (S projectIndex) s
              = Some (st', next)
              ∧ ∀ invalidatedProject, next = Some invalidatedProject ->
                  ∃ pre name post,
                    project :: rest = pre ++ name :: post
                    ∧ projectPathOf invalidatedProject = keyOf name
                    ∧ is_Some (projectPendingBuild st !! keyOf name)
                    ∧ (∀ key, key ∈ keyOf <$> downstreamOf invalidatedProject ->
                         key ∈ keyOf <$> drop (S (projectIndex + length pre)) order)
                    ∧ ∀ n, n ∈ pre -> projectPendingBuild st' !! keyOf n = None)
    as Hcont.
  { intros s Hs Hshrinks Hnone.
    destruct (IH (S projectIndex) s (Hs Hw)) as (st' & next & Heq & Hnext).
    exists st', next. split; [done|]. intros p ->.
    destruct (Hnext p eq_refl) as (pre & name & post & -> & Hpath & Hsome & Hdown & Hpre).
    exists (project :: pre), name, post. split; [done|]. split; [done|].
    split; [by eapply pendingShrinks_some|]. split.
    - intros key Hkey. simpl. rewrite Nat.add_succ_r. by apply Hdown.
    - intros n Hn. apply elem_of_cons in Hn as [->|Hn]; [|by apply Hpre].
      apply (frame_nextInvalidatedFrom env pendingShrinks) in Heq.
      by apply Heq. }
  destruct (projectPendingBuild st !! keyOf project) as [reloadLevel|] eqn:Epending.
  2:{ apply Hcont; [by intros ? | by intros ? | done]. }
  pose proof (frame_parse env (staysWithin env U) st project) as Hparse.
  pose proof (frame_parse env pendingShrinks st project) as Hparse'.
  pose proof (parseConfigFile_within env U st project Hw) as [_ Hkey].
  destruct (parseConfigFile env st project _) as [st1 [config0|]] eqn:Eparse;
    simpl in Hparse, Hparse', Hkey.
  2:{ apply Hcont.
      - etrans; [exact Hparse|]. etrans; [|apply frame_pending].
        apply (frame_reportParseConfigFileDiagnostic (staysWithin env U)).
      - etrans; [exact Hparse'|]. etrans; [|apply frame_pending_delete].
        apply (frame_reportParseConfigFileDiagnostic pendingShrinks).
      - simpl. apply lookup_delete_eq. }
  pose proof (frame_applyReloadLevel env (staysWithin env U) st1 project
                (keyOf project) config0 reloadLevel
                (parseConfigFile_parsed env _ _ _ _ _ Eparse)) as Hreload.
  pose proof (frame_applyReloadLevel env pendingShrinks st1 project
                (keyOf project) config0 reloadLevel
                (parseConfigFile_parsed env _ _ _ _ _ Eparse)) as Hreload'.
  destruct (applyReloadLevel env st1 project _ config0 reloadLevel)
    as [st2 config]. simpl in Hreload, Hreload'.
  destruct (getUpToDateStatus_total env U fuel st2 (Some config) (keyOf project))
    as (st3 & status & Hstatus & Hw3 & _).
  { by apply Hreload, Hparse. }
  { intros _. apply Hkey. eauto. }
  { eapply Nat.le_lt_trans; [|exact Hfuel]. apply subseteq_size. set_solver. }
  rewrite Hstatus.
  apply (frame_getUpToDateStatus env pendingShrinks) in Hstatus.
  assert (staysWithin env U st (verboseReportProjectStatus env st3 project status))
    as Hst4.
  { intros _. by apply (frame_verboseReportProjectStatus env (staysWithin env U)). }
  assert (pendingShrinks st (verboseReportProjectStatus env st3 project status))
    as Hst4'.
  { etrans; [exact Hparse'|]. etrans; [exact Hreload'|]. etrans; [exact Hstatus|].
    apply (frame_verboseReportProjectStatus env pendingShrinks). }
  set (st4 := verboseReportProjectStatus env st3 project status) in *.
  clearbody st4.
  assert (∀ (s : State) p,
            projectPathOf p = keyOf project ->
            downstreamOf p = [] ∨ downstreamOf p = drop (S projectIndex) order ->
            ∀ invalidatedProject, Some p = Some invalidatedProject ->
              ∃ pre name post,
                project :: rest = pre ++ name :: post
                ∧ projectPathOf invalidatedProject = keyOf name
                ∧ is_Some (projectPendingBuild st !! keyOf name)
                ∧ (∀ key, key ∈ keyOf <$> downstreamOf invalidatedProject ->
                     key ∈ keyOf <$> drop (S (projectIndex + length pre)) order)
                ∧ ∀ n, n ∈ pre -> projectPendingBuild s !! keyOf n = None)
    as Hfound.
  { intros s p Hpath Hdown q [= <-]. exists [], project, rest.
    split; [done|]. split; [done|]. split; [by rewrite Epending|]. split.
    - intros key Hk. simpl. rewrite Nat.add_0_r.
      destruct Hdown as [Hd|Hd]; rewrite Hd in Hk; [|done].
      by apply elem_of_nil in Hk.
    - intros n Hn. by apply elem_of_nil in Hn. }
  set (skipped := set_projectPendingBuild (delete (keyOf project))
                    (reportAndStoreErrors st4 (keyOf project) (errors config))).
  assert (staysWithin env U st skipped) as Hskip.
  { etrans; [exact Hst4|]. etrans; [|apply frame_pending].
    apply (frame_reportAndStoreErrors (staysWithin env U)). }
  assert (pendingShrinks st skipped) as Hskip'.
  { etrans; [exact Hst4'|]. etrans; [|apply frame_pending_delete].
    apply (frame_reportAndStoreErrors pendingShrinks). }
  assert (projectPendingBuild skipped !! keyOf project = None) as Hgone
    by apply lookup_delete_eq.
  assert (∀ message args, staysWithin env U st (reportStatus skipped message args))
    as Hreport.
  { intros message args. etrans; [exact Hskip|].
    apply (frame_reportStatus (staysWithin env U)). }
  assert (∀ message args, pendingShrinks st (reportStatus skipped message args))
    as Hreport'.
  { intros message args. etrans; [exact Hskip'|].
    apply (frame_reportStatus pendingShrinks). }
  clearbody skipped.
  repeat case_match;
    first
      [ by apply Hcont
      | eexists _, _; split; [reflexivity|]; apply Hfound;
        [reflexivity | first [by left | by right]] ].
Qed.


(** *** The keys of a build order are distinct *)

#[local] Instance keepsDistinct_preorder : PreOrder (keepsDistinct env).
Proof.
  split.
  - intros v. by split.
  - intros v1 v2 v3 (Ht12 & Hp12 & Hd12) (Ht23 & Hp23 & Hd23).
    split; [set_solver|]. split; [|by intros ?; apply Hd23, Hd12].
    intros key Ht Hp. apply Hp23; [set_solver|]. by apply Hp12.
Qed.

Lemma visit_distinct fuel name ctx (v v' : VisitState) :
  visit env fuel name ctx v = Some v' -> keepsDistinct env v v'.
Proof.
  revert name ctx v v'. induction fuel as [|fuel IH]; intros name ctx v v';
    [done|].
  simpl. case_decide as Hperm; [intros [= <-]; reflexivity|].
  case_decide as Htemp.
  { intros [= <-]. by destruct ctx. }
  destruct (parseConfigFile env (visitState v) name _) as [st1 parsed].
  match goal with
  | |- match ?body with _ => _ end = _ -> _ =>
    destruct body as [v2|] eqn:Eb; [|done]
  end.
  intros [= <-].
  assert (keepsDistinct env
            (mkVisit st1 ({[keyOf name]} ∪ temporaryMarks v) (permanentMarks v)
               (circularityReportStack v ++ [name]) (visitOrder v)) v2)
    as (Ht & Hp & Hd).
  { destruct parsed as [p|]; [|simplify_eq; reflexivity].
    destruct (projectReferences p) as [refs|]; [|simplify_eq; reflexivity].
    apply (forEachM_preserves (keepsDistinct env)) in Eb; [exact Eb|].
    intros ref s1 s2. apply IH. }
  simpl in *.
  assert (keyOf name ∉ permanentMarks v2) as Hfresh
    by (apply Hp; [set_solver | done]).
  split; [set_solver|]. split; simpl.
  - intros key Hkt Hkp. specialize (Hp key). set_solver.
  - intros Hv. destruct (Hd Hv) as [Hnodup Hmarked]. split; simpl.
    + rewrite fmap_app. apply NoDup_app. split; [done|]. split.
      * intros key Hkey Hname. apply list_elem_of_singleton in Hname as ->.
        by apply Hfresh, Hmarked.
      * apply NoDup_singleton.
    + intros key Hkey. rewrite fmap_app in Hkey.
      apply elem_of_app in Hkey as [Hkey|Hkey]; [set_solver|].
      apply list_elem_of_singleton in Hkey as ->. set_solver.
Qed.

Lemma createBuildOrder_distinct fuel (st : State) roots st' order :
  createBuildOrder env fuel st roots = Some (st', order) ->
  NoDup (keyOf <$> order).
Proof.
  unfold createBuildOrder.
  destruct (forEachM _ _ _) as [v|] eqn:Ev; [|done]. intros [= <- <-].
  apply (forEachM_preserves (keepsDistinct env)) in Ev as (_ & _ & Hd).
  - apply Hd. split; simpl; [apply NoDup_nil_2 | by intros key Hk; apply elem_of_nil in Hk].
  - intros root s1 s2. apply visit_distinct.
Qed.

(** *** What [done] does to the queue in a dry run *)
Section Dry.
Hypothesis dry_run : dry (solutionOptions env) = true.

Lemma done_dry_removes (st : State) invalidatedProject :
  projectPendingBuild (done env st invalidatedProject)
    !! projectPathOf invalidatedProject = None.
Proof.
  destruct invalidatedProject as [project projectPath config pending
                                 |project projectPath projectIndex config order pending
                                 |project projectPath projectIndex config order pending];
    simpl.
  - apply lookup_delete_eq.
  - apply lookup_delete_eq.
  - destruct pending; [|apply lookup_delete_eq].
    unfold updateInvalidated, updateBundle. rewrite dry_run. simpl.
    apply lookup_delete_eq.
Qed.

Lemma done_dry_other (st : State) invalidatedProject key :
  key ∉ keyOf <$> downstreamOf invalidatedProject ->
  projectPendingBuild st !! key = None ->
  projectPendingBuild (done env st invalidatedProject) !! key = None.
Proof.
  intros Hkey Hnone.
  destruct invalidatedProject as [project projectPath config pending
                                 |project projectPath projectIndex config order pending
                                 |project projectPath projectIndex config order pending];
    simpl in *.
  - apply lookup_delete_None. right.
    destruct pending; [|done].
    unfold updateOutputTimestamps. by rewrite dry_run.
  - unfold doneBuild. simpl. apply lookup_delete_None. right.
    destruct pending; [|done].
    unfold buildInvalidated, buildSingleProject. rewrite dry_run. simpl.
    by rewrite queueReferencingProjects_other.
  - destruct pending; [|apply lookup_delete_None; by right].
    unfold updateInvalidated, updateBundle. rewrite dry_run. simpl.
    apply lookup_delete_None. right.
    by rewrite queueReferencingProjects_other.
Qed.

Lemma getNextInvalidatedProject_returns U fuel order (st : State) :
  configsWithin env U st -> size U < fuel ->
  ∃ st' next,
    getNextInvalidatedProject env fuel st order = Some (st', next)
    ∧ configsWithin env U st'
    ∧ ∀ invalidatedProject, next = Some invalidatedProject ->
        ∃ i name,
          order !! i = Some name
          ∧ projectPathOf invalidatedProject = keyOf name
          ∧ is_Some (projectPendingBuild st !! keyOf name)
          ∧ (∀ key, key ∈ keyOf <$> downstreamOf invalidatedProject ->
               key ∈ keyOf <$> drop (S i) order)
          ∧ ∀ n, n ∈ take i order -> projectPendingBuild st' !! keyOf n = None.
Proof.
  intros Hw Hfuel.
  assert (∀ st' next,
            getNextInvalidatedProject env fuel st order = Some (st', next) ->
            configsWithin env U st') as Hwithin.
  { intros st' next Hn.
    apply (frame_getNextInvalidatedProject env (staysWithin env U)) in Hn.
    by apply Hn. }
  revert Hwithin. unfold getNextInvalidatedProject. case_bool_decide as Hsize.
  { intros Hwithin. eexists _, _. split; [done|]. split; [done|]. by intros p [=]. }
  destruct (nextInvalidatedFrom_returns U fuel order order 0 st Hw Hfuel)
    as (st' & next & -> & Hnext).
  intros Hwithin. exists st', next. split; [done|]. split; [by eapply Hwithin|].
  intros p ->.
  destruct (Hnext p eq_refl) as (pre & name & post & Horder & Hpath & Hsome & Hdown & Hpre).
  exists (length pre), name. rewrite Horder.
  split; [apply list_lookup_middle; done|]. split; [done|]. split; [done|].
  split.
  - intros key Hkey. rewrite <- Horder. by apply Hdown.
  - intros n Hn. apply Hpre. by rewrite take_app_length in Hn.
Qed.

Lemma buildLoop_returns U fuel order (st : State) successful failed k :
  NoDup (keyOf <$> order) ->
  configsWithin env U st ->
  (∀ n, n ∈ take k order -> projectPendingBuild st !! keyOf n = None) ->
  size U + (length order - k) + 1 < fuel ->
  ∃ result, buildLoop env fuel order st successful failed = Some result.
Proof.
  intros Hdistinct. revert st successful failed k.
  induction fuel as [|fuel IH]; intros st successful failed k Hw Hidle Hfuel;
    [lia|].
  simpl.
  destruct (getNextInvalidatedProject_returns U fuel order st Hw)
    as (st1 & next & -> & Hw1 & Hnext); [lia|].
  destruct next as [p|]; [|by eexists].
  destruct (Hnext p eq_refl) as (i & name & Hi & Hpath & Hsome & Hdown & Hpre).
  assert (k ≤ i) as Hki.
  { destruct (decide (k ≤ i)) as [|Hlt]; [done|]. exfalso.
    assert (name ∈ take k order) as Hin.
    { apply list_elem_of_lookup. exists i. rewrite lookup_take_lt by lia. done. }
    apply Hidle in Hin. rewrite Hin in Hsome. by destruct Hsome. }
  assert (i < length order) as Hlen by (by eapply lookup_lt_Some).
  assert (∀ n, n ∈ take (S i) order ->
            projectPendingBuild (done env st1 p) !! keyOf n = None) as Hidle'.
  { intros n Hn. rewrite (take_S_r _ _ _ Hi) in Hn.
    apply elem_of_app in Hn as [Hn|Hn].
    - apply done_dry_other; [|by apply Hpre].
      intros Hkey. apply Hdown in Hkey.
      rewrite <- (take_drop (S i) order), fmap_app in Hdistinct.
      apply NoDup_app in Hdistinct as (_ & Hdisjoint & _).
      apply (Hdisjoint (keyOf n)); [|done].
      apply list_elem_of_fmap. exists n. split; [done|].
      rewrite (take_S_r _ _ _ Hi). apply elem_of_app. by left.
    - apply list_elem_of_singleton in Hn as ->. rewrite <- Hpath.
      apply done_dry_removes. }
  assert (configsWithin env U (done env st1 p)) as Hw'
    by (by apply (frame_done_dry env (staysWithin env U))).
  case_match; apply (IH _ _ _ (S i)); try done; lia.
Qed.

(** *** The drivers return *)

Lemma setupInitialBuild_returns fuel (st : State) order :
  buildOrder st = Some order ->
  ∃ st', setupInitialBuild env fuel st = Some st'.
Proof.
  intros Ho. unfold setupInitialBuild. case_match; [by eexists|].
  rewrite getBuildOrder_memoised with (order := order); [by eexists|].
  unfold reportWatchStatus. repeat case_match; done.
Qed.

Lemma reportErrorSummary_returns fuel (st : State) order :
  buildOrder st = Some order ->
  ∃ st', reportErrorSummary env fuel st = Some st'.
Proof.
  intros Ho. unfold reportErrorSummary. case_match; [by eexists|].
  rewrite getBuildOrder_memoised with (order := order) by done. by eexists.
Qed.

Lemma startWatching_returns fuel (st : State) order :
  buildOrder st = Some order ->
  ∃ st', startWatching env fuel st = Some st'.
Proof.
  intros Ho. unfold startWatching. case_match; [by eexists|].
  rewrite getBuildOrder_memoised with (order := order) by done. by eexists.
Qed.

(** The order that [build] works on has distinct keys, and the state it
    starts the loop from has a memoised build order. *)
Lemma getBuildOrderFor_distinct fuel (st : State) project st0 order :
  (∀ o, buildOrder st = Some o -> NoDup (keyOf <$> o)) ->
  getBuildOrderFor env fuel st project = Some (st0, Some order) ->
  NoDup (keyOf <$> order) ∧ is_Some (buildOrder st0).
Proof.
  intros Hmemo. unfold getBuildOrderFor.
  assert (∀ st1 o, getBuildOrder env fuel st = Some (st1, o) ->
                   NoDup (keyOf <$> o)) as Hfresh.
  { intros st1 o. unfold getBuildOrder.
    destruct (buildOrder st) as [o'|] eqn:Eo; [intros [= <- <-]; by apply Hmemo|].
    destruct (createBuildOrder _ _ _ _) as [[st2 o2]|] eqn:Ec; [|done].
    intros [= <- <-]. by eapply createBuildOrder_distinct. }
  destruct (getBuildOrder env fuel st) as [[st1 o]|] eqn:Eo;
    [|by destruct (resolvedProjectOf env project)].
  pose proof (getBuildOrder_memo env _ _ _ _ Eo) as Hmemo1.
  destruct (resolvedProjectOf env project) as [resolved|].
  - case_match; [|done].
    destruct (createBuildOrder _ _ _ _) as [[st2 sub]|] eqn:Ec; [|done].
    intros [= <- <-]. split; [by eapply createBuildOrder_distinct|].
    apply (frame_createBuildOrder env sameControl) in Ec as (Hb & _).
    rewrite Hb, Hmemo1. eauto.
  - intros [= <- <-]. split; [by eapply Hfresh|]. rewrite Hmemo1. eauto.
Qed.

(** With fuel above the number of configurations of the host and the
    length of the build order, the dry build returns. *)
Lemma build_dry_returns U fuel (st : State) project :
  configsWithin env U st ->
  (∀ o, buildOrder st = Some o -> NoDup (keyOf <$> o)) ->
  size U < fuel ->
  (∀ st0 order,
     getBuildOrderFor env fuel st project = Some (st0, Some order) ->
     size U + length order + 1 < fuel) ->
  ∃ st' exit, build env fuel st project = Some (st', exit).
Proof.
  intros Hw Hmemo Hfuel Hlength. unfold build.
  destruct (getBuildOrderFor_total env U fuel st project Hw Hfuel)
    as (st0 & order & Hfor).
  pose proof (frame_getBuildOrderFor env (staysWithin env U) _ _ _ _ _ Hfor Hw)
    as Hw0.
  rewrite Hfor. destruct order as [order|]; [|by eexists _, _].
  destruct (getBuildOrderFor_distinct _ _ _ _ _ Hmemo Hfor) as [Hdistinct [o0 Ho0]].
  specialize (Hlength _ _ Hfor).
  destruct (setupInitialBuild_returns fuel st0 o0 Ho0) as [st1 Hsetup].
  rewrite Hsetup.
  pose proof (frame_setupInitialBuild env (staysWithin env U) _ _ _ Hsetup Hw0)
    as Hw1.
  apply (setupInitialBuild_seeded env _ _ _ o0 Ho0) in Hsetup as [Ho1 _].
  destruct (buildLoop_returns U fuel order st1 0 0 0 Hdistinct Hw1)
    as [[[st2 successful] failed] Hloop].
  { intros n Hn. rewrite take_0 in Hn. by apply elem_of_nil in Hn. }
  { lia. }
  rewrite Hloop. apply buildLoop_drains in Hloop as [(Hb2 & _) _].
  assert (buildOrder (disableCache st2) = Some o0) as Ho2.
  { unfold disableCache. case_match; simpl; congruence. }
  destruct (reportErrorSummary_returns fuel _ o0 Ho2) as [st3 Hsummary].
  rewrite Hsummary.
  apply (reportErrorSummary_reported env _ _ _ o0 Ho2) in Hsummary
    as (_ & Hb3 & _).
  destruct (startWatching_returns fuel st3 o0) as [st4 Hwatch]; [congruence|].
  rewrite Hwatch. by eexists _, _.
Qed.
End Dry.

Lemma clean_returns U fuel (st : State) project :
  configsWithin env U st -> size U < fuel ->
  ∃ st' exit, clean env fuel st project = Some (st', exit).
Proof.
  intros Hw Hfuel. unfold clean.
  destruct (getBuildOrderFor_total env U fuel st project Hw Hfuel)
    as (st0 & order & ->).
  destruct order as [order|]; [|by eexists _, _].
  destruct (cleanProjects env order st0 _) as [st1 files].
  by eexists _, _.
Qed.

(** C8. Dry-run purity.  With the option [dry] set, [build], [clean] and
    the [done] of every action handle leave the host state as it is and
    add no call of [writeFile], [setModifiedTime] or [deleteFile] to the
    trace; what they add to the trace are reports.  Both drivers return:
    with fuel above the number of configurations of the host, [clean]
    does, and with fuel above that number and the length of the build
    order, [build] does. *)
Theorem dry_run_purity
    (U : gset string) (fuel : nat) (st : State) (project : option string) :
  dry (solutionOptions env) = true ->
  (∀ invalidatedProject, sameOutputs st (done env st invalidatedProject))
  ∧ (∀ st' exit, build env fuel st project = Some (st', exit) -> sameOutputs st st')
  ∧ (∀ st' exit, clean env fuel st project = Some (st', exit) -> sameOutputs st st')
  ∧ (configsWithin env U st -> size U < fuel ->
     ∃ st' exit, clean env fuel st project = Some (st', exit))
  ∧ (configsWithin env U st -> size U < fuel ->
     (∀ order, buildOrder st = Some order -> NoDup (keyOf <$> order)) ->
     (∀ st0 order,
        getBuildOrderFor env fuel st project = Some (st0, Some order) ->
        size U + length order + 1 < fuel) ->
     ∃ st' exit, build env fuel st project = Some (st', exit)).
Proof.
  intros dry_run.
  split; [|split; [|split; [|split]]].
  - intros p. by apply (frame_done_dry env sameOutputs).
  - intros st' exit. apply (frame_build env sameOutputs).
    intros s p. by apply (frame_done_dry env sameOutputs).
  - intros st' exit. by apply (frame_clean_dry env sameOutputs).
  - apply clean_returns.
  - intros Hw Hfuel Hmemo Hlength. by eapply build_dry_returns.
Qed.
End DryRunFacts.

(** * Further properties of the engine *)

(** ** The config cache *)
Section ConfigCacheFacts.
Context {H : Type} (env : Env H).
Abbreviation State := (SolutionBuilderState H).

(** X2. A reload of level Full forgets the cached configuration and the
    memoised build order: the next parse under the key asks the host again.
    A reload of another level keeps both.  Whatever the level, the status
    and the diagnostics of the project are dropped, the project is in the
    queue at the requested level at least, and a summary is due. *)
Theorem invalidateProject_reload
    (st : State) (resolved name : string)
    (reloadLevel : ConfigFileProgramReloadLevel.t) :
  let st' := invalidateProject st resolved reloadLevel in
  match reloadLevel with
  | ConfigFileProgramReloadLevel.Full =>
    buildOrder st' = None
    ∧ (parseConfigFile env st' name resolved).2
      = isParsedCommandLine
          (getParsedCommandLineOfConfigFile env (hostState st) name)
  | _ =>
    buildOrder st' = buildOrder st
    ∧ configFileCache st' = configFileCache st
  end
  ∧ projectStatus st' !! resolved = None
  ∧ diagnostics st' !! resolved = None
  ∧ levelLe (Some reloadLevel) (projectPendingBuild st' !! resolved)
  ∧ levelLe (projectPendingBuild st !! resolved)
            (projectPendingBuild st' !! resolved)
  ∧ needsSummary st' = true.
Proof.
  simpl. unfold invalidateProject, enableCache.
  set (st1 := match reloadLevel with
              | ConfigFileProgramReloadLevel.Full =>
                set_buildOrder None (set_configFileCache (delete resolved) st)
              | _ => st
              end).
  set (st2 := clearProjectStatus (set_needsSummary true st1) resolved).
  assert (projectPendingBuild st2 = projectPendingBuild st) as Hpending
    by (subst st2 st1; by destruct reloadLevel).
  pose proof (addProjToQueue_le st2 resolved reloadLevel resolved) as Hle.
  rewrite Hpending in Hle.
  pose proof (enqueueAll_bound st2 [(resolved, reloadLevel)] resolved reloadLevel)
    as Hbound.
  split; [|split; [|split; [|split; [|split]]]].
  - destruct reloadLevel.
    + subst st2 st1. unfold addProjToQueue. repeat case_match; done.
    + subst st2 st1. unfold addProjToQueue. repeat case_match; done.
    + split; [by unfold addProjToQueue; repeat case_match|].
      assert (configFileCache
                (set_cache true
                   (addProjToQueue st2 resolved ConfigFileProgramReloadLevel.Full))
                !! resolved = None) as Hnone.
      { unfold addProjToQueue. subst st2 st1.
        repeat case_match; simpl; apply lookup_delete_eq. }
      unfold parseConfigFile. rewrite Hnone. simpl.
      unfold addProjToQueue. subst st2 st1. by repeat case_match.
  - unfold addProjToQueue. subst st2 st1.
    destruct reloadLevel; repeat case_match; simpl; apply lookup_delete_eq.
  - unfold addProjToQueue. subst st2 st1.
    destruct reloadLevel; repeat case_match; simpl; apply lookup_delete_eq.
  - simpl. apply Hbound. unfold requestsFor. simpl.
    rewrite bool_decide_eq_true_2 by done. simpl. apply elem_of_cons. by left.
  - exact Hle.
  - unfold addProjToQueue. subst st2 st1.
    destruct reloadLevel; repeat case_match; done.
Qed.
End ConfigCacheFacts.

(** ** What a status tells about the files *)
Section StatusFacts.
Context {H : Type} (env : Env H).
Abbreviation State := (SolutionBuilderState H).

Lemma newestInput_seen h inputs name time name' time' :
  newestInput env h inputs name time = inr (name', time') ->
  (time <= time')%Z
  ∧ ∀ input, input ∈ inputs ->
      fileExists env h input = true
      ∧ (modifiedTimeOf env h input <= time')%Z.
Proof.
  revert name time. induction inputs as [|input inputs IH]; intros name time;
    simpl.
  - intros [= <- <-]. split; [lia|]. intros input Hin. by apply elem_of_nil in Hin.
  - destruct (fileExists env h input) eqn:Eexists; simpl; [|done].
    destruct (modifiedTimeOf env h input >? time)%Z eqn:Enewer; intros Hrest;
      apply IH in Hrest as [Hle Hall]; (split; [lia|]);
      intros i Hi; apply elem_of_cons in Hi as [->|Hi]; auto; split; auto; lia.
Qed.

Lemma newestInput_missing h pre file post name time :
  (∀ input, input ∈ pre -> fileExists env h input = true) ->
  fileExists env h file = false ->
  newestInput env h (pre ++ file :: post) name time = inl file.
Proof.
  revert name time. induction pre as [|input pre IH]; intros name time Hpre Hfile;
    simpl.
  - by rewrite Hfile.
  - rewrite Hpre by (apply elem_of_cons; by left). simpl.
    case_match; apply IH; auto; intros i Hi; apply Hpre, elem_of_cons; by right.
Qed.

(** A scan that went through all outputs. *)
Lemma scanOutputs_complete h time outputs s :
  scanMissingOutputFileName (scanOutputs env h time outputs s) = None ->
  scanIsOutOfDateWithInputs (scanOutputs env h time outputs s) = false ->
  (scanOldestOutputFileTime (scanOutputs env h time outputs s)
   <= scanOldestOutputFileTime s)%Z
  ∧ ∀ output, output ∈ outputs ->
      fileExists env h output = true
      ∧ (time <= modifiedTimeOf env h output)%Z
      ∧ (scanOldestOutputFileTime (scanOutputs env h time outputs s)
         <= modifiedTimeOf env h output)%Z.
Proof.
  revert s. induction outputs as [|output outputs IH]; intros s; simpl.
  - intros _ _. split; [lia|]. intros o Ho. by apply elem_of_nil in Ho.
  - destruct (fileExists env h output) eqn:Eexists; simpl; [|done].
    destruct (modifiedTimeOf env h output <? scanOldestOutputFileTime s)%Z
      eqn:Eoldest;
      (destruct (modifiedTimeOf env h output <? time)%Z eqn:Eold; simpl;
       [done|]);
      destruct (modifiedTimeOf env h output >? scanNewestOutputFileTime s)%Z;
      intros Hm Ho; destruct (IH _ Hm Ho) as [Hle Hall]; simpl in Hle;
      (split; [lia|]);
      intros o Hin; apply elem_of_cons in Hin as [->|Hin]; auto;
      (split; [done|]); split; lia.
Qed.

(** A scan that stopped at a missing output. *)
Lemma scanOutputs_missing h time outputs s missing :
  scanMissingOutputFileName s = None ->
  scanMissingOutputFileName (scanOutputs env h time outputs s) = Some missing ->
  ∃ pre post,
    outputs = pre ++ missing :: post
    ∧ fileExists env h missing = false
    ∧ ∀ output, output ∈ pre ->
        fileExists env h output = true
        ∧ (time <= modifiedTimeOf env h output)%Z.
Proof.
  revert s. induction outputs as [|output outputs IH]; intros s Hs; simpl.
  - by rewrite Hs.
  - destruct (fileExists env h output) eqn:Eexists; simpl.
    + destruct (modifiedTimeOf env h output <? scanOldestOutputFileTime s)%Z;
        (destruct (modifiedTimeOf env h output <? time)%Z eqn:Eold; simpl;
         [by rewrite Hs|]);
        destruct (modifiedTimeOf env h output >? scanNewestOutputFileTime s)%Z;
        intros Hm; apply IH in Hm as (pre & post & -> & Hmissing & Hpre);
        try done;
        exists (output :: pre), post; (split; [done|]); (split; [done|]);
        intros o Hin; apply elem_of_cons in Hin as [->|Hin]; auto;
        (split; [done | lia]).
    + intros [= <-]. exists [], outputs. split; [done|]. split; [done|].
      intros o Hin. by apply elem_of_nil in Hin.
Qed.

(** A status of the final part of the worker comes out of
    [statusAfterUpstream], on the host state the evaluation started with. *)
Lemma getUpToDateStatus_scanned fuel (st : State) project resolvedPath
    st' status :
  projectStatus st !! resolvedPath = None ->
  isScanStatus status = true ->
  getUpToDateStatus env fuel st (Some project) resolvedPath
  = Some (st', status) ->
  ∃ newestName newestTime st1 st2 up,
    newestInput env (hostState st) (fileNames project) None minimumDate
    = inr (newestName, newestTime)
    ∧ hostState st1 = hostState st
    ∧ statusAfterUpstream env st1 project resolvedPath newestName newestTime
        (scanOutputs env (hostState st) newestTime
           (getAllProjectOutputs env project) initialOutputScan) up
      = (st2, status).
Proof.
  intros Hprior Hscan. destruct fuel as [|fuel]; simpl; rewrite Hprior; [done|].
  destruct (getUpToDateStatusWorker _ _ _ _ _) as [[s0 actual]|] eqn:Ew; [|done].
  intros [= _ ->]. revert Ew. unfold getUpToDateStatusWorker.
  destruct (newestInput _ _ _ _ _) as [missing|[newestName newestTime]];
    [intros [= _ <-]; done|].
  case_match; [intros [= _ <-]; done|].
  assert (∀ (s1 s2 : State) up,
            hostState s1 = hostState st ->
            statusAfterUpstream env s1 project resolvedPath newestName newestTime
              (scanOutputs env (hostState st) newestTime
                 (getAllProjectOutputs env project) initialOutputScan) up
            = (s2, status) ->
            ∃ newestName0 newestTime0 st1 st2 up0,
              inr (newestName, newestTime)
              = (inr (newestName0, newestTime0) : string + option string * Date)
              ∧ hostState st1 = hostState st
              ∧ statusAfterUpstream env st1 project resolvedPath newestName0
                  newestTime0
                  (scanOutputs env (hostState st) newestTime0
                     (getAllProjectOutputs env project) initialOutputScan) up0
                = (st2, status)) as Hfinal.
  { intros s1 s2 up Hh Hs. by exists newestName, newestTime, s1, s2, up. }
  destruct (projectReferences project) as [refs|].
  - destruct (checkUpstream _ _ _ _ _ _) as [[st1 [s|up]]|] eqn:Ec; [| |done].
    + intros [= _ <-].
      apply checkUpstream_returned in Ec as [[? ->]|[[? ->]|(? & ? & ->)]]; done.
    + destruct (statusAfterUpstream _ _ _ _ _ _ _ _) as [st2 s] eqn:Es.
      intros [= _ <-]. eapply Hfinal; [|exact Es].
      apply (frame_checkUpstream env sameOutputs) in Ec as [Hh _]; [done|].
      intros s1 p k s1' r. apply (frame_getUpToDateStatus env sameOutputs).
  - destruct (statusAfterUpstream _ _ _ _ _ _ _ _) as [st2 s] eqn:Es.
    intros [= _ <-]. by eapply Hfinal.
Qed.

(** X3. A status that says up to date is backed by the files: every input
    file and every expected output exists, no output is older than an input,
    and none is older than the configuration file of the project. *)
Theorem up_to_date_status_is_backed_by_files
    (fuel : nat) (st : State) (project : ParsedCommandLine)
    (resolvedPath : string) (st' : State) (status : UpToDateStatus) :
  projectStatus st !! resolvedPath = None ->
  getUpToDateStatus env fuel st (Some project) resolvedPath
  = Some (st', status) ->
  (∃ info, status = UpToDate info ∨ status = UpToDateWithUpstreamTypes info) ->
  (∀ input, input ∈ fileNames project ->
     fileExists env (hostState st) input = true)
  ∧ ∀ output, output ∈ getAllProjectOutputs env project ->
      fileExists env (hostState st) output = true
      ∧ (∀ input, input ∈ fileNames project ->
           (modifiedTimeOf env (hostState st) input
            <= modifiedTimeOf env (hostState st) output)%Z)
      ∧ (modifiedTimeOf env (hostState st) (configFilePath (options project))
         <= modifiedTimeOf env (hostState st) output)%Z.
Proof.
  intros Hprior Hstatus Hup.
  destruct (getUpToDateStatus_scanned fuel st project resolvedPath st' status
              Hprior) as (newestName & newestTime & st1 & st2 & up & Hin & Hh & Hs);
    [by destruct Hup as [info [-> | ->]] | done |].
  apply newestInput_seen in Hin as [_ Hinputs].
  split; [intros input Hi; by apply Hinputs|].
  revert Hs. unfold statusAfterUpstream.
  set (scan := scanOutputs env (hostState st) newestTime
                 (getAllProjectOutputs env project) initialOutputScan).
  destruct (scanMissingOutputFileName scan) eqn:Emissing;
    [intros [= _ <-]; by destruct Hup as [info [? | ?]]|].
  destruct (scanIsOutOfDateWithInputs scan) eqn:Eold;
    [intros [= _ <-]; by destruct Hup as [info [? | ?]]|].
  destruct (scanOutputs_complete (hostState st) newestTime
              (getAllProjectOutputs env project) initialOutputScan Emissing Eold)
    as [_ Houtputs].
  fold scan in Houtputs.
  destruct (checkConfigFileUpToDateStatus env (hostState st1) _ _ _) eqn:Econfig.
  { apply checkConfigFileUpToDateStatus_self in Econfig as (? & ? & ->).
    intros [= _ <-]. by destruct Hup as [info [? | ?]]. }
  intros _. intros output Hout.
  destruct (Houtputs output Hout) as (Hexists & Hnew & Hold).
  split; [done|]. split.
  - intros input Hi. destruct (Hinputs input Hi) as [_ Hle]. lia.
  - unfold checkConfigFileUpToDateStatus in Econfig. rewrite Hh in Econfig.
    case_match; [done|]. lia.
Qed.

(** X4. A status [OutputMissing] names the first expected output that does
    not exist: the outputs in front of it exist and are not older than the
    newest input. *)
Theorem output_missing_names_first_missing_output
    (fuel : nat) (st : State) (project : ParsedCommandLine)
    (resolvedPath : string) (st' : State) (missing : string) :
  projectStatus st !! resolvedPath = None ->
  getUpToDateStatus env fuel st (Some project) resolvedPath
  = Some (st', OutputMissing missing) ->
  ∃ pre post,
    getAllProjectOutputs env project = pre ++ missing :: post
    ∧ fileExists env (hostState st) missing = false
    ∧ ∀ output, output ∈ pre ->
        fileExists env (hostState st) output = true
        ∧ ∀ input, input ∈ fileNames project ->
            (modifiedTimeOf env (hostState st) input
             <= modifiedTimeOf env (hostState st) output)%Z.
Proof.
  intros Hprior Hstatus.
  destruct (getUpToDateStatus_scanned fuel st project resolvedPath st'
              (OutputMissing missing) Hprior eq_refl Hstatus)
    as (newestName & newestTime & st1 & st2 & up & Hin & Hh & Hs).
  apply newestInput_seen in Hin as [_ Hinputs].
  apply statusAfterUpstream_missing in Hs.
  apply scanOutputs_missing in Hs as (pre & post & Hout & Hmissing & Hpre);
    [|done].
  exists pre, post. split; [done|]. split; [done|].
  intros output Ho. destruct (Hpre output Ho) as [Hexists Hnew].
  split; [done|]. intros input Hi. destruct (Hinputs input Hi) as [_ Hle]. lia.
Qed.

(** X5. A project with an input file that does not exist is [Unbuildable],
    with the first such file in the reason; the references are not
    evaluated, and nothing but the status of the project changes. *)
Theorem missing_input_is_unbuildable
    (fuel : nat) (st : State) (project : ParsedCommandLine)
    (resolvedPath : string) (pre : list string) (file : string)
    (post : list string) :
  projectStatus st !! resolvedPath = None ->
  fileNames project = pre ++ file :: post ->
  (∀ input, input ∈ pre -> fileExists env (hostState st) input = true) ->
  fileExists env (hostState st) file = false ->
  getUpToDateStatus env (S fuel) st (Some project) resolvedPath
  = Some (set_projectStatus
            <[resolvedPath := Unbuildable (file +:+ " does not exist")]> st,
          Unbuildable (file +:+ " does not exist")).
Proof.
  intros Hprior Hnames Hpre Hfile. simpl. rewrite Hprior.
  unfold getUpToDateStatusWorker.
  by rewrite Hnames, (newestInput_missing _ pre file post None minimumDate Hpre Hfile).
Qed.

(** X6. The evaluator memoises: the status it returns is the entry of the
    status map it leaves, and a later evaluation under the key, of whatever
    configuration and with whatever fuel, returns that status and changes
    nothing. *)
Theorem status_is_memoised
    (fuel fuel' : nat) (st : State) (project project' : ParsedCommandLine)
    (resolvedPath : string) (st' : State) (status : UpToDateStatus) :
  getUpToDateStatus env fuel st (Some project) resolvedPath
  = Some (st', status) ->
  projectStatus st' !! resolvedPath = Some status
  ∧ getUpToDateStatus env fuel' st' (Some project') resolvedPath
    = Some (st', status).
Proof.
  intros Hstatus.
  assert (projectStatus st' !! resolvedPath = Some status) as Hentry.
  { destruct fuel as [|fuel]; simpl in Hstatus;
      destruct (projectStatus st !! resolvedPath) as [prior|] eqn:E;
      try done; try (by simplify_eq).
    destruct (getUpToDateStatusWorker _ _ _ _ _) as [[st1 actual]|]; [|done].
    simplify_eq. simpl. apply lookup_insert_eq. }
  split; [done|]. destruct fuel'; simpl; by rewrite Hentry.
Qed.

(** X7. The status query of the builder only reads: it calls none of
    [writeFile], [setModifiedTime] and [deleteFile], and leaves the host,
    the queue, the memoised build order and the flags of the drivers as
    they are. *)
Theorem status_query_only_reads
    (fuel : nat) (st : State) (project : string) (st' : State)
    (status : UpToDateStatus) :
  getUpToDateStatusOfProject env fuel st project = Some (st', status) ->
  sameOutputs st st' ∧ sameSchedule st st'.
Proof.
  unfold getUpToDateStatusOfProject.
  pose proof (frame_parse env sameOutputs st (resolveProjectName env project))
    as Hparse.
  pose proof (frame_parse env sameSchedule st (resolveProjectName env project))
    as Hparse'.
  destruct (parseConfigFile env st _ _) as [st1 parsed]. simpl in *.
  intros Hs. split.
  - etrans; [exact Hparse|].
    by apply (frame_getUpToDateStatus env sameOutputs) in Hs.
  - etrans; [exact Hparse'|].
    by apply (frame_getUpToDateStatus env sameSchedule) in Hs.
Qed.
End StatusFacts.

(** ** The cover of a build order *)
Section CoverFacts.
Context {H : Type} (env : Env H).
Abbreviation keyOf := (toResolvedConfigFilePath env).

Lemma closedUnder_weaken (T T' : gset string) (v : @VisitState H) :
  T ⊆ T' ∪ permanentMarks v -> closedUnder env T v -> closedUnder env T' v.
Proof.
  intros Hsub [Hperm Hclosed]. split; [done|].
  intros key Hkey. destruct (Hclosed key Hkey) as [Hcached Hrefs].
  split; [done|]. intros ref Href. specialize (Hrefs ref Href). set_solver.
Qed.

Lemma cacheGrows_refl (st : SolutionBuilderState H) : cacheGrows st st.
Proof. by intros key entry. Qed.

Lemma cacheGrows_trans (st1 st2 st3 : SolutionBuilderState H) :
  cacheGrows st1 st2 -> cacheGrows st2 st3 -> cacheGrows st1 st3.
Proof. intros H12 H23 key entry Hk. by apply H23, H12. Qed.

#[local] Instance covers_preorder : PreOrder (covers env).
Proof.
  split.
  - intros v. split; [done|]. split; [done|]. split; [set_solver|].
    split; [apply cacheGrows_refl | done].
  - intros v1 v2 v3 (Hp12 & Ht12 & Hn12 & Hc12 & Hcl12)
      (Hp23 & Ht23 & Hn23 & Hc23 & Hcl23).
    split; [set_solver|]. split; [set_solver|]. split; [set_solver|].
    split; [by eapply cacheGrows_trans|].
    intros Hcl. apply (closedUnder_weaken (temporaryMarks v2)); [set_solver|].
    apply Hcl23. apply (closedUnder_weaken (temporaryMarks v1)); [set_solver|].
    by apply Hcl12.
Qed.

Lemma forEachM_covers {A} (g : A -> string)
    (f : A -> @VisitState H -> option (@VisitState H)) l s s' :
  (∀ x s1 s2, f x s1 = Some s2 ->
     covers env s1 s2 ∧ g x ∈ permanentMarks s2 ∪ temporaryMarks s1) ->
  forEachM f l s = Some s' ->
  covers env s s' ∧ ∀ x, x ∈ l -> g x ∈ permanentMarks s' ∪ temporaryMarks s.
Proof.
  intros Hf. revert s. induction l as [|x l IH]; intros s; simpl.
  - intros [= <-]. split; [reflexivity|]. by intros x ?%elem_of_nil.
  - destruct (f x s) as [s1|] eqn:E; [|done]. intros Hl.
    destruct (Hf _ _ _ E) as [Hc1 Hx]. destruct (IH _ Hl) as [Hc2 Hrest].
    split; [by etrans|].
    destruct Hc1 as (Hp1 & Ht1 & Hn1 & _). destruct Hc2 as (Hp2 & Ht2 & Hn2 & _).
    intros y [->|Hy]%elem_of_cons; [set_solver|].
    specialize (Hrest y Hy). set_solver.
Qed.

Lemma visit_covers fuel name ctx (v v' : @VisitState H) :
  visit env fuel name ctx v = Some v' ->
  covers env v v' ∧ keyOf name ∈ permanentMarks v' ∪ temporaryMarks v.
Proof.
  revert name ctx v v'. induction fuel as [|fuel IH]; intros name ctx v v';
    [done|].
  simpl. case_decide as Hperm; [intros [= <-]; split; [reflexivity|set_solver]|].
  case_decide as Htemp.
  { intros [= <-]. split; [|destruct ctx; set_solver].
    destruct ctx; [reflexivity|].
    split; [done|]. split; [done|]. split; [set_solver|].
    split; [by intros key entry|]. by intros Hcl. }
  pose proof (cachedReferences_parse env (visitState v) name (keyOf name)) as Hrefs.
  pose proof (cacheGrows_parse env (visitState v) name (keyOf name)) as Hgrow1.
  destruct (parseConfigFile_cached env (visitState v) name (keyOf name))
    as (entry & Hentry & _).
  destruct (parseConfigFile env (visitState v) name (keyOf name))
    as [st1 parsed].
  simpl in *.
  set (v1 := mkVisit st1 ({[keyOf name]} ∪ temporaryMarks v) (permanentMarks v)
               (circularityReportStack v ++ [name]) (visitOrder v)) in *.
  match goal with
  | |- match ?body with _ => _ end = _ -> _ =>
    destruct body as [v2|] eqn:Eloop; [|done]
  end.
  intros [= <-].
  assert (covers env v1 v2
          ∧ ∀ ref, ref ∈ cachedReferences st1 (keyOf name) ->
                   referenceKey env ref
                   ∈ permanentMarks v2 ∪ temporaryMarks v1) as [Hc Hvisited].
  { rewrite Hrefs. destruct parsed as [p|];
      [|simplify_eq; split; [reflexivity|by intros ref ?%elem_of_nil]].
    destruct (projectReferences p) as [refs|];
      [|simplify_eq; split; [reflexivity|by intros ref ?%elem_of_nil]].
    simpl. apply (forEachM_covers (referenceKey env)) in Eloop; [done|].
    intros ref s1 s2. apply IH. }
  destruct Hc as (Hp & Ht & Hn & Hgrow2 & Hcl). simpl in *.
  split; [|set_solver].
  split; [set_solver|]. split; [set_solver|]. split; [set_solver|].
  split; [by eapply cacheGrows_trans|]. simpl.
  intros [Hperm0 Hclosed0].
  destruct Hcl as [Hperm2 Hclosed2].
  { split; [done|]. intros key Hkey. simpl.
    destruct (Hclosed0 key Hkey) as [Hcached Hr]. split.
    - destruct Hcached as [e He]. exists e. by apply Hgrow1.
    - intros ref Href.
      rewrite (cachedReferences_grows (visitState v)) in Href; [|done|done].
      specialize (Hr ref Href). set_solver. }
  split; simpl.
  - intros key. rewrite fmap_app, elem_of_app, elem_of_union, Hperm2.
    simpl. rewrite list_elem_of_singleton, elem_of_singleton. tauto.
  - intros key [->%elem_of_singleton|Hkey]%elem_of_union.
    + split; [exists entry; by apply Hgrow2|].
      intros ref Href.
      rewrite (cachedReferences_grows st1) in Href; [|done|by eexists].
      specialize (Hvisited ref Href). set_solver.
    + destruct (Hclosed2 key Hkey) as [Hcached Hr]. split; [done|].
      intros ref Href. specialize (Hr ref Href). set_solver.
Qed.

Lemma createBuildOrder_covers fuel (st : SolutionBuilderState H) roots st'
    order :
  createBuildOrder env fuel st roots = Some (st', order) ->
  (∀ root, root ∈ roots -> keyOf root ∈ keyOf <$> order)
  ∧ coversReferences env st' order.
Proof.
  unfold createBuildOrder.
  destruct (forEachM _ _ _) as [v|] eqn:Ev; [|done]. intros [= <- <-].
  apply (forEachM_covers keyOf) in Ev as [(_ & _ & _ & _ & Hcl) Hroots];
    [|intros root s1 s2; apply visit_covers].
  destruct Hcl as [Hperm Hclosed].
  { split; simpl; [by intros key; rewrite elem_of_nil, elem_of_empty|].
    by intros key ?%elem_of_empty. }
  simpl in *. split.
  - intros root Hroot. apply Hperm. specialize (Hroots root Hroot). set_solver.
  - intros name Hname.
    assert (keyOf name ∈ permanentMarks v) as Hmark
      by (apply Hperm, list_elem_of_fmap; by exists name).
    destruct (Hclosed _ Hmark) as [Hcached Hr]. split; [done|].
    intros ref Href. apply Hperm. specialize (Hr ref Href). set_solver.
Qed.

(** X8. The build order covers the solution: no two entries have the same
    key, every root is an entry, the configuration file of every entry was
    looked at, and every project that an entry references is an entry as
    well. *)
Theorem build_order_covers_the_solution
    (fuel : nat) (st : SolutionBuilderState H) (roots : list string)
    (st' : SolutionBuilderState H) (order : list string) :
  createBuildOrder env fuel st roots = Some (st', order) ->
  NoDup (keyOf <$> order)
  ∧ (∀ root, root ∈ roots -> keyOf root ∈ keyOf <$> order)
  ∧ coversReferences env st' order.
Proof.
  intros Hcreate. split; [by eapply createBuildOrder_distinct|].
  by apply createBuildOrder_covers in Hcreate.
Qed.

(** *** The order for one project *)

Lemma coversReferences_grows (st st' : SolutionBuilderState H) order :
  cacheGrows st st' -> coversReferences env st order ->
  coversReferences env st' order.
Proof.
  intros Hgrow Hcovers name Hname.
  destruct (Hcovers name Hname) as [[entry Hentry] Hrefs]. split.
  - exists entry. by apply Hgrow.
  - intros ref Href. apply Hrefs.
    rewrite (cachedReferences_grows st st') in Href; [done|done|by eexists].
Qed.

Lemma forEachM_invariant {A S} (I : S -> Prop) (f : A -> S -> option S) l s s' :
  (∀ x s1 s2, x ∈ l -> f x s1 = Some s2 -> I s1 -> I s2) ->
  forEachM f l s = Some s' -> I s -> I s'.
Proof.
  revert s. induction l as [|x l IH]; intros s Hf; simpl.
  - by intros [= <-].
  - destruct (f x s) as [s1|] eqn:E; [|done]. intros Hl Hs.
    apply (IH s1); [|done|].
    + intros y s2 s3 Hy. apply Hf. by right.
    + eapply Hf; [by left | exact E | done].
Qed.

Lemma visit_orderWithin fuel full name ctx (v v' : @VisitState H) :
  visit env fuel name ctx v = Some v' ->
  keyOf name ∈ keyOf <$> full ->
  orderWithin env full v -> orderWithin env full v'.
Proof.
  revert name ctx v v'. induction fuel as [|fuel IH]; intros name ctx v v';
    [done|].
  simpl. case_decide as Hperm; [by intros [= <-]|].
  case_decide as Htemp.
  { intros [= <-] _ Hw. by destruct ctx. }
  pose proof (cachedReferences_parse env (visitState v) name (keyOf name)) as Hrefs.
  pose proof (cacheGrows_parse env (visitState v) name (keyOf name)) as Hgrow1.
  destruct (parseConfigFile env (visitState v) name (keyOf name))
    as [st1 parsed].
  simpl in *.
  match goal with
  | |- match ?body with _ => _ end = _ -> _ =>
    destruct body as [v2|] eqn:Eloop; [|done]
  end.
  intros [= <-] Hkey [Hcovers Horder].
  apply list_elem_of_fmap in Hkey as (n & Hn & Hnfull).
  assert (coversReferences env st1 full) as Hcovers1
    by (by eapply coversReferences_grows).
  assert (orderWithin env full v2) as [Hcovers2 Horder2].
  { destruct parsed as [p|]; [|by simplify_eq].
    destruct (projectReferences p) as [refs|]; [|by simplify_eq].
    simpl in Hrefs.
    eapply (forEachM_invariant (orderWithin env full)); [|exact Eloop|by split].
    intros ref s1 s2 Href Hvisit. eapply IH; [exact Hvisit|].
    destruct (Hcovers1 n Hnfull) as [_ Hclosed].
    apply Hclosed. by rewrite <- Hn, Hrefs. }
  split; [done|]. simpl.
  intros m [Hm|Hm]%elem_of_app; [by apply Horder2|].
  apply list_elem_of_singleton in Hm as ->.
  apply list_elem_of_fmap. by exists n.
Qed.

(** X9. The order that [getBuildOrderFor] gives for a project: its
    entries are projects of the build order of the solution, which stays
    the memoised one; it has the project itself, no two entries with the
    same key, and every project that an entry references. *)
Theorem order_for_a_project_is_part_of_the_solution
    (fuel : nat) (st : SolutionBuilderState H) (project : option string)
    (st' : SolutionBuilderState H) (sub : list string) :
  (∀ full, buildOrder st = Some full -> coversReferences env st full) ->
  getBuildOrderFor env fuel st project = Some (st', Some sub) ->
  ∃ full,
    buildOrder st' = Some full
    ∧ coversReferences env st' full
    ∧ (∀ name, name ∈ sub -> keyOf name ∈ keyOf <$> full)
    ∧ ∀ resolved, resolvedProjectOf env project = Some resolved ->
        keyOf resolved ∈ keyOf <$> sub
        ∧ NoDup (keyOf <$> sub)
        ∧ coversReferences env st' sub.
Proof.
  intros Hmemo. unfold getBuildOrderFor.
  assert (∀ st1 full,
            getBuildOrder env fuel st = Some (st1, full) ->
            buildOrder st1 = Some full ∧ coversReferences env st1 full)
    as Hfull.
  { intros st1 full Ho. split; [by eapply getBuildOrder_memo|].
    revert Ho. unfold getBuildOrder.
    destruct (buildOrder st) as [o|] eqn:Eo.
    - intros [= <- <-]. by apply Hmemo.
    - destruct (createBuildOrder _ _ _ _) as [[st2 o]|] eqn:Ec; [|done].
      intros [= <- <-]. by apply createBuildOrder_covers in Ec as [_ Hc]. }
  destruct (resolvedProjectOf env project) as [resolved|].
  - destruct (getBuildOrder env fuel st) as [[st1 full]|] eqn:Eo; [|done].
    destruct (Hfull _ _ eq_refl) as [Hb Hc].
    destruct (inBuildOrder env full (keyOf resolved)) eqn:Ein; [|done].
    destruct (createBuildOrder env fuel st1 [resolved]) as [[st2 o]|] eqn:Ec;
      [|done].
    intros [= <- <-]. exists full.
    pose proof (frame_createBuildOrder env sameControl _ _ _ _ _ Ec)
      as (Hb2 & _).
    pose proof (createBuildOrder_distinct env _ _ _ _ _ Ec) as Hnodup.
    pose proof (createBuildOrder_covers _ _ _ _ _ Ec) as [Hroots Hcsub].
    assert (keyOf resolved ∈ keyOf <$> full) as Hin.
    { unfold inBuildOrder in Ein. apply existsb_exists in Ein
        as (n & Hn & Hkey). apply bool_decide_eq_true in Hkey.
      apply list_elem_of_fmap. exists n. split; [done|].
      by apply list_elem_of_In. }
    revert Ec. unfold createBuildOrder. simpl.
    destruct (visit env fuel resolved false _) as [v|] eqn:Ev; [|done].
    intros [= <- <-].
    apply (visit_orderWithin _ full) in Ev as [Hc2 Hsub]; [|done|].
    2:{ split; [done|]. by intros name ?%elem_of_nil. }
    split; [by rewrite Hb2|]. split; [done|]. split; [done|].
    intros r [= <-]. split; [|done].
    apply Hroots. by apply list_elem_of_singleton.
  - destruct (getBuildOrder env fuel st) as [[st1 full]|] eqn:Eo; [|done].
    destruct (Hfull _ _ eq_refl) as [Hb Hc].
    intros [= <- <-]. exists full. split; [done|]. split; [done|].
    split; [intros name Hn; apply list_elem_of_fmap; by exists name|].
    by intros r.
Qed.
End CoverFacts.

(** ** The actions *)
Section ActionFacts.
Context {H : Type} (env : Env H).
Abbreviation State := (SolutionBuilderState H).

Lemma touchOutputs_writes proj message skip nowTime outputs (st : State)
    reportVerbose prior :
  let touched :=
    List.filter
      (fun file => negb match skip with
                        | Some s => fileMapHas s (toPath env file)
                        | None => false
                        end) outputs in
  let st' := (touchOutputs env proj message skip nowTime outputs st
                reportVerbose prior).1 in
  outputWrites (trace st')
  = outputWrites (trace st)
    ++ ((fun file => SetModifiedTime file nowTime) <$> touched)
  ∧ hostState st'
    = fold_left (fun h file => hostSetModifiedTime env h file nowTime)
        touched (hostState st).
Proof.
  simpl. revert st reportVerbose prior.
  induction outputs as [|file outputs IH]; intros st reportVerbose prior; simpl.
  - by rewrite app_nil_r.
  - destruct (match skip with
              | Some s => fileMapHas s (toPath env file)
              | None => false
              end) eqn:Eskip; simpl; [apply IH|].
    match goal with
    | |- context [touchOutputs _ _ _ _ _ _ ?s _ _] =>
      destruct (IH s false
                  (if isDeclarationFile env file
                   then newer prior
                          (modifiedTimeOf env
                             (hostState
                                (if reportVerbose
                                 then reportStatus st message
                                        [configFilePath (options proj)]
                                 else st)) file)
                   else prior)) as [Htrace Hhost];
      assert (outputWrites (trace s)
              = outputWrites (trace st) ++ [SetModifiedTime file nowTime]
              ∧ hostState s = hostSetModifiedTime env (hostState st) file nowTime)
        as [Hs Hh]
    end.
    { unfold listEmittedFile, setModifiedTime, reportStatus.
      destruct reportVerbose, (hasTrace env && listEmittedFiles (options proj));
        simpl; rewrite ?outputWrites_app; simpl; rewrite ?app_nil_r; done. }
    rewrite Htrace, Hhost, Hs, Hh. by rewrite <- app_assoc.
Qed.

Lemma filter_all {A} (l : list A) : List.filter (fun _ => negb false) l = l.
Proof. induction l as [|x l IH]; simpl; [done|]. f_equal. exact IH. Qed.

Lemma updateOutputTimestampsWorker_writes (st : State) proj prior message
    skipOutputs :
  let st' :=
    (updateOutputTimestampsWorker env st proj prior message skipOutputs).1 in
  outputWrites (trace st')
  = outputWrites (trace st)
    ++ ((fun file => SetModifiedTime file (now env (hostState st)))
          <$> touchedOutputs env proj skipOutputs)
  ∧ hostState st'
    = fold_left
        (fun h file => hostSetModifiedTime env h file (now env (hostState st)))
        (touchedOutputs env proj skipOutputs) (hostState st).
Proof.
  simpl. unfold updateOutputTimestampsWorker, touchedOutputs.
  destruct skipOutputs as [skip|]; simpl.
  - destruct (length (getAllProjectOutputs env proj) =? length skip); simpl;
      [by rewrite app_nil_r|].
    apply (touchOutputs_writes proj message (Some skip)).
  - pose proof (touchOutputs_writes proj message None (now env (hostState st))
                  (getAllProjectOutputs env proj) st
                  (verbose (solutionOptions env)) prior) as Ht.
    simpl in Ht. by rewrite filter_all in Ht.
Qed.

(** X12. After an emit, [updateOutputTimestampsWorker] sets the time of
    the expected outputs that were not emitted, each once, in their order
    and all to the time read before the first; when the emit gave as many
    files as outputs are expected, it sets none.  [updateOutputTimestamps]
    in a build that is not dry sets the time of every expected output. *)
Theorem timestamps_are_set_for_what_was_not_emitted
    (st : State) (proj : ParsedCommandLine) (resolvedPath : string)
    (prior : Date) (message : DiagnosticMessage)
    (skipOutputs : option (list (string * string))) :
  let touch file := SetModifiedTime file (now env (hostState st)) in
  let set h file := hostSetModifiedTime env h file (now env (hostState st)) in
  let st1 :=
    (updateOutputTimestampsWorker env st proj prior message skipOutputs).1 in
  let st2 := updateOutputTimestamps env st proj resolvedPath in
  outputWrites (trace st1)
  = outputWrites (trace st) ++ (touch <$> touchedOutputs env proj skipOutputs)
  ∧ hostState st1
    = fold_left set (touchedOutputs env proj skipOutputs) (hostState st)
  ∧ outputWrites (trace st2)
    = outputWrites (trace st)
      ++ (if dry (solutionOptions env) then []
          else touch <$> getAllProjectOutputs env proj).
Proof.
  simpl.
  split; [apply updateOutputTimestampsWorker_writes|].
  split; [apply updateOutputTimestampsWorker_writes|].
  unfold updateOutputTimestamps. destruct (dry (solutionOptions env)).
  - unfold reportStatus. simpl. by rewrite outputWrites_app.
  - pose proof (updateOutputTimestampsWorker_writes st proj minimumDate
                  Updating_output_timestamps_of_project_0 None) as [Hw _].
    destruct (updateOutputTimestampsWorker env st proj minimumDate
                Updating_output_timestamps_of_project_0 None) as [st1 t].
    exact Hw.
Qed.

(** *** The emit *)

Lemma emitOne_writes (e : @EmitScan H) file :
  outputWrites (trace (emitState (emitOne env e file)))
  = outputWrites (trace (emitState e)) ++ [writeOf file]
  ∧ hostState (emitState (emitOne env e file))
    = (hostWriteFile env (hostState (emitState e)) (outputName file)
         (outputText file) (writeByteOrderMark file)).1
  ∧ emittedOutputs (emitOne env e file)
    = fileMapSet (emittedOutputs e) (toPath env (outputName file))
        (outputName file)
  ∧ (resultFlags e
     = (if anyDtsChanged e then 0%Z
        else BuildResultFlags.DeclarationOutputUnchanged) ->
     resultFlags (emitOne env e file)
     = (if anyDtsChanged (emitOne env e file) then 0%Z
        else BuildResultFlags.DeclarationOutputUnchanged)).
Proof.
  unfold emitOne, writeFile.
  destruct (hostWriteFile env (hostState (emitState e)) (outputName file)
              (outputText file) (writeByteOrderMark file)) as [h' failure].
  simpl. rewrite outputWrites_app. simpl.
  split; [done|]. split; [done|]. split; [done|].
  intros ->.
  destruct (anyDtsChanged e), (isDeclarationFile env (outputName file)),
    (fileExists env (hostState (emitState e)) (outputName file)
     && bool_decide (readFile env (hostState (emitState e)) (outputName file)
                     = Some (outputText file))); done.
Qed.

Lemma emit_writes files (e : @EmitScan H) :
  let e' := fold_left (emitOne env) files e in
  outputWrites (trace (emitState e'))
  = outputWrites (trace (emitState e)) ++ (writeOf <$> files)
  ∧ hostState (emitState e') = written env (hostState (emitState e)) files
  ∧ emittedOutputs e'
    = fold_left
        (fun m file =>
           fileMapSet m (toPath env (outputName file)) (outputName file))
        files (emittedOutputs e)
  ∧ (resultFlags e
     = (if anyDtsChanged e then 0%Z
        else BuildResultFlags.DeclarationOutputUnchanged) ->
     resultFlags e'
     = (if anyDtsChanged e' then 0%Z
        else BuildResultFlags.DeclarationOutputUnchanged)).
Proof.
  simpl. revert e. induction files as [|file files IH]; intros e.
  - simpl. by rewrite app_nil_r.
  - change (fold_left (emitOne env) (file :: files) e)
      with (fold_left (emitOne env) files (emitOne env e file)).
    destruct (IH (emitOne env e file)) as (Htrace & Hhost & Hmap & Hflags).
    destruct (emitOne_writes e file) as (Htrace1 & Hhost1 & Hmap1 & Hflags1).
    rewrite Htrace, Hhost, Hmap, Htrace1, Hhost1, Hmap1.
    split; [by rewrite <- app_assoc|]. split; [done|]. split; [done|].
    intros Hinv. by apply Hflags, Hflags1.
Qed.

Lemma buildErrors_stored (st : State) resolvedPath withProgram diags flags
    errorType :
  let result := buildErrors env st resolvedPath withProgram diags flags
                  errorType in
  result.2 = flags
  ∧ projectStatus result.1 !! resolvedPath
    = Some (Unbuildable (errorType +:+ " errors"))
  ∧ resolvedPath ∈ projectErrorsReported result.1
  ∧ (diags ≠ [] -> diagnostics result.1 !! resolvedPath = Some diags).
Proof.
  unfold buildErrors. simpl. split; [done|].
  split; [apply lookup_insert_eq|].
  unfold reportAndStoreErrors, listProgramFiles.
  destruct withProgram as [p|], (hasTrace env), diags as [|d diags]; simpl;
    (split; [set_solver|]); try done; intros _; apply lookup_insert_eq.
Qed.

(** X10. Diagnostics of the program stop a build before the emit: with
    syntactic or semantic diagnostics, or diagnostics of the declaration
    emit, nothing is written, the project is [Unbuildable], the result has
    an error flag, the queue is as it was, and no project is queued for the
    build that follows. *)
Theorem diagnostics_stop_the_build_before_the_emit
    (st : State) (proj resolvedPath : string) (config : ParsedCommandLine)
    (projectIndex : nat) (order : list string) :
  let program := (createdProgram env st proj config).2 in
  let result := buildSingleProject env st proj resolvedPath config in
  dry (solutionOptions env) = false ->
  fileNames config ≠ [] ->
  syntaxDiagnostics program ≠ [] ∨ semanticDiagnostics program ≠ []
  ∨ is_Some (declDiagnostics program) ->
  sameOutputs st result.1
  ∧ projectPendingBuild result.1 = projectPendingBuild st
  ∧ BuildResultFlags.has result.2 BuildResultFlags.AnyErrors = true
  ∧ (∃ kind, projectStatus result.1 !! resolvedPath
             = Some (Unbuildable (kind +:+ " errors")))
  ∧ resolvedPath ∈ projectErrorsReported result.1
  ∧ buildInvalidated env st proj resolvedPath projectIndex config order = result.
Proof.
  simpl. intros Hdry Hnames Hdiags.
  assert (∀ R : relation State, Frame R -> FrameConfigs env R ->
            R st (buildSingleProject env st proj resolvedPath config).1)
    as Hframe.
  { intros R HR HRc. revert Hdiags.
    unfold buildSingleProject, createdProgram. rewrite Hdry.
    set (st0 := if verbose (solutionOptions env)
                then reportStatus st Building_project_0 [proj] else st).
    assert (R st st0) as Hst0
      by (subst st0; case_match;
          [apply (frame_reportStatus R) | reflexivity]).
    clearbody st0.
    destruct (fileNames config) as [|name names]; [done|].
    pose proof (frame_answer R (getParsedCommandLine env)
                  (createProgram env (hostState st0) config) st0
                  (frame_getParsedCommandLine env R)) as Hasked.
    destruct (answer _ _ st0) as [st1 program]. simpl in *.
    intros Hdiags.
    destruct (syntaxDiagnostics program);
      [|etrans; [exact Hst0|]; etrans; [exact Hasked|];
        apply (frame_buildErrors env R)].
    destruct (semanticDiagnostics program);
      [|etrans; [exact Hst0|]; etrans; [exact Hasked|];
        apply (frame_buildErrors env R)].
    destruct (declDiagnostics program);
      [etrans; [exact Hst0|]; etrans; [exact Hasked|];
       apply (frame_buildErrors env R)|].
    destruct Hdiags as [?|[?|[? ?]]]; done. }
  split; [apply (Hframe sameOutputs); apply _|].
  split; [apply (Hframe sameSchedule); apply _|].
  assert (BuildResultFlags.has
            (buildSingleProject env st proj resolvedPath config).2
            BuildResultFlags.AnyErrors = true
          ∧ (∃ kind,
               projectStatus
                 (buildSingleProject env st proj resolvedPath config).1
               !! resolvedPath = Some (Unbuildable (kind +:+ " errors")))
          ∧ resolvedPath
            ∈ projectErrorsReported
                (buildSingleProject env st proj resolvedPath config).1)
    as (Hflags & Hstatus & Hreported).
  { revert Hdiags. unfold buildSingleProject, createdProgram. rewrite Hdry.
    destruct (fileNames config) as [|name names]; [done|].
    destruct (answer _ _ _) as [st1 program]. simpl.
    intros Hdiags.
    destruct (syntaxDiagnostics program) eqn:Esyntax.
    - destruct (semanticDiagnostics program) eqn:Esemantic.
      + destruct (declDiagnostics program) as [declDiags|] eqn:Edecl;
          [|destruct Hdiags as [?|[?|[? ?]]]; done].
        destruct (buildErrors_stored st1 resolvedPath (Some config) declDiags
                    BuildResultFlags.DeclarationEmitErrors "Declaration file")
          as (-> & Hs & Hr & _).
        split; [done|]. split; [by eexists|done].
      + destruct (buildErrors_stored st1 resolvedPath (Some config)
                    (semanticDiagnostics program)
                    BuildResultFlags.TypeErrors "Semantic")
          as (Hf & Hs & Hr & _).
        rewrite Esemantic in *. rewrite Hf.
        split; [done|]. split; [by eexists|done].
    - destruct (buildErrors_stored st1 resolvedPath (Some config)
                  (syntaxDiagnostics program)
                  BuildResultFlags.SyntaxErrors "Syntactic")
        as (Hf & Hs & Hr & _).
      rewrite Esyntax in *. rewrite Hf.
      split; [done|]. split; [by eexists|done]. }
  split; [done|]. split; [done|]. split; [done|].
  unfold buildInvalidated.
  destruct (buildSingleProject env st proj resolvedPath config) as [st1 flags].
  simpl in *. unfold queueReferencingProjects. by rewrite Hflags.
Qed.

Lemma listing_writes (st : State) config (emitted : list (string * string)) :
  sameOutputs st
    (fold_left (fun s kv => listEmittedFile env s config kv.2) emitted st).
Proof.
  apply (fold_left_preserves sameOutputs). intros x s1.
  apply (frame_listEmittedFile env sameOutputs).
Qed.

(** *** The update of a bundle *)

Lemma bundle_writes files (st : State) diags emitted :
  let '(st', diags', emitted') :=
    fold_left
      (fun '(s, ds, em) file =>
         let '(s', ds') := writeFile env s ds file in
         (s', ds',
          fileMapSet em (toPath env (outputName file)) (outputName file)))
      files (st, diags, emitted) in
  outputWrites (trace st') = outputWrites (trace st) ++ (writeOf <$> files)
  ∧ hostState st' = written env (hostState st) files
  ∧ emitted'
    = fold_left
        (fun m file =>
           fileMapSet m (toPath env (outputName file)) (outputName file))
        files emitted.
Proof.
  revert st diags emitted.
  induction files as [|file files IH]; intros st diags emitted; simpl.
  - by rewrite app_nil_r.
  - destruct (writeFile env st diags file) as [s' ds'] eqn:Ew.
    assert (outputWrites (trace s')
            = outputWrites (trace st) ++ [writeOf file]
            ∧ hostState s'
              = (hostWriteFile env (hostState st) (outputName file)
                   (outputText file) (writeByteOrderMark file)).1)
      as [Ht Hh].
    { unfold writeFile in Ew.
      destruct (hostWriteFile env (hostState st) (outputName file)
                  (outputText file) (writeByteOrderMark file)) as [h' failure].
      simplify_eq. simpl. by rewrite outputWrites_app. }
    specialize (IH s' ds'
                  (fileMapSet emitted (toPath env (outputName file))
                     (outputName file))).
    destruct (fold_left _ files _) as [[st' diags'] emitted'].
    destruct IH as (Htrace & Hhost & Hmap).
    rewrite Htrace, Hhost, Hmap, Ht, Hh. by rewrite <- app_assoc.
Qed.

End ActionFacts.

(** ** What an action does to the queue *)
Section DownstreamFacts.
Context {H : Type} (env : Env H).
Abbreviation State := (SolutionBuilderState H).
Abbreviation keyOf := (toResolvedConfigFilePath env).

#[local] Instance sameSchedule_host : FrameHost (@sameSchedule H).
Proof. by split. Qed.

#[local] Instance sameSchedule_configs : FrameConfigs env (@sameSchedule H).
Proof. apply frameCache_configs; apply _. Qed.

Lemma queuedAmong_same keys (st st' : State) :
  projectPendingBuild st' = projectPendingBuild st -> queuedAmong keys st st'.
Proof. intros Hp key. left. by rewrite Hp. Qed.

Lemma queuedAmong_trans keys (st1 st2 st3 : State) :
  queuedAmong keys st1 st2 -> queuedAmong keys st2 st3 ->
  queuedAmong keys st1 st3.
Proof.
  intros H12 H23 key.
  destruct (H12 key) as [Hs|(Hn & Hl & Hk)], (H23 key) as [Hs'|(Hn' & Hl' & Hk')].
  - left. congruence.
  - right. rewrite <- Hs. done.
  - right. rewrite Hs'. done.
  - congruence.
Qed.

Lemma queuedAmong_cons key keys (st st' : State) :
  queuedAmong keys st st' -> queuedAmong (key :: keys) st st'.
Proof.
  intros Hq k. destruct (Hq k) as [?|(? & ? & ?)]; [by left|].
  right. split; [done|]. split; [done|]. by right.
Qed.

Lemma queueIfReferencing_queuedAmong (st : State) project projectPath
    nextProjectPath refs buildResult :
  projectPendingBuild st !! nextProjectPath = None ->
  queuedAmong [nextProjectPath] st
    (queueIfReferencing env st project projectPath nextProjectPath refs
       buildResult).
Proof.
  intros Hnone. induction refs as [|ref refs IH]; simpl;
    [by apply queuedAmong_same|].
  case_match; [|done].
  intros key. destruct (decide (key = nextProjectPath)) as [->|Hne].
  - right. split; [done|]. split; [|by apply list_elem_of_singleton].
    unfold addProjToQueue. rewrite restatus_pending, Hnone. simpl.
    by rewrite restatus_pending, lookup_insert_eq.
  - left. by rewrite addProjToQueue_other, restatus_pending.
Qed.

Lemma queueLater_queuedAmong (st : State) project projectPath later
    buildResult :
  queuedAmong (keyOf <$> later) st
    (queueLater env st project projectPath later buildResult).
Proof.
  revert st. induction later as [|next later IH]; intros st; simpl;
    [by apply queuedAmong_same|].
  destruct (projectPendingBuild st !! keyOf next) eqn:Enext;
    [apply queuedAmong_cons, IH|].
  pose proof (parseConfigFile_pending env st next (keyOf next)) as Hparse.
  destruct (parseConfigFile env st next _) as [st1 cfg]. simpl in Hparse.
  assert (queuedAmong (keyOf next :: (keyOf <$> later)) st st1) as Hst1
    by (by apply queuedAmong_same).
  destruct cfg as [cfg|];
    [|eapply queuedAmong_trans; [exact Hst1|apply queuedAmong_cons, IH]].
  destruct (projectReferences cfg) as [refs|];
    [|eapply queuedAmong_trans; [exact Hst1|apply queuedAmong_cons, IH]].
  eapply queuedAmong_trans; [exact Hst1|].
  eapply queuedAmong_trans; [|apply queuedAmong_cons, IH].
  intros key.
  destruct (queueIfReferencing_queuedAmong st1 project projectPath (keyOf next)
              refs buildResult) with (key := key) as [?|(? & ? & Hk)];
    [by rewrite Hparse | by left |].
  right. split; [done|]. split; [done|].
  apply list_elem_of_singleton in Hk as ->. by left.
Qed.

Lemma queueReferencingProjects_queuedAmong (st : State) project projectPath
    projectIndex config order buildResult :
  queuedAmong (keyOf <$> drop (S projectIndex) order) st
    (queueReferencingProjects env st project projectPath projectIndex config
       order buildResult).
Proof.
  unfold queueReferencingProjects.
  repeat case_match; try (by apply queuedAmong_same).
  apply queueLater_queuedAmong.
Qed.

Lemma doneBuild_queue (st : State) project projectPath projectIndex config
    order pending key :
  key ≠ projectPath ->
  projectPendingBuild
    (doneBuild env st project projectPath projectIndex config order pending)
  !! key = projectPendingBuild st !! key
  ∨ (projectPendingBuild st !! key = None
     ∧ projectPendingBuild
         (doneBuild env st project projectPath projectIndex config order pending)
       !! key = Some ConfigFileProgramReloadLevel.None
     ∧ key ∈ keyOf <$> drop (S projectIndex) order).
Proof.
  intros Hne. unfold doneBuild, buildInvalidated. simpl.
  rewrite lookup_delete_ne by done.
  destruct pending; [|by left].
  pose proof (frame_buildSingleProject env sameSchedule st project projectPath
                config) as [_ Hb].
  destruct (buildSingleProject env st project projectPath config) as [st1 r].
  simpl in *. rewrite <- Hb.
  apply queueReferencingProjects_queuedAmong.
Qed.

Lemma done_removes (st : State) (invalidatedProject : InvalidatedProject) :
  projectPendingBuild (done env st invalidatedProject)
  !! projectPathOf invalidatedProject = None.
Proof.
  destruct invalidatedProject as [project projectPath config pending
                                 |project projectPath projectIndex config order pending
                                 |project projectPath projectIndex config order pending];
    simpl; try apply lookup_delete_eq.
  destruct pending; [|apply lookup_delete_eq].
  unfold updateInvalidated.
  destruct (updateBundle env st project projectPath config)
    as [st1 [unreadable|r]]; apply lookup_delete_eq.
Qed.

(** X13. The [done] of an action handle takes the project of the handle
    out of the queue.  Every other entry of the queue stays as it is, and
    what enters the queue enters at level None and is a project behind the
    project of the handle in the build order. *)
Theorem done_queues_only_downstream
    (st : State) (invalidatedProject : InvalidatedProject) (key : string) :
  let st' := done env st invalidatedProject in
  projectPendingBuild st' !! projectPathOf invalidatedProject = None
  ∧ (key ≠ projectPathOf invalidatedProject ->
     projectPendingBuild st' !! key = projectPendingBuild st !! key
     ∨ (projectPendingBuild st !! key = None
        ∧ projectPendingBuild st' !! key
          = Some ConfigFileProgramReloadLevel.None
        ∧ key ∈ keyOf <$> downstreamOf invalidatedProject)).
Proof.
  simpl. split; [apply done_removes|].
  destruct invalidatedProject as [project projectPath config pending
                                 |project projectPath projectIndex config order pending
                                 |project projectPath projectIndex config order pending];
    simpl.
  - intros Hne. rewrite lookup_delete_ne by done. left.
    destruct pending; [|done].
    by pose proof (frame_updateOutputTimestamps env sameSchedule st config
                     projectPath) as [_ ->].
  - apply doneBuild_queue.
  - destruct pending; simpl;
      [|intros Hne; rewrite lookup_delete_ne by done; by left].
    unfold updateInvalidated.
    pose proof (frame_updateBundle env sameSchedule st project projectPath
                  config) as [_ Hu].
    destruct (updateBundle env st project projectPath config)
      as [st1 [unreadable|r]]; simpl in *.
    + intros Hne. rewrite <- Hu.
      exact (doneBuild_queue st1 project projectPath projectIndex config order
               true key Hne).
    + intros Hne. rewrite lookup_delete_ne by done. rewrite <- Hu.
      apply queueReferencingProjects_queuedAmong.
Qed.

(** *** What the propagation reaches *)

Lemma restatus_not_upToDate (st : State) project projectPath nextProjectPath
    ref buildResult info :
  projectStatus
    (restatus env st project projectPath nextProjectPath ref buildResult)
  !! nextProjectPath ≠ Some (UpToDate info).
Proof.
  unfold restatus, clearProjectStatus.
  destruct (projectStatus st !! nextProjectPath) as [status|] eqn:E;
    [|by rewrite E].
  destruct status; repeat case_match; simpl;
    rewrite ?lookup_insert_eq, ?lookup_delete_eq, ?E; done.
Qed.

Lemma restatus_other (st : State) project projectPath nextProjectPath ref
    buildResult key :
  key ≠ nextProjectPath ->
  projectStatus
    (restatus env st project projectPath nextProjectPath ref buildResult)
  !! key = projectStatus st !! key.
Proof.
  intros Hne. unfold restatus, clearProjectStatus.
  repeat case_match; simpl;
    rewrite ?lookup_insert_ne, ?lookup_delete_ne by done; done.
Qed.

Lemma addProjToQueue_status (st : State) proj level :
  projectStatus (addProjToQueue st proj level) = projectStatus st
  ∧ configFileCache (addProjToQueue st proj level) = configFileCache st.
Proof. unfold addProjToQueue. repeat case_match; done. Qed.

Lemma queueIfReferencing_keeps (st : State) project projectPath
    nextProjectPath refs buildResult :
  let st' := queueIfReferencing env st project projectPath nextProjectPath
               refs buildResult in
  configFileCache st' = configFileCache st
  ∧ (∀ key, key ≠ nextProjectPath ->
       projectStatus st' !! key = projectStatus st !! key
       ∧ projectPendingBuild st' !! key = projectPendingBuild st !! key).
Proof.
  simpl. induction refs as [|ref refs IH]; simpl; [done|].
  case_match; [|done].
  destruct (addProjToQueue_status
              (restatus env st project projectPath nextProjectPath ref
                 buildResult) nextProjectPath
              ConfigFileProgramReloadLevel.None) as [Hs Hc].
  split.
  - rewrite Hc. unfold restatus, clearProjectStatus. repeat case_match; done.
  - intros key Hne. rewrite Hs, restatus_other by done. split; [done|].
    by rewrite addProjToQueue_other, restatus_pending.
Qed.

Lemma queueIfReferencing_marks (st : State) project projectPath
    nextProjectPath refs buildResult ref :
  ref ∈ refs ->
  toResolvedConfigFilePath env (resolveProjectName env (path ref))
  = projectPath ->
  markedForBuild
    (queueIfReferencing env st project projectPath nextProjectPath refs
       buildResult) nextProjectPath.
Proof.
  intros Hin Hkey. induction refs as [|r refs IH]; [by apply elem_of_nil in Hin|].
  simpl. case_bool_decide as Hr.
  - destruct (addProjToQueue_status
                (restatus env st project projectPath nextProjectPath r
                   buildResult) nextProjectPath
                ConfigFileProgramReloadLevel.None) as [Hs _].
    split.
    + unfold addProjToQueue. repeat case_match; simpl;
        rewrite ?lookup_insert_eq; eauto.
    + intros info. rewrite Hs. apply restatus_not_upToDate.
  - apply IH. apply elem_of_cons in Hin as [->|Hin]; [done|done].
Qed.

Lemma queueLater_keeps_marked (st : State) project projectPath later
    buildResult key :
  markedForBuild st key ->
  markedForBuild (queueLater env st project projectPath later buildResult) key.
Proof.
  revert st. induction later as [|next later IH]; intros st Hmarked; simpl;
    [done|].
  destruct (projectPendingBuild st !! keyOf next) eqn:Enext; [by apply IH|].
  assert (key ≠ keyOf next) as Hne.
  { intros ->. destruct Hmarked as [[level Hl] _]. congruence. }
  destruct (parseConfigFile_frame env st next (keyOf next)) as [c Hframe].
  destruct (parseConfigFile env st next (keyOf next)) as [st1 cfg].
  simpl in Hframe.
  assert (markedForBuild st1 key) as Hmarked1 by (by rewrite Hframe).
  destruct cfg as [cfg|]; [|by apply IH].
  destruct (projectReferences cfg) as [refs|]; [|by apply IH].
  apply IH.
  destruct (queueIfReferencing_keeps st1 project projectPath (keyOf next) refs
              buildResult) as [_ Hother].
  destruct (Hother key Hne) as [Hs Hp].
  destruct Hmarked1 as [Hq Hstatus]. split; [by rewrite Hp|].
  intros info. rewrite Hs. apply Hstatus.
Qed.

Lemma queueLater_reaches (st : State) project projectPath later buildResult
    next cfg ref :
  next ∈ later ->
  projectPendingBuild st !! keyOf next = None ->
  configFileCache st !! keyOf next = Some (inl cfg) ->
  ref ∈ default [] (projectReferences cfg) ->
  toResolvedConfigFilePath env (resolveProjectName env (path ref))
  = projectPath ->
  markedForBuild (queueLater env st project projectPath later buildResult)
    (keyOf next).
Proof.
  intros Hin Hnone Hcached Href Hkey. revert st Hnone Hcached.
  induction later as [|head later IH]; intros st Hnone Hcached;
    [by apply elem_of_nil in Hin|].
  change (queueLater env st project projectPath (head :: later) buildResult)
    with (match projectPendingBuild st !! keyOf head with
          | Some _ => queueLater env st project projectPath later buildResult
          | None =>
            let '(st1, nextProjectConfig) :=
              parseConfigFile env st head (keyOf head) in
            match nextProjectConfig with
            | Some cfg =>
              match projectReferences cfg with
              | Some refs =>
                queueLater env
                  (queueIfReferencing env st1 project projectPath (keyOf head)
                     refs buildResult)
                  project projectPath later buildResult
              | None => queueLater env st1 project projectPath later buildResult
              end
            | None => queueLater env st1 project projectPath later buildResult
            end
          end).
  destruct (decide (keyOf head = keyOf next)) as [Heq|Hne].
  - rewrite Heq, Hnone.
    unfold parseConfigFile. rewrite Hcached. simpl.
    destruct (projectReferences cfg) as [refs|] eqn:Erefs;
      [|by apply elem_of_nil in Href].
    apply queueLater_keeps_marked.
    by eapply queueIfReferencing_marks.
  - apply elem_of_cons in Hin as [->|Hin]; [done|].
    destruct (projectPendingBuild st !! keyOf head) eqn:Ehead;
      [by apply IH|].
    pose proof (cacheGrows_parse env st head (keyOf head)) as Hgrow.
    pose proof (parseConfigFile_pending env st head (keyOf head)) as Hpending.
    destruct (parseConfigFile env st head (keyOf head)) as [st1 parsed].
    simpl in *.
    assert (projectPendingBuild st1 !! keyOf next = None) as Hnone1
      by (by rewrite Hpending).
    assert (configFileCache st1 !! keyOf next = Some (inl cfg)) as Hcached1
      by (by apply Hgrow).
    destruct parsed as [p|]; [|by apply IH].
    destruct (projectReferences p) as [refs|]; [|by apply IH].
    destruct (queueIfReferencing_keeps st1 project projectPath (keyOf head)
                refs buildResult) as [Hc Hother].
    destruct (Hother (keyOf next) (not_eq_sym Hne)) as [_ Hp].
    apply IH; [done | by rewrite Hp | by rewrite Hc].
Qed.

(** X20. What the propagation reaches.  After a build without an error flag
    of a composite project, every project behind it in the build order
    that was not in the queue, and whose cached configuration references
    the built project, is in the queue and does not have the status
    [UpToDate]. *)
Theorem propagation_reaches_the_referencing_projects
    (st : State) (project projectPath : string) (projectIndex : nat)
    (config : ParsedCommandLine) (order : list string) (buildResult : Z)
    (next : string) (cfg : ParsedCommandLine) (ref : ProjectReference) :
  BuildResultFlags.has buildResult BuildResultFlags.AnyErrors = false ->
  composite (options config) = true ->
  next ∈ drop (S projectIndex) order ->
  projectPendingBuild st !! keyOf next = None ->
  configFileCache st !! keyOf next = Some (inl cfg) ->
  ref ∈ default [] (projectReferences cfg) ->
  toResolvedConfigFilePath env (resolveProjectName env (path ref))
  = projectPath ->
  markedForBuild
    (queueReferencingProjects env st project projectPath projectIndex config
       order buildResult) (keyOf next).
Proof.
  intros Hflags Hcomposite Hnext Hnone Hcached Href Hkey.
  unfold queueReferencingProjects. rewrite Hflags, Hcomposite. simpl.
  by eapply queueLater_reaches.
Qed.
End DownstreamFacts.

(** ** The dispatcher *)
Section DispatcherFacts.
Context {H : Type} (env : Env H).
Abbreviation State := (SolutionBuilderState H).
Abbreviation keyOf := (toResolvedConfigFilePath env).

Lemma getUpToDateStatus_stored fuel (st : State) project resolvedPath st'
    status :
  getUpToDateStatus env fuel st (Some project) resolvedPath
  = Some (st', status) ->
  projectStatus st' !! resolvedPath = Some status.
Proof.
  intros Hstatus.
  destruct fuel as [|fuel]; simpl in Hstatus;
    destruct (projectStatus st !! resolvedPath) as [prior|] eqn:E;
    try done; try (by simplify_eq).
  destruct (getUpToDateStatusWorker _ _ _ _ _) as [[st1 actual]|]; [|done].
  simplify_eq. simpl. apply lookup_insert_eq.
Qed.

Lemma nextInvalidatedFrom_handle fuel order rest projectIndex (st : State) st'
    p :
  nextInvalidatedFrom env fuel order rest projectIndex st = Some (st', Some p) ->
  projectOf p ∈ rest
  ∧ projectPathOf p = keyOf (projectOf p)
  ∧ is_Some (projectPendingBuild st' !! projectPathOf p)
  ∧ ∃ status, projectStatus st' !! projectPathOf p = Some status
              ∧ handedOutFor env status p.
Proof.
  revert projectIndex st.
  induction rest as [|project rest IH]; intros projectIndex st Hn; [done|].
  simpl in Hn.
  assert (∀ s,
            nextInvalidatedFrom env fuel order rest (S projectIndex) s
            = Some (st', Some p) ->
            projectOf p ∈ project :: rest
            ∧ projectPathOf p = keyOf (projectOf p)
            ∧ is_Some (projectPendingBuild st' !! projectPathOf p)
            ∧ ∃ status, projectStatus st' !! projectPathOf p = Some status
                        ∧ handedOutFor env status p) as Hcont.
  { intros s Hrest. destruct (IH _ _ Hrest) as (Hin & Hrest').
    split; [by right | done]. }
  destruct (projectPendingBuild st !! keyOf project) as [reloadLevel|]
    eqn:Epending; [|by eapply Hcont].
  pose proof (frame_parse env sameSchedule st project) as [_ Hparse].
  destruct (parseConfigFile env st project _) as [st1 [config0|]] eqn:Eparse;
    [|by eapply Hcont].
  pose proof (frame_applyReloadLevel env sameSchedule st1 project
                (keyOf project) config0 reloadLevel
                (parseConfigFile_parsed env _ _ _ _ _ Eparse)) as [_ Hreload].
  destruct (applyReloadLevel env st1 project _ config0 reloadLevel)
    as [st2 config].
  destruct (getUpToDateStatus env fuel st2 (Some config) _)
    as [[st3 status]|] eqn:Estatus; [|done].
  pose proof (getUpToDateStatus_stored _ _ _ _ _ _ Estatus) as Hstored.
  apply (frame_getUpToDateStatus env sameSchedule) in Estatus as [_ Hstatus].
  simpl in *.
  assert (∀ s : State,
            projectStatus s = projectStatus st3 ->
            projectPendingBuild s = projectPendingBuild st3 ->
            ∀ q, handedOutFor env status q -> projectOf q = project ->
                 projectPathOf q = keyOf project ->
                 Some (s, Some q) = Some (st', Some p) ->
            projectOf p ∈ project :: rest
            ∧ projectPathOf p = keyOf (projectOf p)
            ∧ is_Some (projectPendingBuild st' !! projectPathOf p)
            ∧ ∃ status, projectStatus st' !! projectPathOf p = Some status
                        ∧ handedOutFor env status p) as Hfound.
  { intros s Hs Hp q Hq Hproject Hpath [= <- <-].
    split; [rewrite Hproject; by left|]. split; [by rewrite Hproject|].
    rewrite Hpath, Hs, Hp, Hstatus, Hreload, Hparse, Epending.
    split; [by eexists|]. by exists status. }
  assert (projectStatus (verboseReportProjectStatus env st3 project status)
          = projectStatus st3
          ∧ projectPendingBuild (verboseReportProjectStatus env st3 project status)
            = projectPendingBuild st3) as [Hs4 Hp4].
  { unfold verboseReportProjectStatus, reportUpToDateStatus.
    repeat case_match; done. }
  set (st4 := verboseReportProjectStatus env st3 project status) in *.
  clearbody st4.
  assert (projectStatus (reportAndStoreErrors st4 (keyOf project) (errors config))
          = projectStatus st3
          ∧ projectPendingBuild
              (reportAndStoreErrors st4 (keyOf project) (errors config))
            = projectPendingBuild st3) as [Hs5 Hp5].
  { unfold reportAndStoreErrors. by destruct (errors config). }
  unfold needsBuild in Hn.
  destruct (force (solutionOptions env)) eqn:Eforce;
    destruct status; simpl in Hn;
    repeat case_match;
    first
      [ by eapply Hcont
      | eapply Hfound; [| | | | |exact Hn]; try done;
        unfold handedOutFor; rewrite ?Eforce; simpl; auto ].
Qed.

Lemma dispatcher_parts fuel (st : State) order st' invalidatedProject :
  getNextInvalidatedProject env fuel st order
  = Some (st', Some invalidatedProject) ->
  projectOf invalidatedProject ∈ order
  ∧ projectPathOf invalidatedProject = keyOf (projectOf invalidatedProject)
  ∧ is_Some (projectPendingBuild st' !! projectPathOf invalidatedProject)
  ∧ ∃ status,
      projectStatus st' !! projectPathOf invalidatedProject = Some status
      ∧ handedOutFor env status invalidatedProject.
Proof.
  unfold getNextInvalidatedProject. case_bool_decide; [done|].
  apply nextInvalidatedFrom_handle.
Qed.

(** X14. What the dispatcher hands out: a project of the build order that
    is in the queue and stays there, with the status the evaluator stored
    for it, and with a handle that answers that status.  A project that is
    up to date (in a build that is not forced), blocked by a reference, or
    a container is never handed out; and the dispatcher writes no output. *)
Theorem dispatcher_hands_out_what_needs_work
    (fuel : nat) (st : State) (order : list string) (st' : State)
    (invalidatedProject : InvalidatedProject) :
  getNextInvalidatedProject env fuel st order
  = Some (st', Some invalidatedProject) ->
  projectOf invalidatedProject ∈ order
  ∧ projectPathOf invalidatedProject = keyOf (projectOf invalidatedProject)
  ∧ is_Some (projectPendingBuild st' !! projectPathOf invalidatedProject)
  ∧ (∃ status,
       projectStatus st' !! projectPathOf invalidatedProject = Some status
       ∧ handedOutFor env status invalidatedProject)
  ∧ sameOutputs st st'
  ∧ pendingShrinks st st'.
Proof.
  intros Hnext.
  pose proof (frame_getNextInvalidatedProject env sameOutputs _ _ _ _ _ Hnext)
    as Hout.
  pose proof (frame_getNextInvalidatedProject env pendingShrinks _ _ _ _ _ Hnext)
    as Hshrinks.
  destruct (dispatcher_parts _ _ _ _ _ Hnext)
    as (Hin & Hpath & Hpending & Hstatus).
  done.
Qed.

(** X23. One call of [buildNextProject].  When it names a project, that is
    a project of the memoised build order, it is out of the queue, and the
    exit status tells whether diagnostics are stored for it.  When it names
    none, no project of the build order is left in the queue. *)
Theorem buildNextProject_handles_one_project
    (fuel : nat) (st st' : State) (result : option (string * ExitStatus.t)) :
  buildNextProject env fuel st = Some (st', result) ->
  ∃ order,
    buildOrder st' = Some order
    ∧ match result with
      | Some (project, exit) =>
        project ∈ order
        ∧ projectPendingBuild st' !! keyOf project = None
        ∧ (exit = ExitStatus.Success ∧ diagnostics st' !! keyOf project = None
           ∨ exit = ExitStatus.DiagnosticsPresent_OutputsSkipped
             ∧ is_Some (diagnostics st' !! keyOf project))
      | None =>
        ∀ project, project ∈ order ->
          projectPendingBuild st' !! keyOf project = None
      end.
Proof.
  unfold buildNextProject.
  destruct (setupInitialBuild env fuel st) as [st1|]; [|done].
  destruct (getBuildOrder env fuel st1) as [[st2 order]|] eqn:Eorder; [|done].
  pose proof (getBuildOrder_memo env _ _ _ _ Eorder) as Hmemo.
  destruct (getNextInvalidatedProject env fuel st2 order)
    as [[st3 [invalidatedProject|]]|] eqn:Enext; [| |done].
  - intros [= <- <-]. exists order.
    pose proof (frame_getNextInvalidatedProject env sameControl _ _ _ _ _ Enext)
      as (Hmemo3 & _).
    pose proof (frame_done env sameControl st3 invalidatedProject)
      as (Hmemo4 & _).
    split; [congruence|].
    destruct (dispatcher_parts _ _ _ _ _ Enext) as (Hin & Hpath & _).
    split; [done|].
    pose proof (done_removes env st3 invalidatedProject) as Hgone.
    rewrite Hpath in Hgone. split; [done|].
    rewrite <- Hpath. case_bool_decide as Hdiag; [by right|].
    left. split; [done|].
    by destruct (diagnostics _ !! _) eqn:E; [destruct Hdiag; eexists|].
  - intros [= <- <-]. exists order.
    pose proof (frame_getNextInvalidatedProject env sameControl _ _ _ _ _ Enext)
      as (Hmemo3 & _).
    split; [congruence|]. by eapply getNextInvalidatedProject_none.
Qed.
End DispatcherFacts.

(** ** The drivers *)
Section DriverFacts.
Context {H : Type} (env : Env H).
Abbreviation State := (SolutionBuilderState H).
Abbreviation keyOf := (toResolvedConfigFilePath env).

#[local] Instance sameQueue_frame : Frame (@sameQueue H).
Proof.
  split; try (by intros).
  split; [by intros st|]. intros st1 st2 st3. unfold sameQueue. congruence.
Qed.

#[local] Instance sameQueue_cache : FrameCache (@sameQueue H).
Proof. by intros st f. Qed.

#[local] Instance sameQueue_configs : FrameConfigs env (@sameQueue H).
Proof. apply frameCache_configs; apply _. Qed.

#[local] Instance sameQueue_control : FrameControl (@sameQueue H).
Proof. by split. Qed.

#[local] Instance sameQueue_host : FrameHost (@sameQueue H).
Proof. by split. Qed.

Lemma seeded_queue order (st : State) key :
  let st' :=
    fold_left
      (fun s configFileName =>
         set_projectPendingBuild
           <[keyOf configFileName := ConfigFileProgramReloadLevel.None]> s)
      order st in
  projectPendingBuild st' !! key
  = (if bool_decide (key ∈ keyOf <$> order)
     then Some ConfigFileProgramReloadLevel.None
     else projectPendingBuild st !! key)
  ∧ sameControl st st' ∧ sameOutputs st st'.
Proof.
  simpl. revert st. induction order as [|name order IH]; intros st; simpl.
  - split; [done|]. split; reflexivity.
  - destruct (IH (set_projectPendingBuild
                    <[keyOf name := ConfigFileProgramReloadLevel.None]> st))
      as (Hq & Hc & Ho).
    split; [|split; [exact Hc | exact Ho]].
    rewrite Hq. simpl.
    destruct (decide (key = keyOf name)) as [->|Hne].
    + rewrite lookup_insert_eq.
      rewrite (bool_decide_eq_true_2 (keyOf name ∈ keyOf name :: _))
        by (by left).
      by case_bool_decide.
    + rewrite lookup_insert_ne by done.
      case_bool_decide as Hin.
      * rewrite bool_decide_eq_true_2; [done | by right].
      * rewrite bool_decide_eq_false_2; [done|].
        by intros [?|?]%elem_of_cons.
Qed.

(** What the first [setupInitialBuild] does to the queue and to the flags
    of the drivers. *)
Lemma setupInitialBuild_first
    (fuel fuel' : nat) (st st' : State) :
  allProjectBuildPending st = true ->
  setupInitialBuild env fuel st = Some st' ->
  ∃ order,
    buildOrder st' = Some order
    ∧ (∀ key, projectPendingBuild st' !! key
              = if bool_decide (key ∈ keyOf <$> order)
                then Some ConfigFileProgramReloadLevel.None
                else projectPendingBuild st !! key)
    ∧ cache st' = true
    ∧ allProjectBuildPending st' = false
    ∧ sameOutputs st st'
    ∧ setupInitialBuild env fuel' st' = Some st'.
Proof.
  intros Hpending Hsetup.
  pose proof (frame_setupInitialBuild env sameOutputs _ _ _ Hsetup) as Hout.
  revert Hsetup. unfold setupInitialBuild at 1. rewrite Hpending. simpl.
  set (st2 := if watchOption (solutionOptions env)
              then reportWatchStatus env (set_allProjectBuildPending false st)
                     Starting_compilation_in_watch_mode []
              else set_allProjectBuildPending false st).
  assert (projectPendingBuild (enableCache st2) = projectPendingBuild st
          ∧ cache (enableCache st2) = true
          ∧ allProjectBuildPending (enableCache st2) = false)
    as (Hq2 & Hc2 & Ha2).
  { subst st2. unfold reportWatchStatus. repeat case_match; done. }
  destruct (getBuildOrder env fuel (enableCache st2)) as [[st3 order]|] eqn:Eo;
    [|done].
  intros [= <-]. exists order.
  pose proof (getBuildOrder_memo env _ _ _ _ Eo) as Hmemo.
  pose proof (frame_getBuildOrder env sameQueue _ _ _ _ Eo) as Hq3.
  assert (cache st3 = true ∧ allProjectBuildPending st3 = false) as [Hc3 Ha3].
  { revert Eo. unfold getBuildOrder. destruct (buildOrder (enableCache st2)).
    - by intros [= <- <-].
    - destruct (createBuildOrder _ _ _ _) as [[st1 o]|] eqn:Ec; [|done].
      intros [= <- <-]. simpl.
      apply (frame_createBuildOrder env sameControl) in Ec
        as (_ & Ha & Hc & _).
      by rewrite Ha, Hc. }
  assert (buildOrder (reportBuildQueue env st3 order) = Some order
          ∧ projectPendingBuild (reportBuildQueue env st3 order)
            = projectPendingBuild st
          ∧ cache (reportBuildQueue env st3 order) = true
          ∧ allProjectBuildPending (reportBuildQueue env st3 order) = false)
    as (Hb4 & Hq4 & Hc4 & Ha4).
  { unfold reportBuildQueue, reportStatus. unfold sameQueue in Hq3.
    case_match; simpl; by rewrite ?Hq3, ?Hq2. }
  set (st4 := reportBuildQueue env st3 order) in *. clearbody st4.
  match goal with
  | |- context [fold_left ?f order st4] =>
    assert (∀ key,
              projectPendingBuild (fold_left f order st4) !! key
              = (if bool_decide (key ∈ keyOf <$> order)
                 then Some ConfigFileProgramReloadLevel.None
                 else projectPendingBuild st4 !! key)) as Hseed
      by (intros key; apply (seeded_queue order st4 key));
    destruct (seeded_queue order st4 "") as (_ & (Hb & Ha & Hc & _) & _);
    set (st5 := fold_left f order st4) in *; clearbody st5
  end.
  split; [by rewrite Hb|]. split; [intros key; by rewrite Hseed, Hq4|].
  split; [by rewrite Hc|]. split; [by rewrite Ha|]. split; [done|].
  unfold setupInitialBuild. by rewrite Ha, Ha4.
Qed.

(** X15. The first [setupInitialBuild] puts every project of the build
    order into the queue at level None, whatever level it was queued at
    before, and leaves the other entries; it turns the file cache on,
    memoises the build order and writes no output.  A second one does
    nothing. *)
Theorem initial_build_queues_every_project
    (fuel fuel' : nat) (st st' : State) :
  allProjectBuildPending st = true ->
  setupInitialBuild env fuel st = Some st' ->
  ∃ order,
    buildOrder st' = Some order
    ∧ (∀ key, projectPendingBuild st' !! key
              = if bool_decide (key ∈ keyOf <$> order)
                then Some ConfigFileProgramReloadLevel.None
                else projectPendingBuild st !! key)
    ∧ cache st' = true
    ∧ allProjectBuildPending st' = false
    ∧ sameOutputs st st'
    ∧ setupInitialBuild env fuel' st' = Some st'.
Proof. apply setupInitialBuild_first. Qed.

Lemma unreported_reported order (st : State) :
  let st' :=
    fold_left
      (fun s project =>
         let projectPath := keyOf project in
         if bool_decide (projectPath ∈ projectErrorsReported s) then s
         else reportErrors s (default [] (diagnostics s !! projectPath)))
      order st in
  trace st'
  = trace st ++ (ReportDiagnostic <$> unreportedDiagnostics env st order)
  ∧ diagnostics st' = diagnostics st
  ∧ projectErrorsReported st' = projectErrorsReported st
  ∧ needsSummary st' = needsSummary st
  ∧ hostState st' = hostState st.
Proof.
  simpl. revert st. induction order as [|project order IH]; intros st; simpl.
  - by rewrite app_nil_r.
  - match goal with
    | |- context [fold_left _ order ?s] =>
      destruct (IH s) as (Ht & Hd & Hr & Hn & Hh);
      assert (trace s
              = trace st
                ++ (ReportDiagnostic
                      <$> (if bool_decide
                                (keyOf project ∈ projectErrorsReported st)
                           then []
                           else default [] (diagnostics st !! keyOf project)))
              ∧ diagnostics s = diagnostics st
              ∧ projectErrorsReported s = projectErrorsReported st
              ∧ needsSummary s = needsSummary st
              ∧ hostState s = hostState st)
        as (Ht1 & Hd1 & Hr1 & Hn1 & Hh1)
    end.
    { case_bool_decide; simpl; [by rewrite app_nil_r | done]. }
    rewrite Ht, Hd, Hr, Hn, Hh, Ht1, Hd1, Hr1, Hn1, Hh1.
    split; [|done].
    rewrite <- app_assoc, fmap_app. f_equal. f_equal.
    unfold unreportedDiagnostics. by rewrite Hd1, Hr1.
Qed.

(** X16. When a summary is due and there is somebody to report it to,
    [reportErrorSummary] reports the stored diagnostics of the projects of
    the build order that were not reported yet, in that order, and then the
    number of errors of all stored diagnostics; it changes nothing else but
    the flag that a summary is due, so that a second call reports
    nothing. *)
Theorem error_summary_is_reported_once
    (fuel fuel' : nat) (st : State) (order : list string) :
  buildOrder st = Some order ->
  needsSummary st = true ->
  watch env || hasReportErrorSummary env = true ->
  ∃ st',
    reportErrorSummary env fuel st = Some st'
    ∧ trace st'
      = trace st
        ++ (ReportDiagnostic <$> unreportedDiagnostics env st order)
        ++ summaryCall env (totalErrorCount env (diagnostics st))
    ∧ needsSummary st' = false
    ∧ diagnostics st' = diagnostics st
    ∧ hostState st' = hostState st
    ∧ reportErrorSummary env fuel' st' = Some st'.
Proof.
  intros Horder Hdue Hhost. unfold reportErrorSummary at 1. rewrite Hdue.
  assert (negb (watch env) && negb (hasReportErrorSummary env) = false) as ->
    by (destruct (watch env), (hasReportErrorSummary env); done).
  simpl.
  rewrite getBuildOrder_memoised with (order := order) by done.
  eexists. split; [reflexivity|].
  match goal with
  | |- context [fold_left ?f order ?s0] =>
    destruct (unreported_reported order s0) as (Ht & Hd & Hr & Hn & Hh);
    set (st2 := fold_left f order s0) in *; clearbody st2
  end.
  simpl in *.
  assert (unreportedDiagnostics env (set_needsSummary false st) order
          = unreportedDiagnostics env st order) as Hsame by done.
  rewrite Hsame in Ht.
  unfold summaryCall, reportWatchStatus, reportErrorSummary.
  destruct (watch env), (hasOnWatchStatusChange env); simpl;
    rewrite ?Ht, ?Hd, ?Hn, ?Hh, ?app_nil_r, <- ?app_assoc; done.
Qed.

Lemma watchers_installed order (st : State) :
  watch env = true ->
  let st' :=
    fold_left
      (fun s resolved =>
         let resolvedPath := keyOf resolved in
         let s1 := watchConfigFile env s resolvedPath in
         match parseConfigFile env s1 resolved resolvedPath with
         | (s2, Some cfg) =>
           watchInputFiles env (watchWildCardDirectories env s2 resolvedPath cfg)
             resolvedPath cfg
         | (s2, None) => s2
         end)
      order st in
  cacheGrows st st'
  ∧ allWatchedConfigFiles st ⊆ allWatchedConfigFiles st'
  ∧ (∀ key cfg, configFileCache st !! key = Some (inl cfg) ->
       watchedAs env st key cfg -> watchedAs env st' key cfg)
  ∧ ∀ name, name ∈ order ->
      keyOf name ∈ allWatchedConfigFiles st'
      ∧ ∀ cfg, configFileCache st' !! keyOf name = Some (inl cfg) ->
          watchedAs env st' (keyOf name) cfg.
Proof.
  intros Hwatch. simpl. revert st.
  induction order as [|name order IH]; intros st; simpl.
  { split; [by intros key entry|]. split; [done|]. split; [done|].
    by intros name ?%elem_of_nil. }
  match goal with
  | |- context [fold_left _ order ?s] => set (s1 := s)
  end.
  assert (cacheGrows st s1
          ∧ allWatchedConfigFiles st ⊆ allWatchedConfigFiles s1
          ∧ keyOf name ∈ allWatchedConfigFiles s1
          ∧ is_Some (configFileCache s1 !! keyOf name)
          ∧ (∀ cfg, configFileCache s1 !! keyOf name = Some (inl cfg) ->
               watchedAs env s1 (keyOf name) cfg)
          ∧ ∀ key cfg, key ≠ keyOf name -> watchedAs env st key cfg ->
              watchedAs env s1 key cfg)
    as (Hg1 & Hc1 & Hk1 & He1 & Hw1 & Hp1).
  { subst s1.
    set (s0 := watchConfigFile env st (keyOf name)).
    assert (configFileCache s0 = configFileCache st
            ∧ allWatchedConfigFiles st ⊆ allWatchedConfigFiles s0
            ∧ keyOf name ∈ allWatchedConfigFiles s0
            ∧ allWatchedInputFiles s0 = allWatchedInputFiles st
            ∧ allWatchedWildcardDirectories s0
              = allWatchedWildcardDirectories st) as (Hc0 & Hs0 & Hk0 & Hi0 & Hd0).
    { subst s0. unfold watchConfigFile. rewrite Hwatch. simpl.
      case_bool_decide; simpl; repeat split; set_solver. }
    clearbody s0.
    pose proof (cacheGrows_parse env s0 name (keyOf name)) as Hgrow.
    destruct (parseConfigFile_cached env s0 name (keyOf name))
      as (entry & Hentry & Hanswer).
    destruct (parseConfigFile_frame env s0 name (keyOf name)) as [c Hframe].
    destruct (parseConfigFile env s0 name (keyOf name)) as [s2 parsed].
    simpl in *. subst parsed.
    assert (allWatchedConfigFiles s2 = allWatchedConfigFiles s0
            ∧ allWatchedInputFiles s2 = allWatchedInputFiles s0
            ∧ allWatchedWildcardDirectories s2
              = allWatchedWildcardDirectories s0) as (Hc2 & Hi2 & Hd2)
      by (by rewrite Hframe).
    clear Hframe.
    destruct entry as [cfg|d]; simpl;
      unfold watchInputFiles, watchWildCardDirectories; rewrite ?Hwatch; simpl.
    - split; [intros key e He; apply Hgrow; by rewrite Hc0|].
      split; [by rewrite Hc2|]. split; [by rewrite Hc2|].
      split; [by eexists|]. split.
      + intros cfg' Hcfg'. rewrite Hentry in Hcfg'. simplify_eq.
        split; simpl; apply lookup_insert_eq.
      + intros key cfg' Hne [Hi Hd]. split; simpl;
          rewrite lookup_insert_ne by done; congruence.
    - split; [intros key e He; apply Hgrow; by rewrite Hc0|].
      split; [by rewrite Hc2|]. split; [by rewrite Hc2|].
      split; [by eexists|]. split.
      + intros cfg' Hcfg'. by rewrite Hentry in Hcfg'.
      + intros key cfg' Hne [Hi Hd]. split; congruence. }
  clearbody s1.
  destruct (IH s1) as (Hg & Hc & Hp & Hall).
  split; [by eapply cacheGrows_trans|]. split; [set_solver|].
  assert (∀ key cfg, configFileCache st !! key = Some (inl cfg) ->
            watchedAs env st key cfg -> watchedAs env s1 key cfg) as Hkeep.
  { intros key cfg Hcfg Hw.
    destruct (decide (key = keyOf name)) as [->|Hne]; [|by apply Hp1].
    apply Hw1. by apply Hg1. }
  split; [intros key cfg Hcfg Hw; apply Hp; [by apply Hg1 | by apply Hkeep]|].
  intros n [->|Hn]%elem_of_cons; [|by apply Hall].
  split; [set_solver|]. intros cfg Hcfg.
  assert (configFileCache s1 !! keyOf name = Some (inl cfg)) as Hcfg1.
  { destruct He1 as [e E]. rewrite (Hg _ _ E) in Hcfg. by rewrite E. }
  apply Hp; [done | by apply Hw1].
Qed.

(** X17. In watch mode the first [startWatching] leaves the configuration
    file of every project of the build order watched, and, for every one
    whose configuration parsed, the input files and the wildcard
    directories of the cached configuration; it writes no output and
    leaves the queue as it is.  A second one does nothing. *)
Theorem watchers_cover_the_build_order
    (fuel fuel' : nat) (st : State) (order : list string) (st' : State) :
  buildOrder st = Some order ->
  watchAllProjectsPending st = true ->
  watch env = true ->
  startWatching env fuel st = Some st' ->
  (∀ name, name ∈ order ->
     keyOf name ∈ allWatchedConfigFiles st'
     ∧ ∀ cfg, configFileCache st' !! keyOf name = Some (inl cfg) ->
         watchedAs env st' (keyOf name) cfg)
  ∧ sameOutputs st st'
  ∧ projectPendingBuild st' = projectPendingBuild st
  ∧ startWatching env fuel' st' = Some st'.
Proof.
  intros Horder Hpending Hwatch Hstart.
  pose proof (frame_startWatching env sameOutputs _ _ _ Hstart) as Hout.
  destruct (startWatching_installed env _ _ _ _ Horder Hstart)
    as (Hdone & _ & _ & _ & _ & Hqueue).
  split; [|split; [done|split; [done|]]].
  - revert Hstart. unfold startWatching. rewrite Hpending. simpl.
    rewrite getBuildOrder_memoised with (order := order) by done.
    intros [= <-].
    by destruct (watchers_installed order
                   (set_watchAllProjectsPending false st) Hwatch)
      as (_ & _ & _ & Hall).
  - unfold startWatching. by rewrite Hdone.
Qed.

(** X24. A build that ends with [InvalidProject_OutputsSkipped] did
    nothing but compute the build order of the solution: the project that
    was asked for is not in that order, no output was written, and the
    queue is as it was, without the initial seeding. *)
Theorem build_refuses_a_project_outside_the_solution
    (fuel : nat) (st : State) (project : option string) (st' : State) :
  build env fuel st project
  = Some (st', ExitStatus.InvalidProject_OutputsSkipped) ->
  (∃ resolved full,
     resolvedProjectOf env project = Some resolved
     ∧ buildOrder st' = Some full
     ∧ inBuildOrder env full (keyOf resolved) = false)
  ∧ sameOutputs st st'
  ∧ projectPendingBuild st' = projectPendingBuild st
  ∧ clean env fuel st project
    = Some (st', ExitStatus.InvalidProject_OutputsSkipped).
Proof.
  unfold build, clean.
  destruct (getBuildOrderFor env fuel st project) as [[st0 [order|]]|] eqn:Eo;
    [| |done].
  { destruct (setupInitialBuild _ _ _) as [st1|]; [|done].
    destruct (buildLoop _ _ _ _ _ _) as [[[st2 s2] f2]|] eqn:E2; [|done].
    destruct (reportErrorSummary _ _ _) as [st3|] eqn:E3; [|done].
    destruct (startWatching _ _ _) as [st4|] eqn:E4; [|done].
    intros [= _ Hexit]. by destruct f2, s2. }
  intros [= <-].
  pose proof (frame_getBuildOrderFor env sameOutputs _ _ _ _ _ Eo) as Hout.
  pose proof (frame_getBuildOrderFor env sameQueue _ _ _ _ _ Eo) as Hqueue.
  split; [|done].
  revert Eo. unfold getBuildOrderFor.
  destruct (resolvedProjectOf env project) as [resolved|].
  - destruct (getBuildOrder env fuel st) as [[st1 full]|] eqn:Eorder; [|done].
    destruct (inBuildOrder env full (keyOf resolved)) eqn:Ein.
    + by destruct (createBuildOrder _ _ _ _) as [[st2 sub]|].
    + intros [= <-]. exists resolved, full. split; [done|].
      split; [by eapply getBuildOrder_memo | done].
  - by destruct (getBuildOrder env fuel st) as [[st1 full]|].
Qed.
End DriverFacts.

(** ** Cleaning *)
Section DeletionFacts.
Context {H : Type} (env : Env H).
Abbreviation State := (SolutionBuilderState H).
Abbreviation keyOf := (toResolvedConfigFilePath env).

Lemma invalidateProject_invalidated (st : State) resolved level :
  invalidated (invalidateProject st resolved level) resolved
  ∧ keepsInvalidated st (invalidateProject st resolved level).
Proof.
  unfold invalidated, keepsInvalidated, invalidateProject, enableCache,
    clearProjectStatus.
  set (st1 := match level with
              | ConfigFileProgramReloadLevel.Full =>
                set_buildOrder None (set_configFileCache (delete resolved) st)
              | _ => st
              end).
  assert (projectStatus st1 = projectStatus st
          ∧ projectPendingBuild st1 = projectPendingBuild st) as [Hs Hp]
    by (subst st1; by destruct level).
  clearbody st1.
  assert (∀ (s : State) key,
            is_Some (projectPendingBuild s !! key) ->
            is_Some (projectPendingBuild (addProjToQueue s resolved level) !! key))
    as Hkeep.
  { intros s key Hsome. destruct (decide (key = resolved)) as [->|Hne];
      [|by rewrite addProjToQueue_other].
    unfold addProjToQueue. repeat case_match; simpl;
      rewrite ?lookup_insert_eq; eauto. }
  assert (∀ s : State,
            is_Some (projectPendingBuild (addProjToQueue s resolved level)
                     !! resolved)) as Hadd.
  { intros s. unfold addProjToQueue. repeat case_match; simpl;
      rewrite ?lookup_insert_eq; eauto. }
  assert (∀ s : State,
            projectStatus (addProjToQueue s resolved level) = projectStatus s)
    as Hstatus.
  { intros s. unfold addProjToQueue. repeat case_match; done. }
  split.
  - split; simpl; [rewrite Hstatus; simpl; apply lookup_delete_eq | apply Hadd].
  - intros key [Hnone Hsome]. split; simpl.
    + rewrite Hstatus. simpl. rewrite Hs.
      destruct (decide (key = resolved)) as [->|Hne];
        [apply lookup_delete_eq | by rewrite lookup_delete_ne].
    + apply Hkeep. simpl. by rewrite Hp.
Qed.

Lemma cleanOutputs_deletes resolvedPath outputs (st : State) st' files :
  cleanOutputs env resolvedPath outputs st None = (st', files) ->
  files = None
  ∧ keepsInvalidated st st'
  ∧ ∃ deleted,
      outputWrites (trace st')
      = outputWrites (trace st) ++ (DeleteFile <$> deleted)
      ∧ (∀ file, file ∈ deleted -> file ∈ outputs)
      ∧ (deleted ≠ [] -> invalidated st' resolvedPath).
Proof.
  revert st. induction outputs as [|output outputs IH]; intros st; simpl.
  - intros [= <- <-]. split; [done|]. split; [by intros key|].
    exists []. rewrite app_nil_r. split; [done|]. split; [|done].
    by intros file ?%elem_of_nil.
  - destruct (fileExists env (hostState st) output).
    + intros Hrest.
      apply IH in Hrest as (-> & Hkeep & deleted & Htrace & Hin & Hinv).
      destruct (invalidateProject_invalidated (deleteFile env st output)
                  resolvedPath ConfigFileProgramReloadLevel.None)
        as [Hnow Hkeep1].
      split; [done|]. split.
      { intros key Hk. apply Hkeep, Hkeep1.
        destruct Hk as [Hs Hp]. by split. }
      exists (output :: deleted). split.
      { rewrite Htrace.
        assert (outputWrites
                  (trace (invalidateProject (deleteFile env st output)
                            resolvedPath ConfigFileProgramReloadLevel.None))
                = outputWrites (trace st) ++ [DeleteFile output]) as ->.
        { unfold invalidateProject, addProjToQueue. simpl.
          repeat case_match; simpl; by rewrite outputWrites_app. }
        by rewrite <- app_assoc. }
      split.
      { intros file [->|Hf]%elem_of_cons; [by left | right; by apply Hin]. }
      intros _. by apply Hkeep.
    + intros Hrest.
      apply IH in Hrest as (-> & Hkeep & deleted & Htrace & Hin & Hinv).
      split; [done|]. split; [done|].
      exists deleted. split; [done|]. split; [|done].
      intros file Hf. right. by apply Hin.
Qed.

Lemma cleanProjects_deletes order (st : State) st' files :
  cleanProjects env order st None = (st', files) ->
  files = None
  ∧ cacheGrows st st'
  ∧ keepsInvalidated st st'
  ∧ ∃ deleted,
      outputWrites (trace st')
      = outputWrites (trace st) ++ (DeleteFile <$> deleted)
      ∧ ∀ file, file ∈ deleted -> cleanedOutput env st' file.
Proof.
  revert st. induction order as [|proj order IH]; intros st; simpl.
  - intros [= <- <-]. split; [done|].
    split; [by intros key entry|]. split; [by intros key|].
    exists []. rewrite app_nil_r. split; [done|]. by intros file ?%elem_of_nil.
  - pose proof (cacheGrows_parse env st proj (keyOf proj)) as Hgrow.
    destruct (parseConfigFile_cached env st proj (keyOf proj))
      as (entry & Hentry & Hanswer).
    destruct (parseConfigFile_frame env st proj (keyOf proj)) as [c Hframe].
    destruct (parseConfigFile env st proj (keyOf proj)) as [st1 parsed].
    simpl in *. subst parsed.
    assert (keepsInvalidated st st1 ∧ trace st1 = trace st) as [Hkeep1 Htrace1]
      by (rewrite Hframe; split; [by intros key|done]).
    clear Hframe.
    destruct entry as [cfg|d]; simpl.
    + destruct (cleanOutputs env (keyOf proj) (getAllProjectOutputs env cfg)
                  st1 None) as [st2 files2] eqn:Eclean.
      pose proof (cleanOutputs_keeps env _ _ _ _ _ _ Eclean) as [Hcache2 _].
      apply cleanOutputs_deletes in Eclean
        as (-> & Hkeep2 & deleted2 & Htrace2 & Hin2 & Hinv2).
      intros Hrest.
      apply IH in Hrest
        as (-> & Hgrow3 & Hkeep3 & deleted3 & Htrace3 & Hclean3).
      split; [done|]. split.
      { intros key e He. apply Hgrow3. rewrite Hcache2. by apply Hgrow. }
      split; [intros key Hk; by apply Hkeep3, Hkeep2, Hkeep1|].
      exists (deleted2 ++ deleted3). split.
      { by rewrite Htrace3, Htrace2, Htrace1, fmap_app, app_assoc. }
      intros file [Hf|Hf]%elem_of_app; [|by apply Hclean3].
      exists (keyOf proj), cfg. split; [apply Hgrow3; by rewrite Hcache2|].
      split; [by apply Hin2|]. apply Hkeep3, Hinv2.
      intros ->. by apply elem_of_nil in Hf.
    + intros Hrest.
      apply IH in Hrest
        as (-> & Hgrow3 & Hkeep3 & deleted3 & Htrace3 & Hclean3).
      assert (configFileCache (reportParseConfigFileDiagnostic st1 (keyOf proj))
              = configFileCache st1
              ∧ keepsInvalidated st1
                  (reportParseConfigFileDiagnostic st1 (keyOf proj))
              ∧ outputWrites
                  (trace (reportParseConfigFileDiagnostic st1 (keyOf proj)))
                = outputWrites (trace st1)) as (Hc & Hk & Ht).
      { unfold reportParseConfigFileDiagnostic, reportAndStoreErrors.
        rewrite Hentry. simpl. rewrite outputWrites_app. simpl.
        rewrite app_nil_r. split; [done|]. split; [by intros key|done]. }
      split; [done|]. split.
      { intros key e He. apply Hgrow3. rewrite Hc. by apply Hgrow. }
      split; [intros key Hkey; by apply Hkeep3, Hk, Hkeep1|].
      exists deleted3. split; [|done]. by rewrite Htrace3, Ht, Htrace1.
Qed.

(** X18. A clean that is not dry calls [deleteFile] and nothing else that
    changes an output.  Every file it deletes is an expected output of a
    project whose configuration is in the cache, and that project is left
    invalidated: without a status, and in the queue. *)
Theorem clean_deletes_expected_outputs_and_invalidates
    (fuel : nat) (st : State) (project : option string) (st' : State)
    (exit : ExitStatus.t) :
  dry (solutionOptions env) = false ->
  clean env fuel st project = Some (st', exit) ->
  ∃ deleted,
    outputWrites (trace st')
    = outputWrites (trace st) ++ (DeleteFile <$> deleted)
    ∧ ∀ file, file ∈ deleted -> cleanedOutput env st' file.
Proof.
  intros Hdry. unfold clean. rewrite Hdry.
  destruct (getBuildOrderFor env fuel st project) as [[st0 [order|]]|] eqn:Eo;
    [| |done].
  - apply (frame_getBuildOrderFor env sameOutputs) in Eo as [_ Ho].
    destruct (cleanProjects env order st0 None) as [st1 files] eqn:Ec.
    apply cleanProjects_deletes in Ec
      as (-> & _ & _ & deleted & Htrace & Hclean).
    intros [= <- <-]. exists deleted. split; [by rewrite Htrace, Ho | done].
  - apply (frame_getBuildOrderFor env sameOutputs) in Eo as [_ Ho].
    intros [= <- <-]. exists []. rewrite app_nil_r. split; [done|].
    by intros file ?%elem_of_nil.
Qed.
End DeletionFacts.

(** ** Watch mode *)
Section WatchFacts.
Context {H : Type} (env : Env H) (timers : TimerHost).
Abbreviation State := (SolutionBuilderState H).

#[local] Instance sameFileChangeFlag_frame : Frame (@sameFileChangeFlag H).
Proof.
  split; try (by intros).
  split; [by intros st|].
  intros st1 st2 st3. unfold sameFileChangeFlag. congruence.
Qed.

#[local] Instance sameFileChangeFlag_cache : FrameCache (@sameFileChangeFlag H).
Proof. by intros st f. Qed.

#[local] Instance sameFileChangeFlag_configs :
  FrameConfigs env (@sameFileChangeFlag H).
Proof. apply frameCache_configs; apply _. Qed.

#[local] Instance sameFileChangeFlag_pending :
  FramePending (@sameFileChangeFlag H).
Proof. by intros st f. Qed.

#[local] Instance sameFileChangeFlag_control :
  FrameControl (@sameFileChangeFlag H).
Proof. by split. Qed.

#[local] Instance sameFileChangeFlag_host : FrameHost (@sameFileChangeFlag H).
Proof. by split. Qed.

Lemma outstandingTimers_snoc calls call :
  outstandingTimers (calls ++ [call])
  = match call with
    | SetTimeout _ handle => outstandingTimers calls ++ [handle]
    | ClearTimeout handle =>
      List.filter (fun other => negb (other =? handle)%Z)
        (outstandingTimers calls)
    end.
Proof. unfold outstandingTimers. by rewrite fold_left_app. Qed.

Lemma schedule_oneTimer (w : WatchState H) :
  hasSetTimeout timers = true ->
  hasClearTimeout timers = true ->
  (∀ calls, newHandle timers calls ≠ 0%Z) ->
  oneTimer w ->
  oneTimer (scheduleBuildInvalidatedProject timers w)
  ∧ is_Some (timerToBuildInvalidatedProject
               (scheduleBuildInvalidatedProject timers w))
  ∧ engine (scheduleBuildInvalidatedProject timers w) = engine w.
Proof.
  intros Hset Hclear Hhandle Hone.
  unfold scheduleBuildInvalidatedProject. rewrite Hset, Hclear. simpl.
  split; [|split; [by eexists | done]].
  unfold oneTimer in *. simpl. split; [|apply Hhandle].
  rewrite outstandingTimers_snoc.
  match goal with
  | |- outstandingTimers ?calls ++ _ = _ =>
    assert (outstandingTimers calls = []) as ->; [|done]
  end.
  destruct (timerToBuildInvalidatedProject w) as [handle|]; [|done].
  destruct Hone as [Hout Hne]. simpl.
  destruct (handle =? 0)%Z eqn:Ezero; [lia|]. simpl.
  rewrite outstandingTimers_snoc, Hout. simpl.
  by rewrite Z.eqb_refl.
Qed.

Lemma invalidateProject_flags (st : State) resolved level :
  reportFileChangeDetected (invalidateProject st resolved level)
  = reportFileChangeDetected st
  ∧ needsSummary (invalidateProject st resolved level) = true.
Proof.
  unfold invalidateProject, enableCache, addProjToQueue, clearProjectStatus.
  destruct level; simpl; repeat case_match; done.
Qed.

Lemma fileChanges_invariant changes (w : WatchState H) :
  hasSetTimeout timers = true ->
  hasClearTimeout timers = true ->
  (∀ calls, newHandle timers calls ≠ 0%Z) ->
  oneTimer w ->
  let w' := fileChanges timers w changes in
  oneTimer w'
  ∧ keepsInvalidated (engine w) (engine w')
  ∧ (∀ change, change ∈ changes -> invalidated (engine w') change.1)
  ∧ (reportFileChangeDetected (engine w) = true ->
     reportFileChangeDetected (engine w') = true)
  ∧ (needsSummary (engine w) = true -> needsSummary (engine w') = true)
  ∧ (is_Some (timerToBuildInvalidatedProject w) ->
     is_Some (timerToBuildInvalidatedProject w'))
  ∧ (changes ≠ [] ->
     reportFileChangeDetected (engine w') = true
     ∧ needsSummary (engine w') = true
     ∧ is_Some (timerToBuildInvalidatedProject w')).
Proof.
  intros Hset Hclear Hhandle. simpl. revert w.
  induction changes as [|[path level] changes IH]; intros w Hone; simpl.
  { split; [done|]. split; [by intros key|].
    split; [by intros change ?%elem_of_nil | done]. }
  change (fold_left _ changes _)
    with (fileChanges timers
            (invalidateProjectAndScheduleBuilds timers w path level) changes).
  set (st1 := invalidateProject
                (set_reportFileChangeDetected true (engine w)) path level).
  destruct (schedule_oneTimer
              (mkWatchState st1 (timerToBuildInvalidatedProject w)
                 (timerCalls w)) Hset Hclear Hhandle Hone)
    as (Hone1 & Hsome1 & Hengine1).
  change (scheduleBuildInvalidatedProject timers _)
    with (invalidateProjectAndScheduleBuilds timers w path level)
    in Hone1, Hsome1, Hengine1.
  set (w1 := invalidateProjectAndScheduleBuilds timers w path level) in *.
  simpl in Hengine1.
  destruct (invalidateProject_invalidated
              (set_reportFileChangeDetected true (engine w)) path level)
    as [Hinv Hkeep].
  destruct (invalidateProject_flags
              (set_reportFileChangeDetected true (engine w)) path level)
    as [Hflag Hsummary].
  fold st1 in Hinv, Hkeep, Hflag, Hsummary.
  rewrite <- Hengine1 in Hinv, Hkeep, Hflag, Hsummary.
  destruct (IH w1 Hone1)
    as (Hone' & Hkeep' & Hall' & Hflag' & Hsum' & Htimer' & _).
  split; [done|]. split.
  { intros key Hk. apply Hkeep', Hkeep. by destruct Hk. }
  split.
  { intros change [->|Hc]%elem_of_cons; [by apply Hkeep'|by apply Hall']. }
  split; [intros _; by apply Hflag'|]. split; [intros _; by apply Hsum'|].
  split; [intros _; by apply Htimer'|].
  intros _. split; [by apply Hflag'|]. split; [by apply Hsum'|by apply Htimer'].
Qed.

(** X21. File changes are debounced: with the timer functions of the host
    at hand and handles that count as set, every change clears the timer
    that is recorded before it sets a new one; after one change or more
    exactly one timer is outstanding, the recorded one, every changed
    project is invalidated, a summary is due and the file change is
    flagged for the next report. *)
Theorem file_changes_leave_one_timer
    (w : WatchState H)
    (changes : list (string * ConfigFileProgramReloadLevel.t)) :
  hasSetTimeout timers = true ->
  hasClearTimeout timers = true ->
  (∀ calls, newHandle timers calls ≠ 0%Z) ->
  oneTimer w ->
  changes ≠ [] ->
  let w' := fileChanges timers w changes in
  (∃ handle,
     timerToBuildInvalidatedProject w' = Some handle
     ∧ outstandingTimers (timerCalls w') = [handle])
  ∧ reportFileChangeDetected (engine w') = true
  ∧ needsSummary (engine w') = true
  ∧ ∀ change, change ∈ changes -> invalidated (engine w') change.1.
Proof.
  intros Hset Hclear Hhandle Hone Hchanges. simpl.
  destruct (fileChanges_invariant changes w Hset Hclear Hhandle Hone)
    as (Hone' & _ & Hall & _ & _ & _ & Hlast).
  destruct (Hlast Hchanges) as (Hflag & Hsummary & [handle Htimer]).
  split; [|done].
  exists handle. split; [done|].
  unfold oneTimer in Hone'. rewrite Htimer in Hone'. by destruct Hone'.
Qed.

Lemma finish_reported fuel (st : State) order st' :
  buildOrder st = Some order ->
  reportErrorSummary env fuel (disableCache st) = Some st' ->
  cache st' = false
  ∧ negb (needsSummary st')
    || (negb (watch env) && negb (hasReportErrorSummary env)) = true
  ∧ reportFileChangeDetected st' = reportFileChangeDetected st
  ∧ projectPendingBuild st' = projectPendingBuild st.
Proof.
  intros Horder Hreport.
  assert (buildOrder (disableCache st) = Some order
          ∧ cache (disableCache st) = false
          ∧ reportFileChangeDetected (disableCache st)
            = reportFileChangeDetected st
          ∧ projectPendingBuild (disableCache st) = projectPendingBuild st)
    as (Hb & Hc & Hf & Hp).
  { unfold disableCache. destruct (cache st) eqn:E; done. }
  destruct (reportErrorSummary_reported env _ _ _ _ Hb Hreport)
    as (Hsummary & _ & _ & Hcache & _ & Hqueue).
  pose proof (frame_reportErrorSummary env sameFileChangeFlag _ _ _ Hreport)
    as Hflag.
  unfold sameFileChangeFlag in Hflag.
  split; [congruence|]. split; [done|]. split; congruence.
Qed.

(** X22. One call of [buildNextInvalidatedProject].  The flag of a
    detected file change is down afterwards.  It clears no timer and sets
    at most one: when a timer is recorded afterwards, the builder watches,
    the queue is not empty, and that timer was set with a delay of 250.
    When no timer is recorded and the queue is empty, the file cache is off
    and the summary is reported. *)
Theorem tick_reschedules_while_work_is_left
    (fuel : nat) (w w' : WatchState H) :
  buildNextInvalidatedProject env timers fuel w = Some w' ->
  reportFileChangeDetected (engine w') = false
  ∧ match timerToBuildInvalidatedProject w' with
    | Some handle =>
      watch env = true
      ∧ size (projectPendingBuild (engine w')) ≠ 0
      ∧ timerCalls w' = timerCalls w ++ [SetTimeout 250 handle]
    | None =>
      timerCalls w' = timerCalls w
      ∧ (size (projectPendingBuild (engine w')) = 0 ->
         cache (engine w') = false
         ∧ negb (needsSummary (engine w'))
           || (negb (watch env) && negb (hasReportErrorSummary env)) = true)
    end.
Proof.
  unfold buildNextInvalidatedProject. simpl.
  set (st1 := if reportFileChangeDetected (engine w)
              then reportWatchStatus env
                     (set_projectErrorsReported (fun _ => ∅)
                        (set_reportFileChangeDetected false (engine w)))
                     File_change_detected_Starting_incremental_compilation []
              else engine w).
  assert (reportFileChangeDetected st1 = false) as Hflag1.
  { subst st1. destruct (reportFileChangeDetected (engine w)) eqn:E; [|done].
    unfold reportWatchStatus. by case_match. }
  clearbody st1.
  destruct (getBuildOrder env fuel st1) as [[st2 order]|] eqn:Eorder; [|done].
  pose proof (getBuildOrder_memo env _ _ _ _ Eorder) as Hmemo2.
  apply (frame_getBuildOrder env sameFileChangeFlag) in Eorder.
  destruct (getNextInvalidatedProject env fuel st2 order)
    as [[st3 next]|] eqn:Enext; [|done].
  pose proof (frame_getNextInvalidatedProject env sameControl _ _ _ _ _ Enext)
    as (Hmemo3 & _).
  apply (frame_getNextInvalidatedProject env sameFileChangeFlag) in Enext.
  assert (reportFileChangeDetected st3 = false) as Hflag3
    by (unfold sameFileChangeFlag in *; congruence).
  rewrite Hmemo2 in Hmemo3.
  assert (∀ st,
            buildOrder st = Some order ->
            reportFileChangeDetected st = false ->
            match reportErrorSummary env fuel (disableCache st) with
            | Some st' => Some (mkWatchState st' None (timerCalls w))
            | None => None
            end = Some w' ->
            reportFileChangeDetected (engine w') = false
            ∧ match timerToBuildInvalidatedProject w' with
              | Some handle =>
                watch env = true
                ∧ size (projectPendingBuild (engine w')) ≠ 0
                ∧ timerCalls w' = timerCalls w ++ [SetTimeout 250 handle]
              | None =>
                timerCalls w' = timerCalls w
                ∧ (size (projectPendingBuild (engine w')) = 0 ->
                   cache (engine w') = false
                   ∧ negb (needsSummary (engine w'))
                     || (negb (watch env) && negb (hasReportErrorSummary env))
                     = true)
              end) as Hfinish.
  { intros st Horder Hflag.
    destruct (reportErrorSummary env fuel (disableCache st)) as [st'|] eqn:Er;
      [|done].
    intros [= <-]. simpl.
    destruct (finish_reported _ _ _ _ Horder Er) as (Hc & Hs & Hf & _).
    split; [congruence|]. split; [done|]. by intros _. }
  destruct next as [invalidatedProject|]; [|by apply Hfinish].
  pose proof (frame_done env sameControl st3 invalidatedProject) as (Hmemo4 & _).
  pose proof (frame_done env sameFileChangeFlag st3 invalidatedProject)
    as Hflag4.
  unfold sameFileChangeFlag in Hflag4. rewrite Hflag3 in Hflag4.
  rewrite Hmemo3 in Hmemo4.
  set (st4 := done env st3 invalidatedProject) in *. clearbody st4.
  case_bool_decide as Hsize; simpl; [by apply Hfinish|].
  rewrite andb_true_r.
  destruct (watch env) eqn:Ewatch; simpl.
  - unfold scheduleBuildInvalidatedProject. simpl.
    destruct (negb (hasSetTimeout timers) || negb (hasClearTimeout timers));
      intros [= <-]; simpl; (split; [done|]); [|done].
    split; [done|]. by intros ?.
  - intros [= <-]. simpl. split; [done|]. split; [done|]. by intros ?.
Qed.
End WatchFacts.
(** * The properties that tie the engine to the host and to the disk *)

(** ** The answers of the config cache *)
Section CacheAnswerFacts.
Context {H : Type} (env : Env H).
Abbreviation State := (SolutionBuilderState H).

(** X1. The config cache answers a later parse under the same key for as
    long as it holds the entry: after a parse, in any state whose cache has
    for the key the entry that this parse left, a parse under the key, for
    whatever file name and whatever the host has become, gives the first
    answer again and leaves the engine state as it is. *)
Theorem parseConfigFile_answers_from_cache
    (st later : State) (name name' key : string) :
  let first := parseConfigFile env st name key in
  configFileCache later !! key = configFileCache first.1 !! key ->
  parseConfigFile env later name' key = (later, first.2).
Proof.
  simpl. destruct (parseConfigFile_cached env st name key) as (entry & Hc & Ha).
  intros Hkept. unfold parseConfigFile at 1. rewrite Hkept, Hc. by rewrite Ha.
Qed.
End CacheAnswerFacts.

(** ** The writes of a build and of a bundle update *)
Section WriteFacts.
Context {H : Type} (env : Env H).
Abbreviation State := (SolutionBuilderState H).

Lemma emitOne_failures (e : @EmitScan H) file :
  emitterDiagnostics (emitOne env e file)
  = emitterDiagnostics e
    ++ writeFailures env (hostState (emitState e)) [file].
Proof.
  unfold emitOne, writeFile. simpl.
  destruct (hostWriteFile env (hostState (emitState e)) (outputName file)
              (outputText file) (writeByteOrderMark file)) as [h' [d|]];
    simpl; [done | by rewrite app_nil_r].
Qed.

Lemma writeFailures_cons h file files :
  writeFailures env h (file :: files)
  = writeFailures env h [file]
    ++ writeFailures env
         (hostWriteFile env h (outputName file) (outputText file)
            (writeByteOrderMark file)).1 files.
Proof.
  simpl.
  by destruct (hostWriteFile env h (outputName file) (outputText file)
                 (writeByteOrderMark file)) as [h' [d|]].
Qed.

Lemma emit_failures files (e : @EmitScan H) :
  emitterDiagnostics (fold_left (emitOne env) files e)
  = emitterDiagnostics e ++ writeFailures env (hostState (emitState e)) files.
Proof.
  revert e. induction files as [|file files IH]; intros e.
  - simpl. by rewrite app_nil_r.
  - change (fold_left (emitOne env) (file :: files) e)
      with (fold_left (emitOne env) files (emitOne env e file)).
    rewrite IH, emitOne_failures, (writeFailures_cons _ file files), <- app_assoc.
    destruct (emitOne_writes env e file) as (_ & Hh & _). by rewrite Hh.
Qed.

Lemma bundle_failures files (st : State) diags emitted :
  (fold_left
     (fun '(s, ds, em) file =>
        let '(s', ds') := writeFile env s ds file in
        (s', ds',
         fileMapSet em (toPath env (outputName file)) (outputName file)))
     files (st, diags, emitted)).1.2
  = diags ++ writeFailures env (hostState st) files.
Proof.
  revert st diags emitted.
  induction files as [|file files IH]; intros st diags emitted.
  - simpl. by rewrite app_nil_r.
  - simpl fold_left. cbn [writeFailures]. unfold writeFile at 2.
    destruct (hostWriteFile env (hostState st) (outputName file)
                (outputText file) (writeByteOrderMark file)) as [h' failure].
    rewrite IH. simpl. destruct failure; simpl; [by rewrite <- app_assoc | done].
Qed.

(** X11. A build whose program has no diagnostics writes every emitted file
    once, in the order of the emit.  When a write fails, that is all: the
    project is [Unbuildable], diagnostics are stored for it and the result
    is [EmitErrors].  When no write fails, the time of the expected outputs
    that were not emitted is set, the stored diagnostics of the project are
    dropped, the project is [UpToDate], and the result is
    [DeclarationOutputUnchanged] or, with the declaration change time at
    the maximum, no flag at all. *)
Theorem build_writes_what_the_program_emits
    (st : State) (proj resolvedPath : string) (config : ParsedCommandLine) :
  let program := (createdProgram env st proj config).2 in
  let files := emittedFiles program in
  let result := buildSingleProject env st proj resolvedPath config in
  let touch file :=
    SetModifiedTime file (now env (written env (hostState st) files)) in
  dry (solutionOptions env) = false ->
  fileNames config ≠ [] ->
  syntaxDiagnostics program = [] ->
  semanticDiagnostics program = [] ->
  declDiagnostics program = None ->
  match writeFailures env (hostState st) files with
  | _ :: _ =>
    outputWrites (trace result.1)
    = outputWrites (trace st) ++ (writeOf <$> files)
    ∧ hostState result.1 = written env (hostState st) files
    ∧ result.2 = BuildResultFlags.EmitErrors
    ∧ projectStatus result.1 !! resolvedPath
      = Some (Unbuildable "Emit errors")
    ∧ is_Some (diagnostics result.1 !! resolvedPath)
  | [] =>
    outputWrites (trace result.1)
    = outputWrites (trace st) ++ (writeOf <$> files)
      ++ (touch <$> touchedOutputs env config (Some (emittedMap env files)))
    ∧ diagnostics result.1 !! resolvedPath = None
    ∧ (∃ info,
         projectStatus result.1 !! resolvedPath = Some (UpToDate info)
         ∧ (result.2 = 0%Z ->
            newestDeclarationFileContentChangedTime info = Some maximumDate))
    ∧ (result.2 = 0%Z
       ∨ result.2 = BuildResultFlags.DeclarationOutputUnchanged)
  end.
Proof.
  simpl. unfold buildSingleProject, createdProgram. intros ->.
  set (st0 := if verbose (solutionOptions env)
              then reportStatus st Building_project_0 [proj] else st).
  assert (sameOutputs st st0) as Hst0
    by (subst st0; case_match;
        [apply (frame_reportStatus sameOutputs) | reflexivity]).
  clearbody st0.
  destruct (fileNames config) as [|name names]; [done|]. intros _.
  pose proof (frame_answer sameOutputs (getParsedCommandLine env)
                (createProgram env (hostState st0) config) st0
                (frame_getParsedCommandLine env sameOutputs)) as Hasked.
  destruct (answer _ _ st0) as [st1 program]. simpl in *.
  assert (sameOutputs st st1) as [Hhost1 Htrace1] by (by etrans).
  clear Hst0 Hasked.
  intros -> -> ->.
  match goal with
  | |- context [fold_left (emitOne env) ?files ?e0] =>
    destruct (emit_writes env files e0) as (Htrace & Hhost & Hmap & Hflags);
    pose proof (emit_failures files e0) as Hfailures;
    set (e := fold_left (emitOne env) files e0) in *; clearbody e
  end.
  simpl in *. rewrite Htrace1 in Htrace. rewrite Hhost1 in Hhost, Hfailures.
  specialize (Hflags eq_refl). rewrite <- Hfailures.
  destruct (emitterDiagnostics e) as [|d ds] eqn:Ediags.
  - match goal with
    | |- context [updateOutputTimestampsWorker env ?s1 ?c ?t ?m ?k] =>
      destruct (updateOutputTimestampsWorker_writes env s1 c t m k) as [Hw _];
      assert (sameOutputs (emitState e) s1) as [Hh1 Hs1];
      [|destruct (updateOutputTimestampsWorker env s1 c t m k)
          as [st2 newest]]
    end.
    { case_match; [|reflexivity].
      etrans; [|apply (frame_listProgramFiles env sameOutputs)].
      apply (listing_writes env). }
    simpl in *. rewrite Hs1, Hh1, Htrace, Hhost, Hmap in Hw.
    rewrite Hflags. destruct (anyDtsChanged e); simpl.
    + split; [by rewrite Hw, <- app_assoc|]. split; [apply lookup_delete_eq|].
      split; [|by left]. eexists. split; [apply lookup_insert_eq|done].
    + split; [by rewrite Hw, <- app_assoc|]. split; [apply lookup_delete_eq|].
      split; [|by right]. eexists. split; [apply lookup_insert_eq|done].
  - destruct (buildErrors_stored env (emitState e) resolvedPath (Some config)
                (d :: ds) BuildResultFlags.EmitErrors "Emit")
      as (Hf & Hs & _ & Hd).
    pose proof (frame_buildErrors env sameOutputs (emitState e) resolvedPath
                  (Some config) (d :: ds) BuildResultFlags.EmitErrors "Emit")
      as [Hh Ht].
    rewrite Hf, Ht, Hh, Htrace, Hhost, Hs, Hd by done. done.
Qed.

(** X19. The update of a bundle, in a build that is not dry.  When the
    build info cannot be read, nothing is written and the answer is the
    name of the file, on which the handle builds the project instead.
    Otherwise every file out of the build info is written once, in order;
    when a write fails the project is [Unbuildable], diagnostics are stored
    for it and the result is [EmitErrors]; when none fails the time of the
    expected outputs that were not written is set, the project is
    [UpToDate] with the first file as its oldest output, its stored
    diagnostics are dropped, and the result is
    [DeclarationOutputUnchanged]. *)
Theorem bundle_update_writes_what_the_build_info_gives
    (st : State) (proj resolvedPath : string) (config : ParsedCommandLine)
    (projectIndex : nat) (order : list string) :
  let result := updateBundle env st proj resolvedPath config in
  dry (solutionOptions env) = false ->
  match (readBundle env st proj config).2 with
  | inl unreadable =>
    result.2 = inl unreadable
    ∧ sameOutputs st result.1
    ∧ done env st
        (UpdateBundleProject proj resolvedPath projectIndex config order true)
      = done env result.1
          (BuildInvalidedProject proj resolvedPath projectIndex config order
             true)
  | inr (first, others) =>
    let files := first :: others in
    let touch file :=
      SetModifiedTime file (now env (written env (hostState st) files)) in
    match writeFailures env (hostState st) files with
    | _ :: _ =>
      result.2 = inr BuildResultFlags.EmitErrors
      ∧ outputWrites (trace result.1)
        = outputWrites (trace st) ++ (writeOf <$> files)
      ∧ projectStatus result.1 !! resolvedPath
        = Some (Unbuildable "Emit errors")
      ∧ is_Some (diagnostics result.1 !! resolvedPath)
    | [] =>
      result.2 = inr BuildResultFlags.DeclarationOutputUnchanged
      ∧ outputWrites (trace result.1)
        = outputWrites (trace st) ++ (writeOf <$> files)
          ++ (touch <$> touchedOutputs env config
                          (Some (emittedMap env files)))
      ∧ diagnostics result.1 !! resolvedPath = None
      ∧ ∃ info,
          projectStatus result.1 !! resolvedPath = Some (UpToDate info)
          ∧ oldestOutputFileName info = outputName first
    end
  end.
Proof.
  simpl. intros Hdry.
  assert (done env st
            (UpdateBundleProject proj resolvedPath projectIndex config order true)
          = match updateBundle env st proj resolvedPath config with
            | (st1, inl _) =>
              done env st1
                (BuildInvalidedProject proj resolvedPath projectIndex config
                   order true)
            | (st1, inr r) =>
              set_projectPendingBuild (delete resolvedPath)
                (queueReferencingProjects env st1 proj resolvedPath
                   projectIndex config order r)
            end) as Hdone.
  { simpl. unfold updateInvalidated.
    by destruct (updateBundle env st proj resolvedPath config) as [st1 [?|?]]. }
  revert Hdone. unfold updateBundle, readBundle. rewrite Hdry.
  set (st0 := if verbose (solutionOptions env)
              then reportStatus st Updating_output_of_project_0 [proj] else st).
  assert (sameOutputs st st0) as Hst0
    by (subst st0; case_match;
        [apply (frame_reportStatus sameOutputs) | reflexivity]).
  clearbody st0.
  pose proof (frame_answer sameOutputs (getCommandLine env)
                (emitUsingBuildInfo env (hostState st0) config) st0
                (frame_getCommandLine env sameOutputs)) as Hasked.
  destruct (answer _ _ st0) as [st1 bundle]. simpl in *.
  assert (sameOutputs st st1) as [Hhost1 Htrace1] by (by etrans).
  clear Hst0 Hasked.
  destruct bundle as [unreadable|[first others]]; simpl.
  { intros Hdone. split; [done|]. split; [|done].
    split; simpl; [done|]. rewrite outputWrites_app. simpl.
    by rewrite app_nil_r. }
  intros _.
  pose proof (bundle_writes env (first :: others) st1 [] []) as Hwrites.
  pose proof (bundle_failures (first :: others) st1 [] []) as Hfailures.
  destruct (fold_left _ (first :: others) (st1, [], []))
    as [[st2 diags] emitted] eqn:Efold.
  simpl in Efold. rewrite Efold.
  destruct Hwrites as (Htrace & Hhost & Hmap).
  rewrite Htrace1 in Htrace. rewrite Hhost1 in Hhost, Hfailures.
  simpl in Hfailures. rewrite <- Hfailures.
  destruct diags as [|d ds].
  - match goal with
    | |- context [updateOutputTimestampsWorker env ?s1 ?c ?t ?m ?k] =>
      destruct (updateOutputTimestampsWorker_writes env s1 c t m k) as [Hw _];
      assert (sameOutputs st2 s1) as [Hh1 Hs1];
      [|destruct (updateOutputTimestampsWorker env s1 c t m k)
          as [st3 newest]]
    end.
    { case_match; [|reflexivity]. apply (listing_writes env). }
    simpl in *. rewrite Hs1, Hh1, Htrace, Hhost, Hmap in Hw.
    split; [done|]. split; [by rewrite Hw, <- app_assoc|].
    split; [apply lookup_delete_eq|].
    eexists. split; [apply lookup_insert_eq|done].
  - destruct (buildErrors_stored env st2 resolvedPath None (d :: ds)
                BuildResultFlags.EmitErrors "Emit") as (Hf & Hs & _ & Hd).
    pose proof (frame_buildErrors env sameOutputs st2 resolvedPath None
                  (d :: ds) BuildResultFlags.EmitErrors "Emit") as [Hh Ht].
    split; [done|]. split; [etrans; [exact Ht | exact Htrace]|].
    split; [exact Hs|]. exists (d :: ds). by apply Hd.
Qed.
End WriteFacts.

(** ** The levels of the queue *)
Section ReloadLevelFacts.
Context {H : Type} (env : Env H).
Import ConfigFileProgramReloadLevel.
Abbreviation State := (SolutionBuilderState H).
Abbreviation keyOf := (toResolvedConfigFilePath env).

(** C5 (as amended). Reload levels are raised by [addProjToQueue], and
    monotonically.  After any sequence of enqueue operations the entry of a
    key is the maximum of what the queue held for it before and of the
    levels requested for it: it bounds each of them and it is one of them;
    the entry does not decrease from one operation of the sequence to a
    later one, and enqueueing with a level that is lower than or equal to
    the stored one changes nothing.  The entry is not the maximum of what
    was requested over an invocation: the seeding of the first
    [setupInitialBuild] overwrites the entry of every project of the build
    order with None, whatever level it held, and leaves the other entries;
    and the [done] of an action handle removes the entry of its project. *)
Theorem reload_level_is_monotone_maximum
    (st : State) (ops : list (string * t)) (key : string) :
  levelLe (projectPendingBuild st !! key)
          (projectPendingBuild (enqueueAll st ops) !! key)
  ∧ (∀ level, level ∈ requestsFor key ops ->
       levelLe (Some level) (projectPendingBuild (enqueueAll st ops) !! key))
  ∧ (∀ level, projectPendingBuild (enqueueAll st ops) !! key = Some level ->
       projectPendingBuild st !! key = Some level ∨ level ∈ requestsFor key ops)
  ∧ (∀ before after, ops = before ++ after ->
       levelLe (projectPendingBuild (enqueueAll st before) !! key)
               (projectPendingBuild (enqueueAll st ops) !! key))
  ∧ (∀ level value, projectPendingBuild st !! key = Some value ->
       (toZ level <= toZ value)%Z -> addProjToQueue st key level = st)
  ∧ (∀ fuel st',
       allProjectBuildPending st = true ->
       setupInitialBuild env fuel st = Some st' ->
       ∃ order,
         buildOrder st' = Some order
         ∧ projectPendingBuild st' !! key
           = if bool_decide (key ∈ keyOf <$> order) then Some None
             else projectPendingBuild st !! key)
  ∧ (∀ invalidatedProject,
       projectPendingBuild (done env st invalidatedProject)
       !! projectPathOf invalidatedProject = Datatypes.None).
Proof.
  split; [apply enqueueAll_le|].
  split; [intros level; apply enqueueAll_bound|].
  split; [intros level; apply enqueueAll_attained|].
  split.
  { intros before after ->. unfold enqueueAll. rewrite fold_left_app.
    apply (enqueueAll_le (enqueueAll st before) after key). }
  split; [intros level value; apply addProjToQueue_lower|].
  split; [|intros p; apply done_removes].
  intros fuel st' Hpending Hsetup.
  destruct (setupInitialBuild_first env fuel 0 st st' Hpending Hsetup)
    as (order & Horder & Hqueue & _).
  exists order. split; [done | apply Hqueue].
Qed.
End ReloadLevelFacts.

(** ** Priority of the upstream statuses over a missing output *)
Section UpstreamFacts.
Context {H : Type} (env : Env H).
Abbreviation State := (SolutionBuilderState H).
Abbreviation Evaluator :=
  (State -> option ParsedCommandLine -> string -> option (State * UpToDateStatus)).

(** With a missing output, references that are up to date or under
    evaluation are passed over, and the first one that is neither ends the
    loop: with [UpstreamBlocked] when it is [Unbuildable], with
    [UpstreamOutOfDate] otherwise. *)
Lemma checkUpstream_missing_decided (rec : Evaluator) scan pre ref post
    (st : State) up st1 statuses st2 status name :
  scanMissingOutputFileName scan = Some name ->
  truthy name = true ->
  referenceStatuses env rec pre st = Some (st1, statuses) ->
  Forall passedOver statuses ->
  referenceStatuses env rec [ref] st1 = Some (st2, [status]) ->
  ¬ passedOver status ->
  checkUpstream env rec scan (pre ++ ref :: post) st up
  = Some (st2, inl (upstreamStatus ref status)).
Proof.
  intros Hmiss Hname. revert st up statuses.
  induction pre as [|r pre IH]; intros st up statuses Hpre Hpass Href Hnot.
  - simpl in Hpre. simplify_eq. simpl in *.
    destruct (parseConfigFile env _ _ _) as [st1' parsed].
    destruct (rec st1' parsed _) as [[st2' status']|]; [|done].
    simplify_eq. unfold passedOver in Hnot.
    destruct status; try done; exfalso; apply Hnot; auto.
  - simpl in Hpre. simpl.
    destruct (parseConfigFile env st _ _) as [st' parsed].
    destruct (rec st' parsed _) as [[st'' status']|]; [|done].
    destruct (referenceStatuses env rec pre st'') as [[st3 statuses']|] eqn:E;
      [|done].
    simplify_eq. apply Forall_cons in Hpass as [[Hup|Hsentinel] Hpass].
    + destruct status'; try done.
      unfold noMissingOutput. rewrite Hmiss, Hname. simpl. by eapply IH.
    + subst status'. by eapply IH.
Qed.

(** With a missing output, a loop over references that are all passed over
    runs to its end. *)
Lemma checkUpstream_missing_passed (rec : Evaluator) scan refs (st : State) up
    st1 statuses name :
  scanMissingOutputFileName scan = Some name ->
  truthy name = true ->
  referenceStatuses env rec refs st = Some (st1, statuses) ->
  Forall passedOver statuses ->
  ∃ up', checkUpstream env rec scan refs st up = Some (st1, inr up').
Proof.
  intros Hmiss Hname. revert st up statuses.
  induction refs as [|r refs IH]; intros st up statuses Hrefs Hpass.
  - simpl in *. simplify_eq. by eexists.
  - simpl in Hrefs. simpl.
    destruct (parseConfigFile env st _ _) as [st' parsed].
    destruct (rec st' parsed _) as [[st'' status']|]; [|done].
    destruct (referenceStatuses env rec refs st'') as [[st3 statuses']|] eqn:E;
      [|done].
    simplify_eq. apply Forall_cons in Hpass as [[Hup|Hsentinel] Hpass].
    + destruct status'; try done.
      unfold noMissingOutput. rewrite Hmiss, Hname. simpl. by eapply IH.
    + subst status'. by eapply IH.
Qed.

(** C3 (as amended). For a project that has no cached status, whose input
    files all exist, which is not a container and which has references,
    when the scan of the expected outputs stopped at a missing output:
    the references are evaluated in the order of their declaration, those
    that evaluate to [UpToDate] or to the sentinel are passed over, and the
    first one that is not decides:
    (a) when it evaluates to [Unbuildable], the status of the project is
    [UpstreamBlocked] on that reference, and not [OutputMissing];
    (b) when it evaluates to any other status, the status of the project
    is [UpstreamOutOfDate] on that reference, whatever the references
    behind it evaluate to;
    (c) when every reference is passed over, the status is
    [OutputMissing] with the output at which the scan stopped;
    (d) and the status is [OutputMissing] only then: every reference was
    evaluated and each one was [UpToDate] or the sentinel. *)
Theorem upstream_blocked_has_priority_over_output_missing
    (fuel : nat) (st : State) (project : ParsedCommandLine)
    (resolvedPath : string) (refs : list ProjectReference)
    (newestName : option string) (newestTime : Date) :
  let rec := getUpToDateStatus env fuel in
  let scan := scanOutputs env (hostState st) newestTime
                (getAllProjectOutputs env project) initialOutputScan in
  let st0 := set_projectStatus <[resolvedPath := ComputingUpstream]> st in
  let evaluation := getUpToDateStatus env (S fuel) st (Some project) resolvedPath in
  projectStatus st !! resolvedPath = None ->
  newestInput env (hostState st) (fileNames project) None minimumDate
    = inr (newestName, newestTime) ->
  bool_decide (fileNames project = [])
    && negb (canJsonReportNoInutFiles env (raw project)) = false ->
  projectReferences project = Some refs ->
  (∀ name pre ref post st1 statuses st2 reason,
     scanMissingOutputFileName scan = Some name ->
     truthy name = true ->
     refs = pre ++ ref :: post ->
     referenceStatuses env rec pre st0 = Some (st1, statuses) ->
     Forall passedOver statuses ->
     referenceStatuses env rec [ref] st1 = Some (st2, [Unbuildable reason]) ->
     evaluation
     = Some (set_projectStatus
               <[resolvedPath := UpstreamBlocked (path ref)]> st2,
             UpstreamBlocked (path ref)))
  ∧ (∀ name pre ref post st1 statuses st2 status,
       scanMissingOutputFileName scan = Some name ->
       truthy name = true ->
       refs = pre ++ ref :: post ->
       referenceStatuses env rec pre st0 = Some (st1, statuses) ->
       Forall passedOver statuses ->
       referenceStatuses env rec [ref] st1 = Some (st2, [status]) ->
       ¬ passedOver status ->
       (∀ reason, status ≠ Unbuildable reason) ->
       evaluation
       = Some (set_projectStatus
                 <[resolvedPath := UpstreamOutOfDate (path ref)]> st2,
               UpstreamOutOfDate (path ref)))
  ∧ (∀ name st1 statuses,
       scanMissingOutputFileName scan = Some name ->
       truthy name = true ->
       referenceStatuses env rec refs st0 = Some (st1, statuses) ->
       Forall passedOver statuses ->
       evaluation
       = Some (set_projectStatus <[resolvedPath := OutputMissing name]> st1,
               OutputMissing name))
  ∧ (∀ st' missing,
       evaluation = Some (st', OutputMissing missing) ->
       scanMissingOutputFileName scan = Some missing
       ∧ ∃ st1 statuses,
           referenceStatuses env rec refs st0 = Some (st1, statuses)
           ∧ Forall passedOver statuses).
Proof.
  intros rec scan st0 evaluation Hprior Hin Hcont Hrefs.
  assert (evaluation
          = match checkUpstream env rec scan refs st0
                    (mkUpstreamScan false false None) with
            | None => None
            | Some (st1, inl status) =>
              Some (set_projectStatus <[resolvedPath := status]> st1, status)
            | Some (st1, inr up) =>
              let r := statusAfterUpstream env st1 project resolvedPath
                         newestName newestTime scan up in
              Some (set_projectStatus <[resolvedPath := r.2]> r.1, r.2)
            end) as Heval.
  { subst evaluation. simpl. rewrite Hprior. unfold getUpToDateStatusWorker.
    rewrite Hin, Hcont, Hrefs. fold rec scan st0.
    destruct (checkUpstream env rec scan refs st0 _) as [[st1 [status|up]]|];
      [done| |done].
    by destruct (statusAfterUpstream env st1 project resolvedPath _ _ scan up). }
  rewrite Heval. clear Heval.
  split; [|split; [|split]].
  - intros name pre ref post st1 statuses st2 reason Hmiss Hname -> Hpre Hpass Href.
    rewrite (checkUpstream_missing_decided rec scan pre ref post st0 _ st1
               statuses st2 (Unbuildable reason) name Hmiss Hname Hpre Hpass
               Href); [done|].
    by intros [?|?].
  - intros name pre ref post st1 statuses st2 status Hmiss Hname -> Hpre Hpass
      Href Hnot Hbuildable.
    rewrite (checkUpstream_missing_decided rec scan pre ref post st0 _ st1
               statuses st2 status name Hmiss Hname Hpre Hpass Href Hnot).
    destruct status; try done. by destruct (Hbuildable reason).
  - intros name st1 statuses Hmiss Hname Hall Hpass.
    destruct (checkUpstream_missing_passed rec scan refs st0
                (mkUpstreamScan false false None) st1 statuses name Hmiss Hname
                Hall Hpass) as [up' ->].
    unfold statusAfterUpstream. by rewrite Hmiss.
  - intros st' missing.
    destruct (checkUpstream env rec scan refs st0 _) as [[st1 [status|up]]|] eqn:Ec;
      [| |done].
    + intros [= <- ->].
      apply (checkUpstream_returned env) in Ec as [[? ?]|[[? ?]|(? & ? & ?)]]; done.
    + destruct (statusAfterUpstream env st1 project resolvedPath _ _ scan up)
        as [st2 status] eqn:Es.
      simpl. intros [= <- ->]. apply (statusAfterUpstream_missing env) in Es.
      split; [done|].
      apply (checkUpstream_completed env) in Ec as (statuses & Hs & Hall).
      by exists st1, statuses.
Qed.
End UpstreamFacts.

(** ** The build order and the configurations it was computed from *)
Section OrderFacts.
Context {H : Type} (env : Env H).
Abbreviation State := (SolutionBuilderState H).
Abbreviation keyOf := (toResolvedConfigFilePath env).

Lemma parseConfigFile_entry (st : State) name :
  configFileCache (parseConfigFile env st name (keyOf name)).1 !! keyOf name
  = Some (configEntry env st name)
  ∧ ∀ key, key ≠ keyOf name ->
      configFileCache (parseConfigFile env st name (keyOf name)).1 !! key
      = configFileCache st !! key.
Proof.
  unfold parseConfigFile, configEntry.
  destruct (configFileCache st !! keyOf name) as [entry|] eqn:E; simpl.
  - by rewrite E.
  - rewrite lookup_insert_eq. split; [done|]. intros key Hne.
    by rewrite lookup_insert_ne.
Qed.

Lemma visit_entries st0 fuel name ctx (v v' : @VisitState H) :
  visit env fuel name ctx v = Some v' ->
  entriesRead env st0 v ->
  entriesRead env st0 v'
  ∧ circularityReportStack v' = circularityReportStack v
  ∧ temporaryMarks v ⊆ temporaryMarks v'.
Proof.
  revert name ctx v v'. induction fuel as [|fuel IH]; intros name ctx v v';
    [done|].
  simpl. case_decide as Hperm; [by intros [= <-]|].
  case_decide as Htemp.
  { intros [= <-] Hread. by destruct ctx. }
  destruct (parseConfigFile_entry (visitState v) name) as [Hentry Hother].
  pose proof (parseConfigFile_hostState env (visitState v) name (keyOf name))
    as Hhost.
  destruct (parseConfigFile env (visitState v) name (keyOf name))
    as [st1 parsed].
  simpl in *.
  set (v1 := mkVisit st1 ({[keyOf name]} ∪ temporaryMarks v) (permanentMarks v)
               (circularityReportStack v ++ [name]) (visitOrder v)) in *.
  match goal with
  | |- match ?body with _ => _ end = _ -> _ =>
    destruct body as [v2|] eqn:Eloop; [|done]
  end.
  intros [= <-] (Hh & Hfresh & Hfrom & Hcached).
  assert (configEntry env (visitState v) name = configEntry env st0 name)
    as Hsame.
  { unfold configEntry. by rewrite Hh, (Hfresh _ Htemp). }
  assert (entriesRead env st0 v1) as Hread1.
  { split; [simpl; congruence|]. split; [|split]; simpl.
    - intros key Hkey. rewrite Hother by set_solver. apply Hfresh. set_solver.
    - intros key entry Hkey. destruct (decide (key = keyOf name)) as [->|Hne].
      + right. exists name. split; [set_solver|]. split; [done|]. congruence.
      + rewrite Hother in Hkey by done.
        destruct (Hfrom key entry Hkey) as [?|(n & Hn & ? & ?)]; [by left|].
        right. exists n. split; [set_solver | done].
    - intros n Hn. rewrite app_assoc in Hn.
      apply elem_of_app in Hn as [Hn|Hn].
      + destruct (Hcached n Hn) as [Hc Hm]. split; [|set_solver].
        rewrite Hother; [done|]. intros Heq. apply Htemp. by rewrite <- Heq.
      + apply list_elem_of_singleton in Hn as ->. split; [congruence|set_solver]. }
  assert (entriesRead env st0 v2
          ∧ circularityReportStack v2 = circularityReportStack v1
          ∧ temporaryMarks v1 ⊆ temporaryMarks v2) as (Hread2 & Hstack2 & Htemp2).
  { destruct parsed as [p|]; [|by simplify_eq].
    destruct (projectReferences p) as [refs|]; [|by simplify_eq].
    eapply (forEachM_invariant
              (fun s => entriesRead env st0 s
                        ∧ circularityReportStack s = circularityReportStack v1
                        ∧ temporaryMarks v1 ⊆ temporaryMarks s));
      [|exact Eloop|done].
    intros ref s1 s2 _ Hvisit (Hr1 & Hs1 & Ht1).
    destruct (IH _ _ _ _ Hvisit Hr1) as (Hr2 & Hs2 & Ht2).
    split; [done|]. split; [congruence | set_solver]. }
  destruct Hread2 as (Hh2 & Hfresh2 & Hfrom2 & Hcached2).
  simpl in *. rewrite Hstack2. rewrite removelast_last.
  split; [|split; [done | set_solver]].
  split; [done|]. split; [done|]. split; simpl.
  - intros key entry Hkey.
    destruct (Hfrom2 key entry Hkey) as [?|(n & Hn & ? & ?)]; [by left|].
    right. exists n. split; [|done]. rewrite Hstack2 in Hn. set_solver.
  - intros n Hn. apply Hcached2. rewrite Hstack2. set_solver.
Qed.

Lemma createBuildOrder_entries fuel (st : State) roots st' order :
  createBuildOrder env fuel st roots = Some (st', order) ->
  hostState st' = hostState st
  ∧ (∀ name, name ∈ order ->
       configFileCache st' !! keyOf name = Some (configEntry env st name))
  ∧ (∀ key entry,
       configFileCache st' !! key = Some entry ->
       configFileCache st !! key = Some entry
       ∨ ∃ name, name ∈ order ∧ keyOf name = key
                 ∧ entry = configEntry env st name).
Proof.
  unfold createBuildOrder.
  destruct (forEachM _ _ _) as [v|] eqn:Ev; [|done]. intros [= <- <-].
  assert (entriesRead env st v ∧ circularityReportStack v = [])
    as [(Hh & _ & Hfrom & Hcached) Hstack].
  { eapply (forEachM_invariant
              (fun s => entriesRead env st s ∧ circularityReportStack s = []));
      [|exact Ev|].
    - intros root s1 s2 _ Hvisit [Hr1 Hs1].
      destruct (visit_entries st _ _ _ _ _ Hvisit Hr1) as (Hr2 & Hs2 & _).
      split; [done | congruence].
    - split; [|done]. split; [done|]. split; [done|]. split; simpl.
      + intros key entry Hkey. by left.
      + by intros name ?%elem_of_nil. }
  rewrite Hstack, app_nil_r in Hfrom, Hcached.
  split; [done|]. split; [|done]. intros name Hname. by apply Hcached.
Qed.

(** C2. The build order is topological and leaves first.  The graph
    builder returns an order on every project graph over finitely many
    configuration files.  Every root is a project of the order.  The
    configuration of every project of the order is in the cache when the
    order is returned, as the parser of the host gives it (or as the cache
    had it before), and every other entry of the cache was there before:
    the references of the cache are the reference edges of the project
    graph.  When project [a] of the order references [b], the project [b]
    stands in the order strictly in front of [a], unless the edge closes a
    cycle ([b] reaches [a] through references); in a graph without cycles
    every referenced project stands in front. *)
Theorem build_order_is_topological
    (U : gset string) (fuel : nat) (st : State) (roots : list string) :
  (configsWithin env U st -> size U < fuel ->
   ∃ st' order, createBuildOrder env fuel st roots = Some (st', order))
  ∧ ∀ st' order,
      createBuildOrder env fuel st roots = Some (st', order) ->
      (∀ root, root ∈ roots -> keyOf root ∈ keyOf <$> order)
      ∧ (∀ name, name ∈ order ->
           configFileCache st' !! keyOf name = Some (configEntry env st name))
      ∧ (∀ key entry,
           configFileCache st' !! key = Some entry ->
           configFileCache st !! key = Some entry
           ∨ ∃ name, name ∈ order ∧ keyOf name = key
                     ∧ entry = configEntry env st name)
      ∧ (∀ i name ref,
           order !! i = Some name ->
           ref ∈ cachedReferences st' (keyOf name) ->
           builtBefore env order i (referenceKey env ref)
           ∨ rtc (references env st') (referenceKey env ref) (keyOf name))
      ∧ ((∀ key, ¬ tc (references env st') key key) ->
         ∀ i name ref,
           order !! i = Some name ->
           ref ∈ cachedReferences st' (keyOf name) ->
           builtBefore env order i (referenceKey env ref)).
Proof.
  split.
  { intros Hwithin Hfuel.
    destruct (createBuildOrder_total env U fuel st roots Hwithin Hfuel)
      as (st' & order & Hcreate & _).
    by exists st', order. }
  intros st' order Hcreate.
  destruct (createBuildOrder_covers env _ _ _ _ _ Hcreate) as [Hroots _].
  destruct (createBuildOrder_entries _ _ _ _ _ Hcreate)
    as (_ & Hcached & Hfrom).
  split; [done|]. split; [done|]. split; [done|].
  apply (createBuildOrder_invariant env) in Hcreate as (v & <- & <- & Hinv).
  assert (∀ i name ref,
            visitOrder v !! i = Some name ->
            ref ∈ cachedReferences (visitState v) (keyOf name) ->
            builtBefore env (visitOrder v) i (referenceKey env ref)
            ∨ rtc (references env (visitState v)) (referenceKey env ref)
                (keyOf name)) as Htopo.
  { intros i name ref Hi Hin.
    destruct (inv_order _ _ _ Hinv i name ref Hi Hin) as [?|[? _]]; auto. }
  split; [exact Htopo|].
  intros Hacyclic i name ref Hi Hin.
  destruct (Htopo i name ref Hi Hin) as [?|Hback]; [done|].
  exfalso. apply (Hacyclic (keyOf name)).
  eapply tc_rtc_r; [|exact Hback]. apply tc_once. by exists ref.
Qed.
End OrderFacts.

(** ** The number of cycle diagnostics *)
Section CycleFacts.
Context {H : Type} (env : Env H).
Abbreviation State := (SolutionBuilderState H).
Abbreviation keyOf := (toResolvedConfigFilePath env).
#[local] Existing Instance covers_preorder.
#[local] Existing Instance keepsDistinct_preorder.

Lemma standsInFront_builtBefore order i key :
  standsInFront env order i key = true ↔ builtBefore env order i key.
Proof.
  unfold standsInFront, builtBefore. rewrite bool_decide_eq_true. split.
  - intros (name & -> & Hin)%list_elem_of_fmap.
    apply list_elem_of_lookup in Hin as [j Hj].
    apply lookup_take_Some in Hj as [Hj Hlt]. by exists j, name.
  - intros (j & name & Hlt & Hj & <-). apply list_elem_of_fmap.
    exists name. split; [done|]. apply list_elem_of_lookup. exists j.
    by apply lookup_take_Some.
Qed.

Lemma backReferences_spec (st : State) order i name ref :
  ref ∈ backReferences env st order i name
  ↔ ref ∈ cachedReferences st (keyOf name)
    ∧ ¬ builtBefore env order i (referenceKey env ref).
Proof.
  unfold backReferences. rewrite list_elem_of_In, filter_In, <- list_elem_of_In.
  rewrite negb_true_iff, <- standsInFront_builtBefore.
  destruct (standsInFront env order i (referenceKey env ref)); naive_solver.
Qed.

Lemma sum_list_app (l k : list nat) :
  sum_list (l ++ k) = sum_list l + sum_list k.
Proof. induction l as [|x l IH]; simpl; [done|]. rewrite IH. lia. Qed.

Lemma backReferenceCount_snoc (st : State) order name :
  backReferenceCount env st (order ++ [name])
  = backReferenceCount env st order
    + length (backReferences env st (order ++ [name]) (length order) name).
Proof.
  unfold backReferenceCount. rewrite imap_app, sum_list_app. simpl.
  rewrite Nat.add_0_r, Nat.add_0_r. f_equal. f_equal.
  apply imap_ext. intros i n Hi. simpl.
  unfold backReferences, standsInFront. f_equal.
  rewrite take_app_le; [done|]. apply lookup_lt_Some in Hi. lia.
Qed.

Lemma backReferenceCount_grows (st st' : State) order :
  cacheGrows st st' ->
  (∀ name, name ∈ order -> is_Some (configFileCache st !! keyOf name)) ->
  backReferenceCount env st' order = backReferenceCount env st order.
Proof.
  intros Hgrow Hcached. unfold backReferenceCount. f_equal.
  apply imap_ext. intros i name Hi. simpl. unfold backReferences.
  rewrite (cachedReferences_grows st st'); [done|done|].
  apply Hcached. by eapply list_elem_of_lookup_2.
Qed.

Lemma countable_cached (v : @VisitState H) name :
  countable env v -> name ∈ visitOrder v ->
  is_Some (configFileCache (visitState v) !! keyOf name).
Proof.
  intros [[Hperm Hclosed] _] Hname.
  apply Hclosed, Hperm, list_elem_of_fmap. by exists name.
Qed.

(** A state of the traversal with another trace. *)
Lemma countable_trace (v : @VisitState H) st' :
  countable env v ->
  configFileCache st' = configFileCache (visitState v) ->
  hostState st' = hostState (visitState v) ->
  countable env
    (mkVisit st' (temporaryMarks v) (permanentMarks v)
       (circularityReportStack v) (visitOrder v)).
Proof.
  intros [[Hperm Hclosed] [Hc Hh]] Hcache Hhost.
  split; [split; [done|]|split]; simpl.
  - intros key Hkey. unfold cachedReferences. rewrite Hcache.
    apply (Hclosed key Hkey).
  - intros key parsed ref. rewrite Hcache. apply Hc.
  - intros name parsed ref. rewrite Hhost. apply Hh.
Qed.

Lemma visit_counts fuel name (v v' : @VisitState H) :
  visit env fuel name false v = Some v' ->
  countable env v ->
  countable env v'
  ∧ cycleReports (visitState v')
    + backReferenceCount env (visitState v) (visitOrder v)
    = cycleReports (visitState v)
      + backReferenceCount env (visitState v') (visitOrder v')
      + metAgain v (keyOf name).
Proof.
  revert name v v'. induction fuel as [|fuel IH]; intros name v v'; [done|].
  intros Hvisit Hcountable.
  pose proof (visit_covers env _ _ _ _ _ Hvisit) as [Hcovers _].
  revert Hvisit. simpl. unfold metAgain.
  case_decide as Hperm.
  { intros [= <-]. split; [done|]. rewrite bool_decide_eq_false_2; [lia|].
    by intros [_ ?]. }
  case_decide as Htemp.
  { intros [= <-]. simpl. rewrite bool_decide_eq_true_2 by done.
    split; [by apply countable_trace|].
    rewrite cycleReports_report. unfold backReferenceCount, backReferences,
      cachedReferences. simpl. lia. }
  rewrite bool_decide_eq_false_2 by (by intros [? _]).
  pose proof (cachedReferences_parse env (visitState v) name (keyOf name)) as Hrefs.
  pose proof (cacheGrows_parse env (visitState v) name (keyOf name)) as Hgrow1.
  pose proof (cycleReports_parse env (visitState v) name (keyOf name)) as Hreports1.
  pose proof (noCircular_parse env (visitState v) name (keyOf name)
                (proj2 Hcountable)) as Hno1.
  destruct (parseConfigFile_cached env (visitState v) name (keyOf name))
    as (entry & Hentry & _).
  destruct (parseConfigFile env (visitState v) name (keyOf name))
    as [st1 parsed].
  simpl in *.
  set (v1 := mkVisit st1 ({[keyOf name]} ∪ temporaryMarks v) (permanentMarks v)
               (circularityReportStack v ++ [name]) (visitOrder v)) in *.
  assert (countable env v1) as Hcountable1.
  { split; [|done]. destruct Hcountable as [[Hp Hclosed] _].
    split; [done|]. intros key Hkey. simpl.
    destruct (Hclosed key Hkey) as [Hcached Hr]. split.
    - destruct Hcached as [e He]. exists e. by apply Hgrow1.
    - intros ref Href.
      rewrite (cachedReferences_grows (visitState v)) in Href; [|done|done].
      specialize (Hr ref Href). set_solver. }
  (* the loop over the references *)
  assert (∀ refs s s',
            forEachM
              (fun ref =>
                 visit env fuel (resolveProjectName env (path ref))
                   (false || circular ref)) refs s = Some s' ->
            (∀ ref, ref ∈ refs -> circular ref = false) ->
            countable env s ->
            countable env s'
            ∧ covers env s s' ∧ keepsDistinct env s s'
            ∧ cycleReports (visitState s')
              + backReferenceCount env (visitState s) (visitOrder s)
              = cycleReports (visitState s)
                + backReferenceCount env (visitState s') (visitOrder s')
                + length
                    (List.filter
                       (fun ref =>
                          negb (bool_decide
                                  (referenceKey env ref
                                   ∈ keyOf <$> visitOrder s'))) refs))
    as Hloop.
  { induction refs as [|r refs IHrefs]; intros s s' Hl Hcirc Hs.
    - simpl in Hl. simplify_eq. split; [done|].
      split; [reflexivity|]. split; [reflexivity|]. simpl. lia.
    - simpl in Hl.
      rewrite (Hcirc r) in Hl by (by left). simpl in Hl.
      destruct (visit env fuel (resolveProjectName env (path r)) false s)
        as [s1|] eqn:Er; [|done].
      destruct (IH _ _ _ Er Hs) as [Hs1 Heq1].
      pose proof (visit_covers env _ _ _ _ _ Er) as [Hc1 Hmark].
      pose proof (visit_distinct env _ _ _ _ _ Er) as Hd1.
      destruct (IHrefs s1 s' Hl) as (Hs' & Hc2 & Hd2 & Heq2);
        [intros ref Href; apply Hcirc; by right | done |].
      split; [done|]. split; [by etrans|]. split; [by etrans|].
      assert (metAgain s (referenceKey env r)
              = if negb (bool_decide (referenceKey env r
                                      ∈ keyOf <$> visitOrder s'))
                then 1 else 0) as Hmet.
      { destruct Hs as [[Hps _] _]. destruct Hs' as [[Hps' _] _].
        destruct Hc2 as (Hp2 & _). destruct Hc1 as (Hp1 & _).
        assert (keepsDistinct env s s') as (_ & Hkeep & _) by (by etrans).
        unfold metAgain. case_bool_decide as Hmet.
        - destruct Hmet as [Ht Hp].
          rewrite bool_decide_eq_false_2; [done|].
          rewrite <- Hps'. by apply Hkeep.
        - rewrite bool_decide_eq_true_2; [done|].
          rewrite <- Hps'. apply Hp2.
          change (keyOf (resolveProjectName env (path r)))
            with (referenceKey env r) in Hmark.
          apply elem_of_union in Hmark as [?|Ht]; [done|].
          apply Hp1. destruct (decide (referenceKey env r ∈ permanentMarks s));
            [done|]. by destruct Hmet. }
      change (keyOf (resolveProjectName env (path r)))
        with (referenceKey env r) in Heq1.
      rewrite Hmet in Heq1. simpl.
      destruct (negb (bool_decide (referenceKey env r
                                   ∈ keyOf <$> visitOrder s'))); simpl; lia. }
  match goal with
  | |- match ?body with _ => _ end = _ -> _ =>
    destruct body as [v2|] eqn:Eloop; [|done]
  end.
  intros [= <-]. simpl.
  assert (forEachM
            (fun ref =>
               visit env fuel (resolveProjectName env (path ref))
                 (false || circular ref))
            (cachedReferences st1 (keyOf name)) v1 = Some v2) as Eloop'.
  { rewrite Hrefs. destruct parsed as [p|]; [|done].
    by destruct (projectReferences p). }
  destruct (Hloop _ _ _ Eloop') as (Hcountable2 & Hc2 & _ & Heq2);
    [intros ref; by apply (noCircular_cached env) | done |].
  destruct Hc2 as (_ & _ & _ & Hgrow2 & _). simpl in *.
  split.
  - split; [|apply Hcountable2]. simpl.
    destruct Hcovers as (_ & Ht & _ & _ & Hcl). simpl in *.
    apply (closedUnder_weaken env (temporaryMarks v)); [set_solver|].
    apply Hcl, Hcountable.
  - rewrite backReferenceCount_snoc.
    rewrite (backReferenceCount_grows (visitState v) st1) in Heq2;
      [|done|intros n Hn; by apply countable_cached].
    unfold backReferences at 1, standsInFront.
    rewrite take_app_length.
    rewrite (cachedReferences_grows st1 (visitState v2));
      [|done|by eexists].
    rewrite Hreports1 in Heq2. lia.
Qed.

Lemma createBuildOrder_counts fuel (st : State) roots st' order :
  createBuildOrder env fuel st roots = Some (st', order) ->
  noCircular env st ->
  cycleReports st' = cycleReports st + backReferenceCount env st' order.
Proof.
  unfold createBuildOrder.
  destruct (forEachM _ _ _) as [v|] eqn:Ev; [|done]. intros [= <- <-] Hno.
  assert (∀ roots s s',
            forEachM (fun root => visit env fuel root false) roots s = Some s' ->
            countable env s -> temporaryMarks s ⊆ permanentMarks s ->
            temporaryMarks s' ⊆ permanentMarks s'
            ∧ cycleReports (visitState s')
              + backReferenceCount env (visitState s) (visitOrder s)
              = cycleReports (visitState s)
                + backReferenceCount env (visitState s') (visitOrder s'))
    as Hloop.
  { clear. induction roots as [|root roots IH]; intros s s' Hl Hs Hmarks.
    - simpl in Hl. by simplify_eq.
    - simpl in Hl.
      destruct (visit env fuel root false s) as [s1|] eqn:Er; [|done].
      destruct (visit_counts _ _ _ _ Er Hs) as [Hs1 Heq1].
      pose proof (visit_covers env _ _ _ _ _ Er) as [(Hp & _ & Hn & _) _].
      destruct (IH s1 s' Hl Hs1) as [Hmarks' Heq2]; [set_solver|].
      split; [done|].
      unfold metAgain in Heq1. rewrite bool_decide_eq_false_2 in Heq1; [lia|].
      intros [? ?]. set_solver. }
  destruct (Hloop _ _ _ Ev) as [_ Heq]; [|done|].
  - split; [|done]. split; simpl.
    + intros key. by rewrite elem_of_nil, elem_of_empty.
    + by intros key ?%elem_of_empty.
  - simpl in Heq. unfold backReferenceCount at 1 in Heq. simpl in Heq. lia.
Qed.

(** C6 (as amended). The traversal terminates on every project graph:
    with fuel above the number of projects of the host, [createBuildOrder]
    returns an order, cyclic or not.  When no reference is flagged
    [circular], the number of cycle diagnostics that it reports is the
    number of references, over the projects of the returned order, that
    lead back: those whose target does not stand in front of the
    referencing project in the order.  So at least one diagnostic is
    reported when a project of the order lies on a reference cycle, and
    there are as many as there are such references. *)
Theorem cycles_are_reported_and_visit_terminates
    (U : gset string) (fuel : nat) (st : State) (roots : list string) :
  configsWithin env U st ->
  size U < fuel ->
  ∃ st' order,
    createBuildOrder env fuel st roots = Some (st', order)
    ∧ cycleReports st ≤ cycleReports st'
    ∧ (noCircular env st ->
       (∃ name, name ∈ order
                ∧ tc (references env st') (keyOf name) (keyOf name)) ->
       cycleReports st < cycleReports st')
    ∧ (noCircular env st ->
       cycleReports st' = cycleReports st + backReferenceCount env st' order)
    ∧ (∀ i name ref,
         ref ∈ backReferences env st' order i name
         ↔ ref ∈ cachedReferences st' (keyOf name)
           ∧ ¬ builtBefore env order i (referenceKey env ref)).
Proof.
  intros Hwithin Hfuel.
  destruct (createBuildOrder_total env U fuel st roots Hwithin Hfuel)
    as (st' & order & Hcreate & _).
  exists st', order. split; [done|].
  pose proof (createBuildOrder_counts _ _ _ _ _ Hcreate) as Hcount.
  apply (createBuildOrder_invariant env) in Hcreate as (v & <- & <- & Hinv).
  split; [apply (inv_reports _ _ _ Hinv)|].
  split; [|split; [done | intros i name ref; apply backReferences_spec]].
  intros Hno (name & Hin & Hcycle).
  destruct (decide (cycleReports st < cycleReports (visitState v)))
    as [|Hnone]; [done|].
  exfalso. apply list_elem_of_lookup in Hin as [i Hi].
  eapply (unreported_acyclic env st v Hinv Hno); [lia | exact Hi | exact Hcycle].
Qed.
End CycleFacts.

(** ** A solution whose files are up to date *)
Section UpToDateFacts.
Context {H : Type} (env : Env H).
Abbreviation State := (SolutionBuilderState H).
Abbreviation keyOf := (toResolvedConfigFilePath env).

(** *** The loops of the evaluator on files that are up to date *)

Lemma newestInput_exists h inputs name time :
  (∀ input, input ∈ inputs -> fileExists env h input = true) ->
  ∃ name' time',
    newestInput env h inputs name time = inr (name', time')
    ∧ (time' = time ∨ ∃ input, input ∈ inputs ∧ time' = modifiedTimeOf env h input).
Proof.
  revert name time. induction inputs as [|input inputs IH]; intros name time Hall;
    simpl.
  - eexists _, _. split; [done | by left].
  - rewrite Hall by (by left). simpl.
    assert (∀ i, i ∈ inputs -> fileExists env h i = true) as Hrest
      by (intros i Hi; apply Hall; by right).
    case_match.
    + destruct (IH (Some input) (modifiedTimeOf env h input) Hrest)
        as (n & t & -> & [->|(i & Hi & ->)]);
        eexists _, _; (split; [done|]); right; eexists; split; try done;
        [by left | by right].
    + destruct (IH name time Hrest) as (n & t & -> & [->|(i & Hi & ->)]);
        eexists _, _; (split; [done|]); [by left|].
      right. eexists. split; [by right | done].
Qed.

(** The newest input of a project whose files are up to date. *)
Lemma newestInputTimeOf_upToDate h p :
  filesUpToDate env h p ->
  ∃ name,
    newestInput env h (fileNames p) None minimumDate
    = inr (name, newestInputTimeOf env h p)
    ∧ (newestInputTimeOf env h p = minimumDate
       ∨ ∃ input, input ∈ fileNames p
                  ∧ newestInputTimeOf env h p = modifiedTimeOf env h input).
Proof.
  intros Hfiles. unfold newestInputTimeOf.
  destruct (newestInput_exists h (fileNames p) None minimumDate)
    as (name & time & -> & Hattained).
  - intros input Hin. by apply (upToDate_inputs _ _ _ Hfiles).
  - by exists name.
Qed.

(** A scan of outputs that exist and are not older than [time] goes
    through all of them; the oldest time it finds is the one it started
    with or the time of an output. *)
Lemma scanOutputs_upToDate h time outputs s :
  (∀ output, output ∈ outputs ->
     fileExists env h output = true
     ∧ (time <= modifiedTimeOf env h output)%Z) ->
  let s' := scanOutputs env h time outputs s in
  scanMissingOutputFileName s' = scanMissingOutputFileName s
  ∧ scanIsOutOfDateWithInputs s' = scanIsOutOfDateWithInputs s
  ∧ (scanOldestOutputFileTime s' = scanOldestOutputFileTime s
     ∨ ∃ output, output ∈ outputs
                 ∧ scanOldestOutputFileTime s' = modifiedTimeOf env h output).
Proof.
  simpl. revert s. induction outputs as [|output outputs IH]; intros s Hall;
    simpl.
  - split; [done|]. split; [done | by left].
  - destruct (Hall output) as [Hexists Htime]; [by left|].
    rewrite Hexists. simpl.
    assert (∀ o, o ∈ outputs ->
              fileExists env h o = true ∧ (time <= modifiedTimeOf env h o)%Z)
      as Hrest by (intros o Ho; apply Hall; by right).
    destruct (modifiedTimeOf env h output <? scanOldestOutputFileTime s)%Z;
      (destruct (modifiedTimeOf env h output <? time)%Z eqn:Eold; [lia|]);
      destruct (modifiedTimeOf env h output >? scanNewestOutputFileTime s)%Z;
      match goal with
      | |- context [scanOutputs env h time outputs ?s1] =>
        destruct (IH s1 Hrest) as (Hm & Ho & [Ht|(o & Hin & Ht)])
      end; simpl in *;
      (split; [done|]); (split; [done|]); rewrite Ht;
      first [ by left
            | right; exists output; split; [by left | done]
            | right; exists o; split; [by right | done] ].
Qed.

Lemma forEachFirst_none {A B} (f : A -> option B) l :
  (∀ x, x ∈ l -> f x = None) -> forEachFirst f l = None.
Proof.
  induction l as [|x l IH]; intros Hall; simpl; [done|].
  rewrite Hall by (by left). apply IH. intros y Hy. apply Hall. by right.
Qed.

(** *** The evaluator on a solution that is up to date *)

Lemma evaluatedOnDisk_same h (st st' : State) :
  sameEvaluation st st' -> evaluatedOnDisk env h st -> evaluatedOnDisk env h st'.
Proof.
  intros (Hh & Hc & Hs) [Hhost Hcache Hstatus].
  split; rewrite ?Hh, ?Hc, ?Hs; done.
Qed.

#[local] Instance sameEvaluation_preorder : PreOrder (@sameEvaluation H).
Proof.
  split.
  - by intros st.
  - intros st1 st2 st3 (Hh1 & Hc1 & Hs1) (Hh2 & Hc2 & Hs2).
    split; [congruence|]. split; congruence.
Qed.

(** A parse on the host [h]: the configuration is the one of the host. *)
Lemma parseConfigFile_onDisk h (st : State) name :
  (∀ n n', toPath env n = toPath env n' ->
     getParsedCommandLineOfConfigFile env h n
     = getParsedCommandLineOfConfigFile env h n') ->
  evaluatedOnDisk env h st ->
  let result := parseConfigFile env st name (keyOf name) in
  evaluatedOnDisk env h result.1
  ∧ configFileCache result.1 !! keyOf name
    = Some (getParsedCommandLineOfConfigFile env h name)
  ∧ result.2 = isParsedCommandLine (getParsedCommandLineOfConfigFile env h name).
Proof.
  intros Hkeyed [Hhost Hcache Hstatus]. simpl. unfold parseConfigFile.
  destruct (configFileCache st !! keyOf name) as [entry|] eqn:E; simpl.
  - destruct (Hcache _ _ E) as (n & Hn & <-).
    rewrite (Hkeyed name n) by done. by split.
  - rewrite lookup_insert_eq, Hhost. split; [|done].
    split; simpl; [done| |].
    + intros key entry Hkey. destruct (decide (keyOf name = key)) as [<-|Hne].
      * rewrite lookup_insert_eq in Hkey. simplify_eq. by exists name.
      * rewrite lookup_insert_ne in Hkey by done. eauto.
    + intros key status Hkey. destruct (Hstatus key status Hkey)
        as [?|(p & Hp & Has)]; [by left|].
      right. exists p. split; [|done].
      rewrite lookup_insert_ne; [done|]. intros <-. congruence.
Qed.

Lemma minimumDate_le_maximumDate : (minimumDate <= maximumDate)%Z.
Proof. unfold minimumDate, maximumDate. lia. Qed.

(** The newest input of a referenced project is not after the oldest
    output that a scan of the referencing project finds. *)
Lemma upstream_notAfter h p q (scan : OutputScan) :
  filesUpToDate env h p ->
  filesUpToDate env h q ->
  (∀ input output,
     input ∈ fileNames q -> output ∈ getAllProjectOutputs env p ->
     (modifiedTimeOf env h input <= modifiedTimeOf env h output)%Z) ->
  (scanOldestOutputFileTime scan = maximumDate
   ∨ ∃ output, output ∈ getAllProjectOutputs env p
               ∧ scanOldestOutputFileTime scan = modifiedTimeOf env h output) ->
  notAfter (Some (newestInputTimeOf env h q)) (scanOldestOutputFileTime scan)
  = true.
Proof.
  intros Hp Hq Hnewer Holdest. simpl. apply Z.leb_le.
  pose proof minimumDate_le_maximumDate.
  destruct (newestInputTimeOf_upToDate h q Hq) as (_ & _ & [->|(i & Hi & ->)]);
    destruct Holdest as [->|(o & Ho & ->)].
  - done.
  - destruct (upToDate_outputs _ _ _ Hp o Ho) as [_ [? ?]]. done.
  - destruct (upToDate_inputs _ _ _ Hq i Hi) as [_ [? ?]]. done.
  - by apply Hnewer.
Qed.

Section Evaluation.
Context (h : H) (Hsolution : solutionUpToDate env h).

(** The loop over the references of a project that is up to date runs to
    its end and finds nothing to change. *)
Lemma checkUpstream_upToDate
    (rec : State -> option ParsedCommandLine -> string ->
           option (State * UpToDateStatus))
    p scan refs (st : State) up st' r :
  (∀ s q key s' status,
     evaluatedOnDisk env h s ->
     configFileCache s !! key = Some (inl q) ->
     rec s (Some q) key = Some (s', status) ->
     evaluatedOnDisk env h s' ∧ cacheGrows s s'
     ∧ (status = ComputingUpstream ∨ evaluatedAs env h q status)) ->
  filesUpToDate env h p ->
  (∀ ref, ref ∈ refs ->
     ∃ q,
       getParsedCommandLineOfConfigFile env h (resolveProjectReferencePath env ref)
       = inl q
       ∧ isContainer env q = false
       ∧ ∀ input output,
           input ∈ fileNames q -> output ∈ getAllProjectOutputs env p ->
           (modifiedTimeOf env h input <= modifiedTimeOf env h output)%Z) ->
  scanMissingOutputFileName scan = None ->
  (scanOldestOutputFileTime scan = maximumDate
   ∨ ∃ output, output ∈ getAllProjectOutputs env p
               ∧ scanOldestOutputFileTime scan = modifiedTimeOf env h output) ->
  pseudoUpToDate up = false ->
  evaluatedOnDisk env h st ->
  checkUpstream env rec scan refs st up = Some (st', r) ->
  evaluatedOnDisk env h st' ∧ cacheGrows st st'
  ∧ ∃ up', r = inr up' ∧ pseudoUpToDate up' = false.
Proof.
  intros Hrec Hp Hrefs Hmissing Holdest. revert st up.
  induction refs as [|ref refs IH]; intros st up Hpseudo Hst; simpl.
  - intros [= <- <-]. split; [done|]. split; [done|]. by exists up.
  - destruct (Hrefs ref) as (q & Hq & Hcontainer & Hnewer); [by left|].
    destruct Hsolution as [Hkeyed Hall].
    destruct (parseConfigFile_onDisk h st (resolveProjectReferencePath env ref)
                Hkeyed Hst) as (Hst1 & Hcached & Hparsed).
    pose proof (cacheGrows_parse env st (resolveProjectReferencePath env ref)
                  (keyOf (resolveProjectReferencePath env ref))) as Hgrow1.
    destruct (parseConfigFile env st (resolveProjectReferencePath env ref) _)
      as [st1 parsed].
    simpl in *. rewrite Hq in Hcached, Hparsed. simpl in Hparsed. subst parsed.
    destruct (rec st1 (Some q) _) as [[st2 refStatus]|] eqn:Erec; [|done].
    destruct (Hrec _ _ _ _ _ Hst1 Hcached Erec) as (Hst2 & Hgrow2 & Hstatus).
    assert (∀ up1, pseudoUpToDate up1 = false ->
              checkUpstream env rec scan refs st2 up1 = Some (st', r) ->
              evaluatedOnDisk env h st' ∧ cacheGrows st st'
              ∧ ∃ up', r = inr up' ∧ pseudoUpToDate up' = false) as Hcont.
    { intros up1 Hup1 Hc.
      destruct (IH (fun r Hr => Hrefs r (list_elem_of_further _ _ _ Hr))
                  st2 up1 Hup1 Hst2 Hc) as (Hst' & Hgrow' & Hr).
      split; [done|]. split; [|done].
      etrans; [exact Hgrow1|]. by etrans. }
    destruct Hstatus as [->|Hstatus]; [by apply Hcont|].
    unfold evaluatedAs in Hstatus. rewrite Hcontainer in Hstatus.
    destruct Hstatus as (info & -> & Hinfo).
    unfold noMissingOutput. rewrite Hmissing, Hinfo.
    destruct (Hall _ _ Hq) as [Hc|[Hfilesq _]]; [congruence|].
    rewrite (upstream_notAfter h p q scan Hp Hfilesq Hnewer Holdest).
    by apply Hcont.
Qed.

(** What the worker does once the references are looked at. *)
Lemma statusAfterUpstream_upToDate (st : State) p key name scan up :
  hostState st = h ->
  filesUpToDate env h p ->
  scanMissingOutputFileName scan = None ->
  scanIsOutOfDateWithInputs scan = false ->
  (scanOldestOutputFileTime scan = maximumDate
   ∨ ∃ output, output ∈ getAllProjectOutputs env p
               ∧ scanOldestOutputFileTime scan = modifiedTimeOf env h output) ->
  pseudoUpToDate up = false ->
  let result :=
    statusAfterUpstream env st p key name (newestInputTimeOf env h p) scan up in
  sameEvaluation st result.1
  ∧ ∃ info, result.2 = UpToDate info
            ∧ newestInputFileTime info = Some (newestInputTimeOf env h p).
Proof.
  intros Hhost Hp Hmissing Hold Holdest Hpseudo. simpl.
  unfold statusAfterUpstream. rewrite Hmissing, Hold, Hhost.
  assert (∀ configFile,
            configFile
            ∈ configFilePath (options p) :: extendedSourceFiles (options p) ->
            checkConfigFileUpToDateStatus env h configFile
              (scanOldestOutputFileTime scan) (scanOldestOutputFileName scan)
            = None) as Hconfig.
  { intros configFile Hin. unfold checkConfigFileUpToDateStatus.
    destruct (upToDate_config _ _ _ Hp configFile Hin) as [Hmax Houtputs].
    destruct (Z.ltb_spec (scanOldestOutputFileTime scan)
                (modifiedTimeOf env h configFile)) as [Hlt|]; [|done].
    destruct Holdest as [Ht|(o & Ho & Ht)]; rewrite Ht in Hlt.
    - lia.
    - specialize (Houtputs o Ho). lia. }
  rewrite Hconfig by (by left).
  rewrite forEachFirst_none
    by (intros configFile Hin; apply Hconfig; by right).
  assert (∀ versionStatus : option UpToDateStatus,
            versionStatus = None ->
            let result :=
              match versionStatus with
              | Some status =>
                (set_buildInfoChecked (fun s => {[key]} ∪ s) st, status)
              | None =>
                if usesPrepend up && pseudoUpToDate up
                then (set_buildInfoChecked (fun s => {[key]} ∪ s) st,
                      OutOfDateWithPrepend (scanOldestOutputFileName scan)
                        (default EmptyString (upstreamChangedProject up)))
                else
                  (set_buildInfoChecked (fun s => {[key]} ∪ s) st,
                   if pseudoUpToDate up
                   then UpToDateWithUpstreamTypes
                          (mkUpToDateInfo (Some (newestInputTimeOf env h p)) name
                             (Some (scanNewestDeclarationFileContentChangedTime scan))
                             (Some (scanNewestOutputFileTime scan))
                             (Some (scanNewestOutputFileName scan))
                             (scanOldestOutputFileName scan))
                   else UpToDate
                          (mkUpToDateInfo (Some (newestInputTimeOf env h p)) name
                             (Some (scanNewestDeclarationFileContentChangedTime scan))
                             (Some (scanNewestOutputFileTime scan))
                             (Some (scanNewestOutputFileName scan))
                             (scanOldestOutputFileName scan)))
              end in
            sameEvaluation st result.1
            ∧ ∃ info, result.2 = UpToDate info
                      ∧ newestInputFileTime info
                        = Some (newestInputTimeOf env h p)) as Hrest.
  { intros versionStatus ->. simpl. rewrite Hpseudo, andb_false_r. simpl.
    split; [done | by eexists]. }
  apply Hrest. case_decide; [done|].
  destruct (getOutputPathForBuildInfo env (options p)) as [path|] eqn:Epath;
    [|done].
  destruct (readFile env h path) as [value|] eqn:Eread; [|done].
  destruct (truthy value) eqn:Etruthy; [|done]. simpl.
  by rewrite (upToDate_buildInfo _ _ _ Hp path value Epath Eread Etruthy),
       bool_decide_eq_true_2.
Qed.

(** The evaluator on a solution that is up to date on the host: a project
    is [ContainerOnly] or [UpToDate], with the time of its newest input. *)
Lemma getUpToDateStatus_upToDate fuel (st : State) p key st' status :
  evaluatedOnDisk env h st ->
  configFileCache st !! key = Some (inl p) ->
  getUpToDateStatus env fuel st (Some p) key = Some (st', status) ->
  evaluatedOnDisk env h st' ∧ cacheGrows st st'
  ∧ (status = ComputingUpstream ∨ evaluatedAs env h p status).
Proof.
  revert st p key st' status.
  induction fuel as [|fuel IH]; intros st p key st' status Hst Hcached.
  - simpl. destruct (projectStatus st !! key) as [prior|] eqn:Eprior; [|done].
    intros [= <- <-]. split; [done|]. split; [done|].
    destruct (onDisk_status _ _ _ Hst key prior Eprior) as [?|(p' & Hp' & Has)];
      [by left|].
    right. congruence.
  - simpl. destruct (projectStatus st !! key) as [prior|] eqn:Eprior.
    { intros [= <- <-]. split; [done|]. split; [done|].
      destruct (onDisk_status _ _ _ Hst key prior Eprior) as [?|(p' & Hp' & Has)];
        [by left|].
      right. congruence. }
    destruct (getUpToDateStatusWorker _ _ _ _ _) as [[st1 actual]|] eqn:Ew;
      [|done].
    intros [= <- <-].
    assert (evaluatedOnDisk env h st1 ∧ cacheGrows st st1
            ∧ evaluatedAs env h p actual) as (Hst1 & Hgrow & Hactual).
    2:{ split; [|split; [done | by right]].
        destruct Hst1 as [Hhost1 Hcache1 Hstatus1]. split; simpl; [done|done|].
        intros k s Hk. destruct (decide (key = k)) as [<-|Hne].
        - rewrite lookup_insert_eq in Hk. simplify_eq. right. exists p.
          split; [by apply Hgrow | done].
        - rewrite lookup_insert_ne in Hk by done. by apply Hstatus1. }
    destruct (onDisk_cache _ _ _ Hst key _ Hcached) as (name & Hname & Hparse).
    destruct Hsolution as [Hkeyed Hall].
    pose proof (onDisk_host _ _ _ Hst) as Hhost.
    revert Ew. unfold getUpToDateStatusWorker, evaluatedAs.
    destruct (Hall _ _ Hparse) as [Hcontainer|[Hfiles Hrefs]].
    { (* a container *)
      rewrite Hcontainer. unfold isContainer in Hcontainer.
      apply andb_true_iff in Hcontainer as [Hnone Hraw].
      apply bool_decide_eq_true in Hnone. rewrite Hnone. simpl.
      rewrite Hraw. simpl. by intros [= <- <-]. }
    destruct (newestInputTimeOf_upToDate h p Hfiles)
      as (newestName & Hnewest & Hattained).
    rewrite Hhost, Hnewest.
    destruct (isContainer env p) eqn:Econtainer.
    { unfold isContainer in Econtainer. rewrite Econtainer.
      by intros [= <- <-]. }
    unfold isContainer in Econtainer. rewrite Econtainer.
    set (scan := scanOutputs env h (newestInputTimeOf env h p)
                   (getAllProjectOutputs env p) initialOutputScan).
    destruct (scanOutputs_upToDate h (newestInputTimeOf env h p)
                (getAllProjectOutputs env p) initialOutputScan)
      as (Hmissing & Hold & Holdest).
    { intros output Hout.
      destruct (upToDate_outputs _ _ _ Hfiles output Hout) as [Hexists [Hmin _]].
      split; [done|].
      destruct Hattained as [->|(input & Hin & ->)]; [done|].
      by apply (upToDate_newer _ _ _ Hfiles). }
    fold scan in Hmissing, Hold, Holdest. simpl in Hmissing, Hold, Holdest.
    destruct (projectReferences p) as [refs|] eqn:Erefs.
    + destruct (checkUpstream _ _ _ _ _ _) as [[st2 r]|] eqn:Ec; [|done].
      apply (checkUpstream_upToDate _ p) in Ec
        as (Hst2 & Hgrow2 & up' & -> & Hpseudo); try done.
      * destruct (statusAfterUpstream_upToDate st2 p key newestName scan up'
                    (onDisk_host _ _ _ Hst2) Hfiles Hmissing Hold Holdest Hpseudo)
          as [Hsame Hinfo].
        destruct (statusAfterUpstream env st2 p key newestName _ scan up')
          as [st3 status3].
        simpl in *. intros [= <- <-].
        split; [by eapply evaluatedOnDisk_same|].
        split; [|done].
        destruct Hsame as (_ & Hc & _). intros k e Hk. rewrite Hc.
        apply Hgrow2. simpl. done.
      * intros ref Href. apply Hrefs. by rewrite Erefs.
      * destruct Hst as [Hh Hc Hs]. split; simpl; [done|done|].
        intros k s Hk. destruct (decide (key = k)) as [<-|Hne].
        -- rewrite lookup_insert_eq in Hk. simplify_eq. by left.
        -- rewrite lookup_insert_ne in Hk by done. by apply Hs.
    + destruct (statusAfterUpstream_upToDate st p key newestName scan
                  (mkUpstreamScan false false None) Hhost Hfiles Hmissing Hold
                  Holdest eq_refl) as [Hsame Hinfo].
      destruct (statusAfterUpstream env st p key newestName _ scan _)
        as [st3 status3].
      simpl in *. intros [= <- <-].
      split; [by eapply evaluatedOnDisk_same|]. split; [|done].
      destruct Hsame as (_ & Hc & _). intros k e Hk. by rewrite Hc.
Qed.
End Evaluation.
End UpToDateFacts.

(** ** The dispatcher on a solution that is up to date *)
Section UpToDateDispatch.
Context {H : Type} (env : Env H).
Abbreviation State := (SolutionBuilderState H).
Abbreviation keyOf := (toResolvedConfigFilePath env).
#[local] Existing Instance sameEvaluation_preorder.

Lemma sameEvaluation_reportAndStoreErrors (st : State) proj errs :
  sameEvaluation st (reportAndStoreErrors st proj errs).
Proof. unfold reportAndStoreErrors. by destruct errs. Qed.

Lemma sameEvaluation_reportParseConfigFileDiagnostic (st : State) proj :
  sameEvaluation st (reportParseConfigFileDiagnostic st proj).
Proof.
  unfold reportParseConfigFileDiagnostic.
  repeat case_match; try done; apply sameEvaluation_reportAndStoreErrors.
Qed.

Lemma sameEvaluation_verboseReportProjectStatus (st : State) name status :
  sameEvaluation st (verboseReportProjectStatus env st name status).
Proof.
  unfold verboseReportProjectStatus, reportUpToDateStatus.
  repeat case_match; done.
Qed.

Lemma queuedAtNone_delete (st st' : State) key :
  projectPendingBuild st' = delete key (projectPendingBuild st) ->
  queuedAtNone st -> queuedAtNone st'.
Proof.
  intros Hq Hnone k level. rewrite Hq. intros [_ Hk]%lookup_delete_Some.
  by eapply Hnone.
Qed.


Section Dispatch.
Context (h : H) (Hsolution : solutionUpToDate env h).
Hypothesis not_forced : force (solutionOptions env) = false.

(** On a solution that is up to date the dispatcher hands out no project:
    it passes over every project of the queue. *)
Lemma nextInvalidatedFrom_upToDate U fuel order rest projectIndex (st : State) :
  evaluatedOnDisk env h st ->
  noComputingUpstream st ->
  configsWithin env U st ->
  size U < fuel ->
  queuedAtNone st ->
  ∃ st',
    nextInvalidatedFrom env fuel order rest projectIndex st = Some (st', None)
    ∧ evaluatedOnDisk env h st'
    ∧ noComputingUpstream st'
    ∧ cacheGrows st st'
    ∧ dom (projectStatus st) ⊆ dom (projectStatus st')
    ∧ ∀ project, project ∈ rest ->
        is_Some (projectPendingBuild st !! keyOf project) ->
        settledProject st' (keyOf project).
Proof.
  intros Hst Hno Hw Hfuel Hnone. revert projectIndex st Hst Hno Hw Hnone.
  induction rest as [|project rest IH]; intros projectIndex st Hst Hno Hw Hnone.
  { exists st. split; [done|]. split; [done|]. split; [done|].
    split; [done|]. split; [done|]. by intros p ?%elem_of_nil. }
  (* what is left once the project is passed over *)
  assert (∀ s,
            evaluatedOnDisk env h s -> noComputingUpstream s ->
            configsWithin env U s ->
            projectPendingBuild s
            = delete (keyOf project) (projectPendingBuild st) ->
            cacheGrows st s ->
            dom (projectStatus st) ⊆ dom (projectStatus s) ->
            settledProject s (keyOf project) ->
            ∃ st',
              nextInvalidatedFrom env fuel order rest (S projectIndex) s
              = Some (st', None)
              ∧ evaluatedOnDisk env h st'
              ∧ noComputingUpstream st'
              ∧ cacheGrows st st'
              ∧ dom (projectStatus st) ⊆ dom (projectStatus st')
              ∧ ∀ p, p ∈ project :: rest ->
                  is_Some (projectPendingBuild st !! keyOf p) ->
                  settledProject st' (keyOf p)) as Hcont.
  { intros s Hs Hnos Hws Hqs Hgrow Hdom Hsettled.
    destruct (IH (S projectIndex) s Hs Hnos Hws)
      as (st' & Hnext & Hst' & Hno' & Hgrow' & Hdom' & Hrest).
    { by eapply queuedAtNone_delete. }
    exists st'. split; [done|]. split; [done|]. split; [done|].
    split; [by etrans|]. split; [by etrans|].
    assert (settledProject st' (keyOf project)) as Hhead.
    { destruct Hsettled as [[d Hd]|Hstatus].
      - left. exists d. by apply Hgrow'.
      - right. apply elem_of_dom. apply Hdom'. by apply elem_of_dom. }
    intros p [->|Hp]%elem_of_cons Hqueued; [done|].
    destruct (decide (keyOf p = keyOf project)) as [->|Hne]; [done|].
    apply Hrest; [done|]. rewrite Hqs. by rewrite lookup_delete_ne. }
  simpl.
  destruct (projectPendingBuild st !! keyOf project) as [level|] eqn:Equeued.
  2:{ destruct (IH (S projectIndex) st Hst Hno Hw Hnone)
        as (st' & Hnext & Hst' & Hno' & Hgrow' & Hdom' & Hrest).
      exists st'. split; [done|]. split; [done|]. split; [done|].
      split; [done|]. split; [done|].
      intros p [->|Hp]%elem_of_cons Hqueued.
      - rewrite Equeued in Hqueued. by destruct Hqueued.
      - by apply Hrest. }
  rewrite (Hnone _ _ Equeued).
  destruct Hsolution as [Hkeyed Hall].
  destruct (parseConfigFile_onDisk env h st project Hkeyed Hst)
    as (Hst1 & Hcached & Hparsed).
  destruct (parseConfigFile_within env U st project Hw) as [Hw1 HU].
  pose proof (parseConfigFile_projectStatus env st project (keyOf project)) as Hs1.
  pose proof (parseConfigFile_pending env st project (keyOf project)) as Hq1.
  pose proof (cacheGrows_parse env st project (keyOf project)) as Hgrow1.
  change (toPath env project) with (keyOf project) in *.
  destruct (parseConfigFile env st project (keyOf project)) as [st1 parsed].
  simpl in *. subst parsed.
  assert (noComputingUpstream st1) as Hno1
    by (intros k; rewrite Hs1; apply Hno).
  destruct (getParsedCommandLineOfConfigFile env h project) as [config|d]
    eqn:Eparse; simpl.
  2:{ (* the configuration does not parse *)
      pose proof (sameEvaluation_reportParseConfigFileDiagnostic st1
                    (keyOf project)) as Hsame.
      apply Hcont.
      - eapply (evaluatedOnDisk_same env); [|exact Hst1]. by destruct Hsame as (?&?&?).
      - intros k. simpl. destruct Hsame as (_ & _ & ->). apply Hno1.
      - destruct Hsame as (Hh & Hc & _). by eapply (configsWithin_frame env).
      - simpl. unfold reportParseConfigFileDiagnostic, reportAndStoreErrors.
        rewrite <- Hq1. by repeat case_match.
      - destruct Hsame as (_ & Hc & _). intros k e Hk. simpl. rewrite Hc.
        by apply Hgrow1.
      - simpl. destruct Hsame as (_ & _ & ->). by rewrite Hs1.
      - left. exists d. simpl. destruct Hsame as (_ & -> & _). done. }
  destruct (getUpToDateStatus_total env U fuel st1 (Some config) (keyOf project) Hw1)
    as (st3 & status & Hstatus & Hw3 & Hdom3).
  { intros _. apply HU. by eexists. }
  { eapply Nat.le_lt_trans; [|exact Hfuel]. apply subseteq_size. set_solver. }
  rewrite Hstatus.
  destruct (getUpToDateStatus_upToDate env h (conj Hkeyed Hall) fuel st1 config
              (keyOf project) st3 status Hst1 Hcached Hstatus)
    as (Hst3 & Hgrow3 & Hevaluated).
  destruct (getUpToDateStatus_computing env _ _ _ _ _ _ Hstatus) as [Hsame3 Hsentinel].
  pose proof (getUpToDateStatus_stored env _ _ _ _ _ _ Hstatus) as Hstored.
  assert (noComputingUpstream st3) as Hno3.
  { intros k Hk. by apply (Hno1 k), Hsame3. }
  destruct Hevaluated as [->|Hevaluated];
    [by destruct (Hno1 (keyOf project)); apply Hsentinel|].
  rewrite not_forced.
  pose proof (sameEvaluation_verboseReportProjectStatus st3 project status)
    as Hsame4.
  set (st4 := verboseReportProjectStatus env st3 project status) in *.
  pose proof (sameEvaluation_reportAndStoreErrors st4 (keyOf project)
                (errors config)) as Hsame5.
  set (st5 := reportAndStoreErrors st4 (keyOf project) (errors config)) in *.
  assert (sameEvaluation st3 st5) as (Hh5 & Hc5 & Hs5) by (by etrans).
  assert (projectPendingBuild st5 = projectPendingBuild st) as Hq5.
  { subst st5 st4. rewrite <- Hq1.
    pose proof (frame_getUpToDateStatus env sameSchedule _ _ _ _ _ _ Hstatus)
      as [_ <-].
    unfold reportAndStoreErrors, verboseReportProjectStatus,
      reportUpToDateStatus.
    repeat case_match; done. }
  assert (∀ s, sameEvaluation st5 s ->
            projectPendingBuild s = projectPendingBuild st5 ->
            ∃ st',
              nextInvalidatedFrom env fuel order rest (S projectIndex)
                (set_projectPendingBuild (delete (keyOf project)) s)
              = Some (st', None)
              ∧ evaluatedOnDisk env h st'
              ∧ noComputingUpstream st'
              ∧ cacheGrows st st'
              ∧ dom (projectStatus st) ⊆ dom (projectStatus st')
              ∧ ∀ p, p ∈ project :: rest ->
                  is_Some (projectPendingBuild st !! keyOf p) ->
                  settledProject st' (keyOf p)) as Hskip.
  { intros s (Hh & Hc & Hs) Hq. apply Hcont; simpl.
    - eapply (evaluatedOnDisk_same env); [|exact Hst3]. split; [simpl; congruence|].
      split; simpl; congruence.
    - intros k. simpl. rewrite Hs, Hs5. apply Hno3.
    - apply (configsWithin_frame env U st3); [| |exact Hw3]; simpl; congruence.
    - by rewrite Hq, Hq5.
    - intros k e Hk. simpl. rewrite Hc, Hc5. by apply Hgrow3, Hgrow1.
    - rewrite Hs, Hs5. rewrite Hs1 in Hdom3. done.
    - right. simpl. rewrite Hs, Hs5, Hstored. by eexists. }
  unfold evaluatedAs in Hevaluated.
  destruct (isContainer env config).
  - subst status. apply (Hskip st5); done.
  - destruct Hevaluated as (info & -> & _).
    destruct (dry (solutionOptions env)).
    + change (reportStatus
                (set_projectPendingBuild (delete (keyOf project)) st5)
                Project_0_is_up_to_date [project])
        with (set_projectPendingBuild (delete (keyOf project))
                (reportStatus st5 Project_0_is_up_to_date [project])).
      apply (Hskip (reportStatus st5 Project_0_is_up_to_date [project])); done.
    + apply (Hskip st5); done.
Qed.
End Dispatch.
End UpToDateDispatch.

(** ** The build of a new builder on a solution that is up to date *)
Section UpToDateBuild.
Context {H : Type} (env : Env H).
Abbreviation State := (SolutionBuilderState H).
Abbreviation keyOf := (toResolvedConfigFilePath env).
#[local] Existing Instance sameEvaluation_preorder.

(** *** The drivers keep what was evaluated *)

(** The graph builder changes the config cache and the trace, and nothing
    else. *)
Lemma visit_frame fuel name ctx (v v' : @VisitState H) :
  visit env fuel name ctx v = Some v' ->
  ∃ c t,
    visitState v'
    = set_configFileCache (fun _ => c) (set_trace (fun _ => t) (visitState v)).
Proof.
  assert (∀ (st : State) c1 t1 c2 t2,
            set_configFileCache (fun _ => c2)
              (set_trace (fun _ => t2)
                 (set_configFileCache (fun _ => c1)
                    (set_trace (fun _ => t1) st)))
            = set_configFileCache (fun _ => c2) (set_trace (fun _ => t2) st))
    as Htwice by done.
  assert (∀ st : State,
            st = set_configFileCache (fun _ => configFileCache st)
                   (set_trace (fun _ => trace st) st)) as Hnone
    by (by intros []).
  revert name ctx v v'. induction fuel as [|fuel IH]; intros name ctx v v';
    [done|].
  simpl. case_decide; [intros [= <-]; eexists _, _; apply Hnone|].
  case_decide.
  { intros [= <-]. destruct ctx; simpl; [eexists _, _; apply Hnone|].
    match goal with
    | |- context [reportStatus ?s ?m ?a] =>
      exists (configFileCache s), (trace (reportStatus s m a))
    end.
    unfold reportStatus. by destruct (visitState v). }
  destruct (parseConfigFile_frame env (visitState v) name (keyOf name)) as [c1 Hc1].
  destruct (parseConfigFile env (visitState v) name (keyOf name))
    as [st1 parsed].
  simpl in Hc1.
  match goal with
  | |- match ?body with _ => _ end = _ -> _ =>
    destruct body as [v2|] eqn:Eloop; [|done]
  end.
  intros [= <-]. simpl.
  assert (∃ c t,
            visitState v2
            = set_configFileCache (fun _ => c)
                (set_trace (fun _ => t) st1)) as (c2 & t2 & ->).
  { assert (∀ refs s s',
              forEachM
                (fun ref =>
                   visit env fuel (resolveProjectName env (path ref))
                     (ctx || circular ref)) refs s = Some s' ->
              ∃ c t,
                visitState s'
                = set_configFileCache (fun _ => c)
                    (set_trace (fun _ => t) (visitState s))) as Hloop.
    { induction refs as [|r refs IHrefs]; intros s s'; simpl.
      - intros [= <-]. eexists _, _. apply Hnone.
      - destruct (visit env fuel _ _ s) as [s1|] eqn:Er; [|done].
        intros Hrest. apply IH in Er as (c & t & Hs1).
        apply IHrefs in Hrest as (c' & t' & ->). rewrite Hs1.
        eexists _, _. apply Htwice. }
    destruct parsed as [p|]; [|simplify_eq; eexists _, _; apply Hnone].
    destruct (projectReferences p) as [refs|];
      [|simplify_eq; eexists _, _; apply Hnone].
    by apply Hloop in Eloop. }
  rewrite Hc1. exists c2, t2. by destruct (visitState v).
Qed.

Lemma createBuildOrder_frame fuel (st : State) roots st' order :
  createBuildOrder env fuel st roots = Some (st', order) ->
  ∃ c t, st' = set_configFileCache (fun _ => c) (set_trace (fun _ => t) st).
Proof.
  unfold createBuildOrder.
  destruct (forEachM _ _ _) as [v|] eqn:Ev; [|done]. intros [= <- <-].
  assert (∀ roots s s',
            forEachM (fun root => visit env fuel root false) roots s = Some s' ->
            ∃ c t,
              visitState s'
              = set_configFileCache (fun _ => c)
                  (set_trace (fun _ => t) (visitState s))) as Hloop.
  { clear. induction roots as [|r roots IH]; intros s s'; simpl.
    - intros [= <-]. exists (configFileCache (visitState s)), (trace (visitState s)).
      by destruct (visitState s).
    - destruct (visit env fuel r false s) as [s1|] eqn:Er; [|done].
      intros Hrest. apply visit_frame in Er as (c & t & Hs1).
      apply IH in Hrest as (c' & t' & ->). rewrite Hs1.
      by eexists _, _. }
  by apply Hloop in Ev.
Qed.

Lemma setupInitialBuild_sameEvaluation fuel (st : State) order st' :
  buildOrder st = Some order ->
  setupInitialBuild env fuel st = Some st' ->
  sameEvaluation st st'.
Proof.
  intros Horder. unfold setupInitialBuild. case_match; [by intros [= <-]|].
  rewrite (getBuildOrder_memoised env) with (order := order)
    by (unfold reportWatchStatus; repeat case_match; done).
  intros [= <-].
  etrans; [|apply (fold_left_preserves sameEvaluation); by intros x s].
  unfold reportBuildQueue, reportWatchStatus, reportStatus.
  repeat case_match; done.
Qed.

Lemma reportErrorSummary_sameEvaluation fuel (st : State) order st' :
  buildOrder st = Some order ->
  reportErrorSummary env fuel st = Some st' ->
  sameEvaluation st st'.
Proof.
  intros Horder. unfold reportErrorSummary. case_match; [by intros [= <-]|].
  rewrite (getBuildOrder_memoised env) with (order := order) by done.
  intros [= <-].
  match goal with
  | |- context [fold_left ?f order ?s0] =>
    assert (sameEvaluation st (fold_left f order s0)) as Hfold
  end.
  { etrans; [|apply (fold_left_preserves sameEvaluation)]; [done|].
    intros x s. by case_match. }
  unfold reportWatchStatus. repeat case_match; done.
Qed.

(** The watchers: the host and the statuses stay, the cache grows. *)
Lemma startWatching_evaluated fuel (st : State) order st' :
  buildOrder st = Some order ->
  startWatching env fuel st = Some st' ->
  hostState st' = hostState st
  ∧ projectStatus st' = projectStatus st
  ∧ cacheGrows st st'.
Proof.
  intros Horder. unfold startWatching. case_match; [by intros [= <-]|].
  rewrite (getBuildOrder_memoised env) with (order := order) by done.
  intros [= <-].
  match goal with
  | |- context [fold_left ?f order ?s0] =>
    assert (∀ l s,
              hostState (fold_left f l s) = hostState s
              ∧ projectStatus (fold_left f l s) = projectStatus s
              ∧ cacheGrows s (fold_left f l s)) as Hfold
  end.
  { induction l as [|x l IH]; intros s; simpl; [done|].
    match goal with
    | |- context [fold_left _ l ?s1] =>
      destruct (IH s1) as (Hh & Hs & Hc);
      assert (hostState s1 = hostState s
              ∧ projectStatus s1 = projectStatus s
              ∧ cacheGrows s s1) as (Hh1 & Hs1 & Hc1)
    end.
    { pose proof (parseConfigFile_hostState env
                     (watchConfigFile env s (keyOf x)) x (keyOf x)) as Hh1.
      pose proof (parseConfigFile_projectStatus env
                     (watchConfigFile env s (keyOf x)) x (keyOf x)) as Hs1.
      pose proof (cacheGrows_parse env
                     (watchConfigFile env s (keyOf x)) x (keyOf x)) as Hc1.
      destruct (parseConfigFile env (watchConfigFile env s (keyOf x)) x
                  (keyOf x)) as [s2 cfg].
      simpl in *.
      assert (hostState (watchConfigFile env s (keyOf x)) = hostState s
              ∧ projectStatus (watchConfigFile env s (keyOf x))
                = projectStatus s
              ∧ configFileCache (watchConfigFile env s (keyOf x))
                = configFileCache s) as (Hh0 & Hs0 & Hc0).
      { unfold watchConfigFile. by destruct (_ || _). }
      unfold cacheGrows in Hc1. rewrite Hc0 in Hc1.
      destruct cfg as [cfg|]; [|by rewrite Hh1, Hs1].
      unfold watchInputFiles, watchWildCardDirectories.
      repeat case_match; simpl; by rewrite Hh1, Hs1. }
    split; [congruence|]. split; [congruence|]. by etrans. }
  apply (Hfold order (set_watchAllProjectsPending false st)).
Qed.

(** *** A new builder on files that are up to date *)
Section NewBuilder.
Context (h : H) (Hsolution : solutionUpToDate env h).
Hypothesis not_forced : force (solutionOptions env) = false.

Lemma build_upToDate U fuel :
  let new := createSolutionBuilderState env h in
  configsWithin env U new -> size U < fuel ->
  ∃ new' order,
    build env (S fuel) new None = Some (new', ExitStatus.Success)
    ∧ sameOutputs new new'
    ∧ buildOrder new' = Some order
    ∧ ∀ project, project ∈ order ->
        (∃ d, configFileCache new' !! keyOf project = Some (inr d))
        ∨ ∃ status,
            projectStatus new' !! keyOf project = Some status
            ∧ passedByDispatcher status.
Proof.
  intros new Hwithin Hfuel.
  unfold build, getBuildOrderFor, getBuildOrder. simpl.
  destruct (createBuildOrder_total env U (S fuel) new
              (resolveProjectName env <$> rootNames env) Hwithin)
    as (st' & order & Ecreate & Hwithin'); [lia|].
  rewrite Ecreate.
  destruct (createBuildOrder_frame _ _ _ _ _ Ecreate) as (c & t & Hst').
  destruct (createBuildOrder_entries env _ _ _ _ _ Ecreate)
    as (Hhost & _ & Hentries).
  pose proof (frame_createBuildOrder env sameOutputs _ _ _ _ _ Ecreate)
    as Hout0.
  set (st0 := set_buildOrder (Some order) st').
  assert (evaluatedOnDisk env h st0) as Hdisk0.
  { split.
    - exact Hhost.
    - intros key entry Hentry.
      destruct (Hentries key entry Hentry) as [Hold|(name & _ & <- & ->)];
        [done|].
      by exists name.
    - intros key status. subst st0. rewrite Hst'. done. }
  assert (buildOrder st0 = Some order) as Horder0 by done.
  assert (allProjectBuildPending st0 = true) as Hpending0
    by (subst st0; by rewrite Hst').
  assert (projectPendingBuild st0 = ∅) as Hqueue0
    by (subst st0; by rewrite Hst').
  assert (projectStatus st0 = ∅) as Hstatus0
    by (subst st0; by rewrite Hst').
  destruct (setupInitialBuild_returns env (S fuel) st0 order Horder0)
    as [st1 Esetup].
  rewrite Esetup.
  pose proof (setupInitialBuild_sameEvaluation _ _ _ _ Horder0 Esetup)
    as (Hh1 & Hc1 & Hs1).
  pose proof (frame_setupInitialBuild env sameOutputs _ _ _ Esetup) as Hout1.
  destruct (setupInitialBuild_first env (S fuel) 0 st0 st1 Hpending0 Esetup)
    as (order1 & Horder1 & Hqueue1 & _).
  assert (order1 = order) as ->.
  { destruct (setupInitialBuild_seeded env _ _ _ _ Horder0 Esetup) as [Ho _].
    congruence. }
  assert (evaluatedOnDisk env h st1) as Hdisk1
    by (by apply (evaluatedOnDisk_same env h st0 st1)).
  assert (noComputingUpstream st1) as Hno1
    by (intros key; by rewrite Hs1, Hstatus0).
  assert (configsWithin env U st1) as Hwithin1.
  { destruct Hwithin' as [Hcache Hparse]. split.
    - intros key parsed. rewrite Hc1. apply Hcache.
    - rewrite Hh1. apply Hparse. }
  assert (queuedAtNone st1) as Hnone1.
  { intros key level. rewrite Hqueue1, Hqueue0. case_bool_decide; [|done].
    by intros [= <-]. }
  assert (∃ st2,
            getNextInvalidatedProject env fuel st1 order = Some (st2, None)
            ∧ evaluatedOnDisk env h st2 ∧ noComputingUpstream st2
            ∧ ∀ project, project ∈ order -> settledProject st2 (keyOf project))
    as (st2 & Enext & Hdisk2 & Hno2 & Hsettled).
  { unfold getNextInvalidatedProject. case_bool_decide as Hsize.
    - exists st1. split; [done|]. split; [done|]. split; [done|].
      intros project Hin. apply map_size_empty_inv in Hsize.
      specialize (Hqueue1 (keyOf project)).
      rewrite Hsize, bool_decide_eq_true_2 in Hqueue1; [done|].
      apply list_elem_of_fmap. by exists project.
    - destruct (nextInvalidatedFrom_upToDate env h Hsolution not_forced U fuel
                  order order 0 st1 Hdisk1 Hno1 Hwithin1 Hfuel Hnone1)
        as (st2 & -> & Hd2 & Hn2 & _ & _ & Hs2).
      exists st2. split; [done|]. split; [done|]. split; [done|].
      intros project Hin. apply Hs2; [done|].
      rewrite Hqueue1, bool_decide_eq_true_2; [by eexists|].
      apply list_elem_of_fmap. by exists project. }
  rewrite Enext.
  pose proof (frame_getNextInvalidatedProject env sameOutputs _ _ _ _ _ Enext)
    as Hout2.
  pose proof (frame_getNextInvalidatedProject env sameControl _ _ _ _ _ Enext)
    as (Horder2 & _).
  assert (buildOrder (disableCache st2) = Some order) as Horder2'
    by (unfold disableCache; case_match; simpl; congruence).
  destruct (reportErrorSummary_returns env (S fuel) _ _ Horder2') as [st3 Esummary].
  rewrite Esummary.
  pose proof (reportErrorSummary_sameEvaluation _ _ _ _ Horder2' Esummary)
    as (Hh3 & Hc3 & Hs3).
  pose proof (frame_reportErrorSummary env sameOutputs _ _ _ Esummary)
    as Hout3.
  destruct (reportErrorSummary_reported env _ _ _ _ Horder2' Esummary)
    as (_ & Horder3 & _).
  rewrite Horder2' in Horder3.
  destruct (startWatching_returns env (S fuel) _ _ Horder3) as [st4 Ewatch].
  rewrite Ewatch.
  destruct (startWatching_evaluated _ _ _ _ Horder3 Ewatch)
    as (Hh4 & Hs4 & Hc4).
  pose proof (frame_startWatching env sameOutputs _ _ _ Ewatch) as Hout4.
  destruct (startWatching_installed env _ _ _ _ Horder3 Ewatch)
    as (_ & Horder4 & _).
  exists st4, order. split; [done|]. split.
  { etrans; [exact Hout0|]. etrans; [|exact Hout4]. etrans; [|exact Hout3].
    trans st2; [|unfold disableCache; by case_match].
    etrans; [|exact Hout2]. etrans; [|exact Hout1].
    by split. }
  split; [congruence|].
  intros project Hin.
  assert (configFileCache (disableCache st2) = configFileCache st2
          ∧ projectStatus (disableCache st2) = projectStatus st2)
    as [Hc2' Hs2'] by (unfold disableCache; by case_match).
  destruct (Hsettled project Hin) as [[d Hd]|[status Hstatus]].
  - left. exists d. apply Hc4. by rewrite Hc3, Hc2'.
  - right. exists status. split; [by rewrite Hs4, Hs3, Hs2'|].
    destruct (onDisk_status _ _ _ Hdisk2 _ _ Hstatus) as [->|(p & _ & Has)];
      [by destruct (Hno2 (keyOf project))|].
    unfold evaluatedAs in Has. unfold passedByDispatcher.
    destruct (isContainer env p); [by right|].
    destruct Has as (info & -> & _). by left.
Qed.
End NewBuilder.
End UpToDateBuild.

(** ** The second build *)
Section SecondBuildFacts.
Context {H : Type} (env : Env H).
Abbreviation State := (SolutionBuilderState H).
Abbreviation keyOf := (toResolvedConfigFilePath env).

End SecondBuildFacts.


(** * The properties on the sample solutions *)

Import Sample SampleStates.

(** The sample host has the configurations of its table and no other. *)
Lemma sampleEnv_configsWithin configs outputsOf opts roots fs :
  configsWithin (sampleEnv configs outputsOf opts roots) (dom configs)
    (initialState fs).
Proof.
  split.
  - intros key parsed Hkey. simpl in Hkey. by rewrite lookup_empty in Hkey.
  - intros name parsed Hparsed. simpl in *.
    destruct (configs !! name) eqn:E; [|done].
    apply elem_of_dom. by rewrite E.
Qed.

Lemma initialState_noComputingUpstream fs : noComputingUpstream (initialState fs).
Proof. intros key. simpl. by rewrite lookup_empty. Qed.

(** No reference of a sample table is flagged [circular]. *)
Lemma sampleEnv_noCircular configs outputsOf opts roots fs :
  map_Forall (fun _ parsed =>
    Forall (fun r => circular r = false) (default [] (projectReferences parsed)))
    configs ->
  noCircular (sampleEnv configs outputsOf opts roots) (initialState fs).
Proof.
  intros Hall. split.
  - intros key parsed r Hkey. simpl in Hkey. by rewrite lookup_empty in Hkey.
  - intros name parsed r Hparsed Hin. simpl in *.
    destruct (configs !! name) as [p|] eqn:E; [|done].
    injection Hparsed as ->. apply Hall in E.
    by eapply Forall_forall in E.
Qed.

(** C4 on the chain: a build of A that ends with syntax errors, and a build
    of the solution file, which is not composite, queue nothing. *)
Lemma queueReferencingProjects_witness :
  (Z.land BuildResultFlags.SyntaxErrors BuildResultFlags.AnyErrors ≠ 0%Z
   ∧ queueReferencingProjects (chainEnv noOptions) (initialState chainFiles)
       "A/tsconfig.json" "A/tsconfig.json" 0
       (configOf chainConfigs "A/tsconfig.json") chainOrder
       BuildResultFlags.SyntaxErrors
     = initialState chainFiles)
  ∧ (composite (options (configOf chainConfigs "sln/tsconfig.json")) = false
     ∧ queueReferencingProjects (chainEnv noOptions) (initialState chainFiles)
         "sln/tsconfig.json" "sln/tsconfig.json" 2
         (configOf chainConfigs "sln/tsconfig.json") chainOrder
         BuildResultFlags.Success
       = initialState chainFiles).
Proof.
  assert (Herr : Z.land BuildResultFlags.SyntaxErrors BuildResultFlags.AnyErrors ≠ 0%Z)
    by (vm_compute; discriminate).
  assert (Hcomp : composite (options (configOf chainConfigs "sln/tsconfig.json")) = false)
    by (vm_compute; reflexivity).
  split; (split; [assumption|]).
  - exact (proj1 (queueReferencingProjects_gated (chainEnv noOptions)
             (initialState chainFiles) "A/tsconfig.json" "A/tsconfig.json" 0
             (configOf chainConfigs "A/tsconfig.json") chainOrder
             BuildResultFlags.SyntaxErrors) Herr).
  - exact (proj2 (queueReferencingProjects_gated (chainEnv noOptions)
             (initialState chainFiles) "sln/tsconfig.json" "sln/tsconfig.json" 2
             (configOf chainConfigs "sln/tsconfig.json") chainOrder
             BuildResultFlags.Success) Hcomp).
Defined.

(** The option of the downstream project is not looked at: after a build of
    B, which is composite, the solution file, which is not, is queued. *)
Example non_composite_downstream_is_queued :
  composite (options (configOf chainConfigs "sln/tsconfig.json")) = false
  ∧ projectPendingBuild
      (queueReferencingProjects (chainEnv noOptions) (initialState chainFiles)
         "B/tsconfig.json" "B/tsconfig.json" 1
         (configOf chainConfigs "B/tsconfig.json") chainOrder
         BuildResultFlags.Success) !! "sln/tsconfig.json"
    = Some ConfigFileProgramReloadLevel.None.
Proof. split; vm_compute; reflexivity. Qed.

(** C9 on the chain: there is no configuration file for "X". *)
Lemma status_of_unparsed_witness :
  (parseConfigFile (chainEnv noOptions) (initialState chainFiles)
     (resolveProjectName (chainEnv noOptions) "X")
     (toResolvedConfigFilePath (chainEnv noOptions)
        (resolveProjectName (chainEnv noOptions) "X"))).2 = None
  ∧ getUpToDateStatusOfProject (chainEnv noOptions) 0 (initialState chainFiles) "X"
    = Some ((parseConfigFile (chainEnv noOptions) (initialState chainFiles)
               (resolveProjectName (chainEnv noOptions) "X")
               (toResolvedConfigFilePath (chainEnv noOptions)
                  (resolveProjectName (chainEnv noOptions) "X"))).1,
            Unbuildable "File deleted mid-build").
Proof.
  assert (Hnone : (parseConfigFile (chainEnv noOptions) (initialState chainFiles)
     (resolveProjectName (chainEnv noOptions) "X")
     (toResolvedConfigFilePath (chainEnv noOptions)
        (resolveProjectName (chainEnv noOptions) "X"))).2 = None)
    by (vm_compute; reflexivity).
  split; [exact Hnone|].
  exact (proj1 (status_of_unparsed_project (chainEnv noOptions) 0
                  (initialState chainFiles) "X" Hnone)).
Defined.

(** C7 on the chain: the evaluation of B, which goes through A, returns a
    status that is not the sentinel and leaves no sentinel behind. *)
Lemma computingUpstream_witness :
  ∃ st' status,
    getUpToDateStatus (chainEnv noOptions) 4 (initialState chainFiles)
      (Some (configOf chainConfigs "B/tsconfig.json")) "B/tsconfig.json"
    = Some (st', status)
    ∧ status ≠ ComputingUpstream
    ∧ noComputingUpstream st'.
Proof.
  apply (computingUpstream_not_observable (chainEnv noOptions) (dom chainConfigs)).
  - apply initialState_noComputingUpstream.
  - apply sampleEnv_configsWithin.
  - intros _. apply elem_of_dom. eexists. vm_compute. reflexivity.
  - vm_compute. lia.
Defined.

(** What C3 said and the code does not do, on the fork whose project A is
    not built: the output of P is missing, its reference B evaluates to
    Unbuildable, and the status of P is UpstreamOutOfDate, because A, the
    reference in front of B, is the first that is not up to date. *)
Lemma upstream_blocked_counterexample :
  fileExists forkEnv forkFilesStale "P/p.js" = false
  ∧ projectReferences (configOf forkConfigs "P/tsconfig.json")
    = Some [ref "A"; ref "B"]
  ∧ (∃ st', getUpToDateStatusOfProject forkEnv 10 (initialState forkFilesStale) "B"
            = Some (st', Unbuildable "B/b.ts does not exist"))
  ∧ (∃ st', getUpToDateStatusOfProject forkEnv 10 (initialState forkFilesStale) "P"
            = Some (st', UpstreamOutOfDate "A")).
Proof.
  split; [vm_compute; reflexivity|]. split; [vm_compute; reflexivity|].
  split; eexists; vm_compute; reflexivity.
Qed.

(** C8 on the chain with the option [dry]: the build returns, and it
    writes nothing. *)
Lemma dry_run_witness :
  dry (solutionOptions (chainEnv dryOptions)) = true
  ∧ ∃ st' exit,
      build (chainEnv dryOptions) 10 (initialState chainFiles) None
      = Some (st', exit)
      ∧ sameOutputs (initialState chainFiles) st'.
Proof.
  assert (Hdry : dry (solutionOptions (chainEnv dryOptions)) = true)
    by reflexivity.
  split; [exact Hdry|].
  destruct (dry_run_purity (chainEnv dryOptions) (dom chainConfigs) 10
              (initialState chainFiles) None Hdry)
    as (_ & Hbuild & _ & _ & Hreturns).
  destruct Hreturns as (st' & exit & E).
  - apply sampleEnv_configsWithin.
  - vm_compute. lia.
  - intros order Horder. discriminate Horder.
  - intros st0 order Hfor. vm_compute in Hfor. injection Hfor as _ <-.
    vm_compute. lia.
  - exists st', exit. split; [exact E | exact (Hbuild st' exit E)].
Defined.

(** What C6 said and the code does not do: one diagnostic is reported for
    every reference that leads back into the path under visit.  With A
    referencing B and C, and B and C both referencing A, and no reference
    flagged circular, two diagnostics are reported. *)
Lemma cycles_counterexample :
  noCircular cyclicEnv (initialState noFiles)
  ∧ ∃ st' order,
      createBuildOrder cyclicEnv 10 (initialState noFiles) ["A/tsconfig.json"]
      = Some (st', order)
      ∧ references cyclicEnv st' "A/tsconfig.json" "B/tsconfig.json"
      ∧ references cyclicEnv st' "B/tsconfig.json" "A/tsconfig.json"
      ∧ cycleReports (initialState noFiles) = 0
      ∧ cycleReports st' = 2.
Proof.
  split.
  - apply sampleEnv_noCircular.
    apply map_Forall_to_list. vm_compute. repeat constructor.
  - eexists _, _. split; [vm_compute; reflexivity|].
    split; [exists (ref "B"); split; [vm_compute; repeat constructor | reflexivity]|].
    split; [exists (ref "A"); split; [vm_compute; repeat constructor | reflexivity]|].
    split; reflexivity.
Qed.

(** With one cycle, A referencing B and B referencing A, there is one
    diagnostic. *)
Example one_cycle_one_report :
  ∃ st' order,
    createBuildOrder loopEnv 10 (initialState noFiles) ["A/tsconfig.json"] = Some (st', order)
    ∧ order = ["B/tsconfig.json"; "A/tsconfig.json"]
    ∧ cycleReports st' = 1.
Proof. eexists _, _. split; [vm_compute; reflexivity|]. split; reflexivity. Qed.

(** C10 on the chain with a root "X" that has no configuration file:
    [clean] returns, and it returns Success when its answer is not
    InvalidProject_OutputsSkipped. *)
Lemma clean_exit_status_witness :
  ∃ st' exit,
    clean brokenEnv 5 (initialState chainFiles) None = Some (st', exit)
    ∧ (exit ≠ ExitStatus.InvalidProject_OutputsSkipped ->
       exit = ExitStatus.Success).
Proof.
  destruct (clean_exit_status brokenEnv (dom chainConfigs) 5
              (initialState chainFiles) None)
    as (st' & exit & Hclean & _ & Hrest).
  - apply sampleEnv_configsWithin.
  - vm_compute. lia.
  - exists st', exit. split; [exact Hclean|].
    intros Hexit. exact (proj1 (Hrest Hexit)).
Defined.

(** On that solution [clean] returns Success; the diagnostic of "X" is
    reported and stored. *)
Example clean_broken_solution :
  ∃ st',
    clean brokenEnv 5 (initialState chainFiles) None
    = Some (st', ExitStatus.Success)
    ∧ trace st' = [ReportDiagnostic (mkDiagnostic true "cannot read X/tsconfig.json")]
    ∧ diagnostics st' !! "X/tsconfig.json"
      = Some [mkDiagnostic true "cannot read X/tsconfig.json"].
Proof. eexists. split; [vm_compute; reflexivity|]. split; vm_compute; reflexivity. Qed.

(** A sub-project that is not in the build order. *)
Example clean_unknown_project :
  ∃ st',
    clean (chainEnv noOptions) 5 (initialState chainFiles) (Some "X")
    = Some (st', ExitStatus.InvalidProject_OutputsSkipped).
Proof. eexists. vm_compute. reflexivity. Qed.

(** ** Further runs of the sample solutions *)

(** A new builder over the files that a build of the chain has left writes
    nothing either: A and B are up to date, the solution file is a
    container. *)
Example new_builder_on_built_chain :
  ∃ st1 st2,
    build (chainEnv noOptions) 10 (initialState chainFiles) None
    = Some (st1, ExitStatus.Success)
    ∧ build (chainEnv noOptions) 10 (initialState (hostState st1)) None
      = Some (st2, ExitStatus.Success)
    ∧ hostState st2 = hostState st1
    ∧ trace st2 = [ReportErrorSummary 0]
    ∧ projectStatus st2 !! "sln/tsconfig.json" = Some ContainerOnly.
Proof.
  eexists _, _. split; [vm_compute; reflexivity|].
  split; [vm_compute; reflexivity|].
  split; [vm_compute; reflexivity|]. split; vm_compute; reflexivity.
Qed.

(** With an input file of A stamped later than the clock of the host, the
    outputs that a build writes are older than that input: a new builder
    finds A out of date and writes its outputs again. *)
Example new_builder_on_future_input :
  ∃ st1 st2,
    build (chainEnv noOptions) 10 (initialState futureFiles) None
    = Some (st1, ExitStatus.Success)
    ∧ build (chainEnv noOptions) 10 (initialState (hostState st1)) None
      = Some (st2, ExitStatus.Success)
    ∧ outputWrites (trace st2)
      = [WriteFile "A/a.js" "emitted" false; WriteFile "A/a.d.ts" "emitted" false;
         SetModifiedTime "B/b.js" 106%Z; SetModifiedTime "B/b.d.ts" 106%Z].
Proof.
  eexists _, _. split; [vm_compute; reflexivity|].
  split; vm_compute; reflexivity.
Qed.

(** The dry build of the chain reports what a build would do. *)
Example dry_build_reports :
  ∃ st',
    build (chainEnv dryOptions) 10 (initialState chainFiles) None
    = Some (st', ExitStatus.Success)
    ∧ trace st'
      = [ReportSolutionBuilderStatus A_non_dry_build_would_build_project_0 ["A/tsconfig.json"];
         ReportSolutionBuilderStatus A_non_dry_build_would_build_project_0 ["B/tsconfig.json"];
         ReportErrorSummary 0].
Proof. eexists. split; vm_compute; reflexivity. Qed.

(** A cycle that is reached through a reference flagged circular is not
    reported, also when no reference of the cycle has the flag. *)
Example flagged_context_no_report :
  ∃ st',
    createBuildOrder flaggedEnv 10 (initialState noFiles) ["R/tsconfig.json"]
    = Some (st', ["B/tsconfig.json"; "A/tsconfig.json"; "R/tsconfig.json"])
    ∧ cycleReports st' = 0.
Proof. eexists. split; vm_compute; reflexivity. Qed.

(** The diagnostics count the references that lead back into the path
    under visit, not the cycles: with A referencing B and C, B referencing
    C and C referencing A there are two cycles and one diagnostic. *)
Example shared_cycles_one_report :
  ∃ st',
    createBuildOrder sharedEnv 10 (initialState noFiles) ["A/tsconfig.json"]
    = Some (st', ["C/tsconfig.json"; "B/tsconfig.json"; "A/tsconfig.json"])
    ∧ cycleReports st' = 1.
Proof. eexists. split; vm_compute; reflexivity. Qed.

Import MoreSamples.

(** * The further properties on the sample solutions *)

(** X3 on the fork: A is built, its status says so, and its output
    exists. *)
Lemma up_to_date_witness :
  fileExists forkEnv forkFilesBuilt "A/a.js" = true.
Proof.
  destruct (getUpToDateStatus forkEnv 5 (initialState forkFilesBuilt)
              (Some (configOf forkConfigs "A/tsconfig.json")) "A/tsconfig.json")
    as [[st' status]|] eqn:E; [|vm_compute in E; discriminate].
  refine (proj1 (proj2 (up_to_date_status_is_backed_by_files forkEnv 5
                          (initialState forkFilesBuilt)
                          (configOf forkConfigs "A/tsconfig.json")
                          "A/tsconfig.json" st' status _ E _) "A/a.js" _)).
  - reflexivity.
  - vm_compute in E. injection E as _ <-. eexists. left. reflexivity.
  - vm_compute. apply list_elem_of_singleton. reflexivity.
Defined.

(** X4 on the chain before a build: the first output of A is missing. *)
Lemma output_missing_witness :
  ∃ pre post,
    getAllProjectOutputs (chainEnv noOptions) (configOf chainConfigs "A/tsconfig.json")
    = pre ++ "A/a.js" :: post
    ∧ fileExists (chainEnv noOptions) chainFiles "A/a.js" = false.
Proof.
  destruct (getUpToDateStatus (chainEnv noOptions) 5 (initialState chainFiles)
              (Some (configOf chainConfigs "A/tsconfig.json")) "A/tsconfig.json")
    as [[st' status]|] eqn:E; [|vm_compute in E; discriminate].
  assert (status = OutputMissing "A/a.js") as ->
    by (vm_compute in E; injection E as _ <-; reflexivity).
  destruct (output_missing_names_first_missing_output (chainEnv noOptions) 5
              (initialState chainFiles)
              (configOf chainConfigs "A/tsconfig.json") "A/tsconfig.json"
              st' "A/a.js" eq_refl E) as (pre & post & Hout & Hmissing & _).
  by exists pre, post.
Defined.

(** X5 on the fork: the input of B does not exist. *)
Lemma missing_input_witness :
  getUpToDateStatus forkEnv 1 (initialState forkFilesStale)
    (Some (configOf forkConfigs "B/tsconfig.json")) "B/tsconfig.json"
  = Some (set_projectStatus
            <["B/tsconfig.json" := Unbuildable "B/b.ts does not exist"]>
            (initialState forkFilesStale),
          Unbuildable "B/b.ts does not exist").
Proof.
  apply (missing_input_is_unbuildable forkEnv 0 (initialState forkFilesStale)
           (configOf forkConfigs "B/tsconfig.json") "B/tsconfig.json"
           [] "B/b.ts" []).
  - reflexivity.
  - reflexivity.
  - intros input Hin. by apply elem_of_nil in Hin.
  - reflexivity.
Defined.

(** X6 on the fork: the status of A is in the status map, and is returned
    again without fuel. *)
Lemma status_memo_witness :
  ∃ st' status,
    getUpToDateStatus forkEnv 5 (initialState forkFilesBuilt)
      (Some (configOf forkConfigs "A/tsconfig.json")) "A/tsconfig.json"
    = Some (st', status)
    ∧ getUpToDateStatus forkEnv 0 st'
        (Some (configOf forkConfigs "B/tsconfig.json")) "A/tsconfig.json"
      = Some (st', status).
Proof.
  destruct (getUpToDateStatus forkEnv 5 (initialState forkFilesBuilt)
              (Some (configOf forkConfigs "A/tsconfig.json")) "A/tsconfig.json")
    as [[st' status]|] eqn:E; [|vm_compute in E; discriminate].
  exists st', status. split; [reflexivity|].
  exact (proj2 (status_is_memoised forkEnv 5 0 (initialState forkFilesBuilt)
                  (configOf forkConfigs "A/tsconfig.json")
                  (configOf forkConfigs "B/tsconfig.json") "A/tsconfig.json"
                  st' status E)).
Defined.

(** X7 on the fork: the query for P evaluates A and B, and writes
    nothing. *)
Lemma status_query_witness :
  ∃ st' status,
    getUpToDateStatusOfProject forkEnv 5 (initialState forkFilesBuilt) "P"
    = Some (st', status)
    ∧ sameOutputs (initialState forkFilesBuilt) st'.
Proof.
  destruct (getUpToDateStatusOfProject forkEnv 5 (initialState forkFilesBuilt)
              "P") as [[st' status]|] eqn:E; [|vm_compute in E; discriminate].
  exists st', status. split; [reflexivity|].
  exact (proj1 (status_query_only_reads forkEnv 5 (initialState forkFilesBuilt)
                  "P" st' status E)).
Defined.

(** X8 on the chain: the order from the root of the solution has the root
    and what the root references. *)
Lemma build_order_cover_witness :
  ∃ st' order,
    createBuildOrder (chainEnv noOptions) 5 (initialState chainFiles)
      ["sln/tsconfig.json"] = Some (st', order)
    ∧ NoDup (toResolvedConfigFilePath (chainEnv noOptions) <$> order)
    ∧ "sln/tsconfig.json" ∈ toResolvedConfigFilePath (chainEnv noOptions) <$> order.
Proof.
  destruct (createBuildOrder (chainEnv noOptions) 5 (initialState chainFiles)
              ["sln/tsconfig.json"])
    as [[st' order]|] eqn:E; [|vm_compute in E; discriminate].
  exists st', order. split; [reflexivity|].
  destruct (build_order_covers_the_solution (chainEnv noOptions) 5
              (initialState chainFiles) ["sln/tsconfig.json"] st' order E)
    as (Hnodup & Hroots & _).
  split; [exact Hnodup|]. apply Hroots. by apply list_elem_of_singleton.
Defined.

(** X10 on the chain with a compiler that finds a syntax error: the build
    of A writes nothing. *)
Lemma failed_build_witness :
  sameOutputs (initialState chainFiles)
    (buildSingleProject syntaxErrorEnv (initialState chainFiles)
       "A/tsconfig.json" "A/tsconfig.json"
       (configOf chainConfigs "A/tsconfig.json")).1.
Proof.
  refine (proj1 (diagnostics_stop_the_build_before_the_emit syntaxErrorEnv
                   (initialState chainFiles) "A/tsconfig.json" "A/tsconfig.json"
                   (configOf chainConfigs "A/tsconfig.json") 0 chainOrder
                   _ _ _)).
  - reflexivity.
  - vm_compute. discriminate.
  - left. vm_compute. discriminate.
Defined.

(** X14 on the chain: the first project handed out is A, to build. *)
Lemma dispatcher_witness :
  ∃ st' p,
    getNextInvalidatedProject (chainEnv noOptions) 5 chainSeeded chainOrder
    = Some (st', Some p)
    ∧ projectOf p ∈ chainOrder
    ∧ is_Some (projectPendingBuild st' !! projectPathOf p).
Proof.
  destruct (getNextInvalidatedProject (chainEnv noOptions) 5 chainSeeded
              chainOrder) as [[st' [p|]]|] eqn:E;
    [|vm_compute in E; discriminate..].
  exists st', p. split; [reflexivity|].
  destruct (dispatcher_hands_out_what_needs_work (chainEnv noOptions) 5
              chainSeeded chainOrder st' p E) as (Hin & _ & Hpending & _).
  split; [exact Hin | exact Hpending].
Defined.

(** X15 on the chain: the set-up queues A, B and the solution. *)
Lemma initial_build_witness :
  ∃ st' order,
    setupInitialBuild (chainEnv noOptions) 5 (initialState chainFiles) = Some st'
    ∧ buildOrder st' = Some order
    ∧ setupInitialBuild (chainEnv noOptions) 0 st' = Some st'.
Proof.
  destruct (setupInitialBuild (chainEnv noOptions) 5 (initialState chainFiles))
    as [st'|] eqn:E; [|vm_compute in E; discriminate].
  destruct (initial_build_queues_every_project (chainEnv noOptions) 5 0
              (initialState chainFiles) st' eq_refl E)
    as (order & Horder & _ & _ & _ & _ & Hagain).
  by exists st', order.
Defined.

(** X16 on the chain once set up: no diagnostics are stored, and the
    summary counts no error. *)
Lemma error_summary_witness :
  ∃ st',
    reportErrorSummary (chainEnv noOptions) 5 chainSeeded = Some st'
    ∧ trace st' = trace chainSeeded ++ [ReportErrorSummary 0]
    ∧ reportErrorSummary (chainEnv noOptions) 5 st' = Some st'.
Proof.
  destruct (error_summary_is_reported_once (chainEnv noOptions) 5 5 chainSeeded
              chainOrder)
    as (st' & Hreport & Htrace & _ & _ & _ & Hagain).
  - vm_compute. reflexivity.
  - vm_compute. reflexivity.
  - vm_compute. reflexivity.
  - exists st'. split; [exact Hreport|]. split; [|exact Hagain].
    rewrite Htrace. vm_compute. reflexivity.
Defined.

(** X17 on the chain in watch mode: the configuration file of B is
    watched. *)
Lemma watchers_witness :
  ∃ st',
    startWatching watchEnv 5 watchSeeded = Some st'
    ∧ "B/tsconfig.json" ∈ allWatchedConfigFiles st'.
Proof.
  destruct (startWatching watchEnv 5 watchSeeded) as [st'|] eqn:E;
    [|vm_compute in E; discriminate].
  exists st'. split; [reflexivity|].
  refine (proj1 (proj1 (watchers_cover_the_build_order watchEnv 5 5 watchSeeded
                          chainOrder st' _ _ _ E) "B/tsconfig.json" _)).
  - vm_compute. reflexivity.
  - vm_compute. reflexivity.
  - vm_compute. reflexivity.
  - vm_compute. apply (list_elem_of_lookup_2 _ 1). reflexivity.
Defined.

(** X18 on the built chain: the clean deletes outputs only. *)
Lemma clean_deletes_witness :
  ∃ st' exit deleted,
    clean (chainEnv noOptions) 5 (initialState chainFilesBuilt) None
    = Some (st', exit)
    ∧ outputWrites (trace st') = DeleteFile <$> deleted.
Proof.
  destruct (clean (chainEnv noOptions) 5 (initialState chainFilesBuilt) None)
    as [[st' exit]|] eqn:E; [|vm_compute in E; discriminate].
  destruct (clean_deletes_expected_outputs_and_invalidates (chainEnv noOptions)
              5 (initialState chainFilesBuilt) None st' exit eq_refl E)
    as (deleted & Htrace & _).
  exists st', exit, deleted. split; [reflexivity | exact Htrace].
Defined.

(** X9 on the chain: the order for B is A, B, and the order of the
    solution stays memoised. *)
Lemma order_for_project_witness :
  ∃ st' sub full,
    getBuildOrderFor (chainEnv noOptions) 5 (initialState chainFiles) (Some "B")
    = Some (st', Some sub)
    ∧ buildOrder st' = Some full
    ∧ "B/tsconfig.json" ∈ sub.
Proof.
  destruct (getBuildOrderFor (chainEnv noOptions) 5 (initialState chainFiles)
              (Some "B")) as [[st' [sub|]]|] eqn:E;
    [|vm_compute in E; discriminate..].
  destruct (order_for_a_project_is_part_of_the_solution (chainEnv noOptions) 5
              (initialState chainFiles) (Some "B") st' sub)
    as (full & Hfull & _ & _ & _).
  - intros full Hfull. vm_compute in Hfull. discriminate.
  - exact E.
  - exists st', sub, full. split; [reflexivity|]. split; [exact Hfull|].
    vm_compute in E. injection E as _ <-.
    apply (list_elem_of_lookup_2 _ 1). reflexivity.
Defined.

(** X21 on the chain: an input of A changes, then its configuration file;
    the second timer is the one outstanding. *)
Lemma debounce_witness :
  ∃ handle,
    timerToBuildInvalidatedProject
      (fileChanges countingTimers watching
         [("A/tsconfig.json", ConfigFileProgramReloadLevel.None);
          ("A/tsconfig.json", ConfigFileProgramReloadLevel.Full)])
    = Some handle
    ∧ outstandingTimers
        (timerCalls
           (fileChanges countingTimers watching
              [("A/tsconfig.json", ConfigFileProgramReloadLevel.None);
               ("A/tsconfig.json", ConfigFileProgramReloadLevel.Full)]))
      = [handle].
Proof.
  refine (proj1 (file_changes_leave_one_timer countingTimers watching
                   [("A/tsconfig.json", ConfigFileProgramReloadLevel.None);
                    ("A/tsconfig.json", ConfigFileProgramReloadLevel.Full)]
                   _ _ _ _ _)).
  - reflexivity.
  - reflexivity.
  - intros calls. simpl. lia.
  - reflexivity.
  - discriminate.
Defined.

(** X22 on the chain in watch mode: the first call builds A and sets a
    timer for the rest. *)
Lemma tick_witness :
  ∃ w',
    buildNextInvalidatedProject watchEnv countingTimers 5 watching = Some w'
    ∧ reportFileChangeDetected (engine w') = false.
Proof.
  destruct (buildNextInvalidatedProject watchEnv countingTimers 5 watching)
    as [w'|] eqn:E; [|vm_compute in E; discriminate].
  exists w'. split; [reflexivity|].
  exact (proj1 (tick_reschedules_while_work_is_left watchEnv countingTimers 5
                  watching w' E)).
Defined.

(** X23 on the chain: the first call builds A. *)
Lemma buildNextProject_witness :
  ∃ st' order,
    buildNextProject (chainEnv noOptions) 5 (initialState chainFiles)
    = Some (st', Some ("A/tsconfig.json", ExitStatus.Success))
    ∧ buildOrder st' = Some order.
Proof.
  destruct (buildNextProject (chainEnv noOptions) 5 (initialState chainFiles))
    as [[st' result]|] eqn:E; [|vm_compute in E; discriminate].
  destruct (buildNextProject_handles_one_project (chainEnv noOptions) 5
              (initialState chainFiles) st' result E) as (order & Horder & _).
  exists st', order. split; [|exact Horder].
  vm_compute in E. injection E as _ <-. reflexivity.
Defined.

(** X20 on the chain: after a build of A, B is marked for the
    dispatcher. *)
Lemma propagation_witness :
  markedForBuild
    (queueReferencingProjects (chainEnv noOptions) chainOrdered
       "A/tsconfig.json" "A/tsconfig.json" 0
       (configOf chainConfigs "A/tsconfig.json") chainOrder 0)
    "B/tsconfig.json".
Proof.
  apply (propagation_reaches_the_referencing_projects (chainEnv noOptions)
           chainOrdered "A/tsconfig.json" "A/tsconfig.json" 0
           (configOf chainConfigs "A/tsconfig.json") chainOrder 0
           "B/tsconfig.json" (configOf chainConfigs "B/tsconfig.json")
           (ref "A")).
  - reflexivity.
  - reflexivity.
  - apply (list_elem_of_lookup_2 _ 0). reflexivity.
  - vm_compute. reflexivity.
  - vm_compute. reflexivity.
  - apply (list_elem_of_lookup_2 _ 0). reflexivity.
  - vm_compute. reflexivity.
Defined.

(** X24 on the chain, asked for a project that is not in it. *)
Lemma invalid_project_witness :
  ∃ st',
    build (chainEnv noOptions) 5 (initialState chainFiles) (Some "Q")
    = Some (st', ExitStatus.InvalidProject_OutputsSkipped)
    ∧ projectPendingBuild st' = projectPendingBuild (initialState chainFiles).
Proof.
  destruct (build (chainEnv noOptions) 5 (initialState chainFiles) (Some "Q"))
    as [[st' exit]|] eqn:E; [|vm_compute in E; discriminate].
  assert (exit = ExitStatus.InvalidProject_OutputsSkipped) as ->
    by (vm_compute in E; injection E as _ <-; reflexivity).
  exists st'. split; [reflexivity|].
  exact (proj1 (proj2 (proj2 (build_refuses_a_project_outside_the_solution
                                (chainEnv noOptions) 5 (initialState chainFiles)
                                (Some "Q") st' E)))).
Defined.
(** * The properties on the further sample solutions *)

Import WriteSamples StaleSamples.

(** X1 on the chain: after a build, the cache still answers for A what the
    first parse gave, also under another file name. *)
Lemma parse_cache_witness :
  ∃ later exit,
    build (chainEnv noOptions) 10 (initialState chainFiles) None
    = Some (later, exit)
    ∧ parseConfigFile (chainEnv noOptions) later "A" "A/tsconfig.json"
      = (later,
         (parseConfigFile (chainEnv noOptions) (initialState chainFiles)
            "A/tsconfig.json" "A/tsconfig.json").2).
Proof.
  destruct (build (chainEnv noOptions) 10 (initialState chainFiles) None)
    as [[later exit]|] eqn:E; [|vm_compute in E; discriminate].
  exists later, exit. split; [reflexivity|].
  apply (parseConfigFile_answers_from_cache (chainEnv noOptions)
           (initialState chainFiles) later "A/tsconfig.json" "A"
           "A/tsconfig.json").
  vm_compute in E. injection E as <- _. vm_compute. reflexivity.
Defined.

(** X11 on the chain: the build of A writes its two outputs and sets no
    time; on the disk where declaration files cannot be written, it
    writes the same and ends with [EmitErrors]. *)
Lemma emit_witness :
  outputWrites
    (trace (buildSingleProject (chainEnv noOptions) (initialState chainFiles)
              "A/tsconfig.json" "A/tsconfig.json"
              (configOf chainConfigs "A/tsconfig.json")).1)
  = [WriteFile "A/a.js" "emitted" false; WriteFile "A/a.d.ts" "emitted" false]
  ∧ (buildSingleProject readOnlyEnv (initialState chainFiles)
       "A/tsconfig.json" "A/tsconfig.json"
       (configOf chainConfigs "A/tsconfig.json")).2
    = BuildResultFlags.EmitErrors.
Proof.
  assert (fileNames (configOf chainConfigs "A/tsconfig.json") ≠ []) as Hnames
    by (vm_compute; discriminate).
  split.
  - pose proof (build_writes_what_the_program_emits (chainEnv noOptions)
                  (initialState chainFiles) "A/tsconfig.json" "A/tsconfig.json"
                  (configOf chainConfigs "A/tsconfig.json")) as Hbuild.
    simpl in Hbuild.
    specialize (Hbuild eq_refl Hnames).
    assert ((createdProgram (chainEnv noOptions) (initialState chainFiles)
               "A/tsconfig.json" (configOf chainConfigs "A/tsconfig.json")).2
            = mkProgramResult [] [] None
                [mkOutputFile "A/a.js" "emitted" false;
                 mkOutputFile "A/a.d.ts" "emitted" false]) as Hprogram
      by (vm_compute; reflexivity).
    rewrite Hprogram in Hbuild. specialize (Hbuild eq_refl eq_refl eq_refl).
    destruct (writeFailures _ _ _) eqn:Efailures;
      [|vm_compute in Efailures; discriminate].
    destruct Hbuild as [Hwrites _]. rewrite Hwrites. vm_compute. reflexivity.
  - pose proof (build_writes_what_the_program_emits readOnlyEnv
                  (initialState chainFiles) "A/tsconfig.json" "A/tsconfig.json"
                  (configOf chainConfigs "A/tsconfig.json")) as Hbuild.
    simpl in Hbuild.
    specialize (Hbuild eq_refl Hnames).
    assert ((createdProgram readOnlyEnv (initialState chainFiles)
               "A/tsconfig.json" (configOf chainConfigs "A/tsconfig.json")).2
            = mkProgramResult [] [] None
                [mkOutputFile "A/a.js" "emitted" false;
                 mkOutputFile "A/a.d.ts" "emitted" false]) as Hprogram
      by (vm_compute; reflexivity).
    rewrite Hprogram in Hbuild. specialize (Hbuild eq_refl eq_refl eq_refl).
    destruct (writeFailures _ _ _) eqn:Efailures;
      [vm_compute in Efailures; discriminate|].
    exact (proj1 (proj2 (proj2 Hbuild))).
Defined.

(** X19 on the two bundles: the update of the bundle of B writes the
    bundle out of the build info and sets the time of the declaration
    file; on the disk where no file can be written, it ends with
    [EmitErrors]. *)
Lemma bundle_witness :
  outputWrites
    (trace (updateBundle bundleEnv (initialState bundleFiles)
              "B/tsconfig.json" "B/tsconfig.json"
              (configOf bundleConfigs "B/tsconfig.json")).1)
  = [WriteFile "B/out.js" "bundled" false; SetModifiedTime "B/out.d.ts" 101%Z]
  ∧ (updateBundle readOnlyBundleEnv (initialState bundleFiles)
       "B/tsconfig.json" "B/tsconfig.json"
       (configOf bundleConfigs "B/tsconfig.json")).2
    = inr BuildResultFlags.EmitErrors.
Proof.
  split.
  - pose proof (bundle_update_writes_what_the_build_info_gives
                  bundleEnv (initialState bundleFiles)
                  "B/tsconfig.json" "B/tsconfig.json"
                  (configOf bundleConfigs "B/tsconfig.json") 1 bundleOrder
                  eq_refl) as Hbundle.
    assert ((readBundle bundleEnv (initialState bundleFiles)
               "B/tsconfig.json" (configOf bundleConfigs "B/tsconfig.json")).2
            = inr (mkOutputFile "B/out.js" "bundled" false, [])) as Hread
      by (vm_compute; reflexivity).
    rewrite Hread in Hbundle. cbv zeta in Hbundle.
    destruct (writeFailures _ _ _) eqn:Efailures;
      [|vm_compute in Efailures; discriminate].
    destruct Hbundle as (_ & Hwrites & _). rewrite Hwrites.
    vm_compute. reflexivity.
  - pose proof (bundle_update_writes_what_the_build_info_gives
                  readOnlyBundleEnv (initialState bundleFiles)
                  "B/tsconfig.json" "B/tsconfig.json"
                  (configOf bundleConfigs "B/tsconfig.json") 1 bundleOrder
                  eq_refl) as Hbundle.
    assert ((readBundle readOnlyBundleEnv (initialState bundleFiles)
               "B/tsconfig.json" (configOf bundleConfigs "B/tsconfig.json")).2
            = inr (mkOutputFile "B/out.js" "bundled" false, [])) as Hread
      by (vm_compute; reflexivity).
    rewrite Hread in Hbundle. cbv zeta in Hbundle.
    destruct (writeFailures _ _ _) eqn:Efailures;
      [vm_compute in Efailures; discriminate|].
    exact (proj1 Hbundle).
Defined.

(** The dispatcher hands out the bundle of B for such an update when A was
    built with the same declarations: B, which prepends A, is
    OutOfDateWithPrepend. *)
Example bundle_is_updated_after_prepend :
  ∃ st1 st2 p,
    getNextInvalidatedProject bundleEnv 5
      (set_projectPendingBuild
         <["B/tsconfig.json" := ConfigFileProgramReloadLevel.None]>
         (set_projectStatus
            <["B/tsconfig.json" :=
                OutOfDateWithPrepend "B/out.js" "A/tsconfig.json"]>
            (initialState bundleFiles)))
      bundleOrder
    = Some (st1, Some p)
    ∧ kind p = UpdateBundle
    ∧ st2 = done bundleEnv st1 p
    ∧ outputWrites (trace st2)
      = [WriteFile "B/out.js" "bundled" false;
         SetModifiedTime "B/out.d.ts" 101%Z]
    ∧ projectPendingBuild st2 !! "B/tsconfig.json" = None.
Proof.
  eexists _, _, _. split; [vm_compute; reflexivity|].
  split; [reflexivity|]. split; [reflexivity|].
  split; vm_compute; reflexivity.
Qed.

(** C5 (as amended) on a queue that holds "p" at level Full: after
    requests for None and for Partial the entry is not below Partial, it
    is the Full that the queue held, and asking for level None again leaves
    the state as it is. *)
Lemma reload_level_witness :
  levelLe (Some ConfigFileProgramReloadLevel.Partial)
    (projectPendingBuild
       (enqueueAll queuedState
          [("p", ConfigFileProgramReloadLevel.None);
           ("p", ConfigFileProgramReloadLevel.Partial)]) !! "p")
  ∧ levelLe (projectPendingBuild queuedState !! "p")
      (projectPendingBuild
         (enqueueAll queuedState
            [("p", ConfigFileProgramReloadLevel.None);
             ("p", ConfigFileProgramReloadLevel.Partial)]) !! "p")
  ∧ addProjToQueue queuedState "p" ConfigFileProgramReloadLevel.None
    = queuedState.
Proof.
  pose proof (reload_level_is_monotone_maximum (chainEnv noOptions) queuedState
                [("p", ConfigFileProgramReloadLevel.None);
                 ("p", ConfigFileProgramReloadLevel.Partial)] "p")
    as (Hkept & Hbound & _ & _ & Hlower & _).
  split; [|split; [exact Hkept|]].
  - apply Hbound. vm_compute. right. left.
  - apply (Hlower ConfigFileProgramReloadLevel.None
             ConfigFileProgramReloadLevel.Full).
    + vm_compute. reflexivity.
    + simpl. lia.
Defined.

(** What C5 said and the code does not do: the level of an entry goes down
    within an invocation of [build].  On a new builder for the chain,
    [invalidateProject] asks for a reload of A at level Full; the seeding
    of the first [build] then sets the entry of A to None. *)
Lemma reload_level_counterexample :
  let requested :=
    invalidateProject (initialState chainFiles) "A/tsconfig.json"
      ConfigFileProgramReloadLevel.Full in
  projectPendingBuild requested !! "A/tsconfig.json"
  = Some ConfigFileProgramReloadLevel.Full
  ∧ ∃ seeded,
      setupInitialBuild (chainEnv noOptions) 10 requested = Some seeded
      ∧ projectPendingBuild seeded !! "A/tsconfig.json"
        = Some ConfigFileProgramReloadLevel.None
      ∧ ConfigFileProgramReloadLevel.lt ConfigFileProgramReloadLevel.None
          ConfigFileProgramReloadLevel.Full = true.
Proof.
  split; [vm_compute; reflexivity|].
  eexists. split; [vm_compute; reflexivity|].
  split; vm_compute; reflexivity.
Qed.

(** C3 (as amended) on the fork.  With A built: the output of P is
    missing, A is up to date, B is Unbuildable, and the status of P is
    UpstreamBlocked on B.  With A not built: A, the first reference, is
    OutputMissing, and the status of P is UpstreamOutOfDate on A. *)
Lemma upstream_blocked_witness :
  getUpToDateStatus forkEnv 6 (initialState forkFilesBuilt)
    (Some (configOf forkConfigs "P/tsconfig.json")) "P/tsconfig.json"
  = Some (set_projectStatus
            <["P/tsconfig.json" := UpstreamBlocked "B"]> forkAfterB.1,
          UpstreamBlocked "B")
  ∧ getUpToDateStatus forkEnv 6 (initialState forkFilesStale)
      (Some (configOf forkConfigs "P/tsconfig.json")) "P/tsconfig.json"
    = Some (set_projectStatus
              <["P/tsconfig.json" := UpstreamOutOfDate "A"]> staleAfterA.1,
            UpstreamOutOfDate "A").
Proof.
  split.
  - refine (proj1 (upstream_blocked_has_priority_over_output_missing forkEnv 5
              (initialState forkFilesBuilt) (configOf forkConfigs "P/tsconfig.json")
              "P/tsconfig.json" [ref "A"; ref "B"] (Some "P/p.ts") 10%Z
              _ _ _ _)
            "P/p.js" [ref "A"] (ref "B") [] forkAfterA.1 forkAfterA.2 forkAfterB.1
            "B/b.ts does not exist" _ _ _ _ _ _).
    + vm_compute. reflexivity.
    + vm_compute. reflexivity.
    + vm_compute. reflexivity.
    + vm_compute. reflexivity.
    + vm_compute. reflexivity.
    + vm_compute. reflexivity.
    + reflexivity.
    + vm_compute. reflexivity.
    + vm_compute. constructor; [left; reflexivity | constructor].
    + vm_compute. reflexivity.
  - refine (proj1 (proj2 (upstream_blocked_has_priority_over_output_missing
              forkEnv 5
              (initialState forkFilesStale) (configOf forkConfigs "P/tsconfig.json")
              "P/tsconfig.json" [ref "A"; ref "B"] (Some "P/p.ts") 10%Z
              _ _ _ _))
            "P/p.js" [] (ref "A") [ref "B"] staleStart [] staleAfterA.1
            (OutputMissing "A/a.js") _ _ _ _ _ _ _ _).
    + vm_compute. reflexivity.
    + vm_compute. reflexivity.
    + vm_compute. reflexivity.
    + vm_compute. reflexivity.
    + vm_compute. reflexivity.
    + vm_compute. reflexivity.
    + reflexivity.
    + reflexivity.
    + constructor.
    + vm_compute. reflexivity.
    + intros [Hup|Hsentinel]; discriminate.
    + intros reason. discriminate.
Defined.

(** The project's own inputs come first: when an input of P does not
    exist either, P is Unbuildable itself, whatever its outputs and its
    references are. *)
Example missing_input_comes_first :
  fileExists forkEnv forkFilesNoInput "P/p.js" = false
  ∧ (∃ st', getUpToDateStatusOfProject forkEnv 10 (initialState forkFilesNoInput) "B"
            = Some (st', Unbuildable "B/b.ts does not exist"))
  ∧ (∃ st', getUpToDateStatusOfProject forkEnv 10 (initialState forkFilesNoInput) "P"
            = Some (st', Unbuildable "P/p.ts does not exist")).
Proof.
  split; [vm_compute; reflexivity|].
  split; eexists; vm_compute; reflexivity.
Qed.

(** C2 on the chain: from the root of the solution the order is A, B,
    sln; the configuration of B is in the cache as the host has it, and
    every referenced project stands in front of the one that references
    it. *)
Lemma build_order_witness :
  ∃ st',
    createBuildOrder (chainEnv noOptions) 5 (initialState chainFiles) ["sln/tsconfig.json"]
    = Some (st', chainOrder)
    ∧ configFileCache st' !! "B/tsconfig.json"
      = Some (inl (configOf chainConfigs "B/tsconfig.json"))
    ∧ ∀ i name r,
        chainOrder !! i = Some name ->
        r ∈ cachedReferences st' (toResolvedConfigFilePath (chainEnv noOptions) name) ->
        builtBefore (chainEnv noOptions) chainOrder i
          (referenceKey (chainEnv noOptions) r)
        ∨ rtc (references (chainEnv noOptions) st')
            (referenceKey (chainEnv noOptions) r)
            (toResolvedConfigFilePath (chainEnv noOptions) name).
Proof.
  destruct (build_order_is_topological (chainEnv noOptions) (dom chainConfigs) 5
              (initialState chainFiles) ["sln/tsconfig.json"])
    as [Hreturns Horder].
  destruct Hreturns as (st' & order & E).
  { apply sampleEnv_configsWithin. }
  { vm_compute. lia. }
  assert (Hchain : order = chainOrder)
    by (vm_compute in E; injection E as _ <-; reflexivity).
  subst order. exists st'. split; [exact E|].
  destruct (Horder st' chainOrder E) as (_ & Hcached & _ & Htopo & _).
  split; [|exact Htopo].
  etrans; [apply (Hcached "B/tsconfig.json"); right; left|].
  vm_compute. reflexivity.
Defined.

(** C6 (as amended) on the solution with two cycles: the graph builder
    returns an order, and it reports as many diagnostics as there are
    references that lead back. *)
Lemma cycles_witness :
  ∃ st' order,
    createBuildOrder cyclicEnv 4 (initialState noFiles) ["A/tsconfig.json"]
    = Some (st', order)
    ∧ cycleReports st'
      = cycleReports (initialState noFiles)
        + backReferenceCount cyclicEnv st' order.
Proof.
  destruct (cycles_are_reported_and_visit_terminates cyclicEnv
              (dom cyclicConfigs) 4 (initialState noFiles) ["A/tsconfig.json"])
    as (st' & order & Hcreate & _ & _ & Hcount & _).
  - apply sampleEnv_configsWithin.
  - vm_compute. lia.
  - exists st', order. split; [exact Hcreate|]. apply Hcount.
    apply sampleEnv_noCircular.
    apply map_Forall_to_list. vm_compute. repeat constructor.
Defined.

(** On that solution the references that lead back are the one of B and
    the one of C to A. *)
Example two_back_references :
  ∃ st',
    createBuildOrder cyclicEnv 4 (initialState noFiles) ["A/tsconfig.json"]
    = Some (st', ["B/tsconfig.json"; "C/tsconfig.json"; "A/tsconfig.json"])
    ∧ backReferences cyclicEnv st'
        ["B/tsconfig.json"; "C/tsconfig.json"; "A/tsconfig.json"] 0
        "B/tsconfig.json" = [ref "A"]
    ∧ backReferences cyclicEnv st'
        ["B/tsconfig.json"; "C/tsconfig.json"; "A/tsconfig.json"] 1
        "C/tsconfig.json" = [ref "A"]
    ∧ backReferences cyclicEnv st'
        ["B/tsconfig.json"; "C/tsconfig.json"; "A/tsconfig.json"] 2
        "A/tsconfig.json" = []
    ∧ cycleReports st' = 2.
Proof.
  eexists. split; [vm_compute; reflexivity|].
  split; [vm_compute; reflexivity|]. split; [vm_compute; reflexivity|].
  split; vm_compute; reflexivity.
Qed.

(** In a list that is written out, a property of every member is a
    property of each of them. *)
Ltac each_member H :=
  repeat (apply elem_of_cons in H as [->|H]);
  [..|by apply elem_of_nil in H].

(** The files that a build of the chain leaves are up to date. *)
Lemma chain_upToDate st1 exit :
  build (chainEnv noOptions) 10 (initialState chainFiles) None = Some (st1, exit) ->
  solutionUpToDate (chainEnv noOptions) (hostState st1).
Proof.
  intros E. vm_compute in E. injection E as <- <-.
  split; [intros name name' Heq; change (name = name') in Heq; by subst|].
  intros name p. simpl.
  unfold chainConfigs. simpl list_to_map.
  destruct (decide (name = "A/tsconfig.json")) as [->|HA].
  { rewrite lookup_insert_eq. intros [= <-]. right. split.
    - split.
      + intros input Hin. each_member Hin. vm_compute. split; [done|].
        split; discriminate.
      + intros output Hin. simpl in Hin.
        each_member Hin; vm_compute; (split; [done|]); split; discriminate.
      + intros input output Hin Hout. simpl in Hout.
        each_member Hin; each_member Hout; vm_compute; discriminate.
      + intros configFile Hin. each_member Hin.
        split; [vm_compute; discriminate|].
        intros output Hout. simpl in Hout.
        each_member Hout; vm_compute; discriminate.
      + intros path value Hpath. discriminate Hpath.
    - intros r Hin. by apply elem_of_nil in Hin. }
  rewrite lookup_insert_ne by done.
  destruct (decide (name = "B/tsconfig.json")) as [->|HB].
  { rewrite lookup_insert_eq. intros [= <-]. right. split.
    - split.
      + intros input Hin. each_member Hin. vm_compute. split; [done|].
        split; discriminate.
      + intros output Hin. simpl in Hin.
        each_member Hin; vm_compute; (split; [done|]); split; discriminate.
      + intros input output Hin Hout. simpl in Hout.
        each_member Hin; each_member Hout; vm_compute; discriminate.
      + intros configFile Hin. each_member Hin.
        split; [vm_compute; discriminate|].
        intros output Hout. simpl in Hout.
        each_member Hout; vm_compute; discriminate.
      + intros path value Hpath. discriminate Hpath.
    - intros r Hin. each_member Hin.
      exists (configOf chainConfigs "A/tsconfig.json").
      split; [vm_compute; reflexivity|]. split; [vm_compute; reflexivity|].
      intros input output Hin Hout. simpl in Hin, Hout.
      each_member Hin; each_member Hout; vm_compute; discriminate. }
  rewrite lookup_insert_ne by done.
  destruct (decide (name = "sln/tsconfig.json")) as [->|Hsln].
  { rewrite lookup_insert_eq. intros [= <-]. by left. }
  rewrite lookup_insert_ne by done. by rewrite lookup_empty.
Qed.



